(* ===== verification/_CoqProject ===== *)
-Q . S2P
Prelude.v
Geometry.v
QuadTree.v
Neighbors.v
Solver.v
Replan.v
Env.v
Grid.v
DstarLite.v
Robot.v
Decision.v
Spline.v
PSO.v
MainLoop.v
Simulation.v
Planner.v
Editor.v
