(* ===== verification/Prelude.v ===== *)
(** * Verification of the Mobile-Robot quadtree / D* Lite path planner

    ** The program

    [src/] is a pygame simulation of a robot crossing a square region with
    moving rectangular obstacles.  Each tick the main loop
    ([src/QuadTree.py]) moves the obstacles ([Obstacle.move] of
    [src/AABB.py]), decomposes the region into a quadtree
    ([Node.update_percentage_and_split]), links every leaf to its
    neighbors ([Node.update_neighbors] and the eight [get_*_neighbor]
    walks), and plans on the leaves with D* Lite or A* ([src/Solver.py]),
    whose vertices are the same [Node] objects carrying the search fields
    [g], [rhs], [h], [key] and the edge [cost] of [src/AABB.py].

    ** The library (under the root of [_CoqProject])

    - [Prelude] (this file): the [np.inf] sentinel as [ext] (a rational or
      [Inf]), the two-component lexicographic keys and their strict weak
      order, Python's [<] as [Qlt_bool], the shared tactics ([case_qlt],
      [qminmax], [qlra], [zlia]) and the hint database [robot].
    - [Geometry]: [AABB] (module [AABB]: [get_area], [get_intersect_area],
      [get_intersect_percentage], [get_quadrant]) and [Obstacle] (module
      [Obstacle]: the constructor and [move] with its position history);
      theorems in [AABBFacts] (covered fraction in [0,1]) and
      [ObstacleFacts] (an obstacle stays in its reflection range for any
      number of ticks; the double-reflection velocity bug).
    - [QuadTree]: [Node]'s tree as an inductive [qnode] (a leaf or a node
      with four children), [split], [set_value], [reset_children],
      [update_percentage_and_split] (with fuel), [get_leaves] and the
      [get_*_children] collectors.  The parent pointer and region tag of
      [Node] are replaced by addresses (lists of quadrants, innermost
      first).  Theorems: [split] partitions the box, [get_quadrant] picks
      the child containing the point, the decomposition invariant (internal
      nodes mixed and larger than [threshold_size], leaves classified 0/1),
      totality with fuel [n+1] when [width <= threshold_size * 2^n] (six
      units for the 512-wide region and size 16), and that obstacles under
      the percentage threshold produce no split.
    - [Neighbors]: the eight parent walks and [update_neighbors] over
      addresses, each proved equal to one generic walk [nb_gen] and that
      against a cell-coordinate specification [neighbor_spec] (the
      same-depth adjacent cell, or the leaf covering it); the
      [get_south_west_neighbor] truthiness bug (and, on the sample tree,
      its consequence for [update_neighbors]).
    - [Solver]: the node store ([gmap]) and the [SortedList] queue (a list
      sorted by stored keys: [add] inserts after equal keys, [discard]
      removes by identity, [pop(0)]), in a state-and-error monad; D* Lite
      ([update_vertex], the [while] condition and body of [compute_path],
      [show_path], [replan_path]), A* ([compute_path] with its visited
      set, [show_path]), and the start of a search in the main loop
      ([start_search]).  Theorems: the D* Lite queue invariant (the queue
      is duplicate-free, holds exactly the inconsistent nodes, with fresh
      keys, in key order) is established by [start_search] and preserved by
      every step; whenever [compute_path] returns, its exit condition
      holds and a second call changes nothing; the edge [cost] into a
      blocked cell is cheaper than into a free one (Python precedence).
    - [Replan]: the path [show_path] extracts and the replanning of
      [replan_path(obstacles)] (reclassify the neighbors of [current],
      repair the changed vertices, extract a new path), with a frame
      library: [keeps R m] for a preorder [R] on stores, [frame P] for
      stores with the same endpoints whose nodes are related by [P]
      (hint database [sframe], tactic [kp]); the search writes only
      [g], [rhs] and keys.  Theorem: from a store satisfying the queue
      invariant, [replan_path] keeps it, ends in the exit condition of
      [compute_path], gives every neighbor of [current] the value its
      obstacle coverage asks for, and returns a path from [current] to
      [goal] whose every step goes to a neighbor of least [g].
    - [Env]: [QuadTreeEnvironment] of [src/Env.py]: the descent of
      [add_start]/[add_goal] to the leaf holding a point, and [build_env],
      which makes every leaf a fresh search node with its neighbor list
      and its distance to the goal leaf.  Theorems: the descent ends at
      the leaf containing the point, every search of the main loop
      starts with the queue invariant, and the store is closed under
      neighbors.  [build_env] builds the nodes afresh ([g = rhs = inf],
      an empty neighbor list filled by [update_neighbors]) on every call,
      as the main loop builds a new environment for each global plan.
    - [Grid] (module [GridEnvironment]): the uniform grid of [src/Env.py]
      with Python's [int()], [range] and negative list indices written
      out.  Theorems: [update] blocks exactly the covered cells of an
      obstacle inside the region, neighbor lists are symmetric, the
      centre of a cell is located in that cell, and an obstacle whose
      column range starts left of the region also blocks the last
      columns (negative indices count from the end).
    - [DstarLite] (module [DstarLite]): the grid prototype of
      [src/DstarLite.py] with its [PriorityQueue] ([binary_search] with
      its recursion fuel, [compare_array]) in a state-and-error monad.
      Theorems: [binary_search] finds an insertion point that keeps the
      keys sorted, [compare_array] is the lexicographic order, [succ]
      lists the eight surrounding cells, and [compute_path] on an empty
      queue raises [IndexError].  One frame of the running mode (sense
      the changed cells, repair, move to the next cell) and the editing
      clicks are modelled as well.
    - [Robot]: [src/robot.py] ([reach], [enter], [detect],
      [nextPosition]) and the main loop's collision test.  Theorems:
      [detect] keeps exactly the obstacles within the sensor radius, and
      the collision test is box containment.
    - [Decision]: both decision makers of [src/DecisionMaking.py], with
      [np.arccos] and [np.pi] as section parameters.  Theorems: the
      classification [convertphi] computes wherever floats agree with the
      exact values, and the tie of its two memberships on each band that
      leaves the rest to rounding; the exact classification of
      [convertdeltad] (including the misclassified points and intervals);
      and the loop answers [Replan] if one obstacle asks for it, else
      [Stop] if one does.
    - [Spline]: [makeSpline] of [src/PathManipulation.py] with numpy's
      [linspace] written out and scipy's interpolant as a parameter
      assumed only to pass through its knots.  Theorem: the spline has
      [n * 1000] samples (1000 for paths under four cells, the straight
      fallback) and runs from the robot to the goal.
    - [PSO]: the optimiser of [src/PSO.py] with the random draws as
      inputs.  Theorem: with one round and one particle at least it
      returns a point no worse than any personal best or random start.
    - [MainLoop]: the loop's patience counter, the robot step and next
      local goal ([advance]), the end of a global plan ([global_plan]),
      the position record and the result metrics of [src/QuadTree.py].
      [run] folds [advance] over a list of decisions: the robot's state
      along incremental ticks that neither replan nor reach the forced
      global plan, a device for the liveness proof of [Editor].
      Theorem: the result line raises [ZeroDivisionError] below three
      recorded positions.
    - [Simulation]: a whole running tick of the loop (obstacle moves,
      decision, collision flag, replan, step, the path pop with
      [env.current = path[0]], patience, global planning, finish test)
      over an interface [planner S]: a stateful, fallible environment and
      solver (state [S], [robot.solver] with its [env]) offering a global
      plan, the rebuild A* does before a replan, a replan and the pop of
      the path.  [planner_laws] states what
      an implementation promises about its state and the loop's path;
      [tick_holds] proves, against the interface only, that every tick
      keeps that promise, and [tick_keeps_inv] that every tick keeps the
      loop invariant (patience below 30, a spline of 1000 samples at
      least, the local goal ahead).
    - [Planner]: the instances the loop runs, generic in the environment
      builder: [QuadTreeEnvironment] or [GridEnvironment] on the screen
      region (the pads of [main]), [update], [build_env], the search
      start and [show_path] of the D* Lite or A* solver for a global
      plan, [replan_path] for a [Replan] (after the A* rebuild), and the
      pop that moves the solver's [current]; [quadtree_build] and
      [grid_build] are the two environments.  Theorems: a quadtree
      global plan for points in the region runs from the robot's leaf to
      the end point's leaf with the queue invariant, each step to a
      neighbor of least [g], its first cell containing the robot and its
      last the end point; and for each configuration [get_modules]
      selects, along every tick of the loop the planner's node path runs
      from [current] to [goal] along neighbor links, with the loop's
      cells the boxes of its nodes.
    - [Editor]: the rest of [main]'s [while not finished] body: the
      pygame events of a frame (the Start, Pause and Static buttons,
      drawing an obstacle by dragging, Ctrl+Z, closing the window) on the
      editor's variables and the obstacle list, which after Start is the
      very list [maps[test_map]] ([aliased]), then a tick when started
      and not paused ([iteration]), and the loop over frames ([run]).
      Theorems: for any planner that keeps its laws, every run over any
      events keeps the loop invariant and the planner's promise; a click
      in the field during a run suspends it ([done = False]) and lets
      Ctrl+Z remove an obstacle of the running map; and the automatic
      mode ([interactive=False]) on a map without obstacles finishes:
      after the global plan of a path of [n <= 5] cells, [5 n + 1] ticks
      (6 below four cells) set [finished], before the patience counter
      forces the next global plan (the bound [n <= 5] keeps the run within
      the 29 incremental ticks of one patience cycle).

    ** Modelling choices

    Python floats are exact rationals [Q] (IEEE rounding is not
    modelled; where the code's result hinges on rounding, as in the ties
    of [convertphi], the theorems state only what holds either way); [np.sqrt] is [qsqrt], a rational approximation from below
    to [2^-20] (in [distance], the decision distances, PSO's [dist] and
    the result metrics).  Exceptions are values of an [error] type or
    [None]; every [while] loop and recursion that is not structural
    takes fuel and reports [OutOfFuel] (a [None]) when it runs out, and the
    totality theorems say how much fuel suffices; the theorems on
    [compute_path], [show_path] and [replan_path] are about the runs that
    return (the Python walk of [show_path] can loop forever on a plateau
    of [g], which the model reports as [OutOfFuel]) ([update_total]: six
    levels for the 512-wide region, [Planner.tree_fuel]; [binary_search]:
    [len(keys) + 1] levels of recursion).  The iterations [compute_path]
    may run are a parameter of the planner (the witnesses use 100, ample
    for their seven-leaf tree); its theorems hold for every bound, and a
    bound too small shows as [OutOfFuel], that is as [None].  Random draws ([src/PSO.py]) are
    inputs, so the theorems hold for every outcome.  Nodes are named (by
    address, or by any type with decidable equality for the solvers), so
    the aliasing of Python's shared [Node] objects is the sharing of one
    store entry.

    ** Not modelled

    Rendering and I/O: every [draw] method and the preview rectangle of
    the main loop, [drawSpline] and the [draw_*] helpers of
    [src/PathManipulation.py], the writing of [Obstacles.py] on Start,
    printing, file logging and timing, and [src/action/CalAction.py] (a
    pandas/Excel script).  The events themselves are inputs of
    [Editor.run], as the random draws are inputs of [PSO].  Library numerics
    are parameters rather than definitions: scipy's cubic interpolant
    ([Spline]), [np.arccos], [np.arctan] and [np.pi] ([Decision], [PSO],
    [MainLoop.angle]); [np.sqrt] is the rational [qsqrt].  The [while
    not finished] loop, which need not terminate (obstacles may block
    the robot forever, and the user may never press Start), is [Editor.run]
    over a finite list of frames: its theorems hold for every prefix of
    a run.  The running mode of
    [src/DstarLite.py] is modelled one frame at a time, not as its
    pygame loop. *)

From Stdlib Require Import QArith Qminmax Lqa ZArith Lia List Bool.
Import ListNotations.

(** Python's [<] on floats, as a boolean test on rationals. *)
Definition Qlt_bool (x y : Q) : bool := negb (Qle_bool y x).

(** ** Extended costs: the [np.inf] sentinel of [g], [rhs] and [key]

    The solvers store costs as Python floats initialised to [np.inf].  We
    model them as a rational or the sentinel [Inf]; IEEE rounding is not
    modelled (see the header). *)

Inductive ext : Type :=
| Fin (q : Q)
| Inf.

Definition ext_add (a b : ext) : ext :=
  match a, b with
  | Fin x, Fin y => Fin (x + y)
  | _, _ => Inf
  end.

(** Python [min(a, b)] on floats, [inf] being the greatest value. *)
Definition ext_min (a b : ext) : ext :=
  match a, b with
  | Fin x, Fin y => Fin (Qmin x y)
  | Fin x, Inf => Fin x
  | Inf, b => b
  end.

Definition ext_ltb (a b : ext) : bool :=
  match a, b with
  | Fin x, Fin y => Qlt_bool x y
  | Fin _, Inf => true
  | Inf, _ => false
  end.

Definition ext_leb (a b : ext) : bool :=
  match a, b with
  | Fin x, Fin y => Qle_bool x y
  | _, Inf => true
  | Inf, Fin _ => false
  end.

(** Python [==] on floats: [inf == inf] holds. *)
Definition ext_eqb (a b : ext) : bool :=
  match a, b with
  | Fin x, Fin y => Qeq_bool x y
  | Inf, Inf => true
  | _, _ => false
  end.

(** Value equality of extended costs (rationals up to [==]). *)
Definition ext_eq (a b : ext) : Prop := ext_eqb a b = true.

(** ** Keys: [[min(g, rhs) + h, min(g, rhs)]] compared as Python lists,
    i.e. lexicographically. *)

Definition key : Type := (ext * ext)%type.

Definition key_ltb (k1 k2 : key) : bool :=
  ext_ltb (fst k1) (fst k2) ||
  (ext_eqb (fst k1) (fst k2) && ext_ltb (snd k1) (snd k2)).

Definition key_leb (k1 k2 : key) : bool := negb (key_ltb k2 k1).

(** [2 ^ n] as a rational, for the depth bounds of the quadtree. *)
Fixpoint qpow2 (n : nat) : Q :=
  match n with O => 1 | S n' => 2 * qpow2 n' end.

Declare Scope ext_scope.
Delimit Scope ext_scope with ext.
Notation "a + b" := (ext_add a b) : ext_scope.
Notation "a <? b" := (ext_ltb a b) : ext_scope.
Notation "a <=? b" := (ext_leb a b) : ext_scope.
Notation "a =? b" := (ext_eqb a b) : ext_scope.
Notation "∞" := Inf : ext_scope.
Notation "k1 <k? k2" := (key_ltb k1 k2) (at level 70) : ext_scope.

(** ** Automation *)

Create HintDb robot.

Lemma Qlt_bool_iff (x y : Q) : Qlt_bool x y = true <-> x < y.
Proof.
  unfold Qlt_bool. rewrite negb_true_iff, <- Bool.not_true_iff_false, Qle_bool_iff.
  split; [apply Qnot_le_lt | intros H1 H2; apply (Qlt_not_le x y); assumption].
Qed.


(** Turn the boolean rational comparisons of the code into propositions. *)
Ltac qbool :=
  repeat match goal with
  | H : Qlt_bool _ _ = true |- _ => apply Qlt_bool_iff in H
  | H : Qlt_bool _ _ = false |- _ =>
      apply Bool.not_true_iff_false in H; rewrite Qlt_bool_iff in H
  | H : Qle_bool _ _ = true |- _ => apply Qle_bool_iff in H
  | H : Qle_bool _ _ = false |- _ =>
      apply Bool.not_true_iff_false in H; rewrite Qle_bool_iff in H
  | H : Qeq_bool _ _ = true |- _ => apply Qeq_bool_iff in H
  | H : Qeq_bool _ _ = false |- _ => apply Qeq_bool_neq in H
  | |- Qlt_bool _ _ = true => apply Qlt_bool_iff
  | |- Qle_bool _ _ = true => apply Qle_bool_iff
  | |- Qeq_bool _ _ = true => apply Qeq_bool_iff
  end.

(** Case on every rational comparison the goal branches on (the code's
    [if x < y]), keeping the outcome as a hypothesis. *)
Ltac case_qlt :=
  repeat match goal with
  | |- context [Qlt_bool ?a ?b] => let E := fresh "Ecmp" in destruct (Qlt_bool a b) eqn:E
  | |- context [Qle_bool ?a ?b] => let E := fresh "Ecmp" in destruct (Qle_bool a b) eqn:E
  end.

(** Case on every extended cost in the goal and close it arithmetically. *)
Ltac ext_cases :=
  repeat match goal with
  | e : ext |- _ => destruct e
  end; simpl in *; qbool; try discriminate; try congruence.

(** Eliminate every [Qmin]/[Qmax] of the goal and hypotheses by cases, so
    that [lra]/[nra] can finish. *)
Ltac qminmax :=
  repeat match goal with
  | |- context [Qmax ?a ?b] =>
      let Hm := fresh "Hm" in let Em := fresh "Em" in
      destruct (Q.max_spec_le a b) as [[Hm Em]|[Hm Em]]; rewrite Em in *; clear Em
  | |- context [Qmin ?a ?b] =>
      let Hm := fresh "Hm" in let Em := fresh "Em" in
      destruct (Q.min_spec_le a b) as [[Hm Em]|[Hm Em]]; rewrite Em in *; clear Em
  | H : context [Qmax ?a ?b] |- _ =>
      let Hm := fresh "Hm" in let Em := fresh "Em" in
      destruct (Q.max_spec_le a b) as [[Hm Em]|[Hm Em]]; rewrite Em in H; clear Em
  | H : context [Qmin ?a ?b] |- _ =>
      let Hm := fresh "Hm" in let Em := fresh "Em" in
      destruct (Q.min_spec_le a b) as [[Hm Em]|[Hm Em]]; rewrite Em in H; clear Em
  end.

(** [lra] does not see [x / 2] as [x * (1#2)]: expose division by a
    constant before calling it. *)
Ltac qconst :=
  unfold Qdiv in *;
  repeat match goal with
  | |- context [Qinv (Zpos ?p # 1)] => change (Qinv (Zpos p # 1)) with (1 # p) in *
  | H : context [Qinv (Zpos ?p # 1)] |- _ => change (Qinv (Zpos p # 1)) with (1 # p) in *
  end.

Ltac qlra := qconst; lra.

(** [lia] for goals with [x / 2] and [x mod 2] on integers. *)
Ltac zlia := Z.to_euclidean_division_equations; lia.
Ltac qnra := qconst; nra.

(** ** Generic lemmas on extended costs and keys *)

Lemma Qlt_bool_false_iff (x y : Q) : Qlt_bool x y = false <-> y <= x.
Proof.
  rewrite <- Bool.not_true_iff_false, Qlt_bool_iff.
  split; [apply Qnot_lt_le | intros H1 H2; lra].
Qed.

Lemma ext_ltb_irrefl (a : ext) : ext_ltb a a = false.
Proof. destruct a; simpl; [apply Qlt_bool_false_iff; lra | reflexivity]. Qed.

Lemma ext_eqb_refl (a : ext) : ext_eqb a a = true.
Proof. destruct a; simpl; [apply Qeq_bool_refl | reflexivity]. Qed.

Lemma ext_eqb_sym (a b : ext) : ext_eqb a b = ext_eqb b a.
Proof. destruct a, b; simpl; try reflexivity. apply Qeq_bool_comm. Qed.

Lemma ext_ltb_trans (a b c : ext) :
  ext_ltb a b = true -> ext_ltb b c = true -> ext_ltb a c = true.
Proof. intros; ext_cases; lra. Qed.

Lemma Qlt_bool_eq_l (x y z : Q) : x == y -> Qlt_bool y z = Qlt_bool x z.
Proof.
  intros H; destruct (Qlt_bool y z) eqn:E1, (Qlt_bool x z) eqn:E2; qbool;
    try reflexivity; exfalso; lra.
Qed.

Lemma Qlt_bool_eq_r (x y z : Q) : y == z -> Qlt_bool x y = Qlt_bool x z.
Proof.
  intros H; destruct (Qlt_bool x y) eqn:E1, (Qlt_bool x z) eqn:E2; qbool;
    try reflexivity; exfalso; lra.
Qed.

Lemma ext_ltb_eqb_l (a b c : ext) :
  ext_eqb a b = true -> ext_ltb b c = ext_ltb a c.
Proof.
  destruct a, b, c; simpl; intros; try discriminate; try reflexivity.
  qbool; now apply Qlt_bool_eq_l.
Qed.

Lemma ext_ltb_eqb_r (a b c : ext) :
  ext_eqb b c = true -> ext_ltb a b = ext_ltb a c.
Proof.
  destruct a, b, c; simpl; intros; try discriminate; try reflexivity.
  qbool; now apply Qlt_bool_eq_r.
Qed.

Lemma ext_eqb_trans (a b c : ext) :
  ext_eqb a b = true -> ext_eqb b c = true -> ext_eqb a c = true.
Proof. intros; ext_cases; lra. Qed.

(** Trichotomy: two extended costs are ordered one way, the other, or equal. *)
Lemma ext_trichotomy (a b : ext) :
  ext_ltb a b = true \/ ext_ltb b a = true \/ ext_eqb a b = true.
Proof.
  destruct a as [x|], b as [y|]; simpl; auto.
  destruct (Q_dec x y) as [[H|H]|H].
  - left; qbool; exact H.
  - right; left; qbool; exact H.
  - right; right; qbool; exact H.
Qed.

Lemma ext_ltb_asym (a b : ext) : ext_ltb a b = true -> ext_ltb b a = false.
Proof.
  intros H. destruct (ext_ltb b a) eqn:E; [|reflexivity].
  pose proof (ext_ltb_trans _ _ _ H E). rewrite ext_ltb_irrefl in *. discriminate.
Qed.

Lemma key_ltb_irrefl (k : key) : key_ltb k k = false.
Proof. destruct k; unfold key_ltb; simpl; rewrite !ext_ltb_irrefl, andb_false_r; reflexivity. Qed.

Lemma key_ltb_trans (k1 k2 k3 : key) :
  key_ltb k1 k2 = true -> key_ltb k2 k3 = true -> key_ltb k1 k3 = true.
Proof.
  destruct k1 as [a1 b1], k2 as [a2 b2], k3 as [a3 b3]; unfold key_ltb; simpl.
  rewrite !orb_true_iff, !andb_true_iff.
  intros [H1|[E1 H1]] [H2|[E2 H2]].
  - left; eauto using ext_ltb_trans.
  - left; rewrite <- (ext_ltb_eqb_r _ _ _ E2); exact H1.
  - left; rewrite <- (ext_ltb_eqb_l _ _ _ E1); exact H2.
  - right; split; eauto using ext_eqb_trans, ext_ltb_trans.
Qed.

Lemma key_ltb_total (k1 k2 : key) :
  key_ltb k1 k2 = false -> key_leb k2 k1 = true.
Proof. unfold key_leb. intros ->. reflexivity. Qed.

Lemma ext_ltb_weak (a b c : ext) :
  ext_ltb a c = true -> ext_ltb a b = true \/ ext_ltb b c = true.
Proof.
  destruct a as [x|], b as [y|], c as [z|]; simpl; intros H; auto; qbool.
  destruct (Qlt_le_dec x y); [left | right]; qbool; lra.
Qed.

(** Keys form a strict weak order: if [k1 < k3] then every [k2] is above
    [k1] or below [k3].  This is what makes the [<=] of sorted insertion
    transitive. *)
Lemma key_ltb_weak (k1 k2 k3 : key) :
  key_ltb k1 k3 = true -> key_ltb k1 k2 = true \/ key_ltb k2 k3 = true.
Proof.
  destruct k1 as [a1 b1], k2 as [a2 b2], k3 as [a3 b3]; unfold key_ltb; simpl.
  rewrite !orb_true_iff, !andb_true_iff.
  intros [H|[E H]].
  - destruct (ext_ltb_weak _ a2 _ H); auto.
  - destruct (ext_trichotomy a1 a2) as [L|[L|L]]; [left; left; exact L| |].
    + right; left. rewrite <- (ext_ltb_eqb_r _ _ _ E). exact L.
    + assert (E' : ext_eqb a2 a3 = true)
        by (rewrite ext_eqb_sym in L; eauto using ext_eqb_trans).
      destruct (ext_ltb_weak _ b2 _ H); [left | right]; right; auto.
Qed.

Lemma key_leb_trans (k1 k2 k3 : key) :
  key_leb k1 k2 = true -> key_leb k2 k3 = true -> key_leb k1 k3 = true.
Proof.
  unfold key_leb; rewrite !negb_true_iff; intros H1 H2.
  destruct (key_ltb k3 k1) eqn:E; [|reflexivity].
  destruct (key_ltb_weak _ k2 _ E); congruence.
Qed.

Lemma key_leb_refl (k : key) : key_leb k k = true.
Proof. unfold key_leb. rewrite key_ltb_irrefl. reflexivity. Qed.

Lemma key_ltb_leb (k1 k2 : key) : key_ltb k1 k2 = true -> key_leb k1 k2 = true.
Proof.
  unfold key_leb; intros H. destruct (key_ltb k2 k1) eqn:E; [|reflexivity].
  pose proof (key_ltb_trans _ _ _ H E). rewrite key_ltb_irrefl in *. discriminate.
Qed.

Lemma qpow2_pos (n : nat) : 0 < qpow2 n.
Proof. induction n; simpl; [reflexivity | lra]. Qed.

#[export] Hint Resolve ext_ltb_irrefl ext_eqb_refl key_ltb_irrefl : robot.
#[export] Hint Resolve ext_ltb_trans key_ltb_trans key_leb_trans key_leb_refl key_ltb_leb : robot.

Lemma ext_eqb_eq_r (a b c : ext) : ext_eqb b c = true -> ext_eqb a b = ext_eqb a c.
Proof.
  intros H. destruct (ext_eqb a b) eqn:E1, (ext_eqb a c) eqn:E2; try reflexivity.
  - rewrite (ext_eqb_trans _ _ _ E1 H) in E2. discriminate.
  - rewrite ext_eqb_sym in H. rewrite (ext_eqb_trans _ _ _ E2 H) in E1. discriminate.
Qed.

(** Keys equal component-wise compare the same way. *)
Lemma key_ltb_eq_r (k a b : key) :
  ext_eqb (fst a) (fst b) = true -> ext_eqb (snd a) (snd b) = true ->
  key_ltb k a = key_ltb k b.
Proof.
  intros H1 H2. unfold key_ltb.
  rewrite (ext_ltb_eqb_r _ _ _ H1), (ext_ltb_eqb_r _ _ _ H2), (ext_eqb_eq_r _ _ _ H1).
  reflexivity.
Qed.

Lemma key_ltb_eq_l (k a b : key) :
  ext_eqb (fst a) (fst b) = true -> ext_eqb (snd a) (snd b) = true ->
  key_ltb a k = key_ltb b k.
Proof.
  intros H1 H2. unfold key_ltb.
  rewrite (ext_ltb_eqb_l _ _ _ H1), (ext_ltb_eqb_l _ _ _ H2).
  rewrite !(ext_eqb_sym _ (fst k)), (ext_eqb_eq_r _ _ _ H1). reflexivity.
Qed.
