(* ===== verification/Geometry.v ===== *)
(** * Geometry: axis-aligned boxes and moving obstacles ([src/AABB.py])

    [AABB] models class [AABB] (centre, width, height; its corners, area,
    intersection area and covered fraction, and the quadrant of a point);
    [Obstacle] models class [Obstacle] (a box with a velocity, reflecting
    bounds and a position history) and its kinematics step [move].
    [distance] is the centre distance of [src/AABB.py]; [qsqrt] stands for
    [np.sqrt] (see the header of [Prelude]). *)

From Stdlib Require Import QArith Qminmax Lqa ZArith Lia List Bool.
From S2P Require Import Prelude.
Import ListNotations.

(** The four quadrants, used both as [get_quadrant]'s answer and as the
    [region] tag of a quadtree node. *)
Inductive quadrant : Type := NW | NE | SW | SE.

Definition quadrant_eq_dec (a b : quadrant) : {a = b} + {a <> b}.
Proof. decide equality. Defined.

(** [np.sqrt] on a non-negative rational, as a floor approximation with
    precision [2^-20]: [sqrt (n/d) ~ floor (sqrt (n d 2^40)) / (d 2^20)]. *)
Definition qsqrt (q : Q) : Q :=
  Z.sqrt (Qnum q * Zpos (Qden q) * 2 ^ 40) # (Qden q * 2 ^ 20).

Module AABB.

Record t : Type := mk { x : Q; y : Q; width : Q; height : Q }.

(** [(top_left.x, bottom_right.x, top_left.y, bottom_right.y)] *)
Definition return_coordinate (b : t) : Q * Q * Q * Q :=
  (x b - width b / 2, x b + width b / 2, y b - height b / 2, y b + height b / 2).

Definition get_corners (b : t) : list (Q * Q) :=
  [(x b - width b / 2, y b - height b / 2); (x b + width b / 2, y b - height b / 2);
   (x b - width b / 2, y b + height b / 2); (x b + width b / 2, y b + height b / 2)].

Definition get_area (b : t) : Q := width b * height b.

Definition get_intersect_area (self other : t) : Q :=
  let '(x1, x2, y1, y2) := return_coordinate self in
  let '(x_1, x_2, y_1, y_2) := return_coordinate other in
  let top_left_x := Qmax x1 x_1 in
  let top_left_y := Qmax y1 y_1 in
  let bottom_right_x := Qmin x2 x_2 in
  let bottom_right_y := Qmin y2 y_2 in
  Qmax 0 (bottom_right_x - top_left_x) * Qmax 0 (bottom_right_y - top_left_y).

(** Python divides by [get_area self]; the boxes it is called on (quadtree
    nodes and grid cells) have positive area, see [QuadTree]. *)
Definition get_intersect_percentage (self other : t) : Q :=
  get_intersect_area self other / get_area self.

Definition get_quadrant (self : t) (point : Q * Q) : quadrant :=
  let '(point_x, point_y) := point in
  if Qle_bool point_x (x self) then
    if Qle_bool point_y (y self) then NW else SW
  else
    if Qle_bool point_y (y self) then NE else SE.

(** Closed containment of a point, used to state what [get_quadrant] means. *)
Definition contains (b : t) (p : Q * Q) : Prop :=
  let '(x1, x2, y1, y2) := return_coordinate b in
  x1 <= fst p <= x2 /\ y1 <= snd p <= y2.

End AABB.

Module Obstacle.

Record t : Type := mk {
  box : AABB.t;
  static : bool;
  v : Q * Q;
  x_bound : Q * Q;
  y_bound : Q * Q;
  counter : Z;
  history : list (Q * Q)
}.

(** [Obstacle.__init__(x, y, width, height, static, v, x_bound, y_bound)];
    the default bounds are [(20, 20)]. *)
Definition init (x y width height : Q) (static : bool) (v : Q * Q)
    (x_bound y_bound : Q * Q) : t :=
  {| box := AABB.mk x y width height;
     static := static;
     v := if static then (0, 0) else v;
     x_bound := (x - fst x_bound, x + snd x_bound);
     y_bound := (y - fst y_bound, y + snd y_bound);
     counter := 0;
     history := [] |}.

Definition with_pos (o : t) (x y : Q) (v : Q * Q) : t :=
  {| box := AABB.mk x y (AABB.width (box o)) (AABB.height (box o));
     static := static o; v := v; x_bound := x_bound o; y_bound := y_bound o;
     counter := counter o; history := history o ++ [(x, y)] |}.

(** [Obstacle.move]: one kinematics tick.  Each branch that reflects a
    velocity component builds the new velocity from the components read at
    the start of the tick, as the code does. *)
Definition move (o : t) : t :=
  if static o then with_pos o (AABB.x (box o)) (AABB.y (box o)) (v o)
  else
    let '(v_x, v_y) := v o in
    let x0 := AABB.x (box o) + v_x in
    let '(x1, v1) :=
      if Qlt_bool x0 (fst (x_bound o)) then (fst (x_bound o), (- v_x, v_y))
      else if Qlt_bool (snd (x_bound o)) x0 then (snd (x_bound o), (- v_x, v_y))
      else (x0, v o) in
    let y0 := AABB.y (box o) + v_y in
    let '(y1, v2) :=
      if Qlt_bool y0 (fst (y_bound o)) then (fst (y_bound o), (v_x, - v_y))
      else if Qlt_bool (snd (y_bound o)) y0 then (snd (y_bound o), (v_x, - v_y))
      else (y0, v1) in
    with_pos o x1 y1 v2.

Definition pt_in_bounds (o : t) (p : Q * Q) : Prop :=
  (fst (x_bound o) <= fst p <= snd (x_bound o)) /\
  (fst (y_bound o) <= snd p <= snd (y_bound o)).

(** The obstacle invariant: its reflection ranges are proper intervals,
    and its position and every recorded past position lie inside them. *)
Definition inv (o : t) : Prop :=
  fst (x_bound o) <= snd (x_bound o) /\ fst (y_bound o) <= snd (y_bound o) /\
  pt_in_bounds o (AABB.x (box o), AABB.y (box o)) /\
  Forall (pt_in_bounds o) (history o).

End Obstacle.

(** [distance(node1, node2)]: Euclidean distance of two box centres. *)
Definition distance (a b : AABB.t) : Q :=
  qsqrt ((AABB.x a - AABB.x b) ^ 2 + (AABB.y a - AABB.y b) ^ 2).

(** An obstacle at the corner of its range moving diagonally outwards: both
    components reflect, and the x-component comes back unchanged. *)
Definition corner_obstacle : Obstacle.t :=
  Obstacle.init 0 0 2 2 false (3, 3) (1, 1) (1, 1).

(** ** Properties of boxes *)

Module AABBFacts.
Import AABB.

(** One factor of the intersection area: the overlap of two intervals,
    clamped at zero, never exceeds the length of the first one. *)
Lemma overlap_bounds (c w c' w' : Q) :
  0 <= w ->
  0 <= Qmax 0 (Qmin (c + w / 2) (c' + w' / 2) - Qmax (c - w / 2) (c' - w' / 2)) <= w.
Proof. intros Hw. split; qminmax; qlra. Qed.

Lemma get_intersect_area_nonneg (a b : t) : 0 <= get_intersect_area a b.
Proof.
  unfold get_intersect_area; simpl.
  apply Qmult_le_0_compat; apply Q.le_max_l.
Qed.

Lemma get_intersect_area_comm (a b : t) :
  get_intersect_area a b == get_intersect_area b a.
Proof.
  unfold get_intersect_area, return_coordinate; simpl.
  rewrite (Q.max_comm (x a - _)), (Q.max_comm (y a - _)),
          (Q.min_comm (x a + _)), (Q.min_comm (y a + _)).
  reflexivity.
Qed.

Lemma get_intersect_area_le (a b : t) :
  0 <= width a -> 0 <= height a -> get_intersect_area a b <= get_area a.
Proof.
  intros Hw Hh. unfold get_intersect_area, get_area, return_coordinate; simpl.
  pose proof (overlap_bounds (x a) (width a) (x b) (width b) Hw) as [H1 H2].
  pose proof (overlap_bounds (y a) (height a) (y b) (height b) Hh) as [H3 H4].
  revert H1 H2 H3 H4.
  generalize (Qmax 0 (Qmin (x a + width a / 2) (x b + width b / 2)
                      - Qmax (x a - width a / 2) (x b - width b / 2))).
  generalize (Qmax 0 (Qmin (y a + height a / 2) (y b + height b / 2)
                      - Qmax (y a - height a / 2) (y b - height b / 2))).
  intros p q ????. nra.
Qed.

(** C4: the fraction of a box of positive size covered by another box,
    as [get_intersect_percentage] computes it, lies in [[0, 1]]. *)
Theorem get_intersect_percentage_bounds (a b : t) :
  0 < width a -> 0 < height a ->
  0 <= get_intersect_percentage a b <= 1.
Proof.
  intros Hw Hh. assert (Ha : 0 < get_area a) by (unfold get_area; nra).
  unfold get_intersect_percentage; split.
  - apply Qle_shift_div_l; [exact Ha|]. rewrite Qmult_0_l. apply get_intersect_area_nonneg.
  - apply Qle_shift_div_r; [exact Ha|]. rewrite Qmult_1_l.
    apply get_intersect_area_le; lra.
Qed.

End AABBFacts.

(** ** Obstacle kinematics *)

Module ObstacleFacts.
Import Obstacle.

Lemma with_pos_inv (o : t) (x y : Q) (v : Q * Q) :
  inv o -> pt_in_bounds o (x, y) -> inv (with_pos o x y v).
Proof.
  intros (Hx & Hy & _ & Hh) Hp. unfold inv, with_pos; simpl.
  repeat split; try tauto; try apply Hp.
  apply Forall_app; split; [exact Hh | constructor; [exact Hp | constructor]].
Qed.

(** Clamping [x0] into [[lo, hi]] as [move] does yields a point of the
    interval. *)
Lemma clamp_in (lo hi x0 : Q) (a b c : Q * Q) :
  lo <= hi ->
  (lo <= fst (if Qlt_bool x0 lo then (lo, a)
              else if Qlt_bool hi x0 then (hi, b) else (x0, c)) <= hi).
Proof.
  intros H. destruct (Qlt_bool x0 lo) eqn:E1; simpl; [lra|].
  destruct (Qlt_bool hi x0) eqn:E2; simpl; qbool; lra.
Qed.

Lemma init_inv (x y w h : Q) (st : bool) (v : Q * Q) (xb yb : Q * Q) :
  0 <= fst xb -> 0 <= snd xb -> 0 <= fst yb -> 0 <= snd yb ->
  inv (init x y w h st v xb yb).
Proof. intros. unfold inv, pt_in_bounds, init; simpl. repeat split; try lra; constructor. Qed.

Lemma with_pos_history (o : t) (x y : Q) (v : Q * Q) :
  length (history (with_pos o x y v)) = S (length (history o)).
Proof. unfold with_pos; simpl. rewrite length_app; simpl. lia. Qed.

Lemma move_history_length (o : t) :
  length (history (move o)) = S (length (history o)).
Proof.
  unfold move; destruct (static o); [apply with_pos_history|].
  destruct (v o) as [vx vy].
  case_qlt; apply with_pos_history.
Qed.

(** C5: one tick of [Obstacle.move] preserves the obstacle invariant:
    whatever its velocity, the obstacle is clamped back into its
    reflection range and the recorded position lies in it. *)
Theorem move_preserves_inv (o : t) : inv o -> inv (move o).
Proof.
  intros Hi.
  pose proof Hi as (Hx & Hy & Hp & _).
  unfold move; destruct (static o); [now apply with_pos_inv|].
  destruct (v o) as [vx vy].
  case_qlt; qbool; apply with_pos_inv; try exact Hi;
    unfold pt_in_bounds in *; cbn [fst snd] in *; lra.
Qed.

(** C6: an obstacle created with non-negative range offsets stays, for any
    number [n] of ticks, inside its reflection range, every recorded past
    position is inside it, and the history holds exactly [n] positions. *)
Theorem ticks_in_bounds (n : nat) (x y w h : Q) (st : bool) (v : Q * Q) (xb yb : Q * Q) :
  0 <= fst xb -> 0 <= snd xb -> 0 <= fst yb -> 0 <= snd yb ->
  let o := Nat.iter n move (init x y w h st v xb yb) in
  inv o /\ length (history o) = n.
Proof.
  intros ????; induction n as [|n [IHi IHl]]; simpl.
  - split; [now apply init_inv | reflexivity].
  - split; [now apply move_preserves_inv | now rewrite move_history_length, IHl].
Qed.

(** C7 (code bug): when both velocity components are reflected in the same
    tick, the y-branch rebuilds the velocity from the x-component read at
    the start of the tick, so the x-reflection is lost: the new velocity is
    [(v_x, -v_y)], not [(-v_x, -v_y)]. *)
Theorem move_double_reflection_keeps_vx (o : t) (vx vy : Q) :
  static o = false -> v o = (vx, vy) ->
  (Qlt_bool (AABB.x (box o) + vx) (fst (x_bound o)) = true \/
   Qlt_bool (snd (x_bound o)) (AABB.x (box o) + vx) = true) ->
  (Qlt_bool (AABB.y (box o) + vy) (fst (y_bound o)) = true \/
   Qlt_bool (snd (y_bound o)) (AABB.y (box o) + vy) = true) ->
  v (move o) = (vx, - vy).
Proof.
  intros Hs Hv Hx Hy. unfold move; rewrite Hs, Hv.
  destruct Hy as [Hy|Hy]; [rewrite Hy | destruct (Qlt_bool (_ + vy) _); [|rewrite Hy]];
    case_qlt; reflexivity.
Qed.

End ObstacleFacts.

(** ** Witnesses *)

Lemma move_double_reflection_keeps_vx_witness :
  Obstacle.v (Obstacle.move corner_obstacle) = (3, - 3) /\ (3 : Q) <> - 3.
Proof.
  split.
  - apply (ObstacleFacts.move_double_reflection_keeps_vx corner_obstacle 3 3);
      [reflexivity | reflexivity | right; reflexivity | right; reflexivity].
  - discriminate.
Defined.

Lemma ticks_in_bounds_witness :
  let o := Nat.iter 3 Obstacle.move (Obstacle.init 0 0 2 2 false (3, 3) (1, 1) (1, 1)) in
  Obstacle.inv o /\ length (Obstacle.history o) = 3%nat.
Proof. apply ObstacleFacts.ticks_in_bounds; unfold Qle; simpl; lia. Defined.

Lemma move_preserves_inv_witness : Obstacle.inv (Obstacle.move corner_obstacle).
Proof.
  apply ObstacleFacts.move_preserves_inv.
  unfold Obstacle.inv, Obstacle.pt_in_bounds; simpl; unfold Qle; simpl.
  repeat split; try lia; constructor.
Defined.

Lemma get_intersect_percentage_bounds_witness :
  0 <= AABB.get_intersect_percentage (AABB.mk 0 0 4 4) (Obstacle.box corner_obstacle) <= 1.
Proof. apply AABBFacts.get_intersect_percentage_bounds; reflexivity. Defined.
