(* ===== verification/QuadTree.v ===== *)
(** * The adaptive quadtree ([class Node] of [src/AABB.py])

    A quadtree node is its box, its accumulated obstacle [percentage] and its
    occupancy [value] (0 free, 1 blocked, -1 mixed), with either no children
    or the four children NW, NE, SW, SE (the code tests [self.NW is None] and
    always sets or clears the four slots together).  The parent pointer and
    the [region] tag of the code are not stored: a node is identified by its
    address, the list of quadrants from the node up to the root
    ([Neighbors] uses it for the parent walk).

    Operations: [split], [set_value], [reset_children],
    [update_percentage_and_split] (with a fuel bound on the recursion depth),
    [get_leaves] and the eight boundary collectors [get_*_children].
    Theorems: the children of a split tile the parent and [get_quadrant]
    picks the child containing a point; [update_percentage_and_split]
    terminates given enough fuel, keeps the tree well formed, and leaves
    every leaf classified free or blocked. *)

From Stdlib Require Import QArith Qminmax Lqa ZArith Lia List Bool.
From S2P Require Import Prelude Geometry.
Import ListNotations.

Record ninfo : Type := mk_info { box : AABB.t; percentage : Q; value : Z }.

Inductive qnode : Type :=
| QLeaf (i : ninfo)
| QSplit (i : ninfo) (nw ne sw se : qnode).

(** A node is named by its address: its own quadrant first, then its
    parent's, up to the root ([[]]). *)
Definition addr : Type := list quadrant.

Definition info (t : qnode) : ninfo :=
  match t with QLeaf i => i | QSplit i _ _ _ _ => i end.

Definition with_info (t : qnode) (i : ninfo) : qnode :=
  match t with QLeaf _ => QLeaf i | QSplit _ a b c d => QSplit i a b c d end.

(** [get_children() is None]. *)
Definition is_leaf (t : qnode) : bool :=
  match t with QLeaf _ => true | QSplit _ _ _ _ _ => false end.

(** The child in slot [q] ([self.NW], [self.NE], ...) of a split node. *)
Definition child (q : quadrant) (t : qnode) : option qnode :=
  match t with
  | QLeaf _ => None
  | QSplit _ nw ne sw se =>
      Some (match q with NW => nw | NE => ne | SW => sw | SE => se end)
  end.

(** [Node.__init__]: a fresh node has percentage 0 and value -1. *)
Definition new_node (b : AABB.t) : qnode := QLeaf (mk_info b 0 (-1)).

(** The box [Node.split] gives to the child in quadrant [q]. *)
Definition split_box (b : AABB.t) (q : quadrant) : AABB.t :=
  let w := AABB.width b in
  let h := AABB.height b in
  match q with
  | NW => AABB.mk (AABB.x b - w / 4) (AABB.y b - h / 4) (w / 2) (h / 2)
  | NE => AABB.mk (AABB.x b + w / 4) (AABB.y b - h / 4) (w / 2) (h / 2)
  | SW => AABB.mk (AABB.x b - w / 4) (AABB.y b + h / 4) (w / 2) (h / 2)
  | SE => AABB.mk (AABB.x b + w / 4) (AABB.y b + h / 4) (w / 2) (h / 2)
  end.

(** [Node.split]: four fresh children (any previous children are replaced). *)
Definition split (t : qnode) : qnode :=
  let b := box (info t) in
  QSplit (info t) (new_node (split_box b NW)) (new_node (split_box b NE))
         (new_node (split_box b SW)) (new_node (split_box b SE)).

(** [Node.reset_children]. *)
Definition reset_children (t : qnode) : qnode := QLeaf (info t).

Definition set_value_field (t : qnode) (v : Z) : qnode :=
  let i := info t in with_info t (mk_info (box i) (percentage i) v).

(** [Node.set_value(threshold_percentage, threshold_size)]. *)
Definition set_value (threshold_percentage threshold_size : Q) (t : qnode) : qnode :=
  let i := info t in
  if Qlt_bool threshold_size (AABB.width (box i)) &&
     Qlt_bool threshold_size (AABB.height (box i)) then
    if Qle_bool (percentage i) threshold_percentage then set_value_field t 0
    else if Qle_bool (1 - threshold_percentage) (percentage i) then
      reset_children (set_value_field t 1)
    else set_value_field t (-1)
  else
    if Qle_bool (percentage i) threshold_percentage then set_value_field t 0
    else set_value_field t 1.

(** The loop [for obstacle in obstacles: self.percentage += ...]. *)
Definition accumulate (b : AABB.t) (p : Q) (obstacles : list Obstacle.t) : Q :=
  fold_left (fun acc o => acc + AABB.get_intersect_percentage b (Obstacle.box o))
            obstacles p.

(** [Node.update_percentage_and_split(obstacles, threshold_percentage,
    threshold_size)].  Each call spends one unit of [fuel] (the recursion
    depth); [None] means the fuel ran out.  [update_total] shows that
    [log2 (width / threshold_size) + 1] units always suffice. *)
Fixpoint update_percentage_and_split (fuel : nat) (obstacles : list Obstacle.t)
    (threshold_percentage threshold_size : Q) (t : qnode) : option qnode :=
  match fuel with
  | O => None
  | S fuel' =>
      let i := info t in
      let t0 := with_info t (mk_info (box i) (accumulate (box i) (percentage i) obstacles)
                                     (value i)) in
      let t1 := set_value threshold_percentage threshold_size t0 in
      if Z.eqb (value (info t1)) (-1) then
        let t2 := if is_leaf t1 then split t1 else t1 in
        match t2 with
        | QLeaf _ => Some t2
        | QSplit i2 nw ne sw se =>
            let rec := update_percentage_and_split fuel' obstacles
                         threshold_percentage threshold_size in
            match rec nw, rec ne, rec sw, rec se with
            | Some nw', Some ne', Some sw', Some se' => Some (QSplit i2 nw' ne' sw' se')
            | _, _, _, _ => None
            end
        end
      else Some t1
  end.

(** [Node.get_leaves], each leaf named by its address. *)
Fixpoint get_leaves (a : addr) (t : qnode) : list addr :=
  match t with
  | QLeaf _ => [a]
  | QSplit _ nw ne sw se =>
      get_leaves (NW :: a) nw ++ get_leaves (NE :: a) ne ++
      get_leaves (SW :: a) sw ++ get_leaves (SE :: a) se
  end.

(** [Node.get_north_children] ... [Node.get_south_east_children]: the leaves
    of a subtree along one side or at one corner. *)
Fixpoint get_north_children (a : addr) (t : qnode) : list addr :=
  match t with
  | QLeaf _ => [a]
  | QSplit _ nw ne _ _ => get_north_children (NW :: a) nw ++ get_north_children (NE :: a) ne
  end.

Fixpoint get_south_children (a : addr) (t : qnode) : list addr :=
  match t with
  | QLeaf _ => [a]
  | QSplit _ _ _ sw se => get_south_children (SW :: a) sw ++ get_south_children (SE :: a) se
  end.

Fixpoint get_left_children (a : addr) (t : qnode) : list addr :=
  match t with
  | QLeaf _ => [a]
  | QSplit _ nw _ sw _ => get_left_children (NW :: a) nw ++ get_left_children (SW :: a) sw
  end.

Fixpoint get_right_children (a : addr) (t : qnode) : list addr :=
  match t with
  | QLeaf _ => [a]
  | QSplit _ _ ne _ se => get_right_children (NE :: a) ne ++ get_right_children (SE :: a) se
  end.

Fixpoint get_north_west_children (a : addr) (t : qnode) : list addr :=
  match t with
  | QLeaf _ => [a]
  | QSplit _ nw _ _ _ => get_north_west_children (NW :: a) nw
  end.

Fixpoint get_north_east_children (a : addr) (t : qnode) : list addr :=
  match t with
  | QLeaf _ => [a]
  | QSplit _ _ ne _ _ => get_north_east_children (NE :: a) ne
  end.

Fixpoint get_south_west_children (a : addr) (t : qnode) : list addr :=
  match t with
  | QLeaf _ => [a]
  | QSplit _ _ _ sw _ => get_south_west_children (SW :: a) sw
  end.

Fixpoint get_south_east_children (a : addr) (t : qnode) : list addr :=
  match t with
  | QLeaf _ => [a]
  | QSplit _ _ _ _ se => get_south_east_children (SE :: a) se
  end.

(** The default arguments of [update_percentage_and_split]. *)
Definition default_threshold_percentage : Q := 5 # 1000.
Definition default_threshold_size : Q := 16.

(** The region of [src/QuadTree.py]: 512 x 512, centred at
    [(LEFT_PAD + 256, NORTH_PAD + 256) = (286, 286)]. *)
Definition region_box : AABB.t := AABB.mk 286 286 512 512.

(** A static 36 x 36 obstacle inside the region: larger than two minimum
    cells (16 x 16) in each direction, yet under 0.5% of the region. *)
Definition small_obstacle : Obstacle.t :=
  Obstacle.init 100 100 36 36 true (0, 0) (20, 20) (20, 20).

(** ** Invariants *)

(** Every box has positive size and the children of a split node have
    exactly the boxes [split] gives them. *)
Fixpoint boxes_ok (t : qnode) : Prop :=
  0 < AABB.width (box (info t)) /\ 0 < AABB.height (box (info t)) /\
  match t with
  | QLeaf _ => True
  | QSplit i nw ne sw se =>
      box (info nw) = split_box (box i) NW /\ box (info ne) = split_box (box i) NE /\
      box (info sw) = split_box (box i) SW /\ box (info se) = split_box (box i) SE /\
      boxes_ok nw /\ boxes_ok ne /\ boxes_ok sw /\ boxes_ok se
  end.

(** An internal node is mixed: it is larger than the minimum size, and its
    coverage lies strictly between the two thresholds. *)
Fixpoint internal_ok (tp ts : Q) (t : qnode) : Prop :=
  match t with
  | QLeaf _ => True
  | QSplit i nw ne sw se =>
      (value i = -1)%Z /\ ts < AABB.width (box i) /\ ts < AABB.height (box i) /\
      tp < percentage i /\ percentage i < 1 - tp /\
      internal_ok tp ts nw /\ internal_ok tp ts ne /\
      internal_ok tp ts sw /\ internal_ok tp ts se
  end.

(** Every leaf is classified free (0) or blocked (1). *)
Fixpoint leaves_classified (t : qnode) : Prop :=
  match t with
  | QLeaf i => (value i = 0 \/ value i = 1)%Z
  | QSplit _ nw ne sw se =>
      leaves_classified nw /\ leaves_classified ne /\
      leaves_classified sw /\ leaves_classified se
  end.

(** Name the four recursive calls of [update_percentage_and_split] found
    in hypothesis [H], by cases on their results. *)
Ltac destruct_rec_in H :=
  repeat match type of H with
  | context [update_percentage_and_split ?f ?o ?a ?b ?x] =>
      let E := fresh "Er" in destruct (update_percentage_and_split f o a b x) eqn:E
  end.

(** ** Splitting: the four children tile the parent *)

Lemma split_area_sum (b : AABB.t) :
  AABB.get_area (split_box b NW) + AABB.get_area (split_box b NE) +
  AABB.get_area (split_box b SW) + AABB.get_area (split_box b SE) == AABB.get_area b.
Proof. unfold AABB.get_area, split_box; simpl. field. Qed.

(** C1: the four boxes [Node.split] creates partition the parent: their
    areas add up to the parent's area, two distinct children overlap in a
    set of zero area (as [get_intersect_area] measures it), and every child
    lies inside the parent. *)
Theorem split_partition (b : AABB.t) :
  0 <= AABB.width b -> 0 <= AABB.height b ->
  AABB.get_area (split_box b NW) + AABB.get_area (split_box b NE) +
  AABB.get_area (split_box b SW) + AABB.get_area (split_box b SE) == AABB.get_area b /\
  (forall q q', q <> q' -> AABB.get_intersect_area (split_box b q) (split_box b q') == 0) /\
  (forall q p, AABB.contains (split_box b q) p -> AABB.contains b p).
Proof.
  intros Hw Hh. split; [apply split_area_sum|split].
  - intros [] [] Hne; try congruence;
      unfold AABB.get_intersect_area, AABB.return_coordinate, split_box; simpl;
      qminmax; try (exfalso; qlra); qconst; ring_simplify; try reflexivity; nra.
  - intros [] [px py]; unfold AABB.contains, AABB.return_coordinate, split_box; simpl;
      intros; qlra.
Qed.

Lemma quadrant_contains (b : AABB.t) (p : Q * Q) :
  AABB.contains b p -> AABB.contains (split_box b (AABB.get_quadrant b p)) p.
Proof.
  destruct p as [px py]; unfold AABB.contains, AABB.return_coordinate, AABB.get_quadrant;
    simpl; intros.
  case_qlt; qbool; unfold split_box; simpl; qlra.
Qed.

(** [get_quadrant] sends a point of a box to a child of [split] that
    contains it, so the descent of [add_start]/[add_goal] never leaves the
    region. *)
Theorem get_quadrant_contains (b : AABB.t) (p : Q * Q) :
  AABB.contains b p -> AABB.contains (split_box b (AABB.get_quadrant b p)) p.
Proof. apply quadrant_contains. Qed.

(** ** [set_value] and [update_percentage_and_split] *)

Lemma info_with_info (t : qnode) (i : ninfo) : info (with_info t i) = i.
Proof. destruct t; reflexivity. Qed.

Lemma is_leaf_with_info (t : qnode) (i : ninfo) : is_leaf (with_info t i) = is_leaf t.
Proof. destruct t; reflexivity. Qed.

Lemma set_value_info (tp ts : Q) (t : qnode) :
  box (info (set_value tp ts t)) = box (info t) /\
  percentage (info (set_value tp ts t)) = percentage (info t).
Proof.
  unfold set_value, set_value_field, reset_children; case_qlt; simpl;
    rewrite ?info_with_info; auto.
Qed.

(** [set_value] answers -1 exactly in the mixed case, leaving the children. *)
Lemma set_value_mixed (tp ts : Q) (t : qnode) :
  value (info (set_value tp ts t)) = (-1)%Z ->
  set_value tp ts t = set_value_field t (-1) /\
  ts < AABB.width (box (info t)) /\ ts < AABB.height (box (info t)) /\
  tp < percentage (info t) /\ percentage (info t) < 1 - tp.
Proof.
  unfold set_value, set_value_field, reset_children; case_qlt; simpl;
    rewrite ?info_with_info; simpl; intros H; try discriminate; qbool;
    repeat split; try reflexivity; lra.
Qed.

Lemma set_value_settled (tp ts : Q) (t : qnode) :
  value (info (set_value tp ts t)) <> (-1)%Z ->
  (value (info (set_value tp ts t)) = 0 \/ value (info (set_value tp ts t)) = 1)%Z.
Proof.
  unfold set_value, set_value_field, reset_children; case_qlt; simpl;
    rewrite ?info_with_info; simpl; intros H; auto; congruence.
Qed.

(** A node that is large and already more than [tp] covered is either still
    mixed or becomes a leaf (its children are pruned). *)
Lemma set_value_prunes (tp ts : Q) (t : qnode) :
  ts < AABB.width (box (info t)) -> ts < AABB.height (box (info t)) ->
  tp < percentage (info t) ->
  value (info (set_value tp ts t)) <> (-1)%Z -> is_leaf (set_value tp ts t) = true.
Proof.
  intros Hw Hh Hp. unfold set_value, set_value_field, reset_children; case_qlt; simpl;
    rewrite ?info_with_info; simpl; qbool; intros H; try reflexivity;
    try (exfalso; lra); try congruence.
Qed.

Lemma set_value_leaf (tp ts : Q) (t : qnode) :
  is_leaf t = true -> is_leaf (set_value tp ts t) = true.
Proof.
  intros H. unfold set_value, set_value_field, reset_children; case_qlt; simpl;
    rewrite ?is_leaf_with_info; auto.
Qed.

Lemma intersect_percentage_nonneg (a b : AABB.t) :
  0 < AABB.width a -> 0 < AABB.height a -> 0 <= AABB.get_intersect_percentage a b.
Proof. intros. apply AABBFacts.get_intersect_percentage_bounds; assumption. Qed.

Lemma accumulate_mono (b : AABB.t) (p : Q) (obstacles : list Obstacle.t) :
  0 < AABB.width b -> 0 < AABB.height b -> p <= accumulate b p obstacles.
Proof.
  intros Hw Hh. unfold accumulate. revert p.
  induction obstacles as [|o os IH]; intros p; simpl; [lra|].
  pose proof (intersect_percentage_nonneg b (Obstacle.box o) Hw Hh).
  specialize (IH (p + AABB.get_intersect_percentage b (Obstacle.box o))). lra.
Qed.

Lemma new_node_ok (tp ts : Q) (b : AABB.t) :
  0 < AABB.width b -> 0 < AABB.height b ->
  boxes_ok (new_node b) /\ internal_ok tp ts (new_node b).
Proof. intros; simpl; tauto. Qed.

Lemma split_box_pos (b : AABB.t) (q : quadrant) :
  0 < AABB.width b -> 0 < AABB.height b ->
  0 < AABB.width (split_box b q) /\ 0 < AABB.height (split_box b q).
Proof. intros; destruct q; simpl; split; qlra. Qed.

(** The unfolding equation of one level of [update_percentage_and_split]. *)
Lemma update_S (fuel : nat) (obs : list Obstacle.t) (tp ts : Q) (t : qnode) :
  update_percentage_and_split (S fuel) obs tp ts t =
  let i := info t in
  let t0 := with_info t (mk_info (box i) (accumulate (box i) (percentage i) obs) (value i)) in
  let t1 := set_value tp ts t0 in
  if Z.eqb (value (info t1)) (-1) then
    let t2 := if is_leaf t1 then split t1 else t1 in
    match t2 with
    | QLeaf _ => Some t2
    | QSplit i2 nw ne sw se =>
        let rec := update_percentage_and_split fuel obs tp ts in
        match rec nw, rec ne, rec sw, rec se with
        | Some nw', Some ne', Some sw', Some se' => Some (QSplit i2 nw' ne' sw' se')
        | _, _, _, _ => None
        end
    end
  else Some t1.
Proof. reflexivity. Qed.

Lemma update_box (fuel : nat) (obs : list Obstacle.t) (tp ts : Q) (t t' : qnode) :
  update_percentage_and_split fuel obs tp ts t = Some t' -> box (info t') = box (info t).
Proof.
  destruct fuel as [|f]; simpl; [discriminate|]. intros Hu.
  pose proof (set_value_info tp ts
    (with_info t (mk_info (box (info t)) (accumulate (box (info t)) (percentage (info t)) obs)
                          (value (info t))))) as [Eb _].
  rewrite info_with_info in Eb; simpl in Eb.
  destruct (Z.eqb _ _); [|injection Hu as <-; exact Eb].
  destruct (is_leaf _); [unfold split in Hu|];
    destruct (set_value _ _ _) as [i1|i1 ? ? ? ?] in Hu, Eb |- *;
    simpl in Hu, Eb; destruct_rec_in Hu; try discriminate; injection Hu as <-; exact Eb.
Qed.

Lemma split_node_ok (tp ts : Q) (i : ninfo) (nw ne sw se : qnode) :
  (value i = -1)%Z -> ts < AABB.width (box i) -> ts < AABB.height (box i) ->
  tp < percentage i -> percentage i < 1 - tp ->
  0 < AABB.width (box i) -> 0 < AABB.height (box i) ->
  (forall q c, child q (QSplit i nw ne sw se) = Some c ->
     box (info c) = split_box (box i) q /\ boxes_ok c /\ internal_ok tp ts c /\
     leaves_classified c) ->
  boxes_ok (QSplit i nw ne sw se) /\ internal_ok tp ts (QSplit i nw ne sw se) /\
  leaves_classified (QSplit i nw ne sw se).
Proof.
  intros ??????? Hc.
  destruct (Hc NW nw eq_refl) as (?&?&?&?), (Hc NE ne eq_refl) as (?&?&?&?),
           (Hc SW sw eq_refl) as (?&?&?&?), (Hc SE se eq_refl) as (?&?&?&?).
  simpl; tauto.
Qed.

(** The invariant of [update_percentage_and_split], by induction on
    the recursion fuel. *)
Lemma update_wf (fuel : nat) (obs : list Obstacle.t) (tp ts : Q) (t t' : qnode) :
  boxes_ok t -> internal_ok tp ts t ->
  update_percentage_and_split fuel obs tp ts t = Some t' ->
  boxes_ok t' /\ internal_ok tp ts t' /\ leaves_classified t'.
Proof.
  revert t t'; induction fuel as [|f IH]; intros t t' Hb Hi Hu; [discriminate|].
  assert (Hrec : forall c c' b, boxes_ok c -> internal_ok tp ts c -> box (info c) = b ->
            update_percentage_and_split f obs tp ts c = Some c' ->
            box (info c') = b /\ boxes_ok c' /\ internal_ok tp ts c' /\ leaves_classified c')
    by (intros c c' b ?? <- Hc; split; [eapply update_box; eassumption | eapply IH; eassumption]).
  simpl in Hu.
  set (p' := accumulate (box (info t)) (percentage (info t)) obs) in Hu.
  set (t0 := with_info t (mk_info (box (info t)) p' (value (info t)))) in Hu.
  assert (Hwh : 0 < AABB.width (box (info t)) /\ 0 < AABB.height (box (info t)))
    by (destruct t; simpl in Hb; tauto).
  assert (Hp : percentage (info t) <= p') by (apply accumulate_mono; tauto).
  pose proof (set_value_info tp ts t0) as [Eb _].
  replace (box (info t0)) with (box (info t)) in Eb
    by (unfold t0; rewrite info_with_info; reflexivity).
  destruct (Z.eqb_spec (value (info (set_value tp ts t0))) (-1)) as [Hm|Hm].
  - destruct (set_value_mixed _ _ _ Hm) as (E1 & Hw & Hh & Hlo & Hhi).
    unfold t0 in Hw, Hh, Hlo, Hhi; rewrite info_with_info in Hw, Hh, Hlo, Hhi; simpl in *.
    rewrite E1 in Hu. unfold set_value_field, t0 in Hu.
    destruct t as [i|i nw ne sw se]; simpl in Hu, Hw, Hh, Hlo, Hhi, Hwh;
      destruct_rec_in Hu; try discriminate; injection Hu as <-;
      apply split_node_ok; simpl; try tauto; intros [] c Hc; injection Hc as <-;
      (eapply Hrec; [| |idtac|eassumption]);
      try (simpl in Hb, Hi; tauto); try reflexivity;
      simpl; repeat split; qlra.
  - injection Hu as <-.
    assert (Hl : is_leaf (set_value tp ts t0) = true).
    { destruct t as [i|i nw ne sw se]; [apply set_value_leaf; reflexivity|].
      apply set_value_prunes; auto; unfold t0; rewrite info_with_info; simpl in Hi, Hp |- *;
        try tauto; lra. }
    pose proof (set_value_settled tp ts t0 Hm) as Hv.
    destruct (set_value tp ts t0) as [i1|] eqn:E1; [|discriminate].
    simpl in Eb, Hv |- *. rewrite Eb. tauto.
Qed.

(** C2: [update_percentage_and_split] keeps the tree well formed and
    classifies it: every box is positive and the children of each split
    node have [split]'s boxes; every internal node is mixed ([value = -1],
    larger than [threshold_size], coverage strictly between the thresholds);
    and every leaf is free (0) or blocked (1) -- a leaf never keeps the
    value -1 of a fresh node. *)
Theorem update_invariant (fuel : nat) (obs : list Obstacle.t) (tp ts : Q) (t t' : qnode) :
  boxes_ok t -> internal_ok tp ts t ->
  update_percentage_and_split fuel obs tp ts t = Some t' ->
  boxes_ok t' /\ internal_ok tp ts t' /\ leaves_classified t'.
Proof. apply update_wf. Qed.

(** C3: [update_percentage_and_split] terminates: a node whose width is at
    most [threshold_size * 2^n] is fully processed with [n + 1] units of
    fuel (each level of recursion halves the width, and a node no wider
    than [threshold_size] is never split).  For the 512-wide region of
    [src/QuadTree.py] and the default size 16, six units suffice. *)
Theorem update_total (n : nat) (obs : list Obstacle.t) (tp ts : Q) (t : qnode) :
  0 < ts -> boxes_ok t -> AABB.width (box (info t)) <= ts * qpow2 n ->
  exists t', update_percentage_and_split (S n) obs tp ts t = Some t'.
Proof.
  revert t; induction n as [|m IH]; intros t Hts Hb Hw; rewrite update_S; cbv zeta.
  all: set (p' := accumulate (box (info t)) (percentage (info t)) obs).
  all: set (t0 := with_info t (mk_info (box (info t)) p' (value (info t)))).
  all: destruct (Z.eqb_spec (value (info (set_value tp ts t0))) (-1)) as [Hm|Hm];
    [|eexists; reflexivity].
  all: destruct (set_value_mixed _ _ _ Hm) as (E1 & Hw' & _).
  all: unfold t0 in Hw'; rewrite info_with_info in Hw'; simpl in Hw'.
  - exfalso. simpl in Hw. lra.
  - rewrite E1. unfold set_value_field, t0.
    assert (Hc : forall c, boxes_ok c -> AABB.width (box (info c)) = AABB.width (box (info t)) / 2 ->
                 exists c', update_percentage_and_split (S m) obs tp ts c = Some c').
    { intros c Hbc Ewc. apply IH; auto. rewrite Ewc. simpl in Hw. qlra. }
    destruct t as [i|i nw ne sw se]; cbn [with_info info is_leaf split box boxes_ok] in Hb |- *.
    + destruct (Hc (new_node (split_box (box i) NW))) as [c1 ->]; [simpl; repeat split; qlra | reflexivity |].
      destruct (Hc (new_node (split_box (box i) NE))) as [c2 ->]; [simpl; repeat split; qlra | reflexivity |].
      destruct (Hc (new_node (split_box (box i) SW))) as [c3 ->]; [simpl; repeat split; qlra | reflexivity |].
      destruct (Hc (new_node (split_box (box i) SE))) as [c4 ->]; [simpl; repeat split; qlra | reflexivity |].
      eexists; reflexivity.
    + destruct Hb as (_ & _ & E1' & E2' & E3' & E4' & B1 & B2 & B3 & B4).
      destruct (Hc nw B1) as [c1 ->]; [rewrite E1'; reflexivity|].
      destruct (Hc ne B2) as [c2 ->]; [rewrite E2'; reflexivity|].
      destruct (Hc sw B3) as [c3 ->]; [rewrite E3'; reflexivity|].
      destruct (Hc se B4) as [c4 ->]; [rewrite E4'; reflexivity|].
      eexists; reflexivity.
Qed.

(** C11 (divergence from the spec's scenario 9): when the obstacles cover at
    most [threshold_percentage] of a fresh node, [update_percentage_and_split]
    classifies the whole node free and does not split it -- obstacles that
    small are invisible to the planner, however large they are compared with
    the minimum cell. *)
Theorem update_small_obstacles_free (fuel : nat) (obs : list Obstacle.t) (tp ts : Q) (b : AABB.t) :
  accumulate b 0 obs <= tp ->
  update_percentage_and_split (S fuel) obs tp ts (new_node b) =
  Some (QLeaf (mk_info b (accumulate b 0 obs) 0)).
Proof.
  intros H. rewrite update_S. cbv zeta. cbn [info with_info new_node box percentage value].
  unfold set_value, set_value_field; cbn [info with_info box percentage value].
  apply Qle_bool_iff in H. rewrite H.
  destruct (_ && _); reflexivity.
Qed.

Lemma update_small_obstacles_free_witness :
  update_percentage_and_split 6 [small_obstacle] default_threshold_percentage
    default_threshold_size (new_node region_box) =
  Some (QLeaf (mk_info region_box (accumulate region_box 0 [small_obstacle]) 0)).
Proof.
  apply update_small_obstacles_free. apply Qle_bool_iff. vm_compute. reflexivity.
Defined.

Lemma update_invariant_witness :
  match update_percentage_and_split 6 [small_obstacle] (1 # 1000) 128 (new_node region_box) with
  | Some t' => boxes_ok t' /\ internal_ok (1 # 1000) 128 t' /\ leaves_classified t'
  | None => False
  end.
Proof.
  destruct (update_percentage_and_split 6 [small_obstacle] (1 # 1000) 128 (new_node region_box))
    as [t'|] eqn:E; [|vm_compute in E; discriminate E].
  apply (update_invariant 6 [small_obstacle] (1 # 1000) 128 (new_node region_box) t');
    [simpl; split; [reflexivity|split; [reflexivity|exact I]] | exact I | exact E].
Defined.

Lemma update_total_witness :
  exists t', update_percentage_and_split 6 [small_obstacle] (1 # 1000) default_threshold_size
               (new_node region_box) = Some t'.
Proof.
  apply (update_total 5 [small_obstacle] (1 # 1000) default_threshold_size (new_node region_box));
    [reflexivity | simpl; split; [reflexivity|split; [reflexivity|exact I]]
    | vm_compute; discriminate].
Defined.

Lemma split_partition_witness :
  AABB.get_area (split_box region_box NW) + AABB.get_area (split_box region_box NE) +
  AABB.get_area (split_box region_box SW) + AABB.get_area (split_box region_box SE)
    == AABB.get_area region_box /\
  (forall q q', q <> q' ->
     AABB.get_intersect_area (split_box region_box q) (split_box region_box q') == 0) /\
  (forall q p, AABB.contains (split_box region_box q) p -> AABB.contains region_box p).
Proof. apply split_partition; unfold Qle; simpl; lia. Defined.

Lemma get_quadrant_contains_witness :
  AABB.contains (split_box region_box (AABB.get_quadrant region_box (100, 400))) (100, 400).
Proof.
  apply get_quadrant_contains. unfold AABB.contains; simpl; unfold Qle; simpl; lia.
Defined.
