(* ===== verification/Neighbors.v ===== *)
(** * Neighbor finding in the quadtree ([Node.get_*_neighbor] and
    [Node.update_neighbors] of [src/AABB.py])

    The code walks [self.parent] up to the ancestor where the direction is
    resolved by a sibling, then back down while the node it found has
    children.  Nodes are named by addresses ([QuadTree.addr], innermost
    quadrant first), so [self.parent] is the tail of the address and
    [u.get_children() is None] is [has_children root u = false].

    The specification: an address of length [d] names the cell
    [(col, row)] of the [2^d x 2^d] grid of its depth ([cell]); the
    neighbor in direction [(dx, dy)] is the cell [(col + dx, row + dy)] of
    the same depth when it lies in the grid, found by descending from the
    root toward it and stopping at the first leaf ([locate]).  [nb_gen] is
    the parent walk written once for every direction; the eight functions of
    the code are compared with it. *)

From Stdlib Require Import QArith ZArith Lia List Bool.
From S2P Require Import Prelude Geometry QuadTree.
Import ListNotations.
Local Open Scope Z_scope.

(** The subtree at an address, if the address names a node. *)
Fixpoint subtree_at (root : qnode) (a : addr) : option qnode :=
  match a with
  | [] => Some root
  | q :: p =>
      match subtree_at root p with
      | Some t => child q t
      | None => None
      end
  end.

(** [u.get_children() is not None]. *)
Definition has_children (root : qnode) (u : addr) : bool :=
  match subtree_at root u with
  | Some (QSplit _ _ _ _ _) => true
  | _ => false
  end.

(** [if u is None or u.get_children() is None: return u] followed by
    [return u.<q>]. *)
Definition step_down (root : qnode) (u : option addr) (q : quadrant) : option addr :=
  match u with
  | None => None
  | Some u => if has_children root u then Some (q :: u) else Some u
  end.

Fixpoint get_north_neighbor (root : qnode) (a : addr) : option addr :=
  match a with
  | [] => None
  | SW :: p => Some (NW :: p)
  | SE :: p => Some (NE :: p)
  | NW :: p => step_down root (get_north_neighbor root p) SW
  | NE :: p => step_down root (get_north_neighbor root p) SE
  end.

Fixpoint get_south_neighbor (root : qnode) (a : addr) : option addr :=
  match a with
  | [] => None
  | NW :: p => Some (SW :: p)
  | NE :: p => Some (SE :: p)
  | SW :: p => step_down root (get_south_neighbor root p) NW
  | SE :: p => step_down root (get_south_neighbor root p) NE
  end.

Fixpoint get_left_neighbor (root : qnode) (a : addr) : option addr :=
  match a with
  | [] => None
  | NE :: p => Some (NW :: p)
  | SE :: p => Some (SW :: p)
  | NW :: p => step_down root (get_left_neighbor root p) NE
  | SW :: p => step_down root (get_left_neighbor root p) SE
  end.

Fixpoint get_right_neighbor (root : qnode) (a : addr) : option addr :=
  match a with
  | [] => None
  | NW :: p => Some (NE :: p)
  | SW :: p => Some (SE :: p)
  | NE :: p => step_down root (get_right_neighbor root p) NW
  | SE :: p => step_down root (get_right_neighbor root p) SW
  end.

Fixpoint get_north_west_neighbor (root : qnode) (a : addr) : option addr :=
  match a with
  | [] => None
  | SE :: p => Some (NW :: p)
  | NE :: p => step_down root (get_north_neighbor root p) SW
  | SW :: p => step_down root (get_left_neighbor root p) NE
  | NW :: p => step_down root (get_north_west_neighbor root p) SE
  end.

Fixpoint get_north_east_neighbor (root : qnode) (a : addr) : option addr :=
  match a with
  | [] => None
  | SW :: p => Some (NE :: p)
  | NW :: p => step_down root (get_north_neighbor root p) SE
  | SE :: p => step_down root (get_right_neighbor root p) NW
  | NE :: p => step_down root (get_north_east_neighbor root p) SW
  end.

(** The region-SE branch tests [u.get_children()] for truth instead of
    [u.get_children() is None]: it returns [u] itself when [u] has children
    and [u.NW], which is [None], when [u] is a leaf. *)
Fixpoint get_south_west_neighbor (root : qnode) (a : addr) : option addr :=
  match a with
  | [] => None
  | NE :: p => Some (SW :: p)
  | SE :: p =>
      match get_south_neighbor root p with
      | None => None
      | Some u => if has_children root u then Some u else None
      end
  | NW :: p => step_down root (get_left_neighbor root p) SE
  | SW :: p => step_down root (get_south_west_neighbor root p) NE
  end.

Fixpoint get_south_east_neighbor (root : qnode) (a : addr) : option addr :=
  match a with
  | [] => None
  | NW :: p => Some (SE :: p)
  | NE :: p => step_down root (get_right_neighbor root p) SW
  | SW :: p => step_down root (get_south_neighbor root p) NE
  | SE :: p => step_down root (get_south_east_neighbor root p) NW
  end.

(** [if north: self.neighbors += north.get_south_children()] and its seven
    siblings: collect the boundary leaves of a found neighbor. *)
Definition collect (root : qnode) (u : option addr) (f : addr -> qnode -> list addr) : list addr :=
  match u with
  | None => []
  | Some u => match subtree_at root u with Some t => f u t | None => [] end
  end.

(** [Node.update_neighbors]: the neighbor list of node [a], appended to the
    list [neighbors] it already has. *)
Definition update_neighbors (root : qnode) (a : addr) (neighbors : list addr) : list addr :=
  neighbors ++
  collect root (get_north_neighbor root a) get_south_children ++
  collect root (get_south_neighbor root a) get_north_children ++
  collect root (get_left_neighbor root a) get_right_children ++
  collect root (get_right_neighbor root a) get_left_children ++
  collect root (get_north_west_neighbor root a) get_south_east_children ++
  collect root (get_north_east_neighbor root a) get_south_west_children ++
  collect root (get_south_west_neighbor root a) get_north_east_children ++
  collect root (get_south_east_neighbor root a) get_north_west_children.

(** ** Specification: cells of the grid of each depth *)

Definition east (q : quadrant) : Z := match q with NE | SE => 1 | _ => 0 end.
Definition south (q : quadrant) : Z := match q with SW | SE => 1 | _ => 0 end.

(** The quadrant of a cell inside its parent, from the parities of its
    column and row. *)
Definition quad_of (e s : Z) : quadrant :=
  if Z.eqb e 0 then (if Z.eqb s 0 then NW else SW) else (if Z.eqb s 0 then NE else SE).

(** Column and row of a node in the grid of its depth. *)
Fixpoint cell (a : addr) : Z * Z :=
  match a with
  | [] => (0, 0)
  | q :: p => let '(c, r) := cell p in (2 * c + east q, 2 * r + south q)
  end.

(** The address of cell [(c, r)] at depth [d]. *)
Fixpoint cell_addr (c r : Z) (d : nat) : addr :=
  match d with
  | O => []
  | S d' => quad_of (c mod 2) (r mod 2) :: cell_addr (c / 2) (r / 2) d'
  end.

(** Descend from the root toward the node [a] names, stopping at the
    first leaf. *)
Fixpoint locate (root : qnode) (a : addr) : addr :=
  match a with
  | [] => []
  | q :: p => let u := locate root p in if has_children root u then q :: u else u
  end.

Definition in_grid (d : nat) (c r : Z) : bool :=
  (0 <=? c) && (c <? 2 ^ Z.of_nat d) && (0 <=? r) && (r <? 2 ^ Z.of_nat d).

(** The neighbor of [a] in direction [(dx, dy)]: the node met descending
    toward the cell [(col + dx, row + dy)] of [a]'s depth, if that cell is
    in the grid. *)
Definition neighbor_spec (root : qnode) (dx dy : Z) (a : addr) : option addr :=
  let '(c, r) := cell a in
  if in_grid (length a) (c + dx) (r + dy)
  then Some (locate root (cell_addr (c + dx) (r + dy) (length a)))
  else None.

(** The parent walk of the code, written once for every direction: a
    sibling answers when the offset stays inside the parent; otherwise ask
    the parent in the direction the offset leaves it, then step down. *)
Fixpoint nb_gen (root : qnode) (dx dy : Z) (a : addr) : option addr :=
  match a with
  | [] => None
  | q :: p =>
      let ex := east q + dx in
      let sy := south q + dy in
      let qc := quad_of (ex mod 2) (sy mod 2) in
      if Z.eqb (ex / 2) 0 && Z.eqb (sy / 2) 0 then Some (qc :: p)
      else step_down root (nb_gen root (ex / 2) (sy / 2) p) qc
  end.

(** A sample tree over the 512 x 512 region of [src/QuadTree.py]: the root
    split, and its NW and SW children split again. *)
Definition sample_tree : qnode :=
  let b := region_box in
  QSplit (mk_info b (1 # 10) (-1))
    (split (new_node (split_box b NW))) (new_node (split_box b NE))
    (split (new_node (split_box b SW))) (new_node (split_box b SE)).

(** ** Cells and addresses *)

Lemma pow2_succ (d : nat) : 2 ^ Z.of_nat (S d) = 2 * 2 ^ Z.of_nat d.
Proof. rewrite Nat2Z.inj_succ, Z.pow_succ_r; lia. Qed.

Lemma pow2_pos (d : nat) : 0 < 2 ^ Z.of_nat d.
Proof. apply Z.pow_pos_nonneg; lia. Qed.

Lemma cell_bounds (a : addr) :
  0 <= fst (cell a) < 2 ^ Z.of_nat (length a) /\ 0 <= snd (cell a) < 2 ^ Z.of_nat (length a).
Proof.
  induction a as [|q p IH]; [simpl; lia|].
  cbn [cell length]. rewrite pow2_succ.
  destruct (cell p) as [c r]; cbn [fst snd] in *.
  destruct q; cbn [east south]; lia.
Qed.

Lemma quad_of_east_south (q : quadrant) : quad_of (east q) (south q) = q.
Proof. destruct q; reflexivity. Qed.

(** Round trip: the address of the cell of [a] is [a]. *)
Lemma cell_addr_cell (a : addr) :
  cell_addr (fst (cell a)) (snd (cell a)) (length a) = a.
Proof.
  induction a as [|q p IH]; [reflexivity|]. cbn [cell length cell_addr].
  destruct (cell p) as [c r] eqn:E; cbn [fst snd] in *.
  replace ((2 * c + east q) mod 2) with (east q) by (destruct q; cbn [east]; zlia).
  replace ((2 * r + south q) mod 2) with (south q) by (destruct q; cbn [south]; zlia).
  replace ((2 * c + east q) / 2) with c by (destruct q; cbn [east]; zlia).
  replace ((2 * r + south q) / 2) with r by (destruct q; cbn [south]; zlia).
  rewrite quad_of_east_south, IH. reflexivity.
Qed.

(** A node's parent has children. *)
Lemma subtree_at_parent (root : qnode) (q : quadrant) (p : addr) :
  subtree_at root (q :: p) <> None -> has_children root p = true.
Proof.
  simpl. unfold has_children. destruct (subtree_at root p) as [[]|]; simpl; congruence.
Qed.

(** Descending toward a node that exists reaches it. *)
Lemma locate_node (root : qnode) (a : addr) :
  subtree_at root a <> None -> locate root a = a.
Proof.
  induction a as [|q p IH]; intros H; [reflexivity|].
  pose proof (subtree_at_parent _ _ _ H) as Hp.
  simpl. rewrite IH by (unfold has_children in Hp; destruct (subtree_at root p); congruence).
  rewrite Hp. reflexivity.
Qed.

Lemma in_grid_succ (d : nat) (x y : Z) :
  in_grid (S d) x y = in_grid d (x / 2) (y / 2).
Proof.
  unfold in_grid. rewrite pow2_succ. pose proof (pow2_pos d).
  destruct (0 <=? x) eqn:E1, (x <? 2 * 2 ^ Z.of_nat d) eqn:E2,
           (0 <=? y) eqn:E3, (y <? 2 * 2 ^ Z.of_nat d) eqn:E4,
           (0 <=? x / 2) eqn:E5, (x / 2 <? 2 ^ Z.of_nat d) eqn:E6,
           (0 <=? y / 2) eqn:E7, (y / 2 <? 2 ^ Z.of_nat d) eqn:E8;
    simpl; try reflexivity;
    rewrite ?Z.leb_le, ?Z.leb_gt, ?Z.ltb_lt, ?Z.ltb_ge in *; zlia.
Qed.

(** The generic parent walk meets its specification, for every direction
    [(dx, dy)] other than [(0, 0)] and every node of the tree. *)
Lemma nb_gen_spec (root : qnode) (a : addr) : forall dx dy,
  -1 <= dx <= 1 -> -1 <= dy <= 1 -> (dx <> 0 \/ dy <> 0) ->
  subtree_at root a <> None ->
  nb_gen root dx dy a = neighbor_spec root dx dy a.
Proof.
  induction a as [|q p IH]; intros dx dy Hx Hy Hnz Hv.
  - unfold neighbor_spec, in_grid; cbn.
    destruct (0 <=? dx) eqn:E1, (dx <? 1) eqn:E2, (0 <=? dy) eqn:E3, (dy <? 1) eqn:E4;
      try reflexivity; rewrite ?Z.leb_le, ?Z.ltb_lt in *; lia.
  - pose proof (subtree_at_parent _ _ _ Hv) as Hp.
    assert (Hvp : subtree_at root p <> None)
      by (unfold has_children in Hp; destruct (subtree_at root p); congruence).
    cbn [nb_gen]. unfold neighbor_spec. cbn [cell length].
    destruct (cell p) as [c r] eqn:Ec.
    pose proof (cell_bounds p) as Hb; rewrite Ec in Hb; cbn [fst snd] in Hb.
    pose proof (cell_addr_cell p) as Hr; rewrite Ec in Hr; cbn [fst snd] in Hr.
    rewrite in_grid_succ. cbn [cell_addr].
    replace ((2 * c + east q + dx) / 2) with (c + (east q + dx) / 2) by zlia.
    replace ((2 * r + south q + dy) / 2) with (r + (south q + dy) / 2) by zlia.
    replace ((2 * c + east q + dx) mod 2) with ((east q + dx) mod 2) by zlia.
    replace ((2 * r + south q + dy) mod 2) with ((south q + dy) mod 2) by zlia.
    assert (He : 0 <= east q <= 1 /\ 0 <= south q <= 1) by (destruct q; cbn; lia).
    destruct (Z.eqb ((east q + dx) / 2) 0 && Z.eqb ((south q + dy) / 2) 0) eqn:Hs.
    + apply andb_true_iff in Hs as [Hs1 Hs2]. apply Z.eqb_eq in Hs1, Hs2.
      rewrite Hs1, Hs2, !Z.add_0_r, Hr.
      replace (in_grid (length p) c r) with true
        by (unfold in_grid; symmetry; rewrite !andb_true_iff, !Z.leb_le, !Z.ltb_lt; lia).
      cbn [locate]. rewrite locate_node, Hp by exact Hvp. reflexivity.
    + rewrite IH; [| zlia | zlia | | exact Hvp].
      * unfold neighbor_spec. rewrite Ec.
        destruct (in_grid _ _ _); [unfold step_down; cbn [locate];
           match goal with |- context [has_children ?rt ?u] => destruct (has_children rt u) end|];
          reflexivity.
      * apply andb_false_iff in Hs as [Hs|Hs]; apply Z.eqb_neq in Hs; auto.
Qed.

(** ** The code's eight walks against the generic one *)

Lemma north_gen (root : qnode) (a : addr) : get_north_neighbor root a = nb_gen root 0 (-1) a.
Proof. induction a as [|[] p IH]; cbn [get_north_neighbor]; rewrite ?IH; reflexivity. Qed.

Lemma south_gen (root : qnode) (a : addr) : get_south_neighbor root a = nb_gen root 0 1 a.
Proof. induction a as [|[] p IH]; cbn [get_south_neighbor]; rewrite ?IH; reflexivity. Qed.

Lemma left_gen (root : qnode) (a : addr) : get_left_neighbor root a = nb_gen root (-1) 0 a.
Proof. induction a as [|[] p IH]; cbn [get_left_neighbor]; rewrite ?IH; reflexivity. Qed.

Lemma right_gen (root : qnode) (a : addr) : get_right_neighbor root a = nb_gen root 1 0 a.
Proof. induction a as [|[] p IH]; cbn [get_right_neighbor]; rewrite ?IH; reflexivity. Qed.

Lemma north_west_gen (root : qnode) (a : addr) :
  get_north_west_neighbor root a = nb_gen root (-1) (-1) a.
Proof.
  induction a as [|[] p IH]; cbn [get_north_west_neighbor];
    rewrite ?IH, ?north_gen, ?left_gen; reflexivity.
Qed.

Lemma north_east_gen (root : qnode) (a : addr) :
  get_north_east_neighbor root a = nb_gen root 1 (-1) a.
Proof.
  induction a as [|[] p IH]; cbn [get_north_east_neighbor];
    rewrite ?IH, ?north_gen, ?right_gen; reflexivity.
Qed.

Lemma south_east_gen (root : qnode) (a : addr) :
  get_south_east_neighbor root a = nb_gen root 1 1 a.
Proof.
  induction a as [|[] p IH]; cbn [get_south_east_neighbor];
    rewrite ?IH, ?south_gen, ?right_gen; reflexivity.
Qed.

(** Outside the region-SE branch the south-west walk is the generic one:
    it is right for every node whose address has no SE step. *)
Lemma south_west_gen (root : qnode) (a : addr) :
  ~ In SE a -> get_south_west_neighbor root a = nb_gen root (-1) 1 a.
Proof.
  induction a as [|q p IH]; intros Hn; [reflexivity|].
  destruct q; cbn [get_south_west_neighbor];
    [rewrite left_gen | reflexivity | rewrite IH by (intros H; apply Hn; right; exact H)
    | exfalso; apply Hn; left; reflexivity]; reflexivity.
Qed.

(** C8: the four cardinal walks ([get_north_neighbor], [get_south_neighbor],
    [get_left_neighbor], [get_right_neighbor]) of any node of the tree
    return exactly the specified neighbor: [None] at the border of the
    region, otherwise the node reached by descending toward the adjacent
    cell of the same depth and stopping at the first leaf (the same-size
    neighbor, or the larger leaf that covers it). *)
Theorem cardinal_neighbors_spec (root : qnode) (a : addr) :
  subtree_at root a <> None ->
  get_north_neighbor root a = neighbor_spec root 0 (-1) a /\
  get_south_neighbor root a = neighbor_spec root 0 1 a /\
  get_left_neighbor root a = neighbor_spec root (-1) 0 a /\
  get_right_neighbor root a = neighbor_spec root 1 0 a.
Proof.
  intros Hv. rewrite north_gen, south_gen, left_gen, right_gen.
  repeat split; apply nb_gen_spec; auto; lia.
Qed.

(** C9: the north-west, north-east and south-east walks return the
    specified diagonal neighbor of every node, and so does the south-west
    walk for every node whose address has no SE step. *)
Theorem diagonal_neighbors_spec (root : qnode) (a : addr) :
  subtree_at root a <> None ->
  get_north_west_neighbor root a = neighbor_spec root (-1) (-1) a /\
  get_north_east_neighbor root a = neighbor_spec root 1 (-1) a /\
  get_south_east_neighbor root a = neighbor_spec root 1 1 a /\
  (~ In SE a -> get_south_west_neighbor root a = neighbor_spec root (-1) 1 a).
Proof.
  intros Hv. rewrite north_west_gen, north_east_gen, south_east_gen.
  repeat split; try intros Hn; rewrite ?south_west_gen by exact Hn;
    apply nb_gen_spec; auto; lia.
Qed.

(** C10 (code bug): for a node in the SE quadrant of its parent, whose
    parent has a south neighbor [u], [get_south_west_neighbor] returns [u]
    itself when [u] is split (the specification asks for [u.NW]) and
    [None] when [u] is a leaf (the specification asks for [u]): the answer
    is wrong in both cases. *)
Theorem south_west_neighbor_bug (root : qnode) (p : addr) (u : addr) :
  subtree_at root (SE :: p) <> None -> get_south_neighbor root p = Some u ->
  get_south_west_neighbor root (SE :: p) = (if has_children root u then Some u else None) /\
  neighbor_spec root (-1) 1 (SE :: p) = Some (if has_children root u then NW :: u else u).
Proof.
  intros Hv Hu. split.
  - cbn [get_south_west_neighbor]. rewrite Hu. reflexivity.
  - rewrite <- nb_gen_spec by (auto; lia). cbn [nb_gen].
    change (nb_gen root ((east SE + -1) / 2) ((south SE + 1) / 2) p) with (nb_gen root 0 1 p).
    rewrite <- south_gen, Hu. unfold step_down.
    destruct (has_children root u); reflexivity.
Qed.

(** The consequence of the bug of [get_south_west_neighbor] on the
    sample tree: the leaf in the SE
    quadrant of the NW quadrant touches the leaf NW of the SW quadrant at
    its south-west corner, but [update_neighbors] does not list it; it lists
    the leaf below it (NE of SW) twice instead. *)
Lemma update_neighbors_misses_south_west :
  neighbor_spec sample_tree (-1) 1 [SE; NW] = Some [NW; SW] /\
  ~ In [NW; SW] (update_neighbors sample_tree [SE; NW] []) /\
  count_occ (list_eq_dec quadrant_eq_dec) (update_neighbors sample_tree [SE; NW] []) [NE; SW] = 2%nat.
Proof.
  split; [vm_compute; reflexivity|]. split; [|vm_compute; reflexivity].
  intros H. apply (In_nth_error _) in H as [n Hn].
  do 9 (destruct n as [|n]; [vm_compute in Hn; discriminate Hn|]). vm_compute in Hn. discriminate Hn.
Qed.

(** ** Witnesses *)

Lemma cardinal_neighbors_spec_witness :
  get_north_neighbor sample_tree [SE; NW] = neighbor_spec sample_tree 0 (-1) [SE; NW] /\
  get_south_neighbor sample_tree [SE; NW] = neighbor_spec sample_tree 0 1 [SE; NW] /\
  get_left_neighbor sample_tree [SE; NW] = neighbor_spec sample_tree (-1) 0 [SE; NW] /\
  get_right_neighbor sample_tree [SE; NW] = neighbor_spec sample_tree 1 0 [SE; NW].
Proof. apply cardinal_neighbors_spec. vm_compute. discriminate. Defined.

Lemma diagonal_neighbors_spec_witness :
  get_north_west_neighbor sample_tree [SE; NW] = neighbor_spec sample_tree (-1) (-1) [SE; NW] /\
  get_north_east_neighbor sample_tree [SE; NW] = neighbor_spec sample_tree 1 (-1) [SE; NW] /\
  get_south_east_neighbor sample_tree [SE; NW] = neighbor_spec sample_tree 1 1 [SE; NW] /\
  (~ In SE [SE; NW] ->
   get_south_west_neighbor sample_tree [SE; NW] = neighbor_spec sample_tree (-1) 1 [SE; NW]).
Proof. apply diagonal_neighbors_spec. vm_compute. discriminate. Defined.

Lemma south_west_neighbor_bug_witness :
  get_south_west_neighbor sample_tree [SE; NW] =
    (if has_children sample_tree [SW] then Some [SW] else None) /\
  neighbor_spec sample_tree (-1) 1 [SE; NW] =
    Some (if has_children sample_tree [SW] then [NW; SW] else [SW]).
Proof.
  apply south_west_neighbor_bug; [vm_compute; discriminate | reflexivity].
Defined.
