(* ===== verification/Solver.v ===== *)
(** * The solvers ([src/Solver.py]) and the search fields of [Node]
    ([calculate_key], [calculate_rhs], [cost] of [src/AABB.py])

    The Python solvers mutate the nodes of the graph in place and keep a
    [SortedList] of borrowed node references ordered by their [key]
    attribute.  Here the nodes live in a store ([gmap] from node names to
    their search fields); the queue is a list of names kept ordered by the
    stored keys, [SortedList.add] inserting after the equal keys
    ([bisect_right]) and [SortedList.discard] removing the node if present.
    The code threads this store through every call, so the operations are
    written in a small state-and-error monad [M]; Python's exceptions
    ([ValueError] of [min([])], [IndexError] of [pop] on an empty list) are
    values of [error], and the [while] loops carry fuel ([OutOfFuel]).

    The section is generic in the type [V] of node names: the quadtree
    environment names leaves by their address, the grid by coordinates. *)

From Stdlib Require Import QArith Qminmax Lqa ZArith Lia Sorting.
From stdpp Require Import base gmap list.
From S2P Require Import Prelude Geometry.
Local Open Scope Q_scope.

Inductive error : Type :=
| ValueError   (** [min] of an empty sequence *)
| IndexError   (** [pop(0)] on an empty queue *)
| KeyError     (** a node name that is not in the graph *)
| OutOfFuel.   (** a [while] loop ran longer than its fuel *)

Section Solvers.

Context {V : Type} `{EqDecision V} `{!Countable V}.

(** The fields of a [Node] the solvers read and write. *)
Record vnode : Type := mk_vnode {
  nbox : AABB.t;
  value : Z;
  g : ext;
  rhs : ext;
  h : Q;
  key : Prelude.key;
  neighbors : list V
}.

Record state : Type := mk_state {
  nodes : gmap V vnode;
  queue : list V;
  current : V;
  goal : V
}.

(** ** Node methods (pure) *)

(** [Node.calculate_key]: [[min(g, rhs) + h, min(g, rhs)]]. *)
Definition calculate_key (n : vnode) : Prelude.key :=
  let m := ext_min (g n) (rhs n) in (ext_add m (Fin (h n)), m).

(** [cost(node1, node2)] of [src/AABB.py], with Python's precedence:
    [a / b * c] is [(a / b) * c]. *)
Definition eps : Q := 1 # 1000000.

Definition cost (node1 node2 : vnode) : Q :=
  distance (nbox node1) (nbox node2) /
    (1 + eps - Qmin 1 (inject_Z (value node1) * 100)) *
    (1 + eps - Qmin 1 (100 * inject_Z (value node2))).

(** Python's [min(a, b)]: the first argument unless the second is
    strictly smaller. *)
Definition py_min (a b : ext) : ext := if ext_ltb b a then b else a.

(** [min(list)]: [None] stands for the [ValueError] of an empty list. *)
Definition list_min (l : list ext) : option ext :=
  match l with
  | [] => None
  | x :: r => Some (fold_left py_min r x)
  end.

(** [min(nodes, key=f)]: the first node of least [f]. *)
Definition argmin (f : V -> ext) (l : list V) : option V :=
  match l with
  | [] => None
  | x :: r => Some (fold_left (fun best u => if ext_ltb (f u) (f best) then u else best) r x)
  end.

(** ** The sorted queue *)

Definition key_of (ns : gmap V vnode) (u : V) : Prelude.key :=
  match ns !! u with Some n => key n | None => (Inf, Inf) end.

(** [SortedList.add]: insert after every element whose key is not greater. *)
Fixpoint insert_right (ns : gmap V vnode) (k : Prelude.key) (v : V) (q : list V) : list V :=
  match q with
  | [] => [v]
  | u :: q' => if key_ltb k (key_of ns u) then v :: u :: q' else u :: insert_right ns k v q'
  end.

(** [SortedList.discard]: remove the element if it is present. *)
Fixpoint remove_first (v : V) (q : list V) : list V :=
  match q with
  | [] => []
  | u :: q' => if decide (u = v) then q' else u :: remove_first v q'
  end.

(** ** The state-and-error monad *)

Definition M (A : Type) : Type := state -> error + (A * state).

Definition ret {A} (a : A) : M A := fun s => inr (a, s).
Definition fail {A} (e : error) : M A := fun _ => inl e.
Definition bind {A B} (m : M A) (k : A -> M B) : M B :=
  fun s => match m s with inl e => inl e | inr (a, s') => k a s' end.
Definition get : M state := fun s => inr (s, s).
Definition put (s : state) : M unit := fun _ => inr (tt, s).

End Solvers.

Arguments vnode V : clear implicits.
Arguments state V {_ _}.
Arguments M V {_ _} A.

Declare Scope solver_scope.
Delimit Scope solver_scope with solver.
Notation "x <- m ;; k" := (bind m (fun x => k))
  (at level 100, m at next level, right associativity) : solver_scope.
Notation "m ;;; k" := (bind m (fun _ => k))
  (at level 100, right associativity) : solver_scope.
Local Open Scope solver_scope.

(** Decidable (syntactic) equality of rationals and keys, for the
    executable invariant check. *)
#[export] Instance Q_eq_dec_syn : EqDecision Q.
Proof.
  intros [a b] [c d]. destruct (decide (a = c)), (decide (b = d));
    [left; congruence|right; congruence..].
Defined.

#[export] Instance ext_eq_dec : EqDecision ext.
Proof. solve_decision. Defined.

Section Operations.

Context {V : Type} `{EqDecision V} `{!Countable V}.

Definition get_node (v : V) : M V (vnode V) :=
  s <- get;; match nodes s !! v with Some n => ret n | None => fail KeyError end.

Definition put_node (v : V) (n : vnode V) : M V unit :=
  s <- get;; put (mk_state (<[v := n]> (nodes s)) (queue s) (current s) (goal s)).

Definition set_queue (q : list V) : M V unit :=
  s <- get;; put (mk_state (nodes s) q (current s) (goal s)).

Definition set_g (v : V) (x : ext) : M V unit :=
  n <- get_node v;; put_node v (mk_vnode (nbox n) (value n) x (rhs n) (h n) (key n) (neighbors n)).

Definition set_rhs (v : V) (x : ext) : M V unit :=
  n <- get_node v;; put_node v (mk_vnode (nbox n) (value n) (g n) x (h n) (key n) (neighbors n)).

Definition set_node_value (v : V) (x : Z) : M V unit :=
  n <- get_node v;; put_node v (mk_vnode (nbox n) x (g n) (rhs n) (h n) (key n) (neighbors n)).

(** [vertex.calculate_key()]: stores the key in the node and returns it. *)
Definition calc_key (v : V) : M V Prelude.key :=
  n <- get_node v;;
  let k := calculate_key n in
  put_node v (mk_vnode (nbox n) (value n) (g n) (rhs n) (h n) k (neighbors n));;; ret k.

(** [vertex.calculate_rhs()]. *)
Definition calculate_rhs (v : V) : M V ext :=
  n <- get_node v;;
  s <- get;;
  let costs := map (fun u => match nodes s !! u with
                             | Some nu => Some (ext_add (Fin (cost n nu)) (g nu))
                             | None => None end) (neighbors n) in
  match mapM id costs with
  | None => fail KeyError
  | Some cs => match list_min cs with
               | None => fail ValueError
               | Some m => set_rhs v m;;; ret m
               end
  end.

Definition queue_add (v : V) : M V unit :=
  s <- get;; set_queue (insert_right (nodes s) (key_of (nodes s) v) v (queue s)).

Definition queue_discard (v : V) : M V unit :=
  s <- get;; set_queue (remove_first v (queue s)).

(** [self.queue.pop(0)]. *)
Definition queue_pop : M V V :=
  s <- get;;
  match queue s with
  | [] => fail IndexError
  | v :: q => set_queue q;;; ret v
  end.

Fixpoint iter (f : V -> M V unit) (l : list V) : M V unit :=
  match l with
  | [] => ret tt
  | u :: l' => f u;;; iter f l'
  end.

(** ** D* Lite ([DStarLiteSolver]) *)

(** [DStarLiteSolver.update_vertex]. *)
Definition update_vertex (v : V) : M V unit :=
  s <- get;;
  (if decide (v = goal s) then ret tt else calculate_rhs v;;; ret tt);;;
  queue_discard v;;;
  n <- get_node v;;
  if ext_eqb (g n) (rhs n) then ret tt
  else calc_key v;;; queue_add v.

(** The condition of the [while] loop of [DStarLiteSolver.compute_path]:
    [(queue and queue[0].key < current.calculate_key()) or
     current.g != current.rhs], evaluated left to right. *)
Definition loop_cond : M V bool :=
  s <- get;;
  b <- (match queue s with
        | [] => ret false
        | u :: _ => nu <- get_node u;; kc <- calc_key (current s);; ret (key_ltb (key nu) kc)
        end);;
  cur <- get_node (current s);;
  ret (b || negb (ext_eqb (g cur) (rhs cur))).

(** The body of the loop. *)
Definition compute_step : M V unit :=
  v <- queue_pop;;
  nv <- get_node v;;
  if ext_ltb (rhs nv) (g nv) then
    set_g v (rhs nv);;; iter update_vertex (neighbors nv)
  else
    set_g v Inf;;; update_vertex v;;; iter update_vertex (neighbors nv).

(** [DStarLiteSolver.compute_path], with at most [fuel] iterations. *)
Fixpoint compute_path (fuel : nat) : M V unit :=
  c <- loop_cond;;
  if c then
    match fuel with
    | O => fail OutOfFuel
    | S f => compute_step;;; compute_path f
    end
  else ret tt.

(** The path extraction of [show_path]: from [current], step to the
    neighbor of least [f] until [goal]. *)
Fixpoint walk (f : vnode V -> ext) (fuel : nat) (cur : V) : M V (list V) :=
  s <- get;;
  if decide (cur = goal s) then ret []
  else match fuel with
       | O => fail OutOfFuel
       | S fu =>
           n <- get_node cur;;
           match argmin (fun u => match nodes s !! u with Some nu => f nu | None => Inf end)
                        (neighbors n) with
           | None => fail ValueError
           | Some nxt => rest <- walk f fu nxt;; ret (nxt :: rest)
           end
       end.

(** [DStarLiteSolver.show_path]. *)
Definition show_path (fuel : nat) : M V (list V) :=
  compute_path fuel;;;
  s <- get;;
  p <- walk g fuel (current s);;
  ret (current s :: p).

(** The scan of one neighbor in [replan_path]: accumulate the covered
    fraction obstacle by obstacle and stop as soon as it reaches the
    threshold. *)
Definition replan_threshold : Q := 1 # 1000.

Fixpoint scan (b : AABB.t) (obstacles : list Obstacle.t) (p : Q) : Q :=
  match obstacles with
  | [] => p
  | o :: r =>
      let p' := p + AABB.get_intersect_percentage b (Obstacle.box o) in
      if Qle_bool replan_threshold p' then p' else scan b r p'
  end.

(** Reclassify one neighbor; [true] when its value changed. *)
Definition reclassify (obstacles : list Obstacle.t) (u : V) : M V bool :=
  n <- get_node u;;
  let p := scan (nbox n) obstacles 0 in
  if Qle_bool replan_threshold p then
    (if Z.eqb (value n) 1 then ret false else set_node_value u 1;;; ret true)
  else
    (set_node_value u 0;;; ret (negb (Z.eqb (value n) 0))).

Fixpoint reclassify_all (obstacles : list Obstacle.t) (l : list V) : M V (list V) :=
  match l with
  | [] => ret []
  | u :: l' =>
      c <- reclassify obstacles u;;
      rest <- reclassify_all obstacles l';;
      ret (if c then u :: rest else rest)
  end.

(** [DStarLiteSolver.replan_path(obstacles)]. *)
Definition replan_path (fuel : nat) (obstacles : list Obstacle.t) : M V (list V) :=
  s <- get;;
  cur <- get_node (current s);;
  changes <- reclassify_all obstacles (neighbors cur);;
  iter (fun c => update_vertex c;;; nc <- get_node c;; iter update_vertex (neighbors nc)) changes;;;
  show_path fuel.

(** ** A* ([AStarSolver]) *)

Definition coords (n : vnode V) : Q * Q := (AABB.x (nbox n), AABB.y (nbox n)).

Definition visited_mem (p : Q * Q) (vis : list (Q * Q)) : bool :=
  existsb (fun p' => Qeq_bool (fst p) (fst p') && Qeq_bool (snd p) (snd p')) vis.

(** The relaxation of one neighbor [u] of the popped vertex [v]. *)
Definition relax (vis : list (Q * Q)) (nv : vnode V) (u : V) : M V unit :=
  nu <- get_node u;;
  if visited_mem (coords nu) vis then ret tt
  else
    queue_discard u;;;
    set_rhs u (py_min (rhs nu) (ext_add (rhs nv) (Fin (cost nu nv))));;;
    calc_key u;;; queue_add u.

(** [AStarSolver.compute_path], with at most [fuel] iterations. *)
Fixpoint astar_loop (fuel : nat) (vis : list (Q * Q)) : M V unit :=
  s <- get;;
  match queue s with
  | [] => ret tt
  | _ =>
      match fuel with
      | O => fail OutOfFuel
      | S f =>
          v <- queue_pop;;
          s' <- get;;
          if decide (v = current s') then ret tt
          else
            nv <- get_node v;;
            let vis' := coords nv :: vis in
            iter (relax vis' nv) (neighbors nv);;; astar_loop f vis'
      end
  end.

Definition astar_compute_path (fuel : nat) : M V unit := astar_loop fuel [].

(** [AStarSolver.show_path] (and [replan_path], which only calls it). *)
Definition astar_show_path (fuel : nat) : M V (list V) :=
  astar_compute_path fuel;;;
  s <- get;;
  p <- walk rhs fuel (current s);;
  ret (current s :: p).

(** The start of a search in the main loop ([src/QuadTree.py]): a fresh
    [SortedList], [env.goal.rhs = 0], [env.goal.calculate_key()],
    [priority_queue.add(env.goal)]. *)
Definition start_search : M V unit :=
  s <- get;;
  set_queue [];;; set_rhs (goal s) (Fin 0);;; calc_key (goal s);;; queue_add (goal s).

End Operations.

(** ** The queue invariant *)

Section Invariant.

Context {V : Type} `{EqDecision V} `{!Countable V}.

Definition consistent (n : vnode V) : Prop := ext_eqb (g n) (rhs n) = true.

(** [u] is not after [w] in key order (keys read from the store). *)
Definition kle (ns : gmap V (vnode V)) (u w : V) : Prop :=
  key_leb (key_of ns u) (key_of ns w) = true.

(** The D* Lite queue invariant, except for the nodes satisfying [P]: the
    queue has no duplicates; every queued node is locally inconsistent
    ([g != rhs]) and carries its current key; every inconsistent node not in
    [P] is queued; and the queue is ordered by the stored keys. *)
Definition inv_but (P : V -> Prop) (s : state V) : Prop :=
  NoDup (queue s) /\
  (forall w, w ∈ queue s ->
     exists n, nodes s !! w = Some n /\ ~ consistent n /\ key n = calculate_key n) /\
  (forall w n, nodes s !! w = Some n -> ~ consistent n -> ~ P w -> w ∈ queue s) /\
  StronglySorted (kle (nodes s)) (queue s).

Definition queue_inv (s : state V) : Prop := inv_but (fun _ => False) s.

(** The exit condition of [compute_path]: [current] is consistent, and the
    queue is empty or its first key is not below [current]'s key, which is
    stored in [current] whenever the queue is not empty. *)
Definition path_ready (s : state V) : Prop :=
  exists n, nodes s !! current s = Some n /\ consistent n /\
    forall u q, queue s = u :: q ->
      key n = calculate_key n /\ key_ltb (key_of (nodes s) u) (calculate_key n) = false.

Definition upd (s : state V) (v : V) (n : vnode V) : state V :=
  mk_state (<[v := n]> (nodes s)) (queue s) (current s) (goal s).

Definition setq (s : state V) (q : list V) : state V :=
  mk_state (nodes s) q (current s) (goal s).

Definition with_g (n : vnode V) (x : ext) : vnode V :=
  mk_vnode (nbox n) (value n) x (rhs n) (h n) (key n) (neighbors n).
Definition with_rhs (n : vnode V) (x : ext) : vnode V :=
  mk_vnode (nbox n) (value n) (g n) x (h n) (key n) (neighbors n).
Definition with_key (n : vnode V) (k : Prelude.key) : vnode V :=
  mk_vnode (nbox n) (value n) (g n) (rhs n) (h n) k (neighbors n).

(** The nodes of a freshly built environment: [Node.__init__] sets
    [g = rhs = inf]. *)
Definition fresh_nodes (ns : gmap V (vnode V)) : Prop :=
  forall w n, ns !! w = Some n -> g n = Inf /\ rhs n = Inf.

(** Executable check of [queue_inv] on a concrete state. *)
Fixpoint sortedb (ns : gmap V (vnode V)) (q : list V) : bool :=
  match q with
  | [] => true
  | u :: q' => forallb (fun w => key_leb (key_of ns u) (key_of ns w)) q' && sortedb ns q'
  end.

Definition queue_invb (s : state V) : bool :=
  bool_decide (NoDup (queue s)) &&
  forallb (fun w => match nodes s !! w with
                    | Some n => negb (ext_eqb (g n) (rhs n)) &&
                                bool_decide (key n = calculate_key n)
                    | None => false end) (queue s) &&
  forallb (fun wn => ext_eqb (g wn.2) (rhs wn.2) || bool_decide (wn.1 ∈ queue s))
          (map_to_list (nodes s)) &&
  sortedb (nodes s) (queue s).

End Invariant.

(** ** A concrete instance: three cells in a row, the goal on the right *)

Definition line_cell (x : Q) (nb : list nat) : vnode nat :=
  mk_vnode (AABB.mk x 0 1 1) 0 Inf Inf 0 (Inf, Inf) nb.

Definition line_state : state nat :=
  mk_state (<[2%nat := line_cell 2 [1%nat]]> (<[1%nat := line_cell 1 [0; 2]%nat]>
              (<[0%nat := line_cell 0 [1%nat]]> ∅))) [] 0%nat 2%nat.

Definition run_state {V} `{EqDecision V} `{!Countable V} {A} (m : M V A) (s : state V) : state V :=
  match m s with inr (_, s') => s' | inl _ => s end.

Definition line_started : state nat := run_state start_search line_state.

Definition line_solved : state nat := run_state (compute_path 10) line_started.

(** ** Monad and queue lemmas *)

Section MonadFacts.

Context {V : Type} `{EqDecision V} `{!Countable V}.
Implicit Types (s : state V) (v w u : V) (n : vnode V).

Lemma bind_inr {A B} (m : M V A) (k : A -> M V B) s b s2 :
  bind m k s = inr (b, s2) -> exists a s1, m s = inr (a, s1) /\ k a s1 = inr (b, s2).
Proof. unfold bind. destruct (m s) as [e|[a s1]]; [discriminate|eauto]. Qed.

Lemma get_node_inr v s n s' :
  get_node v s = inr (n, s') -> nodes s !! v = Some n /\ s' = s.
Proof.
  unfold get_node, bind, get, ret, fail; simpl.
  destruct (nodes s !! v) eqn:E; intros H; [injection H as -> ->; auto | discriminate].
Qed.

Lemma set_g_inr v x s (t : unit) s' :
  set_g v x s = inr (t, s') -> exists n, nodes s !! v = Some n /\ s' = upd s v (with_g n x).
Proof.
  unfold set_g. intros (n & s1 & Hn & Hp)%bind_inr. apply get_node_inr in Hn as [Hn ->].
  exists n. split; [exact Hn|]. unfold put_node, bind, get, put in Hp. simpl in Hp.
  injection Hp as _ <-. reflexivity.
Qed.

Lemma set_rhs_inr v x s (t : unit) s' :
  set_rhs v x s = inr (t, s') -> exists n, nodes s !! v = Some n /\ s' = upd s v (with_rhs n x).
Proof.
  unfold set_rhs. intros (n & s1 & Hn & Hp)%bind_inr. apply get_node_inr in Hn as [Hn ->].
  exists n. split; [exact Hn|]. unfold put_node, bind, get, put in Hp. simpl in Hp.
  injection Hp as _ <-. reflexivity.
Qed.

Lemma calc_key_inr v s k s' :
  calc_key v s = inr (k, s') ->
  exists n, nodes s !! v = Some n /\ k = calculate_key n /\ s' = upd s v (with_key n k).
Proof.
  unfold calc_key. intros (n & s1 & Hn & Hp)%bind_inr. apply get_node_inr in Hn as [Hn ->].
  exists n. unfold put_node, bind, get, put, ret in Hp. simpl in Hp. injection Hp as <- <-.
  auto.
Qed.

Lemma calculate_rhs_inr v s m s' :
  calculate_rhs v s = inr (m, s') -> exists n, nodes s !! v = Some n /\ s' = upd s v (with_rhs n m).
Proof.
  unfold calculate_rhs. intros (n & s1 & Hn & Hp)%bind_inr. apply get_node_inr in Hn as [Hn ->].
  exists n. split; [exact Hn|].
  apply bind_inr in Hp as (s2 & s3 & Hg & Hp). unfold get in Hg. injection Hg as <- <-.
  destruct (mapM id _); [|discriminate]. destruct (list_min _); [|discriminate].
  apply bind_inr in Hp as (t & s4 & Hs & Hr). unfold ret in Hr. injection Hr as -> <-.
  apply set_rhs_inr in Hs as (n' & Hn' & ->). rewrite Hn in Hn'. injection Hn' as <-.
  reflexivity.
Qed.

Lemma queue_discard_eq v s : queue_discard v s = inr (tt, setq s (remove_first v (queue s))).
Proof. reflexivity. Qed.

Lemma queue_add_eq v s :
  queue_add v s = inr (tt, setq s (insert_right (nodes s) (key_of (nodes s) v) v (queue s))).
Proof. reflexivity. Qed.

Lemma queue_pop_inr s v s' :
  queue_pop s = inr (v, s') -> exists q, queue s = v :: q /\ s' = setq s q.
Proof.
  unfold queue_pop, bind, get, set_queue, put, ret, fail; simpl.
  destruct (queue s) as [|u q]; [discriminate|]. intros H; injection H as <- <-. eauto.
Qed.

(** [SortedList.discard] and [SortedList.add] on the list. *)
Lemma remove_first_perm v q : v ∈ q -> q ≡ₚ v :: remove_first v q.
Proof.
  induction q as [|u q IH]; simpl; [intros H; inversion H|].
  intros H. case_decide as E; [subst; reflexivity|].
  apply elem_of_cons in H as [->|H]; [congruence|].
  rewrite (IH H) at 1. apply Permutation_swap.
Qed.

Lemma remove_first_notin v q : v ∉ q -> remove_first v q = q.
Proof.
  induction q as [|u q IH]; simpl; [reflexivity|]. intros H.
  case_decide; [subst; set_solver|]. rewrite IH; [reflexivity|set_solver].
Qed.

Lemma remove_first_sublist v q : sublist (remove_first v q) q.
Proof.
  induction q as [|u q IH]; simpl; [constructor|].
  case_decide; [apply sublist_cons; reflexivity|by apply sublist_skip].
Qed.

Lemma insert_right_perm ns k v q : insert_right ns k v q ≡ₚ v :: q.
Proof.
  induction q as [|u q IH]; simpl; [reflexivity|].
  destruct (key_ltb _ _); [reflexivity|]. rewrite IH. apply Permutation_swap.
Qed.

End MonadFacts.

(** ** The invariant under each step of the queue discipline *)

Section InvariantFacts.

Context {V : Type} `{EqDecision V} `{!Countable V}.
Implicit Types (s : state V) (v w u : V) (n : vnode V) (q : list V).

Lemma kle_trans ns u v w : kle ns u v -> kle ns v w -> kle ns u w.
Proof. unfold kle. apply key_leb_trans. Qed.

Lemma sorted_sublist ns q q' :
  sublist q' q -> StronglySorted (kle ns) q -> StronglySorted (kle ns) q'.
Proof.
  induction 1 as [|x l1 l2 Hs IH|x l1 l2 Hs IH]; intros H; [constructor| |].
  - inversion H as [|? ? H1 H2]; subst. constructor; [now apply IH|].
    rewrite Forall_forall in H2 |- *. intros y Hy. apply H2.
    eapply elem_of_sublist; [exact Hy|exact Hs].
  - inversion H; subst. now apply IH.
Qed.

Lemma sorted_ext ns ns' q :
  (forall u, u ∈ q -> key_of ns u = key_of ns' u) ->
  StronglySorted (kle ns) q -> StronglySorted (kle ns') q.
Proof.
  intros He H. induction H as [|x l H IH HF]; constructor.
  - apply IH. intros u Hu. apply He. set_solver.
  - rewrite Forall_forall in HF |- *. intros y Hy. unfold kle in *.
    rewrite <- (He x), <- (He y) by set_solver. now apply HF.
Qed.

Lemma insert_right_sorted ns v q :
  StronglySorted (kle ns) q -> StronglySorted (kle ns) (insert_right ns (key_of ns v) v q).
Proof.
  induction 1 as [|u l H IH HF]; simpl; [repeat constructor|].
  destruct (key_ltb (key_of ns v) (key_of ns u)) eqn:E.
  - constructor; [constructor; assumption|].
    constructor; [unfold kle; now apply key_ltb_leb|].
    rewrite Forall_forall in HF |- *. intros y Hy. eapply kle_trans; [|now apply HF].
    unfold kle; now apply key_ltb_leb.
  - constructor; [exact IH|].
    rewrite Forall_forall in HF |- *. intros y Hy.
    rewrite insert_right_perm, elem_of_cons in Hy.
    destruct Hy as [->|Hy]; [unfold kle; now apply key_ltb_total|].
    apply HF, Hy.
Qed.

Lemma remove_first_notin_nodup v q : NoDup q -> v ∉ remove_first v q.
Proof.
  intros Hn. destruct (decide (v ∈ q)) as [Hv|Hv]; [|now rewrite remove_first_notin].
  pose proof (remove_first_perm v q Hv) as Hp. rewrite Hp in Hn.
  now apply NoDup_cons in Hn as [? _].
Qed.

Lemma inv_but_mono (P P' : V -> Prop) s :
  (forall w, P w -> P' w) -> inv_but P s -> inv_but P' s.
Proof.
  intros HP (H1 & H2 & H3 & H4). repeat split; auto.
  intros w n Hw Hc Hn. apply (H3 w n Hw Hc). auto.
Qed.

Lemma calculate_key_with_key n k : calculate_key (with_key n k) = calculate_key n.
Proof. reflexivity. Qed.

Lemma with_key_id n : with_key n (key n) = n.
Proof. destruct n; reflexivity. Qed.

(** Changing a node and removing it from the queue ([calculate_rhs] then
    [discard] in [update_vertex]): the invariant holds except for it. *)
Lemma discard_upd_inv (P : V -> Prop) s v n' :
  inv_but P s ->
  inv_but (fun w => w = v \/ P w) (setq (upd s v n') (remove_first v (queue s))) /\
  v ∉ remove_first v (queue s).
Proof.
  intros (Hnd & Hs & Hc & Hso). unfold setq, upd, inv_but; simpl.
  assert (Hnot : v ∉ remove_first v (queue s)) by now apply remove_first_notin_nodup.
  assert (Hsub : forall w, w ∈ remove_first v (queue s) -> w ∈ queue s)
    by (intros w Hw; eapply elem_of_sublist; [exact Hw|apply remove_first_sublist]).
  repeat split; try exact Hnot.
  - eapply sublist_NoDup; [exact Hnd|apply remove_first_sublist].
  - intros w Hw. assert (w <> v) by (intros ->; contradiction).
    rewrite lookup_insert_ne by congruence. now apply Hs, Hsub.
  - intros w n Hw Hcn Hp.
    assert (w <> v) by tauto. rewrite lookup_insert_ne in Hw by congruence.
    specialize (Hc w n Hw Hcn ltac:(tauto)).
    destruct (decide (v ∈ queue s)) as [Hv|Hv]; [|now rewrite remove_first_notin].
    rewrite (remove_first_perm v _ Hv), elem_of_cons in Hc. destruct Hc; [congruence|assumption].
  - eapply sorted_ext; [|eapply sorted_sublist; [apply remove_first_sublist|exact Hso]].
    intros u Hu. unfold key_of. rewrite lookup_insert_ne; [reflexivity|]. intros ->; contradiction.
Qed.

(** A node outside the queue that the invariant exempts can be changed. *)
Lemma upd_exempt_inv (P : V -> Prop) s v n' :
  inv_but P s -> v ∉ queue s -> P v -> inv_but P (upd s v n').
Proof.
  intros (Hnd & Hs & Hc & Hso) Hv Pv. unfold upd, inv_but; simpl. repeat split; auto.
  - intros w Hw. assert (w <> v) by (intros ->; contradiction).
    rewrite lookup_insert_ne by congruence. now apply Hs.
  - intros w n Hw Hcn Hp. destruct (decide (w = v)) as [->|Hne]; [contradiction|].
    rewrite lookup_insert_ne in Hw by congruence. now apply (Hc w n).
  - eapply sorted_ext; [|exact Hso].
    intros u Hu. unfold key_of. rewrite lookup_insert_ne; [reflexivity|]. intros ->; contradiction.
Qed.

(** A consistent node outside the queue needs no exemption. *)
Lemma settle_consistent_inv (P : V -> Prop) s v :
  inv_but (fun w => w = v \/ P w) s -> v ∉ queue s ->
  (forall n, nodes s !! v = Some n -> consistent n) -> inv_but P s.
Proof.
  intros (Hnd & Hs & Hc & Hso) Hv Hcons. repeat split; auto.
  intros w n Hw Hcn Hp. destruct (decide (w = v)) as [->|Hne]; [now apply Hcons in Hw|].
  apply (Hc w n Hw Hcn). tauto.
Qed.

(** [calculate_key] then [add] of an inconsistent node outside the queue. *)
Lemma key_add_inv (P : V -> Prop) s v n :
  inv_but (fun w => w = v \/ P w) s -> v ∉ queue s -> nodes s !! v = Some n -> ~ consistent n ->
  let s1 := upd s v (with_key n (calculate_key n)) in
  inv_but P (setq s1 (insert_right (nodes s1) (key_of (nodes s1) v) v (queue s1))).
Proof.
  intros (Hnd & Hs & Hc & Hso) Hv Hn Hcn s1. unfold s1, setq, upd, inv_but; simpl.
  repeat split.
  - rewrite insert_right_perm. now constructor.
  - intros w Hw. rewrite insert_right_perm, elem_of_cons in Hw.
    destruct Hw as [->|Hw].
    + rewrite lookup_insert_eq. eexists; split; [reflexivity|]. split; [exact Hcn|reflexivity].
    + assert (w <> v) by (intros ->; contradiction).
      rewrite lookup_insert_ne by congruence. now apply Hs.
  - intros w n' Hw Hcn' Hp. rewrite insert_right_perm, elem_of_cons.
    destruct (decide (w = v)) as [->|Hne]; [now left|right].
    rewrite lookup_insert_ne in Hw by congruence. apply (Hc w n' Hw Hcn'). tauto.
  - apply insert_right_sorted. eapply sorted_ext; [|exact Hso].
    intros u Hu. unfold key_of. rewrite lookup_insert_ne; [reflexivity|]. intros ->; contradiction.
Qed.

(** [pop(0)]: the invariant holds except for the popped node. *)
Lemma pop_inv s v q :
  queue_inv s -> queue s = v :: q -> inv_but (fun w => w = v) (setq s q) /\ v ∉ q.
Proof.
  intros (Hnd & Hs & Hc & Hso) Hq. rewrite Hq in *.
  apply NoDup_cons in Hnd as [Hv Hnd]. inversion Hso; subst.
  unfold setq, inv_but; simpl. repeat split; auto.
  - intros w Hw. apply Hs. set_solver.
  - intros w n Hw Hcn Hp. specialize (Hc w n Hw Hcn ltac:(tauto)).
    apply elem_of_cons in Hc as [->|Hc]; [contradiction|exact Hc].
Qed.

(** [current.calculate_key()] in the loop condition keeps the invariant. *)
Lemma calc_key_inv s v n :
  queue_inv s -> nodes s !! v = Some n -> queue_inv (upd s v (with_key n (calculate_key n))).
Proof.
  intros Hi Hn. destruct (decide (v ∈ queue s)) as [Hv|Hv].
  - pose proof Hi as (_ & Hs & _). destruct (Hs v Hv) as (n' & Hn' & _ & Hk).
    rewrite Hn in Hn'. injection Hn' as <-. rewrite <- Hk, with_key_id.
    unfold upd. rewrite insert_id by exact Hn. destruct s; exact Hi.
  - destruct Hi as (Hnd & Hs & Hc & Hso). unfold upd, queue_inv, inv_but; simpl.
    repeat split; auto.
    + intros w Hw. assert (w <> v) by (intros ->; contradiction).
      rewrite lookup_insert_ne by congruence. now apply Hs.
    + intros w n' Hw Hcn' _. destruct (decide (w = v)) as [->|Hne].
      * rewrite lookup_insert_eq in Hw. injection Hw as <-. now apply (Hc v n).
      * rewrite lookup_insert_ne in Hw by congruence. now apply (Hc w n').
    + eapply sorted_ext; [|exact Hso].
      intros u Hu. unfold key_of. rewrite lookup_insert_ne; [reflexivity|]. intros ->; contradiction.
Qed.

End InvariantFacts.

(** ** [update_vertex], the loop body and the loop condition *)

Section StepFacts.

Context {V : Type} `{EqDecision V} `{!Countable V}.
Implicit Types (s : state V) (v w u : V) (n : vnode V) (q : list V).

Lemma upd_same s v n : nodes s !! v = Some n -> upd s v n = s.
Proof. intros H. unfold upd. rewrite insert_id by exact H. destruct s; reflexivity. Qed.

Lemma iter_preserves (Inv : state V -> Prop) (f : V -> M V unit) l s s' (t : unit) :
  (forall u s1 s2 (t1 : unit), Inv s1 -> f u s1 = inr (t1, s2) -> Inv s2) ->
  Inv s -> iter f l s = inr (t, s') -> Inv s'.
Proof.
  intros Hf. revert s. induction l as [|u l IH]; simpl; intros s Hs H.
  - unfold ret in H. injection H as _ <-. exact Hs.
  - apply bind_inr in H as ([] & s1 & H1 & H2). eapply IH; [|exact H2]. eapply Hf; eauto.
Qed.

(** [update_vertex v] re-establishes the invariant for [v]. *)
Lemma update_vertex_inv (P : V -> Prop) v s s' (t : unit) :
  inv_but (fun w => w = v \/ P w) s -> update_vertex v s = inr (t, s') -> inv_but P s'.
Proof.
  unfold update_vertex. intros Hi H.
  apply bind_inr in H as (s0 & s1 & Hg & H). unfold get in Hg. injection Hg as <- <-.
  apply bind_inr in H as (t1 & s2 & Hb & H).
  assert (Hs2 : s2 = s \/ exists n', s2 = upd s v n').
  { destruct (decide _) as [Hgo|Hgo].
    - unfold ret in Hb. injection Hb as _ <-. now left.
    - apply bind_inr in Hb as (m & s3 & Hr & Hb). unfold ret in Hb. injection Hb as _ <-.
      apply calculate_rhs_inr in Hr as (n & _ & ->). right. eauto. }
  apply bind_inr in H as (t2 & s3 & Hd & H). rewrite queue_discard_eq in Hd.
  injection Hd as _ <-.
  apply bind_inr in H as (n2 & s4 & Hn & H). apply get_node_inr in Hn as [Hn ->].
  assert (Hx : exists n', s2 = upd s v n').
  { destruct Hs2 as [->|Hs2]; [|exact Hs2]. exists n2. symmetry. now apply upd_same. }
  destruct Hx as [n' ->]. destruct (discard_upd_inv _ s v n' Hi) as [Hi2 Hnot].
  apply (inv_but_mono _ (fun w => w = v \/ P w)) in Hi2; [|tauto].
  destruct (ext_eqb (g n2) (rhs n2)) eqn:E.
  - unfold ret in H. injection H as _ <-. eapply settle_consistent_inv; [exact Hi2|exact Hnot|].
    intros n Hn'. cbn [nodes setq upd] in Hn, Hn'. rewrite Hn in Hn'. injection Hn' as <-.
    exact E.
  - apply bind_inr in H as (k & s5 & Hk & H). apply calc_key_inr in Hk as (n3 & Hn3 & -> & ->).
    rewrite Hn in Hn3. injection Hn3 as <-.
    rewrite queue_add_eq in H. injection H as _ <-.
    refine (key_add_inv P _ v n2 Hi2 Hnot Hn _). unfold consistent. congruence.
Qed.

Lemma update_vertex_queue_inv u s s' (t : unit) :
  queue_inv s -> update_vertex u s = inr (t, s') -> queue_inv s'.
Proof.
  intros Hi H. eapply (update_vertex_inv (fun _ => False)); [|exact H].
  eapply inv_but_mono; [|exact Hi]. tauto.
Qed.

Lemma iter_update_vertex_inv l s s' (t : unit) :
  queue_inv s -> iter update_vertex l s = inr (t, s') -> queue_inv s'.
Proof. apply iter_preserves. intros. eapply update_vertex_queue_inv; eauto. Qed.

(** One iteration of the loop body keeps the invariant. *)
Lemma compute_step_inv s s' (t : unit) :
  queue_inv s -> compute_step s = inr (t, s') -> queue_inv s'.
Proof.
  unfold compute_step. intros Hi H.
  apply bind_inr in H as (v & s1 & Hp & H). apply queue_pop_inr in Hp as (q & Hq & ->).
  destruct (pop_inv s v q Hi Hq) as [Hi1 Hv].
  apply (inv_but_mono _ (fun w => w = v \/ False)) in Hi1; [|tauto].
  apply bind_inr in H as (nv & s2 & Hn & H). apply get_node_inr in Hn as [Hn ->].
  assert (Hu : forall x s3 (t3 : unit), set_g v x (setq s q) = inr (t3, s3) ->
            s3 = upd (setq s q) v (with_g nv x) /\ inv_but (fun w => w = v \/ False) s3).
  { intros x s3 t3 Hs. apply set_g_inr in Hs as (n & Hn' & ->).
    rewrite Hn in Hn'. injection Hn' as <-. split; [reflexivity|]. apply upd_exempt_inv; auto. }
  destruct (ext_ltb _ _); apply bind_inr in H as ([] & s3 & Hs & H);
    apply Hu in Hs as [-> Hs].
  - eapply iter_update_vertex_inv; [|exact H].
    eapply settle_consistent_inv; [exact Hs|exact Hv|].
    intros n Hn'. simpl in Hn'. rewrite lookup_insert_eq in Hn'. injection Hn' as <-.
    apply ext_eqb_refl.
  - apply bind_inr in H as ([] & s4 & Hs4 & H).
    eapply iter_update_vertex_inv; [|exact H].
    eapply (update_vertex_inv (fun _ => False)); [exact Hs|exact Hs4].
Qed.

Lemma loop_cond_inr s b s' :
  loop_cond s = inr (b, s') ->
  exists nc, nodes s !! current s = Some nc /\
    ((queue s = [] /\ s' = s /\ b = negb (ext_eqb (g nc) (rhs nc))) \/
     (exists u q nu, queue s = u :: q /\ nodes s !! u = Some nu /\
        s' = upd s (current s) (with_key nc (calculate_key nc)) /\
        b = key_ltb (key nu) (calculate_key nc) || negb (ext_eqb (g nc) (rhs nc)))).
Proof.
  unfold loop_cond. intros H.
  apply bind_inr in H as (s0 & s1 & Hg & H). unfold get in Hg. injection Hg as <- <-.
  apply bind_inr in H as (b1 & s2 & Hb & H).
  apply bind_inr in H as (nc & s3 & Hc & H). apply get_node_inr in Hc as [Hc ->].
  unfold ret in H. injection H as <- <-.
  destruct (queue s) as [|u q] eqn:Hq.
  - unfold ret in Hb. injection Hb as <- <-. eauto 8.
  - apply bind_inr in Hb as (nu & s4 & Hu & Hb). apply get_node_inr in Hu as [Hu ->].
    apply bind_inr in Hb as (k & s5 & Hk & Hb). apply calc_key_inr in Hk as (n & Hn & -> & ->).
    unfold ret in Hb. injection Hb as <- <-.
    cbn [nodes upd current] in Hc. rewrite lookup_insert_eq in Hc. injection Hc as <-.
    exists n. split; [exact Hn|]. right. exists u, q, nu. repeat split; auto.
Qed.

(** The loop condition keeps the invariant; when it is false the exit
    condition holds. *)
Lemma loop_cond_inv s b s' :
  queue_inv s -> loop_cond s = inr (b, s') ->
  queue_inv s' /\ queue s' = queue s /\ current s' = current s /\
  (b = false -> path_ready s').
Proof.
  intros Hi H. apply loop_cond_inr in H as (nc & Hc & [(Hq & -> & ->)|(u & q & nu & Hq & Hu & -> & ->)]).
  - split; [exact Hi|]. split; [reflexivity|]. split; [reflexivity|].
    intros Hb. exists nc. split; [exact Hc|]. split; [now apply negb_false_iff in Hb|].
    intros u0 q0 Hq0. congruence.
  - split; [now apply calc_key_inv|]. split; [reflexivity|]. split; [reflexivity|].
    intros [Hb1 Hb2]%orb_false_iff. exists (with_key nc (calculate_key nc)).
    cbn [nodes upd current queue]. rewrite lookup_insert_eq. split; [reflexivity|].
    split; [now apply negb_false_iff in Hb2|].
    intros u' q' Hq'. rewrite Hq in Hq'. injection Hq' as <- <-. split; [reflexivity|].
      rewrite calculate_key_with_key. unfold key_of.
      destruct (decide (u = current s)) as [->|Hne].
    + rewrite lookup_insert_eq. apply key_ltb_irrefl.
    + rewrite lookup_insert_ne by congruence. rewrite Hu. exact Hb1.
Qed.

Lemma get_node_eq v s n : nodes s !! v = Some n -> get_node v s = inr (n, s).
Proof. intros H. unfold get_node, bind, get, ret. simpl. now rewrite H. Qed.

Lemma calc_key_eq v s n :
  nodes s !! v = Some n -> calc_key v s = inr (calculate_key n, upd s v (with_key n (calculate_key n))).
Proof. intros H. unfold calc_key, bind. rewrite (get_node_eq v s n H). reflexivity. Qed.

(** In a state where the exit condition holds, the loop condition is
    false and changes nothing. *)
Lemma loop_cond_ready s :
  queue_inv s -> path_ready s -> loop_cond s = inr (false, s).
Proof.
  intros (_ & Hs & _) (n & Hn & Hcons & Hk). unfold consistent in Hcons.
  unfold loop_cond, bind, get, ret. cbv beta iota.
  destruct (queue s) as [|u q] eqn:Hq.
  - rewrite (get_node_eq _ _ _ Hn), Hcons. reflexivity.
  - destruct (Hk u q eq_refl) as [Hkey Hlt].
    destruct (Hs u ltac:(left)) as (nu & Hnu & _).
    unfold key_of in Hlt. rewrite Hnu in Hlt.
    rewrite (get_node_eq _ _ _ Hnu), (calc_key_eq _ _ _ Hn).
    rewrite <- Hkey, with_key_id, upd_same by exact Hn.
    rewrite Hkey, Hlt, (get_node_eq _ _ _ Hn), Hcons. reflexivity.
Qed.

End StepFacts.

(** ** The D* Lite search: start, loop and exit *)

Section SearchFacts.

Context {V : Type} `{EqDecision V} `{!Countable V}.
Implicit Types (s : state V) (v w u : V) (n : vnode V) (q : list V).

Lemma sortedb_sound ns q : sortedb ns q = true -> StronglySorted (kle ns) q.
Proof.
  induction q as [|u q IH]; simpl; [constructor|].
  intros [Hf Hs]%andb_true_iff. constructor; [now apply IH|].
  apply Forall_forall. intros w Hw. rewrite forallb_forall in Hf.
  apply Hf, list_elem_of_In, Hw.
Qed.

Lemma queue_invb_sound s : queue_invb s = true -> queue_inv s.
Proof.
  unfold queue_invb. intros [[[H0 H1]%andb_true_iff H2]%andb_true_iff H4]%andb_true_iff.
  rewrite forallb_forall in H1, H2.
  repeat split.
  - exact (bool_decide_eq_true_1 _ H0).
  - intros w Hw. specialize (H1 w (proj1 (list_elem_of_In _ _) Hw)).
    destruct (nodes s !! w) as [n|]; [|discriminate].
    apply andb_true_iff in H1 as [Hc Hk]. exists n. split; [reflexivity|]. split.
    + unfold consistent. now destruct (ext_eqb _ _).
    + exact (bool_decide_eq_true_1 _ Hk).
  - intros w n Hw Hc _. apply elem_of_map_to_list, list_elem_of_In in Hw.
    specialize (H2 _ Hw). simpl in H2. apply orb_true_iff in H2 as [H2|H2]; [contradiction|].
    exact (bool_decide_eq_true_1 _ H2).
  - now apply sortedb_sound.
Qed.

Lemma fresh_queue_inv s : fresh_nodes (nodes s) -> queue_inv (setq s []).
Proof.
  intros Hf. repeat split; simpl.
  - constructor.
  - intros w Hw. inversion Hw.
  - intros w n Hw Hc _. exfalso. apply Hc. unfold consistent. destruct (Hf w n Hw) as [-> ->]. reflexivity.
  - constructor.
Qed.

Lemma set_queue_eq q s : set_queue q s = inr (tt, setq s q).
Proof. reflexivity. Qed.

(** A search whose exit condition already holds does nothing. *)
Lemma compute_path_ready fuel s : queue_inv s -> path_ready s -> compute_path fuel s = inr (tt, s).
Proof.
  intros Hi Hr. destruct fuel; simpl; unfold bind at 1; rewrite (loop_cond_ready s Hi Hr);
    reflexivity.
Qed.

Lemma start_search_ok s n :
  nodes s !! goal s = Some n -> exists s', start_search s = inr (tt, s').
Proof.
  intros Hn. unfold start_search, bind at 1, get. cbv beta iota.
  unfold bind at 1. rewrite set_queue_eq. cbv beta iota.
  unfold set_rhs, bind at 1 2. rewrite (get_node_eq _ _ n) by exact Hn. cbv beta iota.
  unfold put_node, bind at 1, get, put. cbv beta iota.
  unfold bind at 1. rewrite (calc_key_eq _ _ (with_rhs n (Fin 0)))
    by (cbn [nodes upd setq]; apply lookup_insert_eq).
  cbv beta iota. rewrite queue_add_eq. eauto.
Qed.

Lemma start_search_post s s' (t : unit) :
  fresh_nodes (nodes s) -> start_search s = inr (t, s') -> queue_inv s'.
Proof.
  intros Hf H. unfold start_search in H.
  apply bind_inr in H as (s0 & s1 & Hg & H). unfold get in Hg. injection Hg as <- <-.
  apply bind_inr in H as ([] & s2 & Hq & H). rewrite set_queue_eq in Hq. injection Hq as <-.
  apply bind_inr in H as ([] & s3 & Hr & H). apply set_rhs_inr in Hr as (n & Hn & ->).
  apply bind_inr in H as (k & s4 & Hk & H). apply calc_key_inr in Hk as (n' & Hn' & -> & ->).
  cbn [nodes upd setq] in Hn'. rewrite lookup_insert_eq in Hn'. injection Hn' as <-.
  rewrite queue_add_eq in H. injection H as _ <-.
  assert (Hi : inv_but (fun w => w = goal s \/ False) (upd (setq s []) (goal s) (with_rhs n (Fin 0)))).
  { apply upd_exempt_inv; [|apply not_elem_of_nil|now left].
    eapply inv_but_mono; [|now apply fresh_queue_inv]. tauto. }
  refine (key_add_inv _ _ _ _ Hi (not_elem_of_nil _) _ _).
  - cbn [nodes upd setq goal]. apply lookup_insert_eq.
  - unfold consistent. simpl. destruct (Hf _ _ Hn) as [-> _]. discriminate.
Qed.

(** [C12] Starting a search on a freshly built environment (the goal's
    [rhs] set to 0, its key computed, the goal alone in a new queue)
    establishes the queue invariant of D* Lite: the queue holds exactly
    the inconsistent nodes, once each, with their current keys, in key
    order. *)
Theorem start_search_inv s s' (t : unit) :
  fresh_nodes (nodes s) -> start_search s = inr (t, s') -> queue_inv s'.
Proof. apply start_search_post. Qed.

Lemma compute_path_post fuel s s' (t : unit) :
  queue_inv s -> compute_path fuel s = inr (t, s') -> queue_inv s' /\ path_ready s'.
Proof.
  revert s. induction fuel as [|f IH]; intros s Hi H; simpl in H;
    apply bind_inr in H as (c & s1 & Hc & H);
    destruct (loop_cond_inv s c s1 Hi Hc) as (Hi1 & _ & _ & Hr).
  - destruct c; [discriminate|]. unfold ret in H. injection H as _ <-. auto.
  - destruct c.
    + apply bind_inr in H as ([] & s2 & Hs & H). eapply IH; [|exact H].
      eapply compute_step_inv; eauto.
    + unfold ret in H. injection H as _ <-. auto.
Qed.

(** [C13] Whenever [DStarLiteSolver.compute_path] returns, the queue
    invariant still holds and the loop's exit condition holds: [current]
    is consistent ([g = rhs]), and the queue is empty or its first key is
    not below [current]'s key. *)
Theorem compute_path_correct fuel s s' (t : unit) :
  queue_inv s -> compute_path fuel s = inr (t, s') -> queue_inv s' /\ path_ready s'.
Proof. apply compute_path_post. Qed.

(** [compute_path] is idempotent: run again on the state it
    returned, with any fuel, it returns at once and changes nothing (no
    node is popped, no [g], [rhs] or key is modified). *)
Theorem compute_path_idempotent fuel fuel' s s' (t : unit) :
  queue_inv s -> compute_path fuel s = inr (t, s') -> compute_path fuel' s' = inr (tt, s').
Proof.
  intros Hi H. destruct (compute_path_post fuel s s' t Hi H) as [Hi' Hr].
  now apply compute_path_ready.
Qed.

End SearchFacts.

(** Witnesses on the three-cell row. *)

Lemma line_state_fresh : fresh_nodes (nodes line_state).
Proof.
  intros w n Hw. simpl in Hw.
  repeat (apply lookup_insert_Some in Hw as [[_ <-]|[_ Hw]]; [split; reflexivity|]).
  rewrite lookup_empty in Hw. discriminate.
Qed.

Lemma line_started_inv : queue_inv line_started.
Proof. apply queue_invb_sound. vm_compute. reflexivity. Qed.

Lemma start_search_inv_witness : queue_inv line_started /\ queue line_started = [2%nat].
Proof.
  split; [|vm_compute; reflexivity].
  apply (start_search_inv line_state line_started tt); [exact line_state_fresh|].
  vm_compute. reflexivity.
Defined.

Lemma compute_path_correct_witness :
  queue_inv line_solved /\ path_ready line_solved.
Proof.
  apply (compute_path_correct 10 line_started line_solved tt); [exact line_started_inv|].
  vm_compute. reflexivity.
Defined.

Lemma compute_path_idempotent_witness :
  compute_path 3 line_solved = inr (tt, line_solved).
Proof.
  apply (compute_path_idempotent 10 3 line_started line_solved tt); [exact line_started_inv|].
  vm_compute. reflexivity.
Defined.


(** ** The edge cost *)

Section CostFacts.

Context {V : Type}.
Implicit Types (n : vnode V).

Lemma cost_factor_pos (x : Q) : 0 < 1 + eps - Qmin 1 x.
Proof. unfold eps. qminmax; qlra. Qed.

Lemma cost_factor_blocked : 1 + eps - Qmin 1 (100 * 1) == eps.
Proof. rewrite Q.min_l by lra. lra. Qed.

Lemma cost_factor_free : 1 + eps - Qmin 1 (100 * 0) == 1 + eps.
Proof. rewrite Q.min_r by lra. lra. Qed.

(** [C15] The cost of an edge into a blocked cell ([value = 1]) is
    [eps / (1 + eps)] times the cost of the same edge into a free cell, so
    strictly smaller: the second factor of [cost] multiplies by
    [1 + 1e-6 - min(1, 100 * value)] instead of dividing by it. *)
Theorem cost_into_blocked_cheaper n1 n2 n2' :
  0 < distance (nbox n1) (nbox n2) ->
  nbox n2' = nbox n2 -> value n2 = 1%Z -> value n2' = 0%Z ->
  cost n1 n2 * (1 + eps) == cost n1 n2' * eps /\ cost n1 n2 < cost n1 n2'.
Proof.
  intros Hd Hb H1 H0. unfold cost. rewrite Hb, H1, H0.
  pose proof (cost_factor_pos (inject_Z (value n1) * 100)) as Hf.
  set (d := distance _ _) in *. set (D := 1 + eps - _) in *.
  assert (HX : 0 < d / D) by (apply Qmult_lt_0_compat; [exact Hd|now apply Qinv_lt_0_compat]).
  change (inject_Z 1) with 1. change (inject_Z 0) with 0.
  rewrite cost_factor_blocked, cost_factor_free. split; [ring|].
  apply Qmult_lt_l; [exact HX|]. unfold eps. qlra.
Qed.

End CostFacts.

Definition blocked_cell : vnode nat := mk_vnode (AABB.mk 1 0 1 1) 1 Inf Inf 0 (Inf, Inf) [].

Lemma cost_into_blocked_cheaper_witness :
  cost (line_cell 0 []) blocked_cell < cost (line_cell 0 []) (line_cell 1 []).
Proof.
  apply (cost_into_blocked_cheaper (line_cell 0 []) blocked_cell (line_cell 1 []));
    [vm_compute; reflexivity|reflexivity|reflexivity|reflexivity].
Defined.
