(* ===== verification/Replan.v ===== *)
(** * The paths of the D* Lite solver ([show_path] and [replan_path] of
    [src/Solver.py])

    [Solver] proves that [compute_path] keeps the queue invariant and
    ends in its exit condition.  This file follows the path that
    [show_path] extracts afterwards and the replanning of
    [replan_path(obstacles)], which reclassifies the neighbors of
    [current], repairs the changed vertices and extracts a new path:

    - frames: a relation [R] on stores is kept by a monadic operation
      ([keeps R m]) when every successful run relates its input and output
      store; [frame P] relates stores with the same [current] and [goal]
      whose nodes are related by [P].  The search ([compute_path],
      [update_vertex], [start_search]) keeps [frame same_shape]: it writes
      [g], [rhs] and keys, never a box, a value or a neighbor list; the
      reclassification keeps the boxes and neighbor lists and sets each
      value it touches to its [classify]ed value ([frame reclassified]);
    - reclassifying a node ([n.value = 0/1]) keeps the queue invariant,
      which reads [g], [rhs] and the keys but not the values;
    - the path [show_path] returns starts at [current], ends at [goal],
      and steps from each node to a neighbor of least [g] ([descends],
      the choice [min(current.neighbors, key=lambda x: x.g)]).

    These are statements about the runs that return.  The [while] loops of
    [compute_path] and of the walk run under a fuel bound whose exhaustion
    is the error [OutOfFuel]; the Python walk can loop forever where the
    [g] values have a plateau, which the model reports as [OutOfFuel]. *)

From Stdlib Require Import QArith ZArith Lia List RelationClasses.
From stdpp Require Import base gmap list.
From S2P Require Import Prelude Geometry Solver.
Import ListNotations.
Local Open Scope solver_scope.

Section Paths.

Context {V : Type} `{EqDecision V} `{!Countable V}.
Implicit Types (s : state V) (v w u : V) (n : vnode V).

(** Consecutive nodes of a path are neighbors in the store. *)
Fixpoint linked (ns : gmap V (vnode V)) (l : list V) : Prop :=
  match l with
  | a :: ((b :: _) as r) => (exists n, ns !! a = Some n /\ b ∈ neighbors n) /\ linked ns r
  | _ => True
  end.

(** The key [f] of a node of the store, [inf] for a missing one: the
    lookup [walk] does for [min(current.neighbors, key=...)]. *)
Definition fval (f : vnode V -> ext) (ns : gmap V (vnode V)) (u : V) : ext :=
  match ns !! u with Some nu => f nu | None => Inf end.

(** Each step of a path goes to a neighbor of least [f]. *)
Fixpoint descends (f : vnode V -> ext) (ns : gmap V (vnode V)) (l : list V) : Prop :=
  match l with
  | a :: ((b :: _) as r) =>
      (exists n, ns !! a = Some n /\ b ∈ neighbors n /\
         forall u, u ∈ neighbors n -> ext_ltb (fval f ns u) (fval f ns b) = false) /\
      descends f ns r
  | _ => True
  end.

(** The search endpoints, which no operation of the solvers moves. *)
Definition same_ends s s' : Prop := current s' = current s /\ goal s' = goal s.

(** Node relations: the box and the neighbor list kept, and the value
    kept as well. *)
Definition same_place n n' : Prop := nbox n' = nbox n /\ neighbors n' = neighbors n.
Definition same_shape n n' : Prop := same_place n n' /\ value n' = value n.

(** The value [replan_path] gives a node with box [b]: [1] when the
    obstacles cover at least the threshold of it, [0] otherwise. *)
Definition classify (obstacles : list Obstacle.t) (b : AABB.t) : Z :=
  if Qle_bool replan_threshold (scan b obstacles 0) then 1%Z else 0%Z.

(** The reclassification keeps the place of a node and leaves its value
    either unchanged or classified. *)
Definition reclassified (obstacles : list Obstacle.t) n n' : Prop :=
  same_place n n' /\ (value n' = value n \/ value n' = classify obstacles (nbox n')).

(** Stores with the same endpoints whose nodes are related by [P]. *)
Definition frame (P : vnode V -> vnode V -> Prop) s s' : Prop :=
  same_ends s s' /\
  forall v n, nodes s !! v = Some n -> exists n', nodes s' !! v = Some n' /\ P n n'.

(** A monadic operation keeps [R] when every run that returns relates
    its input and its output store. *)
Definition keeps (R : state V -> state V -> Prop) {A} (m : M V A) : Prop :=
  forall s a s', m s = inr (a, s') -> R s s'.

(** What [replan_path] and [show_path] establish: the invariant, the
    exit condition of [compute_path], and a path from [current] to
    [goal] along neighbor links. *)
Definition path_ok s (p : list V) : Prop :=
  queue_inv s /\ path_ready s /\ head p = Some (current s) /\ last p = Some (goal s) /\
  linked (nodes s) p.

End Paths.

(** ** Frames *)

Section Frames.

Context {V : Type} `{EqDecision V} `{!Countable V}.
Implicit Types (s : state V) (v w u : V) (n : vnode V).

#[global] Instance same_ends_preorder : PreOrder (same_ends (V := V)).
Proof. split; [intros s; split; reflexivity|intros s1 s2 s3 [A B] [C D]; split; congruence]. Qed.

#[global] Instance same_place_preorder : PreOrder (same_place (V := V)).
Proof. split; [intros n; split; reflexivity|intros n1 n2 n3 [A B] [C D]; split; congruence]. Qed.

#[global] Instance same_shape_preorder : PreOrder (same_shape (V := V)).
Proof.
  split; [intros n; split; reflexivity|].
  intros n1 n2 n3 [A B] [C D]. split; [etransitivity; eauto|congruence].
Qed.

#[global] Instance reclassified_preorder obstacles : PreOrder (reclassified (V := V) obstacles).
Proof.
  split; [intros n; split; [reflexivity|left; reflexivity]|].
  intros n1 n2 n3 [P12 V12] [P23 V23]. split; [etransitivity; eauto|].
  destruct P23 as [B23 _]. destruct V23 as [E|E]; [|right; exact E].
  destruct V12 as [E'|E']; [left; congruence|right; rewrite E, E', B23; reflexivity].
Qed.

#[global] Instance frame_preorder (P : vnode V -> vnode V -> Prop) `{!PreOrder P} :
  PreOrder (frame P).
Proof.
  split.
  - intros s. split; [reflexivity|]. intros v n Hn. exists n. split; [exact Hn|reflexivity].
  - intros s1 s2 s3 [E12 F12] [E23 F23]. split; [etransitivity; eauto|].
    intros v n1 H1. destruct (F12 v n1 H1) as (n2 & H2 & P12).
    destruct (F23 v n2 H2) as (n3 & H3 & P23). exists n3. split; [exact H3|etransitivity; eauto].
Qed.

Lemma ends_refl s : same_ends s s.
Proof. reflexivity. Qed.

Lemma ends_trans s1 s2 s3 : same_ends s1 s2 -> same_ends s2 s3 -> same_ends s1 s3.
Proof. apply transitivity. Qed.

Lemma frame_ends P s s' : frame P s s' -> same_ends s s'.
Proof. intros [E _]. exact E. Qed.

Lemma frame_mono (P Q : vnode V -> vnode V -> Prop) s s' :
  (forall n n', P n n' -> Q n n') -> frame P s s' -> frame Q s s'.
Proof.
  intros HPQ [E F]. split; [exact E|]. intros v n Hn.
  destruct (F v n Hn) as (n' & Hn' & HP). eauto.
Qed.

(** The lookup of a node through a frame. *)
Lemma frame_lookup P s s' v n :
  frame P s s' -> nodes s !! v = Some n -> exists n', nodes s' !! v = Some n' /\ P n n'.
Proof. intros [_ F]. apply F. Qed.

(** Writing a node related to the old one. *)
Lemma upd_frame (P : vnode V -> vnode V -> Prop) `{!Reflexive P} s v n n' :
  nodes s !! v = Some n -> P n n' -> frame P s (upd s v n').
Proof.
  intros Hn HP. split; [split; reflexivity|]. intros w m Hw. unfold upd; cbn [nodes].
  destruct (decide (w = v)) as [->|Hne].
  - rewrite lookup_insert_eq. rewrite Hn in Hw. injection Hw as <-. eauto.
  - rewrite lookup_insert_ne by congruence. exists m. split; [exact Hw|reflexivity].
Qed.

Lemma setq_frame (P : vnode V -> vnode V -> Prop) `{!Reflexive P} s q : frame P s (setq s q).
Proof. split; [split; reflexivity|]. intros v n Hn. exists n. split; [exact Hn|reflexivity]. Qed.

Lemma keeps_mono (R R' : state V -> state V -> Prop) {A} (m : M V A) :
  (forall s s', R s s' -> R' s s') -> keeps R m -> keeps R' m.
Proof. intros HR Hm s a s' E. exact (HR _ _ (Hm _ _ _ E)). Qed.

Section Generic.

Context (R : state V -> state V -> Prop) `{!PreOrder R}.

Lemma kp_bind {A B} (m : M V A) (k : A -> M V B) :
  keeps R m -> (forall a, keeps R (k a)) -> keeps R (bind m k).
Proof.
  intros Hm Hk s b s2 (a & s1 & E & H)%bind_inr.
  etransitivity; [exact (Hm _ _ _ E)|exact (Hk a _ _ _ H)].
Qed.

Lemma kp_ret {A} (a : A) : keeps R (ret a).
Proof. intros s b s' [= _ <-]. reflexivity. Qed.

Lemma kp_fail {A} (e : error) : keeps R (A := A) (fail e).
Proof. intros s b s' [=]. Qed.

Lemma kp_get : keeps R get.
Proof. intros s b s' [= _ <-]. reflexivity. Qed.

Lemma kp_iter f l : (forall u, keeps R (f u)) -> keeps R (iter f l).
Proof. intros Hf. induction l as [|u l IH]; simpl; [apply kp_ret|apply kp_bind; auto]. Qed.

End Generic.

End Frames.

(** Unfold a monadic program into its binds and branches, close the
    generic pieces by the lemmas [kp_*] and the rest by the hint
    database [sframe]. *)
Create HintDb sframe.

Ltac kp :=
  repeat match goal with
  | |- PreOrder _ => typeclasses eauto
  | |- keeps _ (bind _ _) => apply kp_bind; [..|intro]
  | |- keeps _ (iter _ _) => apply kp_iter; [..|intro]
  | |- keeps _ (ret _) => apply kp_ret
  | |- keeps _ (fail _) => apply kp_fail
  | |- keeps _ get => apply kp_get
  | |- keeps _ (match ?x with _ => _ end) => destruct x
  | |- keeps _ (if ?b then _ else _) => destruct b
  | |- keeps _ (let _ := _ in _) => cbv zeta
  | |- _ => solve [eauto with sframe]
  end.

(** ** The search keeps the shape of the store *)

Section SolverPaths.

Context {V : Type} `{EqDecision V} `{!Countable V}.
Implicit Types (s : state V) (v w u : V) (n : vnode V).

Local Notation kept := (frame (V := V) same_shape) (only parsing).

Lemma kp_set_queue q : keeps kept (set_queue q).
Proof. intros s b s' [= _ <-]. apply (setq_frame _ s q). Qed.

Lemma kp_get_node v : keeps kept (get_node v).
Proof. intros s n s' [_ ->]%get_node_inr. reflexivity. Qed.

Lemma kp_set_g v x : keeps kept (set_g v x).
Proof.
  intros s t s' (n & Hn & ->)%set_g_inr. apply (upd_frame _ _ _ n); [exact Hn|split; split; reflexivity].
Qed.

Lemma kp_set_rhs v x : keeps kept (set_rhs v x).
Proof.
  intros s t s' (n & Hn & ->)%set_rhs_inr. apply (upd_frame _ _ _ n); [exact Hn|split; split; reflexivity].
Qed.

Lemma kp_calc_key v : keeps kept (calc_key v).
Proof.
  intros s k s' (n & Hn & _ & ->)%calc_key_inr.
  apply (upd_frame _ _ _ n); [exact Hn|split; split; reflexivity].
Qed.

#[local] Hint Resolve kp_set_queue kp_get_node kp_set_g kp_set_rhs kp_calc_key : sframe.

Lemma kp_queue_ops v :
  keeps kept (calculate_rhs v) /\ keeps kept (queue_add v) /\ keeps kept (queue_discard v) /\
  keeps kept queue_pop.
Proof. unfold calculate_rhs, queue_add, queue_discard, queue_pop. refine (conj _ (conj _ (conj _ _))); kp. Qed.

Lemma kp_calculate_rhs v : keeps kept (calculate_rhs v).
Proof. apply kp_queue_ops. Qed.
Lemma kp_queue_add v : keeps kept (queue_add v).
Proof. apply kp_queue_ops. Qed.
Lemma kp_queue_discard v : keeps kept (queue_discard v).
Proof. apply kp_queue_ops. Qed.
Lemma kp_queue_pop : keeps kept queue_pop.
Proof. intros s. apply (kp_queue_ops (current s)). Qed.
#[local] Hint Resolve kp_calculate_rhs kp_queue_add kp_queue_discard kp_queue_pop : sframe.

Lemma kp_update_vertex v : keeps kept (update_vertex v).
Proof. unfold update_vertex. kp. Qed.
#[local] Hint Resolve kp_update_vertex : sframe.

Lemma kp_compute_path fuel : keeps kept (compute_path fuel).
Proof. induction fuel; simpl; unfold loop_cond, compute_step; kp. Qed.

Lemma kp_start_search : keeps kept start_search.
Proof. unfold start_search. kp. Qed.

Lemma kp_repair (changes : list V) :
  keeps kept (iter (fun c => update_vertex c;;; nc <- get_node c;; iter update_vertex (neighbors nc)) changes).
Proof. kp. Qed.

(** ** Path extraction *)

Lemma argmin_in (f : V -> ext) l x : argmin f l = Some x -> x ∈ l.
Proof.
  destruct l as [|y r]; [discriminate|]. intros [= <-]. revert y.
  induction r as [|z r IH]; intros y; [left|]. cbn [fold_left].
  destruct (ext_ltb _ _); [right; exact (IH z)|].
  destruct (proj1 (elem_of_cons _ _ _) (IH y)) as [->|Hy]; [left|right; right; exact Hy].
Qed.

(** The scan of [min(l, key=f)]: no element seen is strictly below the
    element it keeps. *)
Lemma argmin_fold_min (f : V -> ext) r : forall b,
  let x := fold_left (fun best u => if ext_ltb (f u) (f best) then u else best) r b in
  ext_ltb (f b) (f x) = false /\ forall y, y ∈ r -> ext_ltb (f y) (f x) = false.
Proof.
  induction r as [|z r IH]; intros b x; [split; [apply ext_ltb_irrefl|intros y Hy; inversion Hy]|].
  subst x. cbn [fold_left]. destruct (ext_ltb (f z) (f b)) eqn:Ez.
  - destruct (IH z) as [Hz Hr]. split; [|intros y [->|Hy]%elem_of_cons; auto].
    set (x := fold_left _ r z) in *. destruct (ext_ltb (f b) (f x)) eqn:Eb; [|reflexivity].
    rewrite (ext_ltb_trans _ _ _ Ez Eb) in Hz. discriminate.
  - destruct (IH b) as [Hb Hr]. split; [exact Hb|]. intros y [->|Hy]%elem_of_cons; [|auto].
    set (x := fold_left _ r b) in *. destruct (ext_ltb (f z) (f x)) eqn:Ey; [|reflexivity].
    destruct (ext_ltb_weak _ (f b) _ Ey) as [E|E]; congruence.
Qed.

Lemma argmin_min (f : V -> ext) l x :
  argmin f l = Some x -> forall y, y ∈ l -> ext_ltb (f y) (f x) = false.
Proof.
  destruct l as [|b r]; [discriminate|]. intros [= <-] y [->|Hy]%elem_of_cons;
    [exact (proj1 (argmin_fold_min f r b))|exact (proj2 (argmin_fold_min f r b) y Hy)].
Qed.

(** One step of the walk: [get_node cur] and [min(cur.neighbors, key=f)]. *)
Lemma walk_step (f : vnode V -> ext) fu cur s p s' :
  cur <> goal s -> walk f (S fu) cur s = inr (p, s') ->
  exists n nxt rest, nodes s !! cur = Some n /\
    argmin (fval f (nodes s)) (neighbors n) = Some nxt /\
    walk f fu nxt s = inr (rest, s') /\ p = nxt :: rest.
Proof.
  intros Hne H. cbn [walk] in H. apply bind_inr in H as (s0 & s1 & Hg & H).
  unfold get in Hg. injection Hg as <- <-. destruct (decide (cur = goal s)) as [E|_]; [contradiction|].
  apply bind_inr in H as (n & s2 & Hn & H). apply get_node_inr in Hn as [Hn ->].
  destruct (argmin _ (neighbors n)) as [nxt|] eqn:Ea; [|discriminate].
  apply bind_inr in H as (rest & s3 & Hw & H). unfold ret in H. injection H as <- <-.
  exists n, nxt, rest. auto.
Qed.

Lemma walk_stop (f : vnode V -> ext) fuel s p s' :
  walk f fuel (goal s) s = inr (p, s') -> p = [] /\ s' = s.
Proof.
  destruct fuel; cbn [walk]; unfold bind, get, ret; cbn;
    (destruct (decide (goal s = goal s)) as [_|[]]; [|reflexivity]); intros [= <- <-]; auto.
Qed.

(** The walk of [show_path] reads the store without changing it and ends
    at [goal] along neighbor links. *)
Lemma walk_inr (f : vnode V -> ext) fuel : forall cur s p s',
  walk f fuel cur s = inr (p, s') ->
  s' = s /\ last (cur :: p) = Some (goal s) /\ linked (nodes s) (cur :: p).
Proof.
  induction fuel as [|fu IH]; intros cur s p s' H;
    (destruct (decide (cur = goal s)) as [->|Hne];
     [apply walk_stop in H as [-> ->]; repeat split|]).
  - cbn [walk] in H. apply bind_inr in H as (s0 & s1 & Hg & H). unfold get in Hg.
    injection Hg as <- <-. destruct (decide (cur = goal s)); [contradiction|discriminate].
  - apply walk_step in H as (n & nxt & rest & Hn & Ea & Hw & ->); [|exact Hne].
    destruct (IH nxt s rest s' Hw) as (-> & Hl & Hk). split; [reflexivity|].
    split; [exact Hl|]. split; [|exact Hk]. exists n. split; [exact Hn|]. eapply argmin_in, Ea.
Qed.

(** Each step of the walk goes to a neighbor of least [f]. *)
Lemma walk_descends (f : vnode V -> ext) fuel : forall cur s p s',
  walk f fuel cur s = inr (p, s') -> descends f (nodes s) (cur :: p).
Proof.
  induction fuel as [|fu IH]; intros cur s p s' H;
    (destruct (decide (cur = goal s)) as [->|Hne]; [apply walk_stop in H as [-> ->]; exact I|]).
  - cbn [walk] in H. apply bind_inr in H as (s0 & s1 & Hg & H). unfold get in Hg.
    injection Hg as <- <-. destruct (decide (cur = goal s)); [contradiction|discriminate].
  - apply walk_step in H as (n & nxt & rest & Hn & Ea & Hw & ->); [|exact Hne].
    split; [|exact (IH nxt s rest s' Hw)].
    exists n. split; [exact Hn|]. split; [eapply argmin_in, Ea|]. exact (argmin_min _ _ _ Ea).
Qed.

(** [show_path]: the search, then the walk from [current]. *)
Lemma show_path_kept fuel s p s' :
  queue_inv s -> show_path fuel s = inr (p, s') ->
  path_ok s' p /\ descends g (nodes s') p /\ kept s s'.
Proof.
  intros Hi H. unfold show_path in H. apply bind_inr in H as ([] & s1 & Hc & H).
  pose proof (kp_compute_path fuel s tt s1 Hc) as Hf.
  destruct (compute_path_post fuel s s1 tt Hi Hc) as [Hi1 Hr1].
  apply bind_inr in H as (s2 & s3 & Hg & H). unfold get in Hg. injection Hg as <- <-.
  apply bind_inr in H as (q & s4 & Hw & H). unfold ret in H. injection H as <- <-.
  pose proof (walk_descends g fuel _ _ _ _ Hw) as Hd.
  destruct (walk_inr g fuel _ _ _ _ Hw) as (-> & Hl & Hk).
  split; [exact (conj Hi1 (conj Hr1 (conj eq_refl (conj Hl Hk))))|split; [exact Hd|exact Hf]].
Qed.

Lemma show_path_post fuel s p s' :
  queue_inv s -> show_path fuel s = inr (p, s') -> path_ok s' p /\ same_ends s s'.
Proof.
  intros Hi H. destruct (show_path_kept fuel s p s' Hi H) as (Hp & _ & Hf).
  exact (conj Hp (frame_ends _ _ _ Hf)).
Qed.

(** ** Replanning *)

Lemma set_node_value_inr v z s (t : unit) s' :
  set_node_value v z s = inr (t, s') ->
  exists n, nodes s !! v = Some n /\
    s' = upd s v (mk_vnode (nbox n) z (g n) (rhs n) (h n) (key n) (neighbors n)).
Proof.
  unfold set_node_value. intros (n & s1 & Hn & Hp)%bind_inr. apply get_node_inr in Hn as [Hn ->].
  exists n. split; [exact Hn|]. unfold put_node, bind, get, put in Hp. simpl in Hp.
  injection Hp as _ <-. reflexivity.
Qed.

(** The queue invariant reads [g], [rhs], [h] and the keys of the nodes,
    not their [value]: reclassifying a node keeps it. *)
Lemma set_value_inv s v n z :
  queue_inv s -> nodes s !! v = Some n ->
  queue_inv (upd s v (mk_vnode (nbox n) z (g n) (rhs n) (h n) (key n) (neighbors n))).
Proof.
  intros (Hnd & Hs & Hc & Hso) Hn. unfold upd, queue_inv, inv_but; cbn [nodes queue].
  split; [exact Hnd|]. split; [|split].
  - intros w Hw. destruct (decide (w = v)) as [->|Hne].
    + rewrite lookup_insert_eq. destruct (Hs v Hw) as (m & Hm & Hcm & Hkm).
      rewrite Hn in Hm. injection Hm as <-. eexists; split; [reflexivity|exact (conj Hcm Hkm)].
    + rewrite lookup_insert_ne by congruence. apply Hs, Hw.
  - intros w m Hw Hcm _. destruct (decide (w = v)) as [->|Hne].
    + rewrite lookup_insert_eq in Hw. injection Hw as <-. exact (Hc v n Hn Hcm (fun f => f)).
    + rewrite lookup_insert_ne in Hw by congruence. exact (Hc w m Hw Hcm (fun f => f)).
  - eapply sorted_ext; [|exact Hso]. intros u _. unfold key_of.
    destruct (decide (u = v)) as [->|Hne].
    + rewrite lookup_insert_eq, Hn. reflexivity.
    + rewrite lookup_insert_ne by congruence. reflexivity.
Qed.

(** Reclassifying one neighbor: the queue invariant is kept, the other
    nodes are left alone, and the node's value is its [classify]ed one. *)
Lemma reclassify_post obstacles u s c s' :
  reclassify obstacles u s = inr (c, s') ->
  (queue_inv s -> queue_inv s') /\ frame (reclassified obstacles) s s' /\
  exists n, nodes s' !! u = Some n /\ value n = classify obstacles (nbox n).
Proof.
  intros H. unfold reclassify in H. apply bind_inr in H as (n & s1 & Hn & H).
  apply get_node_inr in Hn as [Hn ->].
  assert (Hset : forall z (t : unit) s2, set_node_value u z s = inr (t, s2) ->
            z = classify obstacles (nbox n) ->
            (queue_inv s -> queue_inv s2) /\ frame (reclassified obstacles) s s2 /\
            exists n, nodes s2 !! u = Some n /\ value n = classify obstacles (nbox n)).
  { intros z t s2 (n' & Hn' & ->)%set_node_value_inr Hz. rewrite Hn in Hn'. injection Hn' as <-.
    split; [intros Hi; now apply set_value_inv|]. split.
    - apply (upd_frame _ _ _ n); [exact Hn|]. split; [split; reflexivity|right; exact Hz].
    - eexists. unfold upd; cbn [nodes]. rewrite lookup_insert_eq. split; [reflexivity|exact Hz]. }
  cbv zeta in H.
  destruct (Qle_bool replan_threshold (scan (nbox n) obstacles 0)) eqn:Eq;
    [destruct (Z.eqb (value n) 1) eqn:E1|].
  - unfold ret in H. injection H as _ <-. split; [auto|]. split; [reflexivity|].
    exists n. split; [exact Hn|]. unfold classify. rewrite Eq. apply Z.eqb_eq, E1.
  - apply bind_inr in H as ([] & s2 & Hs & H). unfold ret in H. injection H as _ <-.
    apply (Hset 1%Z tt s2 Hs). unfold classify. rewrite Eq. reflexivity.
  - apply bind_inr in H as ([] & s2 & Hs & H). unfold ret in H. injection H as _ <-.
    apply (Hset 0%Z tt s2 Hs). unfold classify. rewrite Eq. reflexivity.
Qed.

Lemma reclassified_classified obstacles n n' :
  reclassified obstacles n n' -> value n = classify obstacles (nbox n) ->
  value n' = classify obstacles (nbox n').
Proof. intros [[B _] [E|E]] Hv; [rewrite E, B; exact Hv|exact E]. Qed.

Lemma shape_classified obstacles n n' :
  same_shape n n' -> value n = classify obstacles (nbox n) -> value n' = classify obstacles (nbox n').
Proof. intros [[B _] E] Hv. rewrite E, B. exact Hv. Qed.

(** A classified node stays classified through a frame that keeps
    classification. *)
Lemma frame_classified (P : vnode V -> vnode V -> Prop) obstacles s s' u :
  (forall n n', P n n' -> value n = classify obstacles (nbox n) -> value n' = classify obstacles (nbox n')) ->
  frame P s s' ->
  (exists n, nodes s !! u = Some n /\ value n = classify obstacles (nbox n)) ->
  exists n', nodes s' !! u = Some n' /\ value n' = classify obstacles (nbox n').
Proof.
  intros HP F (n & Hn & Hv). destruct (frame_lookup _ _ _ _ _ F Hn) as (n' & Hn' & Hr). eauto.
Qed.

(** The scan over [current.neighbors]: every neighbor ends classified. *)
Lemma reclassify_all_post obstacles l : forall s cs s',
  reclassify_all obstacles l s = inr (cs, s') ->
  (queue_inv s -> queue_inv s') /\ frame (reclassified obstacles) s s' /\
  forall u, u ∈ l -> exists n, nodes s' !! u = Some n /\ value n = classify obstacles (nbox n).
Proof.
  induction l as [|u l IH]; intros s cs s' H; cbn [reclassify_all] in H.
  - unfold ret in H. injection H as _ <-. split; [auto|]. split; [reflexivity|].
    intros u Hu. inversion Hu.
  - apply bind_inr in H as (c & s1 & Hc & H). apply bind_inr in H as (r & s2 & Hr & H).
    unfold ret in H. injection H as _ <-.
    destruct (reclassify_post _ _ _ _ _ Hc) as (Hi1 & F1 & Hv1).
    destruct (IH _ _ _ Hr) as (Hi2 & F2 & Hv2).
    split; [auto|]. split; [etransitivity; eauto|].
    intros w [->|Hw]%elem_of_cons; [|exact (Hv2 _ Hw)].
    exact (frame_classified _ obstacles _ _ u (reclassified_classified obstacles) F2 Hv1).
Qed.

(** The repair loop of [replan_path]: [update_vertex] on each changed
    node and on each of its neighbors. *)
Lemma repair_inv changes s s' (t : unit) :
  queue_inv s ->
  iter (fun c => update_vertex c;;; nc <- get_node c;; iter update_vertex (neighbors nc)) changes s =
    inr (t, s') -> queue_inv s'.
Proof.
  apply iter_preserves. intros c s1 s2 t1 Hi H.
  apply bind_inr in H as ([] & s3 & Hu & H). apply bind_inr in H as (nc & s4 & Hn & H).
  apply get_node_inr in Hn as [_ ->].
  eapply iter_update_vertex_inv; [|exact H]. eapply update_vertex_queue_inv; eauto.
Qed.

Lemma replan_path_post fuel obstacles s p s' :
  queue_inv s -> replan_path fuel obstacles s = inr (p, s') ->
  path_ok s' p /\ same_ends s s' /\ descends g (nodes s') p /\
  exists cn, nodes s !! current s = Some cn /\
    forall u, u ∈ neighbors cn ->
      exists nu, nodes s' !! u = Some nu /\ value nu = classify obstacles (nbox nu).
Proof.
  intros Hi H. unfold replan_path in H.
  apply bind_inr in H as (s0 & s1 & Hg & H). unfold get in Hg. injection Hg as <- <-.
  apply bind_inr in H as (cur & s2 & Hc & H). apply get_node_inr in Hc as [Hc ->].
  apply bind_inr in H as (cs & s3 & Hr & H). apply bind_inr in H as ([] & s4 & Hu & H).
  destruct (reclassify_all_post _ _ _ _ _ Hr) as (Hi3 & F3 & Hv3).
  pose proof (kp_repair _ _ _ _ Hu) as F4.
  destruct (show_path_kept fuel s4 p s' (repair_inv _ _ _ _ (Hi3 Hi) Hu) H) as (Hp & Hd & F5).
  split; [exact Hp|]. split.
  { etransitivity; [exact (frame_ends _ _ _ F3)|].
    etransitivity; [exact (frame_ends _ _ _ F4)|exact (frame_ends _ _ _ F5)]. }
  split; [exact Hd|]. exists cur. split; [exact Hc|]. intros u Hu'.
  apply (frame_classified _ obstacles s4 s' u (shape_classified obstacles) F5).
  exact (frame_classified _ obstacles s3 s4 u (shape_classified obstacles) F4 (Hv3 u Hu')).
Qed.

(** [C14] [DStarLiteSolver.replan_path(obstacles)], run on a store that
    satisfies the queue invariant, returns (when it returns) a store that
    still satisfies it and meets the exit condition of [compute_path],
    with [current] and [goal] unchanged; every neighbor of [current] then
    has the value its obstacle coverage gives ([1] from the threshold
    [1e-3] on, [0] below), and the path starts at [current], ends at
    [goal] and steps from each node to a neighbor of least [g]. *)
Theorem replan_path_correct fuel obstacles s p s' :
  queue_inv s -> replan_path fuel obstacles s = inr (p, s') ->
  path_ok s' p /\ same_ends s s' /\ descends g (nodes s') p /\
  exists cn, nodes s !! current s = Some cn /\
    forall u, u ∈ neighbors cn ->
      exists nu, nodes s' !! u = Some nu /\ value nu = classify obstacles (nbox nu).
Proof. apply replan_path_post. Qed.

End SolverPaths.

(** On the three-cell row of [Solver], solved, a replan with no obstacle
    in sight. *)
Lemma replan_path_correct_witness :
  match replan_path 10 [] line_solved with
  | inr (p, s') => path_ok s' p /\ same_ends line_solved s' /\ descends g (nodes s') p
  | inl _ => False
  end.
Proof.
  destruct (replan_path 10 [] line_solved) as [e|[p s']] eqn:E; [vm_compute in E; discriminate|].
  destruct (replan_path_correct 10 [] line_solved p s') as (Hp & He & Hd & _); [|exact E|].
  - apply queue_invb_sound. vm_compute. reflexivity.
  - exact (conj Hp (conj He Hd)).
Defined.
