(* ===== verification/Env.v ===== *)
(** * The quadtree environment ([QuadTreeEnvironment] of [src/Env.py])

    [add_start] and [add_goal] descend from the root to the leaf whose
    quadrant contains the point; [build_env] turns every leaf of the tree
    into a search node: it fills the leaf's neighbor list
    ([Node.update_neighbors]) and sets its heuristic [h] to the distance
    to the goal leaf.  Here the result is the initial store of the
    solvers ([Solver.state]), the nodes named by their addresses.
    [leaf_node] gives every leaf the fields of a fresh [Node] ([g = rhs =
    inf], key [[inf, inf]]): the main loop builds a new environment, and
    so new [Node] objects, before every [build_env] call. *)

From Stdlib Require Import QArith Qminmax Lqa ZArith Lia.
From stdpp Require Import base countable gmap list.
From S2P Require Import Prelude Geometry QuadTree Neighbors Solver.
Local Open Scope Q_scope.

#[export] Instance quadrant_eq_dec' : EqDecision quadrant := quadrant_eq_dec.

Definition quadrant_to_nat (q : quadrant) : nat :=
  match q with NW => 0 | NE => 1 | SW => 2 | SE => 3 end.
Definition nat_to_quadrant (n : nat) : quadrant :=
  match n with 0 => NW | 1 => NE | 2 => SW | _ => SE end%nat.

#[export] Instance quadrant_countable : Countable quadrant.
Proof.
  apply (inj_countable' quadrant_to_nat nat_to_quadrant). intros []; reflexivity.
Defined.

(** The loop [while current.get_children(): current =
    current.get_quadrant(point)], from the node [t] at address [a]; it
    returns the final node (its address and itself). *)
Fixpoint descend_from (t : qnode) (a : addr) (p : Q * Q) : addr * qnode :=
  match t with
  | QLeaf _ => (a, t)
  | QSplit i nw ne sw se =>
      let q := AABB.get_quadrant (box i) p in
      descend_from (match q with NW => nw | NE => ne | SW => sw | SE => se end) (q :: a) p
  end.

(** [QuadTreeEnvironment.add_start] and [add_goal]. *)
Definition add_start (root : qnode) (start : Q * Q) : addr * qnode := descend_from root [] start.
Definition add_goal (root : qnode) (goal : Q * Q) : addr * qnode := descend_from root [] goal.

(** One iteration of the loop of [build_env] on leaf [a]: a fresh [Node]
    ([g = rhs = inf], key [[inf, inf]]) with the neighbors found by
    [update_neighbors] and [h] the distance to the goal. *)
Definition leaf_node (root : qnode) (goal_box : AABB.t) (a : addr) (t : qnode) : vnode addr :=
  mk_vnode (box (info t)) (QuadTree.value (info t)) Inf Inf (distance (box (info t)) goal_box)
           (Inf, Inf) (update_neighbors root a []).

Definition add_leaf (root : qnode) (goal_box : AABB.t) (m : gmap addr (vnode addr)) (a : addr) :
    gmap addr (vnode addr) :=
  match subtree_at root a with
  | Some t => <[a := leaf_node root goal_box a t]> m
  | None => m
  end.

(** [QuadTreeEnvironment.build_env(start, goal)]; [current] is the start
    leaf. *)
Definition build_env (root : qnode) (start goal : Q * Q) : state addr :=
  let '(sa, _) := add_start root start in
  let '(ga, gt) := add_goal root goal in
  mk_state (fold_left (add_leaf root (box (info gt))) (get_leaves [] root) ∅) [] sa ga.

(** [QuadTreeEnvironment(x, y, env_width, env_height)]: the root node
    of [Environment.__init__] ([nodes = [root]], no start, goal or
    current yet). *)
Definition init (x y env_width env_height : Q) : qnode := new_node (AABB.mk x y env_width env_height).

(** [QuadTreeEnvironment.update(obstacles)]: the root's
    [update_percentage_and_split] with its default thresholds, within
    [fuel] levels of recursion. *)
Definition update (fuel : nat) (obstacles : list Obstacle.t) (root : qnode) : option qnode :=
  update_percentage_and_split fuel obstacles default_threshold_percentage default_threshold_size root.

(** The environment of the main loop with one small static obstacle. *)
Definition sample_env : state addr :=
  build_env sample_tree (100, 100) (500, 500).

(** ** The descent of [add_start] / [add_goal] *)

Lemma child_slot (q : quadrant) (i : ninfo) (nw ne sw se : qnode) :
  child q (QSplit i nw ne sw se) = Some (match q with NW => nw | NE => ne | SW => sw | SE => se end).
Proof. reflexivity. Qed.

Lemma boxes_ok_slot (q : quadrant) (i : ninfo) (nw ne sw se : qnode) :
  boxes_ok (QSplit i nw ne sw se) ->
  let c := match q with NW => nw | NE => ne | SW => sw | SE => se end in
  box (info c) = split_box (box i) q /\ boxes_ok c.
Proof. simpl. destruct q; tauto. Qed.

(** The descent ends at a leaf of the tree, at the address it returns; a
    point of the starting box is in the leaf's box. *)
Lemma descend_from_spec (root : qnode) (p : Q * Q) (t : qnode) : forall a,
  subtree_at root a = Some t ->
  let '(a', t') := descend_from t a p in
  subtree_at root a' = Some t' /\ is_leaf t' = true /\
  (boxes_ok t -> AABB.contains (box (info t)) p -> AABB.contains (box (info t')) p).
Proof.
  induction t as [i|i nw IHnw ne IHne sw IHsw se IHse]; intros a Ha; simpl; [auto|].
  set (q := AABB.get_quadrant (box i) p).
  assert (Hc : subtree_at root (q :: a) =
               Some (match q with NW => nw | NE => ne | SW => sw | SE => se end))
    by (simpl; rewrite Ha; apply child_slot).
  assert (Hb : boxes_ok (QSplit i nw ne sw se) -> AABB.contains (box i) p ->
               let c := match q with NW => nw | NE => ne | SW => sw | SE => se end in
               boxes_ok c /\ AABB.contains (box (info c)) p).
  { intros Hok Hin. cbv zeta. destruct (boxes_ok_slot q _ _ _ _ _ Hok) as [E Hok']. rewrite E.
    split; [exact Hok'|]. now apply quadrant_contains. }
  destruct q; [specialize (IHnw _ Hc)|specialize (IHne _ Hc)|specialize (IHsw _ Hc)|specialize (IHse _ Hc)];
    simpl in Hb; destruct (descend_from _ _ p); intuition.
Qed.

(** The descent ends at one of the leaves [get_leaves] lists. *)
Lemma descend_from_leaf (p : Q * Q) (t : qnode) : forall a,
  fst (descend_from t a p) ∈ get_leaves a t.
Proof.
  induction t as [i|i nw IHnw ne IHne sw IHsw se IHse]; intros a; simpl; [now left|].
  repeat rewrite elem_of_app.
  destruct (AABB.get_quadrant (box i) p); auto.
Qed.

(** Every address [get_leaves] lists names a node of the tree. *)
Lemma get_leaves_subtree (root : qnode) (t : qnode) : forall a b,
  subtree_at root a = Some t -> b ∈ get_leaves a t -> exists l, subtree_at root b = Some (QLeaf l).
Proof.
  induction t as [i|i nw IHnw ne IHne sw IHsw se IHse]; simpl; intros a b Ha Hb.
  - apply list_elem_of_singleton in Hb as ->. eauto.
  - repeat rewrite elem_of_app in Hb.
    destruct Hb as [Hb|[Hb|[Hb|Hb]]];
      [eapply IHnw|eapply IHne|eapply IHsw|eapply IHse]; try exact Hb;
      simpl; rewrite Ha; reflexivity.
Qed.

(** ** The store built by [build_env] *)

Lemma build_lookup (root : qnode) (gb : AABB.t) (l : list addr) : forall m a,
  fold_left (add_leaf root gb) l m !! a =
  if bool_decide (a ∈ l) then
    match subtree_at root a with
    | Some t => Some (leaf_node root gb a t)
    | None => m !! a
    end
  else m !! a.
Proof.
  induction l as [|b l IH]; intros m a; simpl; [reflexivity|].
  rewrite IH. unfold add_leaf.
  destruct (bool_decide_reflect (a ∈ l)) as [Hl|Hl];
    destruct (bool_decide_reflect (a ∈ b :: l)) as [Hbl|Hbl]; try set_solver.
  - destruct (subtree_at root a) eqn:Ea; [reflexivity|].
    destruct (decide (a = b)) as [->|Hne]; [now rewrite Ea|].
    destruct (subtree_at root b); [|reflexivity]. now rewrite lookup_insert_ne by congruence.
  - assert (a = b) as -> by set_solver.
    destruct (subtree_at root b); [apply lookup_insert_eq|reflexivity].
  - destruct (subtree_at root b); [|reflexivity].
    rewrite lookup_insert_ne; [reflexivity|]. intros ->. set_solver.
Qed.

Lemma build_node (root : qnode) (gb : AABB.t) (a : addr) (n : vnode addr) :
  fold_left (add_leaf root gb) (get_leaves [] root) ∅ !! a = Some n ->
  a ∈ get_leaves [] root /\ exists t, subtree_at root a = Some t /\ n = leaf_node root gb a t.
Proof.
  rewrite build_lookup. case_bool_decide as Ha; [|now rewrite lookup_empty].
  destruct (subtree_at root a) as [t|]; [|now rewrite lookup_empty].
  intros [= <-]. eauto.
Qed.

(** ** The neighbor lists are leaves of the tree *)

(** The leaves below the node at address [a] are leaves of the tree. *)
Lemma get_leaves_sub (root : qnode) : forall a t b,
  subtree_at root a = Some t -> b ∈ get_leaves a t -> b ∈ get_leaves [] root.
Proof.
  induction a as [|q p IH]; intros t b Ha Hb; simpl in Ha.
  - injection Ha as <-. exact Hb.
  - destruct (subtree_at root p) as [tp|] eqn:Ep; [|discriminate].
    destruct tp as [i|i nw ne sw se]; [discriminate|]. injection Ha as <-.
    apply (IH (QSplit i nw ne sw se)); [reflexivity|]. simpl.
    rewrite !elem_of_app. destruct q; tauto.
Qed.

(** Each [get_*_children] collector lists leaves of the subtree. *)
Lemma children_leaves (t : qnode) : forall a b,
  b ∈ get_north_children a t \/ b ∈ get_south_children a t \/
  b ∈ get_left_children a t \/ b ∈ get_right_children a t \/
  b ∈ get_north_west_children a t \/ b ∈ get_north_east_children a t \/
  b ∈ get_south_west_children a t \/ b ∈ get_south_east_children a t ->
  b ∈ get_leaves a t.
Proof.
  induction t as [i|i nw IHnw ne IHne sw IHsw se IHse]; intros a b H; simpl in *.
  - intuition.
  - rewrite !elem_of_app in *.
    specialize (IHnw (NW :: a) b). specialize (IHne (NE :: a) b).
    specialize (IHsw (SW :: a) b). specialize (IHse (SE :: a) b). intuition.
Qed.

Lemma collect_leaves (root : qnode) (u : option addr) (f : addr -> qnode -> list addr) b :
  (forall a t, b ∈ f a t -> b ∈ get_leaves a t) ->
  b ∈ collect root u f -> b ∈ get_leaves [] root.
Proof.
  intros Hf. unfold collect. destruct u as [u|]; [|intros H; inversion H].
  destruct (subtree_at root u) as [t|] eqn:Et; [|intros H; inversion H].
  intros Hb. eapply get_leaves_sub; [exact Et|]. now apply Hf.
Qed.

(** [update_neighbors] lists only leaves of the tree. *)
Lemma update_neighbors_leaves (root : qnode) (a b : addr) :
  b ∈ update_neighbors root a [] -> b ∈ get_leaves [] root.
Proof.
  unfold update_neighbors. cbn [app]. rewrite !elem_of_app. intros H.
  destruct_or! H; (eapply collect_leaves; [|exact H]);
    intros a' t' Hb; apply children_leaves; tauto.
Qed.

(** ** Theorems *)

(** [C16] [add_goal] (and [add_start], the same loop) ends at a leaf of
    the tree, named by the address it returns, and for a point of the
    region that leaf's box contains the point. *)
Theorem add_goal_leaf (root : qnode) (p : Q * Q) :
  boxes_ok root -> AABB.contains (box (info root)) p ->
  subtree_at root (fst (add_goal root p)) = Some (snd (add_goal root p)) /\
  is_leaf (snd (add_goal root p)) = true /\
  AABB.contains (box (info (snd (add_goal root p)))) p.
Proof.
  intros Hb Hp. pose proof (descend_from_spec root p root [] eq_refl) as H.
  unfold add_goal. destruct (descend_from root [] p) as [a t]. simpl. intuition.
Qed.

(** The store [build_env] builds is fresh: [g = rhs = inf] everywhere. *)
Lemma build_env_fresh (root : qnode) (ps pg : Q * Q) : fresh_nodes (nodes (build_env root ps pg)).
Proof.
  unfold build_env, add_start, add_goal.
  destruct (descend_from root [] ps) as [sa st]. destruct (descend_from root [] pg) as [ga gt].
  intros a n Hn. apply build_node in Hn as (_ & t & _ & ->). split; reflexivity.
Qed.

(** The search on [build_env]'s store starts from the leaf of the start
    point and aims at the leaf of the goal point. *)
Lemma build_env_ends (root : qnode) (ps pg : Q * Q) :
  current (build_env root ps pg) = fst (add_start root ps) /\
  goal (build_env root ps pg) = fst (add_goal root pg).
Proof.
  unfold build_env. destruct (add_start root ps) as [sa st]. destruct (add_goal root pg) as [ga gt].
  split; reflexivity.
Qed.

(** The leaf a point descends to is a node of the store, with the
    leaf's box, which contains the point when the root's does. *)
Lemma descend_node (root : qnode) (gb : AABB.t) (p : Q * Q) :
  boxes_ok root -> AABB.contains (box (info root)) p ->
  exists n, fold_left (add_leaf root gb) (get_leaves [] root) ∅ !! fst (descend_from root [] p) = Some n /\
    AABB.contains (nbox n) p.
Proof.
  intros Hb Hp. pose proof (descend_from_spec root p root [] eq_refl) as Hs.
  pose proof (descend_from_leaf p root []) as Hl.
  destruct (descend_from root [] p) as [a t]. destruct Hs as (Ht & _ & Hc). simpl in Hl |- *.
  rewrite build_lookup, Ht, bool_decide_eq_true_2 by exact Hl. eexists. split; [reflexivity|auto].
Qed.

(** The start and the goal node of [build_env] are the leaves that contain
    the two points. *)
Lemma build_env_endpoints (root : qnode) (ps pg : Q * Q) :
  boxes_ok root -> AABB.contains (box (info root)) ps -> AABB.contains (box (info root)) pg ->
  (exists n, nodes (build_env root ps pg) !! current (build_env root ps pg) = Some n /\
     AABB.contains (nbox n) ps) /\
  (exists n, nodes (build_env root ps pg) !! goal (build_env root ps pg) = Some n /\
     AABB.contains (nbox n) pg).
Proof.
  intros Hb Hs Hg.
  destruct (descend_node root (box (info (snd (add_goal root pg)))) ps Hb Hs) as (ns & Hns & Hcs).
  destruct (descend_node root (box (info (snd (add_goal root pg)))) pg Hb Hg) as (ng & Hng & Hcg).
  unfold build_env, add_start, add_goal in *.
  destruct (descend_from root [] ps) as [sa st]. destruct (descend_from root [] pg) as [ga gt].
  simpl in *. split; eauto.
Qed.

(** [C17] For any quadtree and any start and goal points, the store that
    [build_env] builds lets the main loop start a search: [start_search]
    succeeds (the goal leaf is a node of the store) and yields a state
    satisfying the D* Lite queue invariant. *)
Theorem build_env_search_ready (root : qnode) (ps pg : Q * Q) :
  exists s', start_search (build_env root ps pg) = inr (tt, s') /\ queue_inv s'.
Proof.
  pose proof (descend_from_spec root pg root [] eq_refl) as Hspec.
  pose proof (descend_from_leaf pg root []) as Hleaf.
  unfold build_env, add_start, add_goal.
  destruct (descend_from root [] ps) as [sa st].
  destruct (descend_from root [] pg) as [ga gt]. simpl in Hleaf. destruct Hspec as [Hg _].
  set (m := fold_left _ _ _).
  assert (Hm : m !! ga = Some (leaf_node root (box (info gt)) ga gt)).
  { unfold m. rewrite build_lookup, Hg. now rewrite bool_decide_eq_true_2. }
  destruct (start_search_ok (mk_state m [] sa ga) _ Hm) as [s' Hs'].
  exists s'. split; [exact Hs'|]. eapply start_search_post; [|exact Hs'].
  intros a n Hn. apply build_node in Hn as (_ & t & _ & ->). split; reflexivity.
Qed.

(** Every node of the store [build_env] builds is a leaf of the
    tree, fresh ([g = rhs = inf]), with the neighbors [update_neighbors]
    finds and the heuristic [h] equal to its distance to the goal leaf
    (not to the agent's cell). *)
Lemma build_env_nodes (root : qnode) (ps pg : Q * Q) (a : addr) (n : vnode addr) :
  nodes (build_env root ps pg) !! a = Some n ->
  a ∈ get_leaves [] root /\ g n = Inf /\ rhs n = Inf /\
  neighbors n = update_neighbors root a [] /\
  h n = distance (nbox n) (box (info (snd (add_goal root pg)))).
Proof.
  unfold build_env, add_start, add_goal.
  destruct (descend_from root [] ps) as [sa st].
  destruct (descend_from root [] pg) as [ga gt]. simpl.
  intros Hn. apply build_node in Hn as (Ha & t & _ & ->). auto 6.
Qed.

(** [C34] The search graph that [build_env] builds is closed: every
    neighbor of a node of the store is itself a node of the store, so
    the solvers' [calculate_rhs] and [show_path] never look up a vertex
    the store does not have. *)
Theorem build_env_closed (root : qnode) (ps pg : Q * Q) (a b : addr) (n : vnode addr) :
  nodes (build_env root ps pg) !! a = Some n -> b ∈ neighbors n ->
  exists nb, nodes (build_env root ps pg) !! b = Some nb.
Proof.
  unfold build_env, add_start, add_goal.
  destruct (descend_from root [] ps) as [sa st].
  destruct (descend_from root [] pg) as [ga gt]. simpl.
  intros Hn Hb. apply build_node in Hn as (_ & t & _ & ->). simpl in Hb.
  apply update_neighbors_leaves in Hb.
  destruct (get_leaves_subtree root root [] b eq_refl Hb) as [l Hl].
  rewrite build_lookup, Hl, bool_decide_eq_true_2 by exact Hb. eauto.
Qed.

(** Witnesses on the sample tree. *)

Lemma sample_tree_boxes_ok : boxes_ok sample_tree.
Proof. simpl. repeat split; try reflexivity; vm_compute; reflexivity. Qed.

Lemma add_goal_leaf_witness :
  is_leaf (snd (add_goal sample_tree (500, 500))) = true /\ fst (add_goal sample_tree (500, 500)) = [SE].
Proof.
  split; [|vm_compute; reflexivity].
  apply (add_goal_leaf sample_tree (500, 500));
    [exact sample_tree_boxes_ok|vm_compute; split; split; discriminate].
Defined.

Lemma build_env_closed_witness :
  match nodes sample_env !! [SE] with
  | Some n => [SE; SW] ∈ neighbors n /\ exists nb, nodes sample_env !! [SE; SW] = Some nb
  | None => False
  end.
Proof.
  destruct (nodes sample_env !! [SE]) as [n|] eqn:E; [|vm_compute in E; discriminate].
  assert (Hb : [SE; SW] ∈ neighbors n).
  { vm_compute in E. injection E as <-. apply list_elem_of_In. simpl. tauto. }
  split; [exact Hb|].
  exact (build_env_closed sample_tree (100, 100) (500, 500) [SE] [SE; SW] n E Hb).
Defined.
