(* ===== verification/Grid.v ===== *)
(** * The grid environment ([GridEnvironment] of [src/Env.py])

    The region is cut into [size x size] cells, [self.nodes[i][j]] the
    cell of row [i] and column [j].  Here the cells are the nodes of the
    solvers' store, named by [(i, j)].  [update] marks blocked every cell
    of the index ranges an obstacle's box covers, and [build_env] picks
    the start and goal cells, sets [h] and links each cell to its in-grid
    8-neighbors.  Python's list indexing is written out: a negative index
    counts from the end, an index past the end raises [IndexError]. *)

From Stdlib Require Import QArith Qround Qminmax Lqa ZArith Lia.
From stdpp Require Import base countable gmap list.
From S2P Require Import Prelude Geometry Solver.
Local Open Scope Q_scope.

Module GridEnvironment.

Record grid : Type := mk_grid {
  size : Z;
  cell_width : Q;
  cell_height : Q;
  left_pad : Q;
  north_pad : Q;
  cells : gmap (Z * Z) (vnode (Z * Z))
}.

(** [range(lb, ub)]. *)
Definition py_range (lb ub : Z) : list Z := seqZ lb (ub - lb).

(** [int(q)]: truncation toward zero. *)
Definition py_int (q : Q) : Z := Z.quot (Qnum q) (Zpos (Qden q)).

(** The index a Python list of length [n] reads for [i]; [None] is the
    [IndexError]. *)
Definition py_idx (n i : Z) : option Z :=
  if decide (0 <= i < n)%Z then Some i
  else if decide (- n <= i < 0)%Z then Some (n + i)%Z
  else None.

(** [Node(x, y, w, h)] with the search fields of a fresh node. *)
Definition fresh_cell (b : AABB.t) : vnode (Z * Z) := mk_vnode b (-1) Inf Inf 0 (Inf, Inf) [].

Definition cell_box (x y env_width env_height : Q) (size i j : Z) : AABB.t :=
  AABB.mk (x + inject_Z (2 * j - size + 1) * env_width / inject_Z (2 * size))
          (y + inject_Z (2 * i - size + 1) * env_height / inject_Z (2 * size))
          (env_width / inject_Z size) (env_height / inject_Z size).

(** [GridEnvironment.__init__(x, y, env_width, env_height, size)]. *)
Definition init (x y env_width env_height : Q) (size : Z) : grid :=
  mk_grid size (env_width / inject_Z size) (env_height / inject_Z size)
    (x - env_width / 2) (y - env_height / 2)
    (fold_left (fun m i =>
       fold_left (fun m j => <[(i, j) := fresh_cell (cell_box x y env_width env_height size i j)]> m)
                 (py_range 0 size) m)
       (py_range 0 size) ∅).

Definition with_value (n : vnode (Z * Z)) (v : Z) : vnode (Z * Z) :=
  mk_vnode (nbox n) v (g n) (rhs n) (h n) (key n) (neighbors n).

(** [self.nodes[r][c].value = 1]. *)
Definition mark (gr : grid) (r c : Z) (m : gmap (Z * Z) (vnode (Z * Z))) :
    error + gmap (Z * Z) (vnode (Z * Z)) :=
  match py_idx (size gr) r with
  | None => inl IndexError
  | Some i =>
      match py_idx (size gr) c with
      | None => inl IndexError
      | Some j =>
          match m !! (i, j) with
          | Some n => inr (<[(i, j) := with_value n 1]> m)
          | None => inl IndexError
          end
      end
  end.

(** [for x in l: f(x)] over the cell store, stopping at the first error. *)
Fixpoint for_each {A} (f : A -> gmap (Z * Z) (vnode (Z * Z)) -> error + gmap (Z * Z) (vnode (Z * Z)))
    (l : list A) (m : gmap (Z * Z) (vnode (Z * Z))) : error + gmap (Z * Z) (vnode (Z * Z)) :=
  match l with
  | [] => inr m
  | a :: l' => match f a m with inl e => inl e | inr m' => for_each f l' m' end
  end.

(** The index ranges of one obstacle: [lb_x, ub_x, lb_y, ub_y]. *)
Definition obstacle_ranges (gr : grid) (o : Obstacle.t) : Z * Z * Z * Z :=
  let '(x1, x2, y1, y2) := AABB.return_coordinate (Obstacle.box o) in
  (py_int ((x1 - left_pad gr) / cell_width gr), Qceiling ((x2 - left_pad gr) / cell_width gr),
   py_int ((y1 - north_pad gr) / cell_height gr), Qceiling ((y2 - north_pad gr) / cell_height gr)).

(** [GridEnvironment.update(obstacles)]. *)
Definition update (gr : grid) (obstacles : list Obstacle.t) : error + grid :=
  match for_each (fun o m =>
          let '(lb_x, ub_x, lb_y, ub_y) := obstacle_ranges gr o in
          for_each (fun r => for_each (fun c => mark gr r c) (py_range lb_x ub_x))
                   (py_range lb_y ub_y) m) obstacles (cells gr) with
  | inl e => inl e
  | inr m => inr (mk_grid (size gr) (cell_width gr) (cell_height gr) (left_pad gr) (north_pad gr) m)
  end.

(** The neighbor offsets of [build_env], in the code's order. *)
Definition offsets : list (Z * Z) :=
  [(-1, -1); (-1, 0); (-1, 1); (0, -1); (0, 1); (1, -1); (1, 0); (1, 1)]%Z.

Definition grid_neighbors (n : Z) (ij : Z * Z) : list (Z * Z) :=
  omap (fun d => let '(nx, ny) := (ij.1 + d.1, ij.2 + d.2)%Z in
                 if decide (0 <= nx < n /\ 0 <= ny < n)%Z then Some (nx, ny) else None) offsets.

(** The loop body of [build_env] for the cell [(i, j)]. *)
Definition build_cell (n : Z) (goal_box : AABB.t) (ij : Z * Z) (c : vnode (Z * Z)) : vnode (Z * Z) :=
  mk_vnode (nbox c) (if Z.eqb (value c) (-1) then 0 else value c) (g c) (rhs c)
           (distance (nbox c) goal_box) (key c) (neighbors c ++ grid_neighbors n ij).

(** [self.nodes[row][col]] for a point. *)
Definition locate_cell (gr : grid) (p : Q * Q) : option (Z * Z) :=
  match py_idx (size gr) (py_int ((p.2 - north_pad gr) / cell_height gr)),
        py_idx (size gr) (py_int ((p.1 - left_pad gr) / cell_width gr)) with
  | Some i, Some j => Some (i, j)
  | _, _ => None
  end.

(** [GridEnvironment.build_env(start, goal)]: the solvers' initial state. *)
Definition build_env (gr : grid) (start goal : Q * Q) : error + state (Z * Z) :=
  match locate_cell gr start, locate_cell gr goal with
  | Some s, Some gl =>
      match cells gr !! gl with
      | Some gn => inr (mk_state (map_imap (fun ij c => Some (build_cell (size gr) (nbox gn) ij c))
                                           (cells gr)) [] s gl)
      | None => inl IndexError
      end
  | _, _ => inl IndexError
  end.

(** ** Specification of [update]: the set of cells marked blocked *)

(** The cells of the store marked blocked where [P] holds. *)
Definition mark_set (P : Z * Z -> bool) (m : gmap (Z * Z) (vnode (Z * Z))) :
    gmap (Z * Z) (vnode (Z * Z)) :=
  map_imap (fun k n => Some (if P k then with_value n 1 else n)) m.

Definition in_square (n : Z) (k : Z * Z) : Prop := (0 <= k.1 < n /\ 0 <= k.2 < n)%Z.

(** Every cell of the square is in the store. *)
Definition full (n : Z) (m : gmap (Z * Z) (vnode (Z * Z))) : Prop :=
  forall k, in_square n k -> is_Some (m !! k).

(** The cells an obstacle's index ranges cover. *)
Definition covered (gr : grid) (o : Obstacle.t) (k : Z * Z) : bool :=
  let '(lb_x, ub_x, lb_y, ub_y) := obstacle_ranges gr o in
  bool_decide (lb_y <= k.1 < ub_y /\ lb_x <= k.2 < ub_x)%Z.

(** The store of a grid before [build_env]: exactly the cells of the
    square, with empty neighbor lists. *)
Definition grid_wf (gr : grid) : Prop :=
  full (size gr) (cells gr) /\
  forall k c, cells gr !! k = Some c -> in_square (size gr) k /\ neighbors c = [].

(** The grid of the main loop: the 512 x 512 region at (286, 286), 32 x 32
    cells of 16. *)
Definition main_grid : grid := init 286 286 512 512 32.

(** An obstacle drawn across the left border of the region. *)
Definition border_obstacle : Obstacle.t := Obstacle.init 20 200 40 20 true (0, 0) (20, 20) (20, 20).

(** An obstacle inside the region. *)
Definition inner_obstacle : Obstacle.t := Obstacle.init 200 200 40 20 true (0, 0) (20, 20) (20, 20).


(** ** [update] *)

(** Python's index [i] on a sequence of length [n]: from the end when
    negative. *)
Lemma py_idx_range n i j : py_idx n i = Some j -> (0 <= j < n)%Z.
Proof. unfold py_idx. repeat case_decide; intros E; inversion E; subst; lia. Qed.

Lemma py_idx_wrap n c : (- n <= c < n)%Z -> py_idx n c = Some (if Z.ltb c 0 then n + c else c)%Z.
Proof.
  intros H. unfold py_idx. destruct (Z.ltb_spec c 0).
  - rewrite decide_False by lia. now rewrite decide_True by lia.
  - now rewrite decide_True by lia.
Qed.

Lemma mark_set_lookup P m k :
  mark_set P m !! k = (fun n => if P k then with_value n 1 else n) <$> m !! k.
Proof. unfold mark_set. rewrite map_lookup_imap. by destruct (m !! k). Qed.

Lemma mark_set_full n P m : full n m -> full n (mark_set P m).
Proof. intros Hf k Hk. rewrite mark_set_lookup. destruct (Hf k Hk) as [c ->]. eauto. Qed.

Lemma with_value_idem c : with_value (with_value c 1) 1 = with_value c 1.
Proof. reflexivity. Qed.

Lemma mark_set_mark_set P Q m :
  mark_set Q (mark_set P m) = mark_set (fun k => P k || Q k) m.
Proof.
  apply map_eq. intros k. rewrite !mark_set_lookup.
  destruct (m !! k) as [c|]; [simpl|reflexivity]. by destruct (P k), (Q k).
Qed.

Lemma mark_set_false m : mark_set (fun _ => false) m = m.
Proof. apply map_eq. intros k. rewrite mark_set_lookup. by destruct (m !! k). Qed.

(** Marking the cell that Python's indices [r], [c] name. *)
Lemma mark_spec_idx gr r c i j m :
  py_idx (size gr) r = Some i -> py_idx (size gr) c = Some j -> full (size gr) m ->
  mark gr r c m = inr (mark_set (fun k => bool_decide (k = (i, j))) m).
Proof.
  intros Hr Hc Hf. unfold mark. rewrite Hr, Hc.
  destruct (Hf (i, j) (conj (py_idx_range _ _ _ Hr) (py_idx_range _ _ _ Hc))) as [n En]. rewrite En. f_equal.
  apply map_eq. intros k. rewrite mark_set_lookup.
  destruct (decide (k = (i, j))) as [->|Hne].
  - rewrite lookup_insert_eq, En. simpl. now rewrite bool_decide_eq_true_2.
  - rewrite lookup_insert_ne by congruence. destruct (m !! k); [|reflexivity].
    simpl. now rewrite bool_decide_eq_false_2.
Qed.

Lemma mark_spec gr r c m :
  in_square (size gr) (r, c) -> full (size gr) m ->
  mark gr r c m = inr (mark_set (fun k => bool_decide (k = (r, c))) m).
Proof. intros [Hr Hc]. apply mark_spec_idx; unfold py_idx; now rewrite decide_True. Qed.

(** A loop of marking steps marks the union of their sets. *)
Lemma for_each_spec {A} n (f : A -> _) (P : A -> Z * Z -> bool) l m :
  (forall a m', a ∈ l -> full n m' -> f a m' = inr (mark_set (P a) m')) ->
  full n m ->
  for_each f l m = inr (mark_set (fun k => existsb (fun a => P a k) l) m).
Proof.
  revert m. induction l as [|a l IH]; intros m Hf Hm; simpl.
  - now rewrite mark_set_false.
  - rewrite (Hf a m) by (auto; left). rewrite IH.
    + now rewrite mark_set_mark_set.
    + intros. apply Hf; [now right|assumption].
    + now apply mark_set_full.
Qed.

Lemma py_range_spec lb ub r : r ∈ py_range lb ub <-> (lb <= r < ub)%Z.
Proof.
  unfold py_range. rewrite elem_of_seqZ. lia.
Qed.

Lemma existsb_range (lb ub : Z) (P : Z -> bool) :
  existsb P (py_range lb ub) = true <-> exists r, (lb <= r < ub)%Z /\ P r = true.
Proof.
  rewrite existsb_exists. split.
  - intros (r & Hr & HP). apply list_elem_of_In, py_range_spec in Hr. eauto.
  - intros (r & Hr & HP). exists r. split; [apply list_elem_of_In, py_range_spec|]; auto.
Qed.

Lemma mark_set_ext P Q m : (forall k, P k = Q k) -> mark_set P m = mark_set Q m.
Proof.
  intros HPQ. apply map_eq. intros k. rewrite !mark_set_lookup, HPQ. reflexivity.
Qed.

Lemma covered_rows (lb_x ub_x lb_y ub_y : Z) (k : Z * Z) :
  existsb (fun r => existsb (fun c => bool_decide (k = (r, c))) (py_range lb_x ub_x))
          (py_range lb_y ub_y) =
  bool_decide (lb_y <= k.1 < ub_y /\ lb_x <= k.2 < ub_x)%Z.
Proof.
  apply eq_true_iff_eq. rewrite existsb_range, bool_decide_eq_true. split.
  - intros (r & Hr & Hc). apply existsb_range in Hc as (c & Hc & E).
    apply bool_decide_eq_true in E. subst k. simpl. lia.
  - destruct k as [r c]; simpl. intros [Hr Hc]. exists r. split; [exact Hr|].
    apply existsb_range. exists c. split; [exact Hc|]. now apply bool_decide_eq_true.
Qed.

(** One obstacle whose index ranges lie in the grid: [update] succeeds and
    marks exactly the covered cells. *)
Lemma update_one gr o :
  full (size gr) (cells gr) ->
  let '(lb_x, ub_x, lb_y, ub_y) := obstacle_ranges gr o in
  (0 <= lb_x /\ ub_x <= size gr /\ 0 <= lb_y /\ ub_y <= size gr)%Z ->
  update gr [o] = inr (mk_grid (size gr) (cell_width gr) (cell_height gr) (left_pad gr)
                         (north_pad gr) (mark_set (covered gr o) (cells gr))).
Proof.
  intros Hf. unfold covered. destruct (obstacle_ranges gr o) as [[[lb_x ub_x] lb_y] ub_y] eqn:Er.
  intros Hb. unfold update. cbn [for_each]. rewrite Er.
  erewrite (for_each_spec (size gr) _
             (fun r k => existsb (fun c => bool_decide (k = (r, c))) (py_range lb_x ub_x)));
    [| |exact Hf].
  - simpl. do 2 f_equal. apply mark_set_ext. intros k.
    apply covered_rows.
  - intros r m' Hr Hm'. apply py_range_spec in Hr.
    apply (for_each_spec (size gr)); [|exact Hm'].
    intros c m'' Hc Hm''. apply py_range_spec in Hc.
    apply mark_spec; [split; simpl; lia|exact Hm''].
Qed.

Lemma py_int_nonneg (q : Q) : 0 <= q -> (0 <= py_int q)%Z.
Proof.
  destruct q as [n d]. unfold Qle, py_int. simpl. intros H. apply Z.quot_pos; lia.
Qed.

Lemma lower_index (x lp c : Q) : 0 < c -> lp <= x -> (0 <= py_int ((x - lp) / c))%Z.
Proof.
  intros Hc Hx. apply py_int_nonneg. apply Qle_shift_div_l; [exact Hc|]. lra.
Qed.

Lemma upper_index (x lp c : Q) (n : Z) :
  0 < c -> x <= lp + inject_Z n * c -> (Qceiling ((x - lp) / c) <= n)%Z.
Proof.
  intros Hc Hx. rewrite <- (Qceiling_Z n). apply Qceiling_resp_le.
  apply Qle_shift_div_r; [exact Hc|]. lra.
Qed.

(** ** The grid built by [init] *)

Lemma init_row_lookup (i : Z) (F : Z -> Z -> vnode (Z * Z)) (l : list Z) : forall (m : gmap (Z * Z) (vnode (Z * Z))) k,
  fold_left (fun m j => <[(i, j) := F i j]> m) l m !! k =
  if bool_decide (k.1 = i /\ k.2 ∈ l) then Some (F k.1 k.2) else m !! k.
Proof.
  induction l as [|j l IH]; intros m k; simpl.
  - try (rewrite bool_decide_eq_false_2; [|intros [_ H]; inversion H]). reflexivity.
  - rewrite IH. destruct k as [a b]; simpl.
    destruct (decide (a = i /\ b ∈ l)) as [H|H].
    + rewrite !bool_decide_eq_true_2; [reflexivity|set_solver|tauto].
    + rewrite (bool_decide_eq_false_2 _ H).
      destruct (decide ((a, b) = (i, j))) as [E|E].
      * injection E as -> ->. rewrite lookup_insert_eq, bool_decide_eq_true_2; [reflexivity|].
        set_solver.
      * rewrite lookup_insert_ne by congruence. rewrite bool_decide_eq_false_2; [reflexivity|].
        intros [-> Hb]. apply elem_of_cons in Hb as [->|Hb]; [congruence|tauto].
Qed.

Lemma init_lookup (F : Z -> Z -> vnode (Z * Z)) (rows cols : list Z) : forall (m : gmap (Z * Z) (vnode (Z * Z))) k,
  fold_left (fun m i => fold_left (fun m j => <[(i, j) := F i j]> m) cols m) rows m !! k =
  if bool_decide (k.1 ∈ rows /\ k.2 ∈ cols) then Some (F k.1 k.2) else m !! k.
Proof.
  induction rows as [|i rows IH]; intros m k; simpl.
  - try (rewrite bool_decide_eq_false_2; [|intros [H _]; inversion H]). reflexivity.
  - rewrite IH, init_row_lookup. destruct k as [a b]; simpl.
    repeat case_bool_decide; try reflexivity; exfalso; set_solver.
Qed.

Lemma init_wf (x y w hh : Q) (n : Z) : grid_wf (init x y w hh n).
Proof.
  split; simpl.
  - intros [i j] Hk. rewrite init_lookup, bool_decide_eq_true_2; [eauto|].
    rewrite !py_range_spec. exact Hk.
  - intros [i j] c. rewrite init_lookup. case_bool_decide as H; [|now rewrite lookup_empty].
    intros [= <-]. rewrite !py_range_spec in H. split; [exact H|reflexivity].
Qed.

Lemma mark_set_wf gr P :
  grid_wf gr ->
  grid_wf (mk_grid (size gr) (cell_width gr) (cell_height gr) (left_pad gr) (north_pad gr)
                   (mark_set P (cells gr))).
Proof.
  intros [Hf Hc]. split; simpl; [now apply mark_set_full|].
  intros k c. rewrite mark_set_lookup. destruct (cells gr !! k) as [c0|] eqn:E; [|discriminate].
  intros [= <-]. destruct (Hc k c0 E) as [Hk Hn]. split; [exact Hk|]. now destruct (P k).
Qed.

(** ** The neighbor relation built by [build_env] *)

Lemma grid_neighbors_spec n u v :
  v ∈ grid_neighbors n u <->
  exists d, d ∈ offsets /\ v = (u.1 + d.1, u.2 + d.2)%Z /\ in_square n v.
Proof.
  unfold grid_neighbors. rewrite list_elem_of_omap. split.
  - intros (d & Hd & E). case_decide as H; [|discriminate]. injection E as <-.
    exists d. repeat split; tauto.
  - intros (d & Hd & -> & Hin). exists d. split; [exact Hd|].
    case_decide; [reflexivity|contradiction].
Qed.

Lemma offsets_neg d : d ∈ offsets -> (- d.1, - d.2)%Z ∈ offsets.
Proof.
  unfold offsets. intros Hd. repeat (apply elem_of_cons in Hd as [->|Hd]; [set_solver|]).
  inversion Hd.
Qed.

Lemma build_env_lookup gr ps pg st k :
  build_env gr ps pg = inr st ->
  exists gn : vnode (Z * Z), nodes st !! k = (fun c => build_cell (size gr) (nbox gn) k c) <$> cells gr !! k.
Proof.
  unfold build_env. destruct (locate_cell gr ps), (locate_cell gr pg); try discriminate.
  destruct (cells gr !! _) as [gn|]; [|discriminate]. intros [= <-]. exists gn. simpl.
  rewrite map_lookup_imap. by destruct (cells gr !! k).
Qed.

(** ** Freshness: [update] and [build_env] leave [g = rhs = inf] *)

Lemma for_each_preserves {T : Type} (Inv : gmap (Z * Z) (vnode (Z * Z)) -> Prop) (f : T -> _) l : forall m m',
  (forall a m1 m2, Inv m1 -> f a m1 = inr m2 -> Inv m2) -> Inv m -> for_each f l m = inr m' -> Inv m'.
Proof.
  induction l as [|a l IH]; intros m m' Hf Hm E; cbn [for_each] in E.
  - injection E as <-. exact Hm.
  - destruct (f a m) as [e|m1] eqn:Ea; [discriminate|]. exact (IH m1 m' Hf (Hf a m m1 Hm Ea) E).
Qed.

Lemma mark_fresh gr r c m m' : fresh_nodes m -> mark gr r c m = inr m' -> fresh_nodes m'.
Proof.
  unfold mark. intros Hm E.
  destruct (py_idx _ r) as [i|]; [|discriminate]. destruct (py_idx _ c) as [j|]; [|discriminate].
  destruct (m !! (i, j)) as [n|] eqn:En; [|discriminate]. injection E as <-.
  intros k n' Hk. destruct (decide (k = (i, j))) as [->|Hne].
  - rewrite lookup_insert_eq in Hk. injection Hk as <-. exact (Hm _ _ En).
  - rewrite lookup_insert_ne in Hk by congruence. exact (Hm _ _ Hk).
Qed.

Lemma update_fresh gr obs gr' : fresh_nodes (cells gr) -> update gr obs = inr gr' -> fresh_nodes (cells gr').
Proof.
  unfold update. intros Hm E.
  destruct (for_each _ obs (cells gr)) as [e|m] eqn:Ef; [discriminate|]. injection E as <-.
  revert Ef. apply for_each_preserves; [|exact Hm]. intros o m1 m2 H1.
  destruct (obstacle_ranges gr o) as [[[lb_x ub_x] lb_y] ub_y].
  apply for_each_preserves; [|exact H1]. intros r m3 m4 H3.
  apply for_each_preserves; [|exact H3]. intros c m5 m6 H5. exact (mark_fresh gr r c m5 m6 H5).
Qed.

Lemma init_fresh x y w hh n : fresh_nodes (cells (init x y w hh n)).
Proof.
  intros [i j] c. cbn [cells init]. rewrite init_lookup.
  case_bool_decide; [intros [= <-]; split; reflexivity|now rewrite lookup_empty].
Qed.

Lemma grid_build_env_fresh gr ps pg st :
  fresh_nodes (cells gr) -> build_env gr ps pg = inr st -> fresh_nodes (nodes st).
Proof.
  intros Hm E k n Hk. destruct (build_env_lookup gr ps pg st k E) as [gn Hl].
  rewrite Hl in Hk. destruct (cells gr !! k) as [c|] eqn:Ec; [|discriminate].
  injection Hk as <-. exact (Hm _ _ Ec).
Qed.

(** ** Theorems *)

(** [C18] [GridEnvironment.update] on an obstacle whose box lies in the
    region, on a grid whose store holds exactly its cells, succeeds and
    marks blocked exactly the cells of the obstacle's index ranges
    [range(lb_y, ub_y) x range(lb_x, ub_x)], leaving the others as they
    were. *)
Theorem update_inside gr o :
  grid_wf gr -> 0 < cell_width gr -> 0 < cell_height gr ->
  (let '(x1, x2, y1, y2) := AABB.return_coordinate (Obstacle.box o) in
   left_pad gr <= x1 /\ x2 <= left_pad gr + inject_Z (size gr) * cell_width gr /\
   north_pad gr <= y1 /\ y2 <= north_pad gr + inject_Z (size gr) * cell_height gr) ->
  exists gr', update gr [o] = inr gr' /\ grid_wf gr' /\
    forall k c, cells gr !! k = Some c ->
      cells gr' !! k = Some (if covered gr o k then with_value c 1 else c).
Proof.
  intros [Hf Hc] Hw Hh Hin. pose proof (update_one gr o Hf) as Hu.
  unfold obstacle_ranges in Hu.
  destruct (AABB.return_coordinate (Obstacle.box o)) as [[[x1 x2] y1] y2].
  destruct Hin as (H1 & H2 & H3 & H4).
  rewrite Hu by (repeat split; auto using lower_index, upper_index).
  eexists. split; [reflexivity|]. split; [now apply mark_set_wf|].
  intros k c E. simpl. now rewrite mark_set_lookup, E.
Qed.

(** [C19] The neighbor lists [build_env] creates are symmetric: if [v] is a
    neighbor of [u], then [v] is a node of the store and [u] is a neighbor
    of [v] (the 8-neighborhood offsets are closed under negation and the
    bounds test is the same in both directions). *)
Theorem build_env_neighbors_symmetric gr ps pg st u nu v :
  grid_wf gr -> build_env gr ps pg = inr st ->
  nodes st !! u = Some nu -> v ∈ neighbors nu ->
  exists nv, nodes st !! v = Some nv /\ u ∈ neighbors nv.
Proof.
  intros [Hf Hc] Hb Hu Hv.
  destruct (build_env_lookup gr ps pg st u Hb) as [gn Eu].
  destruct (build_env_lookup gr ps pg st v Hb) as [gn' Ev].
  rewrite Hu in Eu. destruct (cells gr !! u) as [cu|] eqn:Cu; [|discriminate].
  injection Eu as ->. destruct (Hc u cu Cu) as [Hsu Hnu].
  simpl in Hv. rewrite Hnu in Hv. simpl in Hv.
  apply grid_neighbors_spec in Hv as (d & Hd & -> & Hsv).
  destruct (Hf _ Hsv) as [cv Cv]. rewrite Cv in Ev.
  destruct (Hc _ cv Cv) as [_ Hnv].
  eexists. split; [exact Ev|]. simpl. rewrite Hnv. simpl.
  apply grid_neighbors_spec. exists (- d.1, - d.2)%Z. split; [now apply offsets_neg|].
  split; [|exact Hsu]. destruct u as [a b]; simpl. f_equal; lia.
Qed.

(** The cells that the loops of [update] mark for index ranges whose
    column range starts below 0: the columns of [range(0, ub_x)] and, read
    from the end, those of [range(n + lb_x, n)]. *)
Lemma wrapped_rows (n lb_x ub_x lb_y ub_y : Z) (k : Z * Z) :
  (lb_x < 0 <= ub_x)%Z ->
  existsb (fun r => existsb (fun c => bool_decide (k = (r, if Z.ltb c 0 then n + c else c)%Z))
                            (py_range lb_x ub_x)) (py_range lb_y ub_y) =
  bool_decide (lb_y <= k.1 < ub_y /\ (0 <= k.2 < ub_x \/ n + lb_x <= k.2 < n))%Z.
Proof.
  intros Hx. apply eq_true_iff_eq. rewrite existsb_range, bool_decide_eq_true. split.
  - intros (r & Hr & Hc). apply existsb_range in Hc as (c & Hc & E).
    apply bool_decide_eq_true in E. subst k. simpl. destruct (Z.ltb_spec c 0); lia.
  - destruct k as [r c]; simpl. intros [Hr Hc]. exists r. split; [exact Hr|].
    apply existsb_range. destruct (decide (0 <= c < ub_x)%Z) as [Hin|Hout].
    + exists c. split; [lia|]. apply bool_decide_eq_true. destruct (Z.ltb_spec c 0); [lia|reflexivity].
    + exists (c - n)%Z. split; [lia|]. apply bool_decide_eq_true.
      destruct (Z.ltb_spec (c - n) 0); [f_equal; lia|lia].
Qed.

(** [C20] [update] reads Python's negative indices as counting from the
    end: for an obstacle whose column range [range(lb_x, ub_x)] starts
    left of the region ([lb_x < 0]), on a grid whose store holds exactly
    its cells, [update] succeeds and marks blocked the cells of the
    covered rows in the columns [0 .. ub_x - 1] and also in the last
    [- lb_x] columns [n + lb_x .. n - 1], which the obstacle's range does
    not contain when [ub_x <= n + lb_x]; every other cell is unchanged. *)
Theorem update_wraps_around gr o lb_x ub_x lb_y ub_y :
  grid_wf gr -> obstacle_ranges gr o = (lb_x, ub_x, lb_y, ub_y) ->
  (- size gr <= lb_x < 0 /\ 0 <= ub_x <= size gr /\ 0 <= lb_y /\ ub_y <= size gr)%Z ->
  exists gr', update gr [o] = inr gr' /\
    forall k c, cells gr !! k = Some c ->
      cells gr' !! k =
        Some (if bool_decide (lb_y <= k.1 < ub_y /\
                              (0 <= k.2 < ub_x \/ size gr + lb_x <= k.2 < size gr))%Z
              then with_value c 1 else c).
Proof.
  intros [Hf _] Er (Hx1 & Hx2 & Hy1 & Hy2). unfold update. cbn [for_each]. rewrite Er.
  erewrite (for_each_spec (size gr) _
             (fun r k => existsb (fun c => bool_decide (k = (r, if Z.ltb c 0 then size gr + c else c)%Z))
                                 (py_range lb_x ub_x))); [| |exact Hf].
  - eexists. split; [reflexivity|]. intros k c E. cbn [cells].
    rewrite mark_set_lookup, E. cbn [fmap option_fmap option_map]. cbn [existsb].
    rewrite wrapped_rows by lia. reflexivity.
  - intros r m' Hr Hm'. apply py_range_spec in Hr.
    apply (for_each_spec (size gr)); [|exact Hm'].
    intros c m'' Hc Hm''. apply py_range_spec in Hc.
    apply mark_spec_idx; [unfold py_idx; now rewrite decide_True by lia|apply py_idx_wrap; lia|exact Hm''].
Qed.

(** Witnesses on the grid of the main loop. *)

Lemma update_inside_witness :
  exists gr', update main_grid [inner_obstacle] = inr gr' /\ grid_wf gr'.
Proof.
  destruct (update_inside main_grid inner_obstacle (init_wf 286 286 512 512 32))
    as (gr' & Hu & Hwf & _);
    [vm_compute; reflexivity|vm_compute; reflexivity|vm_compute; repeat split; discriminate|].
  eauto.
Defined.

(** The obstacle across the left border of the main grid has the ranges
    [-1, 1, 10, 12]: it marks cell (10, 31), on the far right, which its
    box does not touch. *)
Lemma update_wraps_around_witness :
  exists gr', update main_grid [border_obstacle] = inr gr' /\
    match cells gr' !! (10, 31)%Z with
    | Some c => value c = 1%Z /\ AABB.get_intersect_area (nbox c) (Obstacle.box border_obstacle) == 0
    | None => False
    end.
Proof.
  destruct (update_wraps_around main_grid border_obstacle (-1) 1 10 12 (init_wf _ _ _ _ _))
    as (gr' & Hu & Hk); [vm_compute; reflexivity|unfold main_grid, init; cbn [size]; lia|].
  exists gr'. split; [exact Hu|].
  destruct (cells main_grid !! (10, 31)%Z) as [c|] eqn:Ec; [|vm_compute in Ec; discriminate].
  rewrite (Hk _ c Ec). rewrite bool_decide_eq_true_2 by (unfold main_grid, init; cbn; lia).
  vm_compute in Ec. injection Ec as <-. vm_compute. split; reflexivity.
Defined.

Lemma build_env_neighbors_symmetric_witness :
  match build_env main_grid (64, 500) (470, 180) with
  | inr st => exists nv, nodes st !! (1, 1)%Z = Some nv /\ (0, 0)%Z ∈ neighbors nv
  | inl _ => False
  end.
Proof.
  assert (H : match build_env main_grid (64, 500) (470, 180) with
              | inr st => exists n0, nodes st !! (0, 0)%Z = Some n0 /\ (1, 1)%Z ∈ neighbors n0
              | inl _ => False
              end) by (vm_compute; eexists; split; [reflexivity|set_solver]).
  destruct (build_env main_grid (64, 500) (470, 180)) as [e|st] eqn:E; [contradiction|].
  destruct H as (n0 & H0 & H1).
  exact (build_env_neighbors_symmetric main_grid (64, 500) (470, 180) st (0, 0)%Z n0 (1, 1)%Z
           (init_wf 286 286 512 512 32) E H0 H1).
Defined.

(** ** Cells and points *)

(** [int(q)] of a non-negative [q] with [z <= q < z + 1] is [z]. *)
Lemma py_int_of (q : Q) (z : Z) :
  (0 <= z)%Z -> inject_Z z <= q -> q < inject_Z (z + 1) -> py_int q = z.
Proof.
  destruct q as [n d]. unfold py_int, Qle, Qlt. simpl. intros Hz H1 H2.
  rewrite Z.quot_div_nonneg by lia.
  symmetry. apply (Z.div_unique n (Z.pos d) z (n - Z.pos d * z)); lia.
Qed.

Lemma center_index (o w : Q) (n i : Z) :
  0 < w -> (0 < n)%Z -> (0 <= i < n)%Z ->
  py_int ((o + inject_Z (2 * i - n + 1) * w / inject_Z (2 * n) - (o - w / 2)) / (w / inject_Z n)) = i.
Proof.
  intros Hw Hn Hi.
  assert (Hn' : ~ inject_Z n == 0)
    by (unfold Qeq; simpl; lia).
  assert (E : (o + inject_Z (2 * i - n + 1) * w / inject_Z (2 * n) - (o - w / 2)) / (w / inject_Z n)
              == inject_Z i + (1 # 2)).
  { replace (2 * i - n + 1)%Z with (2 * i + - n + 1)%Z by lia.
    rewrite !inject_Z_plus, inject_Z_opp, !inject_Z_mult.
    field. split; [exact Hn'|]. intros E. rewrite E in Hw. discriminate. }
  apply py_int_of; [lia|rewrite E; lra|rewrite E, inject_Z_plus; change (inject_Z 1) with 1; lra].
Qed.

(** [C33] Round trip between [GridEnvironment.__init__] and the cell lookup
    of [build_env]: the centre of cell [(i, j)] of a grid of positive size
    is located in cell [(i, j)] ([int] of [i + 1/2] is [i]). *)
Theorem locate_cell_center (x y w hh : Q) (n i j : Z) :
  0 < w -> 0 < hh -> (0 < n)%Z -> (0 <= i < n)%Z -> (0 <= j < n)%Z ->
  locate_cell (init x y w hh n)
    (AABB.x (cell_box x y w hh n i j), AABB.y (cell_box x y w hh n i j)) = Some (i, j).
Proof.
  intros Hw Hh Hn Hi Hj. unfold locate_cell, init, cell_box. cbn [fst snd size cell_width
    cell_height left_pad north_pad AABB.x AABB.y].
  rewrite (center_index y hh n i), (center_index x w n j) by assumption.
  unfold py_idx. rewrite !decide_True by lia. reflexivity.
Qed.

Lemma locate_cell_center_witness :
  locate_cell main_grid (AABB.x (cell_box 286 286 512 512 32 9 27),
                         AABB.y (cell_box 286 286 512 512 32 9 27)) = Some (9%Z, 27%Z).
Proof. apply locate_cell_center; [reflexivity|reflexivity|lia|lia|lia]. Defined.

End GridEnvironment.
