(* ===== verification/DstarLite.v ===== *)
(** * The grid D* Lite prototype ([src/DstarLite.py])

    A standalone pygame program: a [size x size] grid [Graph] of
    [Vertex]es with cell weights [grid] (1 free, 0 obstacle), a
    hand-written [PriorityQueue] (a Python list kept ordered with
    [binary_search] on keys recomputed at each insertion), and the free
    functions [compute_path], [update_vertex], [compare_array] and
    [show_path].  The vertices live in a store keyed by their coordinate;
    the queue holds coordinates.  Python's exceptions are values of
    [derror]; the loops take fuel.

    The main loop is modelled in its editing clicks ([click], with the
    pixel-to-cell mapping [click_cell]) and in one frame of its
    [running] mode ([running_step]): sense the successors of the robot's
    cell whose weight differs from the real graph, copy them, update
    them and their predecessors and re-run [compute_path] once per
    change, then step [graph.current] to [path[1]].  The lemmas on the
    [frame] (size, current, goal) of every monadic operation give that a
    running frame moves the robot to a neighboring cell. *)

From Stdlib Require Import QArith Qminmax Lqa ZArith Lia Sorting.
From stdpp Require Import base gmap list.
From S2P Require Import Prelude Geometry Grid.
Local Open Scope Q_scope.

Module DstarLite.

Inductive derror : Type :=
| IndexError          (** [list.pop(0)] or [queue[0]] on an empty list *)
| ValueError          (** [list.remove] of an absent element *)
| TypeError           (** arithmetic on the [None] that [Graph.cost] returns *)
| AttributeError      (** [graph.current] or [graph.goal] still [None] *)
| RecursionError      (** [binary_search] out of fuel *)
| OutOfFuel.

Record vertex : Type := mk_vertex {
  coordinate : Z * Z;
  g : ext;
  rhs : ext;
  h : Q;
  in_queue : bool
}.

Record graph : Type := mk_graph {
  size : Z;
  verts : gmap (Z * Z) vertex;
  grid : gmap (Z * Z) Z;
  start : option (Z * Z);
  current : option (Z * Z);
  goal : option (Z * Z)
}.

(** [Vertex.calculate_key]. *)
Definition calculate_key (v : vertex) : key :=
  (ext_add (ext_min (g v) (rhs v)) (Fin (h v)), ext_min (g v) (rhs v)).

(** [binary_search(key, keys, start, end)]: [None] when the fuel (the
    recursion depth) runs out or [keys[middle]] is out of range. *)
Fixpoint binary_search (fuel : nat) (k : key) (keys : list key) (start end_ : nat) : option nat :=
  if Nat.eqb start end_ then Some start
  else match fuel with
  | O => None
  | S fuel' =>
      let middle := ((end_ + start) / 2)%nat in
      match nth_error keys middle with
      | None => None
      | Some km =>
          if ext_eqb (fst k) (fst km) then
            if ext_eqb (snd k) (snd km) then Some middle
            else if ext_ltb (snd k) (snd km) then binary_search fuel' k keys start middle
            else binary_search fuel' k keys (S middle) end_
          else if key_ltb k km then binary_search fuel' k keys start middle
          else binary_search fuel' k keys (S middle) end_
      end
  end.

(** [compare_array(a, b)]: [Some b] for a returned boolean, [None] for the
    [None] returned when the loop runs to its end. *)
Fixpoint compare_from (i : nat) (fuel : nat) (a b : list ext) : derror + option bool :=
  match fuel with
  | O => inr None
  | S fuel' =>
      if Nat.ltb (length b) i then inr (Some false)
      else match nth_error a i, nth_error b i with
           | Some ai, Some bi =>
               if ext_ltb ai bi then inr (Some true)
               else if ext_ltb bi ai then inr (Some false)
               else compare_from (S i) fuel' a b
           | _, _ => inl IndexError
           end
  end.

Definition compare_array (a b : list ext) : derror + option bool :=
  compare_from 0 (Nat.max (length a) (length b)) a b.

Definition key_list (k : key) : list ext := [fst k; snd k].

(** Python truthiness of [compare_array]'s result. *)
Definition truthy (r : option bool) : bool := match r with Some true => true | _ => false end.

(** [range(lo, hi + 1)] for the clamped bounds of [Graph.succ]. *)
Definition clamp_low (v : Z) : Z := if Z.eqb (v - 1) (-1) then 0 else v - 1.
Definition clamp_high (n v : Z) : Z := if Z.eqb (v + 1) n then n - 1 else v + 1.

(** [Graph.succ(vertex)]: the cells of the clamped 3 x 3 block but the
    vertex itself, row by row. *)
Definition succ (n : Z) (c : Z * Z) : list (Z * Z) :=
  let '(x, y) := c in
  flat_map (fun i => omap (fun j => if decide ((i, j) = (x, y)) then None else Some (i, j))
                          (GridEnvironment.py_range (clamp_low y) (clamp_high n y + 1)))
           (GridEnvironment.py_range (clamp_low x) (clamp_high n x + 1)).

(** [Graph.pred]: the same code as [succ]. *)
Definition pred (n : Z) (c : Z * Z) : list (Z * Z) := succ n c.

Definition cells (n : Z) : list (Z * Z) :=
  flat_map (fun i => map (fun j => (i, j)) (GridEnvironment.py_range 0 n))
           (GridEnvironment.py_range 0 n).

(** [Graph(size)]: every vertex [Vertex(i, j, inf, inf)], every weight 1. *)
Definition init (n : Z) : graph :=
  mk_graph n (list_to_map (map (fun c => (c, mk_vertex c Inf Inf 0 false)) (cells n)))
             (list_to_map (map (fun c => (c, 1%Z)) (cells n))) None None None.

(** [self.graph[c[0]][c[1]]]: Python indexing of the nested lists. *)
Definition index (gr : graph) (c : Z * Z) : option (Z * Z) :=
  match GridEnvironment.py_idx (size gr) c.1, GridEnvironment.py_idx (size gr) c.2 with
  | Some i, Some j => Some (i, j)
  | _, _ => None
  end.

Definition set_rhs (v : vertex) (x : ext) : vertex :=
  mk_vertex (coordinate v) (g v) x (h v) (in_queue v).
Definition set_g (v : vertex) (x : ext) : vertex :=
  mk_vertex (coordinate v) x (rhs v) (h v) (in_queue v).
Definition set_h (v : vertex) (x : Q) : vertex :=
  mk_vertex (coordinate v) (g v) (rhs v) x (in_queue v).
Definition set_in_queue (v : vertex) (b : bool) : vertex :=
  mk_vertex (coordinate v) (g v) (rhs v) (h v) b.

(** [Graph.update_start(start, update_current)]. *)
Definition update_start (gr : graph) (c : Z * Z) (update_current : bool) : derror + graph :=
  match index gr c with
  | None => inl IndexError
  | Some s => inr (mk_graph (size gr) (verts gr) (grid gr) (Some s)
                            (if update_current then Some s else current gr) (goal gr))
  end.

(** [Graph.update_goal(goal)]: also [self.goal.rhs = 0]. *)
Definition update_goal (gr : graph) (c : Z * Z) : derror + graph :=
  match index gr c with
  | None => inl IndexError
  | Some gl =>
      match verts gr !! gl with
      | None => inl IndexError
      | Some v => inr (mk_graph (size gr) (<[gl := set_rhs v (Fin 0)]> (verts gr)) (grid gr)
                                (start gr) (current gr) (Some gl))
      end
  end.

(** [Graph.update_grid(coordinate, p)]. *)
Definition update_grid (gr : graph) (c : Z * Z) (p : Z) : derror + graph :=
  match index gr c with
  | None => inl IndexError
  | Some ij => inr (mk_graph (size gr) (verts gr) (<[ij := p]> (grid gr))
                             (start gr) (current gr) (goal gr))
  end.

(** ** The state of a run: the graph and the priority queue *)

Record dstate : Type := mk_dstate { G : graph; queue : list (Z * Z) }.

Definition DM (A : Type) : Type := dstate -> derror + (A * dstate).

Definition ret {A} (a : A) : DM A := fun s => inr (a, s).
Definition fail {A} (e : derror) : DM A := fun _ => inl e.
Definition bind {A B} (m : DM A) (k : A -> DM B) : DM B :=
  fun s => match m s with inl e => inl e | inr (a, s') => k a s' end.
Definition get : DM dstate := fun s => inr (s, s).
Definition put (s : dstate) : DM unit := fun _ => inr (tt, s).

Declare Scope dstar_scope.
Delimit Scope dstar_scope with dstar.
Notation "x <- m ;; k" := (bind m (fun x => k))
  (at level 100, m at next level, right associativity) : dstar_scope.
Notation "m ;;; k" := (bind m (fun _ => k))
  (at level 100, right associativity) : dstar_scope.
Local Open Scope dstar_scope.

Definition get_vertex (c : Z * Z) : DM vertex :=
  s <- get;; match verts (G s) !! c with Some v => ret v | None => fail IndexError end.

Definition put_vertex (c : Z * Z) (v : vertex) : DM unit :=
  s <- get;;
  let gr := G s in
  put (mk_dstate (mk_graph (size gr) (<[c := v]> (verts gr)) (grid gr)
                           (start gr) (current gr) (goal gr)) (queue s)).

Definition set_queue (q : list (Z * Z)) : DM unit :=
  s <- get;; put (mk_dstate (G s) q).

Definition get_current : DM (Z * Z) :=
  s <- get;; match current (G s) with Some c => ret c | None => fail AttributeError end.

Definition get_goal : DM (Z * Z) :=
  s <- get;; match goal (G s) with Some c => ret c | None => fail AttributeError end.

Fixpoint map_keys (l : list (Z * Z)) : DM (list key) :=
  match l with
  | [] => ret []
  | u :: l' => v <- get_vertex u;; ks <- map_keys l';; ret (calculate_key v :: ks)
  end.

(** [list.insert(i, x)]. *)
Fixpoint list_insert {A} (i : nat) (x : A) (l : list A) : list A :=
  match i, l with
  | O, _ => x :: l
  | S _, [] => [x]
  | S i', y :: l' => y :: list_insert i' x l'
  end.

(** [list.remove(x)]: the first occurrence; [None] is the [ValueError]. *)
Fixpoint list_remove (x : Z * Z) (l : list (Z * Z)) : option (list (Z * Z)) :=
  match l with
  | [] => None
  | y :: l' => if decide (y = x) then Some l' else option_map (cons y) (list_remove x l')
  end.

(** ** [PriorityQueue] *)

(** [PriorityQueue.pop]. *)
Definition pq_pop : DM (Z * Z) :=
  s <- get;;
  match queue s with
  | [] => fail IndexError
  | u :: q => set_queue q;;; v <- get_vertex u;; put_vertex u (set_in_queue v false);;; ret u
  end.

(** [PriorityQueue.remove(vertex)]. *)
Definition pq_remove (u : Z * Z) : DM unit :=
  s <- get;;
  match list_remove u (queue s) with
  | None => fail ValueError
  | Some q => set_queue q;;; v <- get_vertex u;; put_vertex u (set_in_queue v false)
  end.

(** [PriorityQueue.insert(vertex)]: [binary_search] over the keys of the
    queued vertices, recomputed now. *)
Definition pq_insert (u : Z * Z) : DM unit :=
  v <- get_vertex u;;
  let k := calculate_key v in
  s <- get;;
  keys <- map_keys (queue s);;
  match binary_search (S (length (queue s))) k keys 0 (length (queue s)) with
  | None => fail RecursionError
  | Some idx => set_queue (list_insert idx u (queue s));;; put_vertex u (set_in_queue v true)
  end.

(** [PriorityQueue.top_key]. *)
Definition pq_top_key : DM key :=
  s <- get;;
  match queue s with
  | [] => fail IndexError
  | u :: _ => v <- get_vertex u;; ret (calculate_key v)
  end.

(** ** [Graph] costs *)

Definition distance (u v : vertex) : Q :=
  qsqrt ((inject_Z (coordinate u).1 - inject_Z (coordinate v).1) ^ 2 +
         (inject_Z (coordinate u).2 - inject_Z (coordinate v).2) ^ 2).

(** [Graph.cost(u, v)]: non-adjacent vertices print [Error] and return
    [None], on which the caller's addition raises [TypeError]. *)
Definition cost (u v : vertex) : DM Q :=
  s <- get;;
  if Z.ltb 1 (Z.abs ((coordinate u).1 - (coordinate v).1)) ||
     Z.ltb 1 (Z.abs ((coordinate u).2 - (coordinate v).2))
  then fail TypeError
  else match grid (G s) !! coordinate u, grid (G s) !! coordinate v with
       | Some gu, Some gv =>
           ret (distance u v / ((inject_Z gu + (1 # 1000000)) * (inject_Z gv + (1 # 1000000))))
       | _, _ => fail IndexError
       end.

(** The loop of [Graph.calculate_rhs]: the least [succ.g + cost(succ, v)]. *)
Fixpoint rhs_loop (v : vertex) (l : list (Z * Z)) (ans : ext) : DM ext :=
  match l with
  | [] => ret ans
  | u :: l' =>
      su <- get_vertex u;; c <- cost su v;;
      let tmp := ext_add (g su) (Fin c) in
      rhs_loop v l' (if ext_ltb tmp ans then tmp else ans)
  end.

(** [Graph.calculate_rhs(vertex)]. *)
Definition calculate_rhs (u : Z * Z) : DM ext :=
  v <- get_vertex u;; s <- get;;
  ans <- rhs_loop v (succ (size (G s)) u) Inf;;
  v' <- get_vertex u;; put_vertex u (set_rhs v' ans);;; ret ans.

Fixpoint iter (f : Z * Z -> DM unit) (l : list (Z * Z)) : DM unit :=
  match l with
  | [] => ret tt
  | u :: l' => f u;;; iter f l'
  end.

(** ** The free functions *)

(** [update_vertex(queue, graph, vertex)]. *)
Definition update_vertex (u : Z * Z) : DM unit :=
  s <- get;;
  (if match goal (G s) with Some gl => bool_decide (u = gl) | None => false end
   then ret tt else calculate_rhs u;;; ret tt);;;
  v <- get_vertex u;;
  (if in_queue v then pq_remove u else ret tt);;;
  v' <- get_vertex u;;
  if ext_eqb (g v') (rhs v') then ret tt else pq_insert u.

Definition alpha : Q := 1 # 10.

(** The first loop of [compute_path]: [h <- (1 - alpha) h + alpha
    distance(v, current)] for every vertex. *)
Definition smooth (cv : vertex) (u : Z * Z) : DM unit :=
  v <- get_vertex u;; put_vertex u (set_h v ((1 - alpha) * h v + alpha * distance v cv)).

Definition lift {A} (r : derror + A) : DM A :=
  match r with inl e => fail e | inr a => ret a end.

(** The [while] loop of [compute_path], with at most [fuel] iterations. *)
Fixpoint path_loop (fuel : nat) : DM unit :=
  tk <- pq_top_key;;
  c <- get_current;; cv <- get_vertex c;;
  r <- lift (compare_array (key_list tk) (key_list (calculate_key cv)));;
  if truthy r || negb (ext_eqb (g cv) (rhs cv)) then
    match fuel with
    | O => fail OutOfFuel
    | S f =>
        v <- pq_pop;; nv <- get_vertex v;; s <- get;;
        (if ext_ltb (rhs nv) (g nv) then
           put_vertex v (set_g nv (rhs nv));;; iter update_vertex (succ (size (G s)) v)
         else
           put_vertex v (set_g nv Inf);;; update_vertex v;;;
           iter update_vertex (succ (size (G s)) v));;;
        s' <- get;;
        match queue s' with [] => ret tt | _ => path_loop f end
    end
  else ret tt.

(** [compute_path(queue, graph)]. *)
Definition compute_path (fuel : nat) : DM unit :=
  c <- get_current;; cv <- get_vertex c;; s <- get;;
  iter (smooth cv) (cells (size (G s)));;;
  path_loop fuel.

(** [np.argmin([v.g for v in cur_succ])]: the first least [g]. *)
Fixpoint argmin_g (best : Z * Z) (bg : ext) (l : list (Z * Z)) : DM (Z * Z) :=
  match l with
  | [] => ret best
  | u :: l' => v <- get_vertex u;;
               if ext_ltb (g v) bg then argmin_g u (g v) l' else argmin_g best bg l'
  end.

(** The [while current != graph.goal] loop of [show_path]. *)
Fixpoint walk (fuel : nat) (cur : Z * Z) : DM (list (Z * Z)) :=
  gl <- get_goal;;
  if decide (cur = gl) then ret []
  else match fuel with
  | O => fail OutOfFuel
  | S f =>
      s <- get;;
      match succ (size (G s)) cur with
      | [] => fail ValueError
      | u :: l => v <- get_vertex u;; nxt <- argmin_g u (g v) l;;
                  rest <- walk f nxt;; ret (nxt :: rest)
      end
  end.

(** [show_path(graph)]. *)
Definition show_path (fuel : nat) : DM (list (Z * Z)) :=
  c <- get_current;; p <- walk fuel c;; ret (c :: p).

(** The [start_goal] clicks of the main loop on a fresh graph, then
    [priority_queue.insert(graph.goal)]. *)
Definition setup (n : Z) (st gl : Z * Z) : derror + dstate :=
  match update_start (init n) st true with
  | inl e => inl e
  | inr g1 =>
      match update_goal g1 gl with
      | inl e => inl e
      | inr g2 => match pq_insert gl (mk_dstate g2 []) with
                  | inl e => inl e
                  | inr (_, s) => inr s
                  end
      end
  end.

(** The prototype on a 4 x 4 grid: start (0, 0), goal (3, 3), after the
    first [compute_path] of the [running] mode. *)
Definition demo_setup : derror + dstate := setup 4 (0, 0)%Z (3, 3)%Z.

Definition demo_solved : derror + dstate :=
  match demo_setup with
  | inr s => match compute_path 100 s with inr (_, s') => inr s' | inl e => inl e end
  | inl e => inl e
  end.

(** ** The [running] mode of the main loop *)

(** [graph.grid[i][j]]. *)
Definition grid_at (gr : graph) (c : Z * Z) : derror + Z :=
  match grid gr !! c with Some p => inr p | None => inl IndexError end.

(** [if graph.grid[i][j] != real.grid[i][j]: changes.append((i, j))]
    over the listed cells. *)
Fixpoint changed (real gr : graph) (l : list (Z * Z)) : derror + list (Z * Z) :=
  match l with
  | [] => inr []
  | c :: l' =>
      match grid_at gr c with
      | inl e => inl e
      | inr a =>
          match grid_at real c with
          | inl e => inl e
          | inr b =>
              match changed real gr l' with
              | inl e => inl e
              | inr r => inr (if Z.eqb a b then r else c :: r)
              end
          end
      end
  end.

(** [changes]: the successors of [graph.current] whose cell the robot's
    graph and the real one disagree on. *)
Definition sense_changes (real : graph) : DM (list (Z * Z)) :=
  c <- get_current;; s <- get;; lift (changed real (G s) (succ (size (G s)) c)).

(** [graph.current = graph.graph[i][j]]. *)
Definition set_current (c : Z * Z) : DM unit :=
  s <- get;;
  let gr := G s in
  match index gr c with
  | None => fail IndexError
  | Some ij => put (mk_dstate (mk_graph (size gr) (verts gr) (grid gr) (start gr) (Some ij) (goal gr)) (queue s))
  end.

(** The body of [for change in changes]: copy the real cell, update the
    changed vertex and its predecessors, and [compute_path] (which the
    code calls once per change). *)
Definition apply_change (fuel : nat) (real : graph) (c : Z * Z) : DM unit :=
  p <- lift (grid_at real c);; s <- get;;
  gr <- lift (update_grid (G s) c p);; put (mk_dstate gr (queue s));;;
  update_vertex c;;;
  iter update_vertex (pred (size gr) c);;;
  compute_path fuel.

(** One frame of the [running] mode: sense, repair, [show_path], and
    step [graph.current] to [path[1]]; [false] is [running = False]
    (the robot is at the goal). *)
Definition running_step (fuel : nat) (real : graph) : DM bool :=
  changes <- sense_changes real;;
  iter (apply_change fuel real) changes;;;
  path <- show_path fuel;;
  c <- get_current;; gl <- get_goal;;
  if decide (c = gl) then ret false
  else match path with
       | _ :: p1 :: _ => set_current p1;;; ret true
       | _ => fail IndexError
       end.

(** The editing modes of the main loop ([MODE]). *)
Inductive mode : Type := StartGoal | Obstacles | UnknownObstacles.

(** [i = int((mx - top_lefts[0][0]) / GRID_SIZE)] and the same for [j]:
    the cell of the left (real) graph under the mouse. *)
Definition click_cell (mx my : Z) : Z * Z :=
  (GridEnvironment.py_int (inject_Z (mx - 50) / 30), GridEnvironment.py_int (inject_Z (my - 100) / 30)).

(** A click on a cell in an editing mode: button 1 sets the start (and
    the robot's current cell), button 3 the goal, which is queued; an
    obstacle ([update_grid((i, j), 0)]) goes into both graphs, an
    unknown obstacle into the real one only. *)
Definition click (m : mode) (button : Z) (c : Z * Z) (real : graph) (s : dstate) : derror + (graph * dstate) :=
  match m with
  | StartGoal =>
      match (if Z.eqb button 1 then
               match update_start real c false, update_start (G s) c true with
               | inr r, inr gr => inr (r, mk_dstate gr (queue s))
               | inl e, _ | _, inl e => inl e
               end
             else inr (real, s)) with
      | inl e => inl e
      | inr (r1, s1) =>
          if Z.eqb button 3 then
            match update_goal r1 c with
            | inl e => inl e
            | inr r2 =>
                match update_goal (G s1) c with
                | inl e => inl e
                | inr gr =>
                    match goal gr with
                    | None => inl AttributeError
                    | Some gl => match pq_insert gl (mk_dstate gr (queue s1)) with
                                 | inl e => inl e
                                 | inr (_, s2) => inr (r2, s2)
                                 end
                    end
                end
            end
          else inr (r1, s1)
      end
  | Obstacles =>
      match update_grid real c 0, update_grid (G s) c 0 with
      | inr r, inr gr => inr (r, mk_dstate gr (queue s))
      | inl e, _ | _, inl e => inl e
      end
  | UnknownObstacles =>
      match update_grid real c 0 with
      | inr r => inr (r, s)
      | inl e => inl e
      end
  end.

(** The real environment of the demo: the cell (1, 1) on the diagonal
    from the start to the goal is an unknown obstacle. *)
Definition demo_real : graph :=
  match update_grid (init 4) (1, 1)%Z 0%Z with inr g => g | inl _ => init 4 end.

(** [graph.graph[i][j]] exists for every cell of the grid. *)
Definition all_present (s : dstate) : bool :=
  forallb (fun u => match verts (G s) !! u with Some _ => true | None => false end)
          (cells (size (G s))).

(** ** Specification of [binary_search] *)

Definition kle (a b : key) : Prop := key_leb a b = true.

(** Every key before position [i] is not above [k]. *)
Definition below (keys : list key) (k : key) (i : nat) : Prop :=
  forall j a, (j < i)%nat -> nth_error keys j = Some a -> kle a k.

(** Every key from position [i] on is not below [k]. *)
Definition above (keys : list key) (k : key) (i : nat) : Prop :=
  forall j a, (i <= j)%nat -> nth_error keys j = Some a -> kle k a.

(** The frame of a run: the grid size, [current] and [goal], which no
    operation of the priority queue or of [compute_path] changes. *)
Definition frame (s s' : dstate) : Prop :=
  size (G s') = size (G s) /\ current (G s') = current (G s) /\ goal (G s') = goal (G s).

Definition keeps_frame {A} (m : DM A) : Prop :=
  forall s a s', m s = inr (a, s') -> frame s s'.

(** ** Proofs *)

Lemma key_kle_trans a b c : kle a b -> kle b c -> kle a c.
Proof. apply key_leb_trans. Qed.

Lemma sorted_nth keys : StronglySorted kle keys ->
  forall i j a b, (i < j)%nat -> nth_error keys i = Some a -> nth_error keys j = Some b -> kle a b.
Proof.
  induction 1 as [|x l Hs IH Hf]; intros i j a b Hij Hi Hj; [destruct i; discriminate|].
  destruct j as [|j]; [lia|]. simpl in Hj. destruct i as [|i]; simpl in Hi.
  - injection Hi as <-. rewrite Forall_forall in Hf. apply Hf, list_elem_of_In.
    eapply nth_error_In. exact Hj.
  - apply (IH i j); auto. lia.
Qed.

Lemma kle_of_ltb a b : key_ltb a b = true -> kle a b.
Proof. apply key_ltb_leb. Qed.

Lemma kle_of_not_ltb a b : key_ltb a b = false -> kle b a.
Proof. apply key_ltb_total. Qed.

Lemma bs_spec fuel k keys (Hs : StronglySorted kle keys) : forall start end_,
  (start <= end_ <= length keys)%nat -> (end_ - start <= fuel)%nat ->
  below keys k start -> above keys k end_ ->
  exists i, binary_search fuel k keys start end_ = Some i /\
            (start <= i <= end_)%nat /\ below keys k i /\ above keys k i.
Proof.
  induction fuel as [|f IH]; intros start end_ Hr Hf Hb Ha; cbn -[Nat.div].
  - assert (end_ = start) as -> by lia. rewrite Nat.eqb_refl. exists start. repeat split; auto; lia.
  - destruct (Nat.eqb_spec start end_) as [<-|Hne]; [exists start; repeat split; auto; lia|].
    set (m := ((end_ + start) / 2)%nat).
    assert (Hm : (start <= m < end_)%nat).
    { pose proof (Nat.div_mod (end_ + start) 2 ltac:(lia)).
      pose proof (Nat.mod_upper_bound (end_ + start) 2 ltac:(lia)). unfold m. lia. }
    destruct (nth_error keys m) as [km|] eqn:Ekm;
      [|apply nth_error_None in Ekm; lia].
    (* keys before [m] are below [km], keys after it above *)
    assert (Hlo : forall j a, (j <= m)%nat -> nth_error keys j = Some a -> kle a km).
    { intros j a Hj Ej. destruct (Nat.eq_dec j m) as [->|Hjm].
      - rewrite Ekm in Ej. injection Ej as ->. apply key_leb_refl.
      - apply (sorted_nth keys Hs j m a km); [lia|exact Ej|exact Ekm]. }
    assert (Hhi : forall j a, (m <= j)%nat -> nth_error keys j = Some a -> kle km a).
    { intros j a Hj Ej. destruct (Nat.eq_dec j m) as [->|Hjm].
      - rewrite Ekm in Ej. injection Ej as ->. apply key_leb_refl.
      - apply (sorted_nth keys Hs m j km a); [lia|exact Ekm|exact Ej]. }
    (* the two recursive cases *)
    assert (Hleft : key_ltb k km = true ->
      exists i, binary_search f k keys start m = Some i /\
                (start <= i <= end_)%nat /\ below keys k i /\ above keys k i).
    { intros Hlt. destruct (IH start m) as (i & E & Hi & Hbi & Hai); auto; try lia.
      - intros j a Hj Ej. eapply key_kle_trans; [apply kle_of_ltb, Hlt|]. eapply Hhi; eauto.
      - exists i. repeat split; auto; lia. }
    assert (Hright : key_ltb k km = false ->
      exists i, binary_search f k keys (S m) end_ = Some i /\
                (start <= i <= end_)%nat /\ below keys k i /\ above keys k i).
    { intros Hge. destruct (IH (S m) end_) as (i & E & Hi & Hbi & Hai); auto; try lia.
      - intros j a Hj Ej. eapply key_kle_trans; [apply (Hlo j); [lia|exact Ej]|].
        apply kle_of_not_ltb, Hge.
      - exists i. repeat split; auto; lia. }
    destruct (ext_eqb (fst k) (fst km)) eqn:E1.
    + destruct (ext_eqb (snd k) (snd km)) eqn:E2.
      * exists m. split; [reflexivity|]. split; [lia|]. split.
        -- intros j a Hj Ej. unfold kle, key_leb.
           rewrite (key_ltb_eq_l a k km E1 E2). apply Hlo with j; auto; lia.
        -- intros j a Hj Ej. unfold kle, key_leb.
           rewrite (key_ltb_eq_r a k km E1 E2). apply Hhi with j; auto.
      * destruct (ext_ltb (snd k) (snd km)) eqn:E3.
        -- apply Hleft. unfold key_ltb. now rewrite E1, E3, orb_true_r.
        -- apply Hright. unfold key_ltb. rewrite E1, E3.
           rewrite (ext_ltb_eqb_l _ _ _ (eq_trans (ext_eqb_sym _ _) E1)), ext_ltb_irrefl.
           reflexivity.
    + destruct (key_ltb k km) eqn:E4; [now apply Hleft|now apply Hright].
Qed.

Lemma list_insert_perm {A} (i : nat) (x : A) (l : list A) : list_insert i x l ≡ₚ x :: l.
Proof.
  revert i. induction l as [|y l IH]; intros [|i]; simpl; try reflexivity.
  rewrite IH. apply Permutation_swap.
Qed.

Lemma insert_sorted k keys : forall i,
  StronglySorted kle keys -> below keys k i -> above keys k i ->
  StronglySorted kle (list_insert i k keys).
Proof.
  induction keys as [|a keys IH]; intros [|i] Hs Hb Ha; simpl.
  - repeat constructor.
  - repeat constructor.
  - constructor; [exact Hs|]. apply Forall_forall. intros b Hbin.
    apply list_elem_of_In, In_nth_error in Hbin as [j Ej]. apply (Ha j); [lia|exact Ej].
  - inversion Hs as [|? ? Hs' Hf]; subst. constructor.
    + apply IH; [exact Hs'| |].
      * intros j b Hj Ej. apply (Hb (S j)); [lia|exact Ej].
      * intros j b Hj Ej. apply (Ha (S j)); [lia|exact Ej].
    + apply Forall_forall. intros b Hbin. rewrite list_insert_perm in Hbin.
      apply elem_of_cons in Hbin as [->|Hbin].
      * apply (Hb 0%nat); [lia|reflexivity].
      * rewrite Forall_forall in Hf. now apply Hf.
Qed.

(** [C21] [binary_search(key, keys, 0, len(keys))], as [PriorityQueue.insert]
    calls it (with [len(keys) + 1] levels of recursion), returns on every
    sorted list of keys an index at which inserting [key] keeps the list
    sorted. *)
Theorem binary_search_insert_sorted k keys :
  StronglySorted kle keys ->
  exists i, binary_search (S (length keys)) k keys 0 (length keys) = Some i /\
            (i <= length keys)%nat /\ StronglySorted kle (list_insert i k keys).
Proof.
  intros Hs. destruct (bs_spec (S (length keys)) k keys Hs 0 (length keys))
    as (i & E & Hi & Hb & Ha); try lia.
  - intros j a Hj. lia.
  - intros j a Hj Ej. assert (nth_error keys j = None) by (apply nth_error_None; lia). congruence.
  - exists i. split; [exact E|]. split; [lia|]. now apply insert_sorted.
Qed.

Lemma ext_eqb_of_ltb (a b : ext) : ext_ltb b a = true -> ext_eqb a b = false.
Proof.
  intros H. destruct (ext_eqb a b) eqn:E; [|reflexivity].
  rewrite (ext_ltb_eqb_r b a b E), ext_ltb_irrefl in H. discriminate.
Qed.

Lemma ext_eqb_of_not_ltb (a b : ext) :
  ext_ltb a b = false -> ext_ltb b a = false -> ext_eqb a b = true.
Proof.
  intros H1 H2. destruct (ext_trichotomy a b) as [H|[H|H]]; congruence.
Qed.

(** On two keys, [compare_array] returns without error, and its
    result is truthy exactly when the first key is lexicographically
    smaller ([key_ltb], Python's [<] on the lists): the loop condition of
    [compute_path] compares keys the way the queue orders them. *)
Theorem compare_array_key a b :
  exists r, compare_array (key_list a) (key_list b) = inr r /\ truthy r = key_ltb a b.
Proof.
  destruct a as [a1 a2], b as [b1 b2]. unfold compare_array, key_list, key_ltb. simpl.
  destruct (ext_ltb a1 b1) eqn:E1; [eauto|].
  destruct (ext_ltb b1 a1) eqn:E2.
  - rewrite (ext_eqb_of_ltb _ _ E2). eauto.
  - rewrite (ext_eqb_of_not_ltb _ _ E1 E2). simpl.
    destruct (ext_ltb a2 b2) eqn:E3; [eauto|].
    destruct (ext_ltb b2 a2); eauto.
Qed.

Lemma succ_iff n c v :
  GridEnvironment.in_square n c ->
  v ∈ succ n c <->
  v <> c /\ (Z.abs (v.1 - c.1) <= 1)%Z /\ (Z.abs (v.2 - c.2) <= 1)%Z /\
  GridEnvironment.in_square n v.
Proof.
  destruct c as [x y], v as [vi vj]. unfold GridEnvironment.in_square, succ. simpl.
  intros Hc. rewrite list_elem_of_In, in_flat_map.
  unfold clamp_low, clamp_high.
  destruct (Z.eqb_spec (x - 1) (-1)), (Z.eqb_spec (x + 1) n),
           (Z.eqb_spec (y - 1) (-1)), (Z.eqb_spec (y + 1) n);
  (split;
   [intros (i & Hi & Hj); apply list_elem_of_In, GridEnvironment.py_range_spec in Hi;
    apply list_elem_of_In, list_elem_of_omap in Hj as (j & Hj & E);
    apply GridEnvironment.py_range_spec in Hj;
    case_decide as Hd; [discriminate|]; injection E as <- <-;
    split; [congruence|]; lia
   |intros (Hne & H1 & H2 & H3 & H4); exists vi;
    split; [apply list_elem_of_In, GridEnvironment.py_range_spec; lia|];
    apply list_elem_of_In, list_elem_of_omap; exists vj;
    split; [apply GridEnvironment.py_range_spec; lia|];
    case_decide; [congruence|reflexivity]]).
Qed.

(** [C22] [Graph.succ] (and [Graph.pred], the same code) of a cell of the
    grid lists exactly the other cells of the grid at distance at most 1
    in each coordinate: the clamping of the bounds at [-1] and [size] is
    the grid border. *)
Theorem succ_spec n c v :
  GridEnvironment.in_square n c ->
  v ∈ succ n c <->
  v <> c /\ (Z.abs (v.1 - c.1) <= 1)%Z /\ (Z.abs (v.2 - c.2) <= 1)%Z /\
  GridEnvironment.in_square n v.
Proof. exact (succ_iff n c v). Qed.

Lemma bind_inr_eq {A B} (m : DM A) (k : A -> DM B) s a s' :
  m s = inr (a, s') -> bind m k s = k a s'.
Proof. intros H. unfold bind. now rewrite H. Qed.

Lemma smooth_inr cv u s :
  is_Some (verts (G s) !! u) ->
  exists s', smooth cv u s = inr (tt, s') /\ queue s' = queue s /\
    (forall w, is_Some (verts (G s') !! w) <-> is_Some (verts (G s) !! w)).
Proof.
  intros [v Hv]. unfold smooth, get_vertex, put_vertex, bind, get, put, ret. simpl.
  rewrite Hv. eexists. split; [reflexivity|]. split; [reflexivity|].
  intros w. simpl. rewrite lookup_insert_is_Some'. split; [|tauto].
  intros [->|H]; [eauto|exact H].
Qed.

Lemma iter_smooth cv l : forall s,
  forallb (fun u => match verts (G s) !! u with Some _ => true | None => false end) l = true ->
  exists s', iter (smooth cv) l s = inr (tt, s') /\ queue s' = queue s.
Proof.
  induction l as [|u l IH]; intros s Hl; simpl; [eauto|].
  cbn [forallb] in Hl. apply andb_true_iff in Hl as [Hu Hl].
  destruct (smooth_inr cv u s) as (s1 & E1 & Q1 & D1);
    [destruct (verts (G s) !! u); [eauto|discriminate]|].
  unfold bind at 1. rewrite E1.
  destruct (IH s1) as (s2 & E2 & Q2).
  - rewrite forallb_forall in Hl |- *. intros w Hw. specialize (Hl w Hw).
    destruct (verts (G s) !! w) eqn:Ew; [|discriminate].
    destruct (proj2 (D1 w) ltac:(eauto)) as [? ->]. reflexivity.
  - exists s2. split; [exact E2|]. congruence.
Qed.

(** ** The frame of the monadic operations *)

Create HintDb dframe.

Lemma frame_refl s : frame s s.
Proof. repeat split. Qed.

Lemma frame_trans s1 s2 s3 : frame s1 s2 -> frame s2 s3 -> frame s1 s3.
Proof. unfold frame. intros (A & B & C) (D & E & F). repeat split; congruence. Qed.

Lemma kf_bind {A B} (m : DM A) (k : A -> DM B) :
  keeps_frame m -> (forall a, keeps_frame (k a)) -> keeps_frame (bind m k).
Proof.
  intros Hm Hk s b s'. unfold bind. destruct (m s) as [e|[a s1]] eqn:E; [discriminate|].
  intros H. eapply frame_trans; [exact (Hm _ _ _ E)|exact (Hk a _ _ _ H)].
Qed.

Lemma kf_ret {A} (a : A) : keeps_frame (ret a).
Proof. intros s b s' [= _ <-]. apply frame_refl. Qed.

Lemma kf_fail {A} (e : derror) : keeps_frame (A := A) (fail e).
Proof. intros s b s' H. discriminate. Qed.

Lemma kf_get : keeps_frame get.
Proof. intros s b s' [= _ <-]. apply frame_refl. Qed.

Lemma kf_lift {A} (r : derror + A) : keeps_frame (lift r).
Proof. destruct r; [apply kf_fail|apply kf_ret]. Qed.

Lemma kf_put_vertex c v : keeps_frame (put_vertex c v).
Proof. intros s b s' [= _ <-]. repeat split. Qed.

Lemma kf_set_queue q : keeps_frame (set_queue q).
Proof. intros s b s' [= _ <-]. repeat split. Qed.

#[local] Hint Resolve kf_ret kf_fail kf_get kf_lift kf_put_vertex kf_set_queue : dframe.

(** Split a monadic program into its steps and close each with the
    frame lemmas proved so far. *)
Ltac kf :=
  repeat match goal with
  | |- keeps_frame (bind _ _) => apply kf_bind; [|intro]
  | |- keeps_frame (match ?x with _ => _ end) => destruct x
  | |- keeps_frame (if ?b then _ else _) => destruct b
  | |- _ => solve [eauto with dframe]
  end.

Lemma kf_get_vertex c : keeps_frame (get_vertex c).
Proof. unfold get_vertex. kf. Qed.
Lemma kf_get_current : keeps_frame get_current.
Proof. unfold get_current. kf. Qed.
Lemma kf_get_goal : keeps_frame get_goal.
Proof. unfold get_goal. kf. Qed.
#[local] Hint Resolve kf_get_vertex kf_get_current kf_get_goal : dframe.

Lemma kf_map_keys l : keeps_frame (map_keys l).
Proof. induction l; simpl; kf. Qed.
#[local] Hint Resolve kf_map_keys : dframe.

Lemma kf_pq_pop : keeps_frame pq_pop.
Proof. unfold pq_pop. kf. Qed.
Lemma kf_pq_remove u : keeps_frame (pq_remove u).
Proof. unfold pq_remove. kf. Qed.
Lemma kf_pq_insert u : keeps_frame (pq_insert u).
Proof. unfold pq_insert. kf. Qed.
Lemma kf_pq_top_key : keeps_frame pq_top_key.
Proof. unfold pq_top_key. kf. Qed.
Lemma kf_cost u v : keeps_frame (cost u v).
Proof. unfold cost. kf. Qed.
#[local] Hint Resolve kf_pq_pop kf_pq_remove kf_pq_insert kf_pq_top_key kf_cost : dframe.

Lemma kf_rhs_loop v l : forall ans, keeps_frame (rhs_loop v l ans).
Proof. induction l; intros; simpl; kf. Qed.
#[local] Hint Resolve kf_rhs_loop : dframe.

Lemma kf_calculate_rhs u : keeps_frame (calculate_rhs u).
Proof. unfold calculate_rhs. kf. Qed.
#[local] Hint Resolve kf_calculate_rhs : dframe.

Lemma kf_iter f l : (forall u, keeps_frame (f u)) -> keeps_frame (iter f l).
Proof. intros Hf. induction l; simpl; kf. Qed.
#[local] Hint Resolve kf_iter : dframe.

Lemma kf_update_vertex u : keeps_frame (update_vertex u).
Proof. unfold update_vertex. kf. Qed.
Lemma kf_smooth cv u : keeps_frame (smooth cv u).
Proof. unfold smooth. kf. Qed.
#[local] Hint Resolve kf_update_vertex kf_smooth : dframe.

Lemma kf_path_loop fuel : keeps_frame (path_loop fuel).
Proof. induction fuel; simpl; kf. Qed.
#[local] Hint Resolve kf_path_loop : dframe.

Lemma kf_compute_path fuel : keeps_frame (compute_path fuel).
Proof. unfold compute_path. kf. Qed.
#[local] Hint Resolve kf_compute_path : dframe.

Lemma update_grid_frame gr c p gr' :
  update_grid gr c p = inr gr' -> size gr' = size gr /\ current gr' = current gr /\ goal gr' = goal gr.
Proof. unfold update_grid. destruct (index gr c); [intros [= <-]; repeat split|discriminate]. Qed.

Lemma kf_apply_change fuel real c : keeps_frame (apply_change fuel real c).
Proof.
  intros s0 b s' H. unfold apply_change, bind at 1, lift at 1 in H.
  destruct (grid_at real c) as [e|p]; [discriminate|]. cbn in H.
  destruct (update_grid (G s0) c p) as [e|gr] eqn:Eg; [discriminate|]. cbn in H.
  destruct (update_grid_frame _ _ _ _ Eg) as (A & B & C).
  assert (Hk : keeps_frame (update_vertex c;;; iter update_vertex (pred (size gr) c);;; compute_path fuel))
    by (apply kf_bind; [apply kf_update_vertex|intros []; kf]).
  apply Hk in H. eapply frame_trans; [|exact H]. repeat split; cbn; assumption.
Qed.

(** [C23] [compute_path] on an empty queue -- for instance a second call
    after a run that emptied it -- raises [IndexError]: the loop condition
    reads [queue.top_key()] before testing anything, so the function does
    not stop when the queue is empty. *)
Theorem compute_path_empty_queue fuel s c :
  queue s = [] -> current (G s) = Some c -> is_Some (verts (G s) !! c) ->
  all_present s = true ->
  compute_path fuel s = inl IndexError.
Proof.
  intros Hq Hc [cv Hcv] Hall.
  destruct (iter_smooth cv (cells (size (G s))) s Hall) as (s' & E & Q).
  unfold compute_path.
  rewrite (bind_inr_eq _ _ s c s) by (unfold get_current, bind, get; simpl; now rewrite Hc).
  rewrite (bind_inr_eq _ _ s cv s) by (unfold get_vertex, bind, get; simpl; now rewrite Hcv).
  rewrite (bind_inr_eq _ _ s s s) by reflexivity.
  rewrite (bind_inr_eq _ _ s tt s') by exact E.
  destruct fuel; simpl; unfold pq_top_key, bind, get; simpl; rewrite Q, Hq; reflexivity.
Qed.

Lemma compute_path_empty_queue_witness :
  match demo_solved with
  | inr s => compute_path 5 s = inl IndexError
  | inl _ => False
  end.
Proof.
  assert (H : match demo_solved with
              | inr s => queue s = [] /\ current (G s) = Some (0, 0)%Z /\
                         is_Some (verts (G s) !! (0, 0)%Z) /\ all_present s = true
              | inl _ => False
              end) by (vm_compute; repeat split; [eexists; reflexivity]).
  destruct demo_solved as [e|s]; [contradiction|].
  destruct H as (Hq & Hc & Hv & Ha).
  exact (compute_path_empty_queue 5 s (0, 0)%Z Hq Hc Hv Ha).
Defined.

Lemma binary_search_insert_sorted_witness :
  exists i, binary_search 4 (Fin 2, Fin 0) [(Fin 1, Fin 1); (Fin 2, Fin 0); (Inf, Inf)] 0 3 = Some i /\
            (i <= 3)%nat /\
            StronglySorted kle (list_insert i (Fin 2, Fin 0) [(Fin 1, Fin 1); (Fin 2, Fin 0); (Inf, Inf)]).
Proof.
  apply (binary_search_insert_sorted (Fin 2, Fin 0) [(Fin 1, Fin 1); (Fin 2, Fin 0); (Inf, Inf)]).
  repeat constructor; vm_compute; reflexivity.
Defined.

Lemma succ_spec_witness : ((1, 1)%Z ∈ succ 4 (0, 0)%Z) /\ ~ ((2, 0)%Z ∈ succ 4 (0, 0)%Z).
Proof.
  split.
  - apply (succ_spec 4 (0, 0)%Z (1, 1)%Z);
      [unfold GridEnvironment.in_square; cbn [fst snd]; lia|].
    split; [discriminate|]. unfold GridEnvironment.in_square. cbn [fst snd]. lia.
  - rewrite (succ_spec 4 (0, 0)%Z (2, 0)%Z)
      by (unfold GridEnvironment.in_square; cbn [fst snd]; lia).
    intros (_ & H & _). cbn [fst snd] in H. lia.
Defined.

(** ** One frame of the [running] mode *)

Lemma bind_inv {A B} (m : DM A) (k : A -> DM B) s b s' :
  bind m k s = inr (b, s') -> exists a s1, m s = inr (a, s1) /\ k a s1 = inr (b, s').
Proof. unfold bind. destruct (m s) as [e|[a s1]]; [discriminate|eauto]. Qed.

Lemma get_vertex_state u s v s' : get_vertex u s = inr (v, s') -> s' = s.
Proof. unfold get_vertex, bind, get, ret, fail. cbn. destruct (verts (G s) !! u); [intros [= _ <-]; reflexivity|discriminate]. Qed.

Lemma argmin_g_spec l : forall best bg s r s',
  argmin_g best bg l s = inr (r, s') -> s' = s /\ (r = best \/ r ∈ l).
Proof.
  induction l as [|u l IH]; intros best bg s r s' H; simpl in H.
  - injection H as <- <-. auto.
  - apply bind_inv in H as (v & s1 & E1 & H). apply get_vertex_state in E1 as ->.
    destruct (ext_ltb (g v) bg); apply IH in H as [-> [->|Hr]]; split; auto;
      right; [left|right|right]; (try constructor); assumption.
Qed.

Lemma walk_spec fuel cur s p s' :
  walk fuel cur s = inr (p, s') ->
  s' = s /\ (p = [] \/ exists nxt rest, p = nxt :: rest /\ nxt ∈ succ (size (G s)) cur).
Proof.
  revert cur s p s'. induction fuel as [|f IH]; intros cur s p s' H; simpl in H;
    apply bind_inv in H as (gl & s1 & E1 & H); unfold get_goal, bind, get in E1; cbn in E1;
    (destruct (goal (G s)); cbn in E1; [injection E1 as <- <-|discriminate]);
    (case_decide; [injection H as <- <-; auto|]); [discriminate|].
  apply bind_inv in H as (s2 & s3 & E2 & H). injection E2 as <- <-.
  destruct (succ (size (G s)) cur) as [|u l] eqn:Es; [discriminate|].
  apply bind_inv in H as (v & s4 & E4 & H). apply get_vertex_state in E4 as ->.
  apply bind_inv in H as (nxt & s5 & E5 & H). apply argmin_g_spec in E5 as [-> Hn].
  apply bind_inv in H as (rest & s6 & E6 & H). apply IH in E6 as [-> _].
  injection H as <- <-. split; [reflexivity|right]. exists nxt, rest. split; [reflexivity|].
  destruct Hn as [->|Hn]; [left|right; exact Hn].
Qed.

Lemma kf_sense_changes real : keeps_frame (sense_changes real).
Proof. unfold sense_changes. kf. Qed.

Lemma index_in_square gr c : GridEnvironment.in_square (size gr) c -> index gr c = Some c.
Proof.
  destruct c as [i j]. unfold GridEnvironment.in_square, index, GridEnvironment.py_idx. cbn.
  intros (Hi & Hj). repeat case_decide; first [reflexivity|lia].
Qed.

(** A frame of the [running] mode that goes on moves [graph.current] to
    a neighbor of the cell it was on, which was not the goal; the grid
    size and the goal stay. *)
Lemma running_step_moves fuel real s s' c :
  current (G s) = Some c -> GridEnvironment.in_square (size (G s)) c ->
  running_step fuel real s = inr (true, s') ->
  Some c <> goal (G s) /\
  exists c', current (G s') = Some c' /\ c' ∈ succ (size (G s)) c /\
             size (G s') = size (G s) /\ goal (G s') = goal (G s).
Proof.
  intros Hc Hin H. unfold running_step in H.
  apply bind_inv in H as (ch & s0 & E0 & H).
  assert (F0 : frame s s0) by (revert E0; apply kf_sense_changes).
  apply bind_inv in H as (u & s1 & E1 & H).
  assert (F1 : frame s0 s1) by (eapply kf_iter; [intros; apply kf_apply_change|exact E1]).
  destruct (frame_trans _ _ _ F0 F1) as (S1 & C1 & G1).
  apply bind_inv in H as (path & s2 & E2 & H).
  unfold show_path in E2. apply bind_inv in E2 as (c1 & s3 & E3 & E2).
  unfold get_current, bind, get in E3. cbn in E3. rewrite C1, Hc in E3. cbn in E3. injection E3 as <- <-.
  apply bind_inv in E2 as (p & s4 & E4 & E2). apply walk_spec in E4 as [-> Hp].
  injection E2 as <- <-.
  apply bind_inv in H as (c2 & s5 & E5 & H).
  unfold get_current, bind, get in E5. cbn in E5. rewrite C1, Hc in E5. cbn in E5. injection E5 as <- <-.
  apply bind_inv in H as (gl & s6 & E6 & H).
  unfold get_goal, bind, get in E6. cbn in E6.
  destruct (goal (G s1)) as [gl'|] eqn:Eg; cbn in E6; [injection E6 as <- <-|discriminate].
  case_decide as Hcg; [discriminate|].
  destruct Hp as [->|(nxt & rest & -> & Hn)]; [discriminate|].
  apply bind_inv in H as (t & s7 & E7 & H). injection H as <-.
  rewrite S1 in Hn. pose proof Hn as Hn0. apply succ_iff in Hn as (_ & _ & _ & Hsq); [|exact Hin].
  unfold set_current, bind, get in E7. cbn in E7.
  rewrite index_in_square in E7 by (rewrite S1; exact Hsq). cbn in E7. injection E7 as _ <-.
  split; [rewrite <- G1; congruence|]. exists nxt. cbn. repeat split; try assumption; congruence.
Qed.

(** On the demo, the first frame of the [running] mode senses the unknown
    obstacle next to the start, repairs the plan, and steps to (0, 1)
    instead of the diagonal (1, 1). *)
Lemma running_step_demo :
  match demo_solved with
  | inr s => match running_step 100 demo_real s with
             | inr (b, s') => b = true /\ current (G s') = Some (0, 1)%Z
             | inl _ => False
             end
  | inl _ => False
  end.
Proof. vm_compute. split; reflexivity. Qed.

(** The click mapping truncates toward zero and Python indexing wraps:
    a click in the robot's graph (right of the real one) raises
    [IndexError], a click just left of the real graph edits column 0,
    and one further left edits the last column. *)
Lemma click_outside_grid :
  click_cell 230 110 = (6, 0)%Z /\
  click Obstacles 1 (click_cell 230 110) (init 4) (mk_dstate (init 4) []) = inl IndexError /\
  click_cell 30 110 = (0, 0)%Z /\
  click_cell 10 110 = (-1, 0)%Z /\ index (init 4) (click_cell 10 110) = Some (3, 0)%Z.
Proof. vm_compute. repeat split; reflexivity. Qed.

End DstarLite.
