(* ===== verification/Robot.v ===== *)
(** * The robot ([src/robot.py])

    The robot is a disc of sensor radius [r] at position [pos].  It
    detects the obstacles whose box comes within [r] of its position
    ([detect]), tests whether it has reached a point ([reach], tolerance 8)
    or entered a cell ([enter]), and moves straight to its local goal
    ([nextPosition]).  The solver and decision-maker references it holds
    are the components of [Solver] and [Decision]. *)

From Stdlib Require Import QArith Qpower Qminmax Qabs Lqa ZArith Lia List.
From S2P Require Import Prelude Geometry.
Import ListNotations.
Local Open Scope Q_scope.

Module Robot.

Record t : Type := mk { pos : Q * Q; r : Q }.

(** [Robot.__init__(start, solver, decisionMaker, r=40)]. *)
Definition init (start : Q * Q) : t := mk start 40.

(** [Robot.reach(goal, epsilon=8)]. *)
Definition reach (rb : t) (goal : Q * Q) : bool :=
  let '(robotX, robotY) := pos rb in
  let '(goalX, goalY) := goal in
  Qle_bool ((robotX - goalX) ^ 2 + (robotY - goalY) ^ 2) (8 ^ 2).

(** [Robot.enter(node)]: both tests use the node's width. *)
Definition enter (rb : t) (node : AABB.t) : bool :=
  let '(robotX, robotY) := pos rb in
  Qle_bool (Qabs (robotX - AABB.x node)) (AABB.width node / 2) &&
  Qle_bool (Qabs (robotY - AABB.y node)) (AABB.width node / 2).

(** The point of a box nearest to [p]: [max(x1, min(p.x, x2))] and the same
    in [y]. *)
Definition closest (b : AABB.t) (p : Q * Q) : Q * Q :=
  let '(x1, x2, y1, y2) := AABB.return_coordinate b in
  (Qmax x1 (Qmin (fst p) x2), Qmax y1 (Qmin (snd p) y2)).

Definition sq_dist (p q : Q * Q) : Q := (fst p - fst q) ^ 2 + (snd p - snd q) ^ 2.

(** The test of [Robot.detect] for one obstacle. *)
Definition detects (rb : t) (o : Obstacle.t) : bool :=
  Qle_bool (sq_dist (closest (Obstacle.box o) (pos rb)) (pos rb)) (r rb ^ 2).

(** [Robot.detect(obstacles_list)]. *)
Definition detect (rb : t) (obstacles : list Obstacle.t) : list Obstacle.t :=
  filter (detects rb) obstacles.

(** [Robot.nextPosition(goal)]. *)
Definition nextPosition (rb : t) (goal : Q * Q) : Q * Q := goal.

Definition with_pos (rb : t) (p : Q * Q) : t := mk p (r rb).

(** The collision test of the main loop ([src/QuadTree.py]):
    [-w <= 2 (robotX - x) <= w and -h <= 2 (robotY - y) <= h]. *)
Definition collides (rb : t) (o : Obstacle.t) : bool :=
  let b := Obstacle.box o in
  let '(robotX, robotY) := pos rb in
  Qle_bool (- AABB.width b) (2 * (robotX - AABB.x b)) &&
  Qle_bool (2 * (robotX - AABB.x b)) (AABB.width b) &&
  Qle_bool (- AABB.height b) (2 * (robotY - AABB.y b)) &&
  Qle_bool (2 * (robotY - AABB.y b)) (AABB.height b).

(** A robot at (100, 100) and a 20 x 20 obstacle 20 to its right. *)
Definition sample_robot : t := init (100, 100).
Definition near_obstacle : Obstacle.t := Obstacle.init 130 100 20 20 true (0, 0) (20, 20) (20, 20).

(** ** Proofs *)

Lemma closest_clamp_in (lo hi p : Q) : lo <= hi -> lo <= Qmax lo (Qmin p hi) <= hi.
Proof.
  intros H. split; [apply Q.le_max_l|]. apply Q.max_lub; [exact H|apply Q.le_min_r].
Qed.

(** The clamped coordinate is the nearest point of the interval. *)
Lemma clamp_nearest (lo hi p q : Q) :
  lo <= q <= hi -> (Qmax lo (Qmin p hi) - p) ^ 2 <= (q - p) ^ 2.
Proof.
  intros [H1 H2]. destruct (Qlt_le_dec p lo) as [Hp|Hp].
  - rewrite Q.min_l by lra. rewrite Q.max_l by lra. nra.
  - destruct (Qlt_le_dec hi p) as [Hp'|Hp'].
    + rewrite Q.min_r by lra. rewrite Q.max_r by lra. nra.
    + rewrite Q.min_l by lra. rewrite Q.max_r by lra.
      setoid_replace ((p - p) ^ 2) with 0 by (simpl; ring). apply Qsqr_nonneg.
Qed.

Lemma closest_contains (b : AABB.t) (p : Q * Q) :
  0 <= AABB.width b -> 0 <= AABB.height b -> AABB.contains b (closest b p).
Proof.
  intros Hw Hh. unfold AABB.contains, closest, AABB.return_coordinate. simpl.
  split; apply closest_clamp_in; qlra.
Qed.

Lemma closest_nearest (b : AABB.t) (p q : Q * Q) :
  AABB.contains b q -> sq_dist (closest b p) p <= sq_dist q p.
Proof.
  unfold AABB.contains, closest, AABB.return_coordinate, sq_dist. simpl.
  intros [Hx Hy]. pose proof (clamp_nearest _ _ (fst p) _ Hx).
  pose proof (clamp_nearest _ _ (snd p) _ Hy). lra.
Qed.

(** [C24] [detect] is the sensor model of the specification: an obstacle
    (of non-negative size) is detected exactly when some point of its box
    lies within the sensor radius of the robot; the closest-point clamp
    of the code finds the nearest point of the box. *)
Theorem detect_spec (rb : t) (obstacles : list Obstacle.t) (o : Obstacle.t) :
  0 <= AABB.width (Obstacle.box o) -> 0 <= AABB.height (Obstacle.box o) ->
  In o (detect rb obstacles) <->
  In o obstacles /\
  exists p, AABB.contains (Obstacle.box o) p /\ sq_dist p (pos rb) <= r rb ^ 2.
Proof.
  intros Hw Hh. unfold detect, detects. rewrite filter_In, Qle_bool_iff. split.
  - intros [Hin Hd]. split; [exact Hin|]. eexists. split; [|exact Hd].
    now apply closest_contains.
  - intros [Hin (q & Hq & Hd)]. split; [exact Hin|].
    eapply Qle_trans; [apply closest_nearest, Hq|exact Hd].
Qed.

(** The collision test of the main loop is containment of the
    robot's position in the obstacle's closed box. *)
Theorem collides_contains (rb : t) (o : Obstacle.t) :
  collides rb o = true <-> AABB.contains (Obstacle.box o) (pos rb).
Proof.
  unfold collides, AABB.contains, AABB.return_coordinate. destruct (pos rb) as [px py].
  simpl. rewrite !andb_true_iff, !Qle_bool_iff. split; intros H; qlra.
Qed.

Lemma detect_spec_witness : In near_obstacle (detect sample_robot [near_obstacle]).
Proof.
  apply (detect_spec sample_robot [near_obstacle] near_obstacle);
    [vm_compute; discriminate|vm_compute; discriminate|].
  split; [left; reflexivity|]. exists (120, 100).
  split; [vm_compute; split; split; discriminate|vm_compute; discriminate].
Defined.

End Robot.
