(* ===== verification/Decision.v ===== *)
(** * The replan decision ([src/DecisionMaking.py])

    [FuzzyDecisionMaking] classifies, for each obstacle that moved and is
    within sensor range, the angle between the robot's heading and the
    obstacle ([convertphi]), the change of that angle ([convertdeltaphi])
    and the change of distance ([convertdeltad]) into coarse categories by
    triangular memberships, then looks the triple up in [truthtable].
    [decisionMaking] returns [Replan] as soon as one obstacle asks for it,
    else [Stop] if one asked for it, else [No].  The Python categories are
    strings; here they are inductive types.  [np.arccos] and [np.pi] are
    not rational: the section takes the [angle] function and [pi] as
    parameters. *)

From Stdlib Require Import QArith Qminmax Lqa ZArith Lia List.
From S2P Require Import Prelude Geometry Robot.
Import ListNotations.
Local Open Scope Q_scope.

Module Decision.

Inductive decision : Type := No | Replan | Stop.
Inductive phi_cat : Type := PhiS | PhiD | PhiF.
Inductive dd_cat : Type := DdA | DdU | DdC.
Inductive dp_cat : Type := DpA | DpLA | DpU | DpLC | DpC.

(** The thresholds of [FuzzyDecisionMaking.__init__]. *)
Definition ANGLE_F : Q := 25.
Definition ANGLE_DF : Q := 35.
Definition ANGLE_DS : Q := 55.
Definition ANGLE_S : Q := 65.
Definition DELTAD_A : Q := 5 # 2.
Definition DELTAD_UA : Q := 3 # 2.
Definition DELTAD_UC : Q := - (3 # 2).
Definition DELTAD_C : Q := - (5 # 2).
Definition DELTAPHI_A : Q := 10.
Definition DELTAPHI_LAA : Q := 7.
Definition DELTAPHI_LAU : Q := 5.
Definition DELTAPHI_ULA : Q := 3.
Definition DELTAPHI_ULC : Q := -3.
Definition DELTAPHI_LCU : Q := -5.
Definition DELTAPHI_LCC : Q := -7.
Definition DELTAPHI_C : Q := -10.

(** [hi >= x >= lo] and [hi > x > lo]. *)
Definition between (lo x hi : Q) : bool := Qle_bool lo x && Qle_bool x hi.
Definition strictly (lo x hi : Q) : bool := Qlt_bool lo x && Qlt_bool x hi.

(** The memberships [aS, aD, aF] of [FuzzyDecisionMaking.convertphi(phi)],
    in exact rational arithmetic.  On [[55, 65]] the code's [aS] and [aD]
    are the same linear function written two ways, and so are [aD] and
    [aF] on [[25, 35]]: in Python's floats, rounding decides which of the
    two is larger there (the theorems below only state what holds
    whatever the rounding). *)
Definition phi_memberships (phi : Q) : Q * Q * Q :=
  if Qlt_bool ANGLE_S phi then (1, 0, 0)
  else if between ANGLE_DS phi ANGLE_S then
    ((ANGLE_S - phi) / (ANGLE_S - ANGLE_DS), 1 - (phi - ANGLE_DS) / (ANGLE_S - ANGLE_DS), 0)
  else if strictly ANGLE_DF phi ANGLE_DS then (0, 1, 0)
  else if between ANGLE_F phi ANGLE_DF then
    (0, (ANGLE_DF - phi) / (ANGLE_DF - ANGLE_F), 1 - (phi - ANGLE_F) / (ANGLE_DF - ANGLE_F))
  else if Qlt_bool phi ANGLE_F then (0, 0, 1)
  else (0, 0, 0).

(** [FuzzyDecisionMaking.convertphi(phi)]: the first category of largest
    membership. *)
Definition convertphi (phi : Q) : phi_cat :=
  let '(aS, aD, aF) := phi_memberships phi in
  let m := Qmax (Qmax aS aD) aF in
  if Qeq_bool m aS then PhiS else if Qeq_bool m aD then PhiD else PhiF.

(** [FuzzyDecisionMaking.convertdeltad(deltad)]. *)
Definition convertdeltad (deltad : Q) : dd_cat :=
  let '(ddA, ddU, ddC) :=
    if Qlt_bool DELTAD_A deltad then (1, 0, 0)
    else if between DELTAD_UA deltad DELTAD_A then
      ((DELTAD_A - deltad) / (DELTAD_A - DELTAD_UA), (deltad - DELTAD_UA) / (DELTAD_A - DELTAD_UA), 0)
    else if strictly DELTAD_UC deltad DELTAD_UA then (0, 1, 0)
    else if strictly DELTAD_C deltad DELTAD_UC then
      (0, (DELTAD_UC - deltad) / (DELTAD_UC - DELTAD_C), (deltad - DELTAD_C) / (DELTAD_UC - DELTAD_C))
    else if Qlt_bool deltad DELTAD_C then (0, 0, 1)
    else (0, 0, 0) in
  let m := Qmax (Qmax ddA ddU) ddC in
  if Qeq_bool m ddA then DdA else if Qeq_bool m ddU then DdU else DdC.

(** [FuzzyDecisionMaking.convertdeltaphi(deltaphi)]. *)
Definition convertdeltaphi (x : Q) : dp_cat :=
  let '(dpA, dpLA, dpU, dpLC, dpC) :=
    if Qlt_bool DELTAPHI_A x then (1, 0, 0, 0, 0)
    else if between DELTAPHI_LAA x DELTAPHI_A then
      ((DELTAPHI_A - x) / (DELTAPHI_A - DELTAPHI_LAA), (x - DELTAPHI_LAA) / (DELTAPHI_A - DELTAPHI_LAA), 0, 0, 0)
    else if strictly DELTAPHI_LAU x DELTAPHI_LAA then (0, 1, 0, 0, 0)
    else if between DELTAPHI_ULA x DELTAPHI_LAU then
      (0, (DELTAPHI_LAU - x) / (DELTAPHI_LAU - DELTAPHI_ULA), (x - DELTAPHI_ULA) / (DELTAPHI_LAU - DELTAPHI_ULA), 0, 0)
    else if strictly DELTAPHI_ULC x DELTAPHI_ULA then (0, 0, 1, 0, 0)
    else if between DELTAPHI_LCU x DELTAPHI_ULC then
      (0, 0, (DELTAPHI_ULC - x) / (DELTAPHI_ULC - DELTAPHI_LCU), (x - DELTAPHI_LCU) / (DELTAPHI_ULC - DELTAPHI_LCU), 0)
    else if strictly DELTAPHI_LCC x DELTAPHI_LCU then (0, 0, 0, 1, 0)
    else if between DELTAPHI_C x DELTAPHI_LCC then
      (0, 0, 0, (DELTAPHI_LCC - x) / (DELTAPHI_LCC - DELTAPHI_C), (x - DELTAPHI_C) / (DELTAPHI_LCC - DELTAPHI_C))
    else if Qlt_bool x DELTAPHI_C then (0, 0, 0, 0, 1)
    else (0, 0, 0, 0, 0) in
  let m := Qmax (Qmax (Qmax (Qmax dpA dpLA) dpU) dpLC) dpC in
  if Qeq_bool m dpA then DpA else if Qeq_bool m dpLA then DpLA
  else if Qeq_bool m dpU then DpU else if Qeq_bool m dpLC then DpLC else DpC.

(** [FuzzyDecisionMaking.truthtable(phi, deltad, deltaphi)]. *)
Definition truthtable (phi : phi_cat) (deltad : dd_cat) (deltaphi : dp_cat) : decision :=
  match deltad, phi, deltaphi with
  | DdA, PhiF, (DpC | DpLC | DpU) => Stop
  | DdA, PhiF, (DpLA | DpA) => No
  | DdA, _, _ => No
  | DdU, PhiS, _ => No
  | DdU, PhiD, (DpC | DpLC) => Replan
  | DdU, PhiD, (DpU | DpLA | DpA) => No
  | DdU, PhiF, (DpC | DpLC | DpU) => Stop
  | DdU, PhiF, (DpLA | DpA) => No
  | DdC, PhiS, DpLC => Stop
  | DdC, PhiS, DpU => Replan
  | DdC, PhiS, (DpC | DpLA | DpA) => No
  | DdC, PhiD, (DpC | DpLC) => Stop
  | DdC, PhiD, DpU => Replan
  | DdC, PhiD, (DpLA | DpA) => No
  | DdC, PhiF, (DpC | DpLC | DpU) => Replan
  | DdC, PhiF, (DpLA | DpA) => Stop
  end.

(** ** The decision loops, over the two transcendental functions *)

Section Loops.

(** [angle(x1, y1, x2, y2)] ([np.arccos] of the normalised dot product)
    and [np.pi]. *)
Variable angle : Q -> Q -> Q -> Q -> Q.
Variable pi : Q.

(** [FuzzyDecisionMaking.fuzzyDecisionMaking(phit, phit_next, dt, dt_next)]. *)
Definition fuzzyDecisionMaking (phit phit_next dt dt_next : Q) : decision :=
  truthtable (convertphi (phit / pi * 180)) (convertdeltad (dt_next - dt))
             (convertdeltaphi ((phit_next - phit) / pi * 180)).

Definition sq_from (p c : Q * Q) : Q :=
  (fst p - fst c) * (fst p - fst c) + (snd p - snd c) * (snd p - snd c).

(** [min(corners, key=...)]: the first corner nearest to [p]. *)
Definition nearest_corner (p : Q * Q) (b : AABB.t) : Q * Q :=
  match AABB.get_corners b with
  | [] => (AABB.x b, AABB.y b)
  | c :: cs => fold_left (fun best c' => if Qlt_bool (sq_from p c') (sq_from p best) then c' else best) cs c
  end.

(** The body of the loop of [FuzzyDecisionMaking.decisionMaking] for the
    obstacle before and after the tick: [None] for [continue] or no
    decision. *)
Definition obstacle_decision (rb : Robot.t) (goal : Q * Q) (ob oa : Obstacle.t) : option decision :=
  let b1 := Obstacle.box ob in
  let b2 := Obstacle.box oa in
  if Qeq_bool (AABB.x b1) (AABB.x b2) && Qeq_bool (AABB.y b1) (AABB.y b2) then None
  else
    let p := Robot.pos rb in
    let c1 := nearest_corner p b1 in
    let c2 := nearest_corner p b2 in
    let distance := qsqrt (sq_from p c1) in
    if Qlt_bool distance (Robot.r rb) then
      let distance_next := qsqrt (sq_from p c2) in
      let rb_next := Robot.nextPosition rb goal in
      let phi := angle (fst rb_next - fst p) (snd rb_next - snd p) (fst c1 - fst p) (snd c1 - snd p) in
      let phi_next := angle (fst rb_next - fst p) (snd rb_next - snd p) (fst c2 - fst p) (snd c2 - snd p) in
      Some (fuzzyDecisionMaking phi phi_next distance distance_next)
    else None.

(** The loop: [Replan] returns at once, [Stop] is remembered; [None] is
    the [IndexError] of a shorter [obstacles_list_after]. *)
Fixpoint decide_loop (rb : Robot.t) (goal : Q * Q) (before after : list Obstacle.t)
    (d : decision) : option decision :=
  match before, after with
  | [], _ => Some d
  | ob :: bs, oa :: as' =>
      match obstacle_decision rb goal ob oa with
      | Some Replan => Some Replan
      | Some Stop => decide_loop rb goal bs as' Stop
      | _ => decide_loop rb goal bs as' d
      end
  | _ :: _, [] => None
  end.

(** [FuzzyDecisionMaking.decisionMaking(rb)] after [update(before, after,
    goal)]. *)
Definition decisionMaking (rb : Robot.t) (goal : Q * Q) (before after : list Obstacle.t) :
    option decision :=
  decide_loop rb goal before after No.

(** [OnlyReplanDecision.decisionMaking(rb)]. *)
Definition only_replan (rb : Robot.t) (goal : Q * Q) (before : list Obstacle.t) : decision :=
  fold_left (fun d o =>
    let p := Robot.pos rb in
    let c := (AABB.x (Obstacle.box o), AABB.y (Obstacle.box o)) in
    let rb_next := Robot.nextPosition rb goal in
    let distance := qsqrt (sq_from p c) in
    let phi := angle (fst rb_next - fst p) (snd rb_next - snd p) (fst c - fst p) (snd c - snd p) in
    if Qlt_bool distance (Robot.r rb) && Qle_bool phi (pi / 2) then Replan else d) before No.

(** The decision the loop reaches on a list of per-obstacle answers:
    [Replan] if one is [Replan], else [Stop] if one is [Stop]. *)
Definition is_answer (a : decision) (o : option decision) : bool :=
  match o, a with
  | Some Replan, Replan | Some Stop, Stop | Some No, No => true
  | _, _ => false
  end.

Definition summary (d : decision) (l : list (option decision)) : decision :=
  if existsb (is_answer Replan) l then Replan
  else if (match d with Stop => true | _ => false end) || existsb (is_answer Stop) l then Stop
  else d.

End Loops.

(** ** Proofs *)

(** Case on the comparisons of the goal, dropping the impossible
    combinations at once. *)
Ltac qcases :=
  repeat match goal with
  | |- context [Qlt_bool ?a ?b] =>
      let E := fresh "E" in destruct (Qlt_bool a b) eqn:E; qbool; try (exfalso; lra)
  | |- context [Qle_bool ?a ?b] =>
      let E := fresh "E" in destruct (Qle_bool a b) eqn:E; qbool; try (exfalso; lra)
  end.

(** Evaluate the constant denominators [(hi - lo)] so that [lra] sees
    multiplications by rational constants. *)
Ltac const_denoms :=
  repeat match goal with
  | |- context [?x / ?d] =>
      lazymatch d with
      | Qred _ => fail
      | Zpos _ # 1 => fail
      | _ => rewrite <- (Qred_correct d)
      end
  end;
  repeat match goal with
  | |- context [Qred ?d] => let d' := eval vm_compute in (Qred d) in change (Qred d) with d'
  end; qconst.

Lemma max3_a (a b c : Q) : b <= a -> c <= a -> Qeq_bool (Qmax (Qmax a b) c) a = true.
Proof. intros. apply Qeq_bool_iff. rewrite (Q.max_l a b), (Q.max_l a c) by lra. reflexivity. Qed.

Lemma max3_not_a (a b c : Q) : a < b \/ a < c -> Qeq_bool (Qmax (Qmax a b) c) a = false.
Proof.
  intros H. apply not_true_iff_false. rewrite Qeq_bool_iff. intros E.
  pose proof (Q.le_max_l (Qmax a b) c). pose proof (Q.le_max_r (Qmax a b) c).
  pose proof (Q.le_max_l a b). pose proof (Q.le_max_r a b). lra.
Qed.

Lemma max3_b (a b c : Q) : a < b -> c <= b -> Qeq_bool (Qmax (Qmax a b) c) b = true.
Proof. intros. apply Qeq_bool_iff. rewrite (Q.max_r a b), (Q.max_l b c) by lra. reflexivity. Qed.

Lemma max3_not_b (a b c : Q) : b < c -> Qeq_bool (Qmax (Qmax a b) c) b = false.
Proof.
  intros H. apply not_true_iff_false. rewrite Qeq_bool_iff. intros E.
  pose proof (Q.le_max_r (Qmax a b) c). lra.
Qed.

(** Resolve the [m == aS], [m == aD] tests of a three-way [max]. *)
Ltac max3 :=
  first [ rewrite max3_a by (const_denoms; lra)
        | rewrite max3_not_a by (const_denoms; lra);
          try first [ rewrite max3_b by (const_denoms; lra)
                    | rewrite max3_not_b by (const_denoms; lra) ] ];
  reflexivity.

(** The categories of [convertphi] in exact arithmetic, where the two
    memberships of each band tie: [F] below 25, [D] from 25 to 55, [S]
    from 55 on, and [S] at exactly 35, where all three memberships are 0. *)
Lemma convertphi_exact (phi : Q) :
  convertphi phi =
  if Qlt_bool phi 25 then PhiF
  else if Qlt_bool phi 35 then PhiD
  else if Qle_bool phi 35 then PhiS
  else if Qlt_bool phi 55 then PhiD
  else PhiS.
Proof.
  unfold convertphi, phi_memberships, between, strictly, ANGLE_S, ANGLE_DS, ANGLE_DF, ANGLE_F.
  qcases; cbv beta iota zeta delta [andb]; max3.
Qed.

(** [C25] [convertphi] classifies an angle (in degrees) as [F] below 25,
    [D] at 25 and strictly between 35 and 55, and [S] at 35, at 55, at 65
    and above 65: there every membership is 0, 1 or an exact quotient, so
    floats agree.  Inside the bands [[25, 35]] and [[55, 65]] the two
    memberships the code computes there are equal (and the third is 0):
    the category is a tie that float rounding breaks. *)
Theorem convertphi_spec (phi : Q) :
  (phi < 25 -> convertphi phi = PhiF) /\
  (phi == 25 -> convertphi phi = PhiD) /\
  (phi == 35 -> convertphi phi = PhiS) /\
  (35 < phi < 55 -> convertphi phi = PhiD) /\
  (phi == 55 \/ phi == 65 \/ 65 < phi -> convertphi phi = PhiS) /\
  (forall aS aD aF, phi_memberships phi = (aS, aD, aF) ->
     (25 <= phi <= 35 -> aS == 0 /\ aD == aF) /\ (55 <= phi <= 65 -> aF == 0 /\ aS == aD)).
Proof.
  rewrite convertphi_exact.
  refine (conj _ (conj _ (conj _ (conj _ (conj _ _))))); [intros H; qcases; reflexivity..|].
  intros aS aD aF.
  unfold phi_memberships, between, strictly, ANGLE_S, ANGLE_DS, ANGLE_DF, ANGLE_F.
  qcases; cbv beta iota zeta delta [andb]; intros Em; injection Em as <- <- <-;
    split; intros H; (exfalso; lra) || (split; const_denoms; lra).
Qed.

(** At 25 the category is [D]; at 62.9 the two memberships tie. *)
Lemma convertphi_spec_witness :
  convertphi 25 = PhiD /\
  forall aS aD aF, phi_memberships (629 # 10) = (aS, aD, aF) -> aS == aD.
Proof.
  split; [apply (proj1 (proj2 (convertphi_spec 25))); reflexivity|].
  intros aS aD aF E.
  destruct (proj2 (proj2 (proj2 (proj2 (proj2 (convertphi_spec (629 # 10)))))) aS aD aF E) as [_ H].
  exact (proj2 (H ltac:(split; vm_compute; discriminate))).
Defined.

(** [C26] [convertdeltad] classifies the change of distance as the code
    computes it: [A] above 2.5 and on [[1.5, 2]], [U] on [(2, 2.5]] and
    on [(-1.5, 1.5)] and [(-2.5, -2]], [C] on [(-2, -1.5)] and below
    -2.5, and [A] at exactly -1.5 and -2.5, where no branch applies.  On
    both interpolation intervals the memberships are reversed (the class
    nearer the outer threshold wins the inner half), so the class is not
    monotone in the distance change. *)
Theorem convertdeltad_spec (d : Q) :
  convertdeltad d =
  if Qlt_bool (5 # 2) d then DdA
  else if Qle_bool (3 # 2) d then (if Qle_bool d 2 then DdA else DdU)
  else if Qlt_bool (- (3 # 2)) d then DdU
  else if Qle_bool (- (3 # 2)) d then DdA
  else if Qlt_bool (- (5 # 2)) d then (if Qle_bool d (-2) then DdU else DdC)
  else if Qle_bool (- (5 # 2)) d then DdA
  else DdC.
Proof.
  unfold convertdeltad, between, strictly, DELTAD_A, DELTAD_UA, DELTAD_UC, DELTAD_C.
  qcases; cbv beta iota zeta delta [andb]; max3.
Qed.

(** The loop with its early return computes the [summary] of all the
    answers. *)
Lemma decide_loop_summary angle pi rb goal : forall before after d,
  d <> Replan -> (length before <= length after)%nat ->
  decide_loop angle pi rb goal before after d =
  Some (summary d (map (fun p => obstacle_decision angle pi rb goal (fst p) (snd p))
                       (combine before after))).
Proof.
  induction before as [|ob bs IH]; intros after d Hd Hl; simpl.
  - unfold summary. simpl. destruct d; [reflexivity|contradiction|reflexivity].
  - destruct after as [|oa as']; simpl in Hl; [lia|]. simpl.
    destruct (obstacle_decision angle pi rb goal ob oa) as [[]|] eqn:E; simpl;
      unfold summary; simpl.
    + rewrite IH by (auto; lia). unfold summary. reflexivity.
    + reflexivity.
    + rewrite IH by (auto; discriminate || lia). unfold summary.
      destruct (existsb _ _); [reflexivity|]. rewrite orb_true_r. reflexivity.
    + rewrite IH by (auto; lia). reflexivity.
Qed.

(** [C27] [FuzzyDecisionMaking.decisionMaking] returns [Replan] if the
    answer for some obstacle is [Replan], else [Stop] if the answer for
    some obstacle is [Stop], else [No] (when the list after the tick is
    at least as long as the list before): returning early on [Replan]
    does not depend on the order of the obstacles. *)
Theorem decisionMaking_summary angle pi rb goal before after :
  (length before <= length after)%nat ->
  decisionMaking angle pi rb goal before after =
  Some (summary No (map (fun p => obstacle_decision angle pi rb goal (fst p) (snd p))
                        (combine before after))).
Proof. intros Hl. apply decide_loop_summary; [discriminate|exact Hl]. Qed.

Lemma decisionMaking_summary_witness :
  decisionMaking (fun _ _ _ _ => 0) 3 Robot.sample_robot (200, 100)
    [Robot.near_obstacle; Robot.near_obstacle] [Robot.near_obstacle; Robot.near_obstacle] =
  Some (summary No (map (fun p => obstacle_decision (fun _ _ _ _ => 0) 3 Robot.sample_robot
                                    (200, 100) (fst p) (snd p))
                        (combine [Robot.near_obstacle; Robot.near_obstacle]
                                 [Robot.near_obstacle; Robot.near_obstacle]))).
Proof. apply decisionMaking_summary. simpl. lia. Defined.

End Decision.
