(* ===== verification/Spline.v ===== *)
(** * Path smoothing ([src/PathManipulation.py])

    [makeSpline(robotPos, path, goal)] takes the centres of the cells of a
    planned path, replaces the first by the robot's position and the last
    by the goal, and samples scipy's cubic interpolation of the two
    coordinate sequences at [n * 1000] points of [0 .. n-1].  When any of
    this raises (an empty path, or fewer than the four points a cubic
    [interp1d] needs) the bare [except] returns the straight segment from
    the robot to the goal in 1000 samples.  The spline is a list of
    points: [spl[:, k]] is its [k]-th element and [spl.shape[1]] its
    length.

    scipy's interpolant is not modelled: the section takes it as a
    function [cubic] of the knot values (at [0, 1, ..., n-1]) and the
    query point, and the theorems assume only that it passes through the
    knots, which a cubic interpolating spline does.  [np.linspace] is
    written out as numpy computes it. *)

From Stdlib Require Import QArith Qround Lqa ZArith Lia List.
From S2P Require Import Prelude Geometry.
Import ListNotations.
Local Open Scope Q_scope.

Module Spline.

(** [np.linspace(start, stop, num)] (with [endpoint=True]): the points
    [j * step + start] for [j < num - 1], [step = (stop - start) / (num - 1)],
    and [stop] itself as the last point. *)
Definition linspace (start stop : Q) (num : nat) : list Q :=
  match num with
  | O => []
  | S O => [start]
  | S k =>
      map (fun j => inject_Z (Z.of_nat j) * ((stop - start) / inject_Z (Z.of_nat k)) + start) (seq 0 k)
      ++ [stop]
  end.

(** [x[0] = v] on a numpy array: [IndexError] on an empty one. *)
Definition set_first (v : Q) (l : list Q) : option (list Q) :=
  match l with [] => None | _ :: t => Some (v :: t) end.

(** [x[-1] = v]. *)
Definition set_last (v : Q) (l : list Q) : option (list Q) :=
  match l with [] => None | _ => Some (removelast l ++ [v]) end.

(** Python's exception propagation in the [try] block. *)
Definition obind {A B : Type} (o : option A) (f : A -> option B) : option B :=
  match o with Some a => f a | None => None end.


Section Smoothing.

(** [interpolate.interp1d(np.arange(n), ys, kind='cubic')] evaluated at
    a query point. *)
Variable cubic : list Q -> Q -> Q.

(** [interp1d(i, ys, kind='cubic', assume_sorted=True)(qs)]: scipy
    raises [ValueError] for fewer than [order + 1 = 4] points. *)
Definition interp1d_cubic (ys qs : list Q) : option (list Q) :=
  if Nat.ltb (length ys) 4 then None else Some (map (cubic ys) qs).

(** The [try] block of [makeSpline]; [None] is an exception. *)
Definition try_spline (robotPos : Q * Q) (path : list AABB.t) (goal : Q * Q) :
    option (list (Q * Q)) :=
  obind (set_first (fst robotPos) (map AABB.x path)) (fun x0 =>
  obind (set_first (snd robotPos) (map AABB.y path)) (fun y0 =>
  obind (set_last (fst goal) x0) (fun x =>
  obind (set_last (snd goal) y0) (fun y =>
  let n := length path in
  let interp_i := linspace 0 (inject_Z (Z.of_nat n) - 1) (n * 1000) in
  obind (interp1d_cubic x interp_i) (fun xs =>
  obind (interp1d_cubic y interp_i) (fun ys =>
  Some (combine xs ys))))))).

(** [makeSpline(robotPos, path, goal)]. *)
Definition makeSpline (robotPos : Q * Q) (path : list AABB.t) (goal : Q * Q) : list (Q * Q) :=
  match try_spline robotPos path goal with
  | Some spl => spl
  | None => combine (linspace (fst robotPos) (fst goal) 1000) (linspace (snd robotPos) (snd goal) 1000)
  end.

End Smoothing.

(** The spline starts at [p] and ends at [q] (up to rational [==]). *)
Definition spline_ends (spl : list (Q * Q)) (p q : Q * Q) : Prop :=
  fst (nth 0 spl (0, 0)) == fst p /\ snd (nth 0 spl (0, 0)) == snd p /\
  fst (nth (length spl - 1) spl (0, 0)) == fst q /\ snd (nth (length spl - 1) spl (0, 0)) == snd q.

(** An interpolant through the knots (piecewise constant, [ys[floor q]]),
    and a straight four-cell path, for the examples. *)
Definition step_interp (ys : list Q) (q : Q) : Q := nth (Z.to_nat (Qfloor q)) ys 0.
Definition sample_path : list AABB.t :=
  [AABB.mk 8 8 16 16; AABB.mk 24 8 16 16; AABB.mk 40 8 16 16; AABB.mk 56 8 16 16].

(** ** numpy's helpers *)

Lemma linspace_length (a b : Q) (n : nat) : length (linspace a b n) = n.
Proof.
  destruct n as [|[|k]]; [reflexivity|reflexivity|].
  unfold linspace. rewrite length_app, length_map, length_seq. simpl. lia.
Qed.

Lemma linspace_first (a b : Q) (n : nat) : (1 <= n)%nat -> nth 0 (linspace a b n) 0 == a.
Proof.
  intros Hn. destruct n as [|[|k]]; [lia|reflexivity|]. simpl. ring.
Qed.

Lemma linspace_last (a b : Q) (n : nat) : (2 <= n)%nat -> nth (n - 1) (linspace a b n) 0 = b.
Proof.
  intros Hn. destruct n as [|[|k]]; [lia|lia|]. unfold linspace.
  rewrite app_nth2; rewrite length_map, length_seq; [|lia].
  replace (S (S k) - 1 - S k)%nat with O by lia. reflexivity.
Qed.

Lemma set_first_spec (v : Q) (l l' : list Q) :
  set_first v l = Some l' -> length l' = length l /\ nth 0 l' 0 = v /\
  (forall k, (0 < k)%nat -> nth k l' 0 = nth k l 0).
Proof.
  destruct l as [|x t]; [discriminate|]. intros [= <-].
  split; [reflexivity|]. split; [reflexivity|]. intros [|k] Hk; [lia|reflexivity].
Qed.

Lemma set_last_spec (v : Q) (l l' : list Q) :
  set_last v l = Some l' -> length l' = length l /\ nth (length l - 1) l' 0 = v /\
  (forall k, (k < length l - 1)%nat -> nth k l' 0 = nth k l 0).
Proof.
  intros H. assert (Hl : l <> []) by (intros ->; discriminate).
  assert (H' : removelast l ++ [v] = l') by (destruct l; [contradiction|injection H as H; exact H]).
  subst l'. pose proof (app_removelast_last 0 Hl) as Hd.
  assert (Hr : length (removelast l) = (length l - 1)%nat).
  { rewrite Hd at 2. rewrite length_app. simpl. lia. }
  split; [rewrite length_app, Hr; simpl; destruct l; [contradiction|simpl; lia]|].
  split; [rewrite app_nth2, Hr, Nat.sub_diag by lia; reflexivity|].
  intros k Hk. rewrite app_nth1 by lia. rewrite Hd at 2. rewrite app_nth1 by lia. reflexivity.
Qed.


Lemma nth_combine_map (f g : Q -> Q) (l : list Q) (k : nat) :
  (k < length l)%nat -> nth k (combine (map f l) (map g l)) (0, 0) = (f (nth k l 0), g (nth k l 0)).
Proof.
  intros Hk. rewrite combine_nth by (rewrite !length_map; reflexivity).
  rewrite (nth_indep (map f l) 0 (f 0)), (nth_indep (map g l) 0 (g 0)) by (rewrite length_map; exact Hk).
  rewrite !map_nth. reflexivity.
Qed.

Lemma last_index (n : nat) : (1 <= n)%nat -> inject_Z (Z.of_nat n) - 1 == inject_Z (Z.of_nat (n - 1)).
Proof. intros Hn. unfold Qeq, Qminus, Qplus; simpl. lia. Qed.

(** The fallback of the bare [except]: the straight segment. *)
Lemma straight_ends (p q : Q * Q) :
  let spl := combine (linspace (fst p) (fst q) 1000) (linspace (snd p) (snd q) 1000) in
  length spl = 1000%nat /\ spline_ends spl p q.
Proof.
  cbv zeta. rewrite length_combine, !linspace_length. split; [reflexivity|].
  unfold spline_ends. rewrite length_combine, !linspace_length.
  rewrite !combine_nth by (rewrite !linspace_length; reflexivity). cbn [fst snd].
  rewrite !linspace_last by lia. rewrite !linspace_first by lia. repeat split; reflexivity.
Qed.

Section SmoothingFacts.

Variable cubic : list Q -> Q -> Q.

(** scipy's cubic interpolant passes through its knots [(k, ys[k])]. *)
Hypothesis cubic_knots : forall ys q k,
  (k < length ys)%nat -> q == inject_Z (Z.of_nat k) -> cubic ys q == nth k ys 0.

Lemma set_ends (a b : Q) (l l0 l1 : list Q) :
  (2 <= length l)%nat -> set_first a l = Some l0 -> set_last b l0 = Some l1 ->
  length l1 = length l /\ nth 0 l1 0 = a /\ nth (length l - 1) l1 0 = b.
Proof.
  intros Hl H0 H1. apply set_first_spec in H0 as (E0 & F0 & _).
  apply set_last_spec in H1 as (E1 & L1 & K1). rewrite E0 in *.
  split; [lia|]. split; [rewrite K1 by lia; exact F0|exact L1].
Qed.

(** The [try] block succeeds on paths of four cells or more: it samples
    the interpolants of the patched coordinate lists at [interp_i]. *)
Lemma try_spline_eq (rp g : Q * Q) (path : list AABB.t) :
  (4 <= length path)%nat ->
  exists x y, try_spline cubic rp path g =
    Some (combine (map (cubic x) (linspace 0 (inject_Z (Z.of_nat (length path)) - 1) (length path * 1000)))
                  (map (cubic y) (linspace 0 (inject_Z (Z.of_nat (length path)) - 1) (length path * 1000)))) /\
    length x = length path /\ nth 0 x 0 = fst rp /\ nth (length path - 1) x 0 = fst g /\
    length y = length path /\ nth 0 y 0 = snd rp /\ nth (length path - 1) y 0 = snd g.
Proof.
  intros Hn. unfold try_spline.
  destruct (set_first (fst rp) (map AABB.x path)) as [x0|] eqn:Ex0;
    [|exfalso; destruct path; [simpl in Hn; lia|discriminate]]; cbn [obind].
  destruct (set_first (snd rp) (map AABB.y path)) as [y0|] eqn:Ey0;
    [|exfalso; destruct path; [simpl in Hn; lia|discriminate]]; cbn [obind].
  destruct (set_last (fst g) x0) as [x|] eqn:Ex;
    [|exfalso; apply set_first_spec in Ex0 as [E _]; destruct x0; [rewrite length_map in E; simpl in E; lia|discriminate]]; cbn [obind].
  destruct (set_last (snd g) y0) as [y|] eqn:Ey;
    [|exfalso; apply set_first_spec in Ey0 as [E _]; destruct y0; [rewrite length_map in E; simpl in E; lia|discriminate]].
  simpl obind.
  destruct (set_ends (fst rp) (fst g) (map AABB.x path) x0 x ltac:(rewrite length_map; lia) Ex0 Ex) as (Lx & Fx & Gx).
  destruct (set_ends (snd rp) (snd g) (map AABB.y path) y0 y ltac:(rewrite length_map; lia) Ey0 Ey) as (Ly & Fy & Gy).
  rewrite length_map in *. unfold interp1d_cubic.
  rewrite Lx, Ly. replace (Nat.ltb (length path) 4) with false by (symmetry; apply Nat.ltb_ge; lia).
  exists x, y. split; [reflexivity|]. repeat split; assumption.
Qed.

(** ... and its samples start at the robot and end at the goal. *)
Lemma try_spline_ends (rp g : Q * Q) (path : list AABB.t) :
  (4 <= length path)%nat ->
  exists spl, try_spline cubic rp path g = Some spl /\
    length spl = (length path * 1000)%nat /\ spline_ends spl rp g.
Proof.
  intros Hn. destruct (try_spline_eq rp g path Hn) as (x & y & -> & Lx & Fx & Gx & Ly & Fy & Gy).
  eexists. split; [reflexivity|].
  set (I := linspace 0 (inject_Z (Z.of_nat (length path)) - 1) (length path * 1000)).
  assert (LI : length I = (length path * 1000)%nat) by apply linspace_length.
  rewrite length_combine, !length_map, LI, Nat.min_id. split; [reflexivity|].
  unfold spline_ends. rewrite length_combine, !length_map, LI, Nat.min_id.
  rewrite !nth_combine_map by lia. cbn [fst snd].
  assert (H0 : nth 0 I 0 == inject_Z (Z.of_nat 0)) by (unfold I; rewrite linspace_first by lia; reflexivity).
  assert (HL : nth (length path * 1000 - 1) I 0 == inject_Z (Z.of_nat (length path - 1))).
  { unfold I. rewrite linspace_last by lia. apply last_index. lia. }
  rewrite (cubic_knots x _ 0), (cubic_knots y _ 0), (cubic_knots x _ (length path - 1)),
    (cubic_knots y _ (length path - 1)) by (try exact H0; try exact HL; lia).
  rewrite Fx, Fy, Gx, Gy. repeat split; reflexivity.
Qed.

Lemma try_spline_short (rp g : Q * Q) (path : list AABB.t) :
  (length path < 4)%nat -> try_spline cubic rp path g = None.
Proof.
  intros Hn. unfold try_spline.
  destruct (set_first (fst rp) (map AABB.x path)) as [x0|] eqn:Ex0; [|reflexivity]. cbn [obind].
  destruct (set_first (snd rp) (map AABB.y path)) as [y0|]; [|reflexivity]. cbn [obind].
  destruct (set_last (fst g) x0) as [x|] eqn:Ex; [|reflexivity]. cbn [obind].
  destruct (set_last (snd g) y0) as [y|]; [|reflexivity]. cbn [obind].
  apply set_first_spec in Ex0 as [E0 _]. apply set_last_spec in Ex as [E1 _].
  rewrite length_map in E0. unfold interp1d_cubic.
  replace (Nat.ltb (length x) 4) with true by (symmetry; apply Nat.ltb_lt; lia). reflexivity.
Qed.

(** The number of samples, whatever the interpolant. *)
Lemma makeSpline_length (rp g : Q * Q) (path : list AABB.t) :
  length (makeSpline cubic rp path g) =
    (if Nat.leb 4 (length path) then Nat.mul (length path) 1000 else 1000%nat).
Proof.
  unfold makeSpline. destruct (Nat.leb_spec 4 (length path)) as [Hn|Hn].
  - destruct (try_spline_eq rp g path Hn) as (x & y & -> & _).
    rewrite length_combine, !length_map, linspace_length. apply Nat.min_id.
  - rewrite try_spline_short by lia. apply straight_ends.
Qed.

(** [C35] [makeSpline] always returns a spline that starts at the robot
    and ends at the goal: [n * 1000] samples of the cubic interpolation
    for a path of [n >= 4] cells, and the 1000-sample straight segment
    for a shorter path (scipy's [ValueError], caught by the bare
    [except]). *)
Theorem makeSpline_ends (rp g : Q * Q) (path : list AABB.t) :
  let spl := makeSpline cubic rp path g in
  length spl = (if Nat.leb 4 (length path) then Nat.mul (length path) 1000 else 1000%nat) /\
  spline_ends spl rp g.
Proof.
  cbv zeta. unfold makeSpline. destruct (Nat.leb_spec 4 (length path)) as [Hn|Hn].
  - destruct (try_spline_ends rp g path Hn) as (spl & -> & L & E). split; assumption.
  - rewrite try_spline_short by lia. apply straight_ends.
Qed.

End SmoothingFacts.

Lemma step_interp_knots : forall ys q k,
  (k < length ys)%nat -> q == inject_Z (Z.of_nat k) -> step_interp ys q == nth k ys 0.
Proof.
  intros ys q k _ Hq. unfold step_interp.
  rewrite (Qfloor_comp _ _ Hq), Qfloor_Z, Nat2Z.id. reflexivity.
Qed.

Lemma makeSpline_ends_witness :
  length (makeSpline step_interp (0, 0) sample_path (64, 8)) = 4000%nat /\
  spline_ends (makeSpline step_interp (0, 0) sample_path (64, 8)) (0, 0) (64, 8).
Proof.
  exact (makeSpline_ends step_interp step_interp_knots (0, 0) (64, 8) sample_path).
Defined.

End Spline.
