(* ===== verification/PSO.v ===== *)
(** * The particle-swarm local optimiser ([src/PSO.py])

    [PSO(iteration, population, init, goal, ...)] scatters [population]
    particles uniformly in the square [init + [low, high]^2], keeps each
    particle's best position ([p_best]) and the swarm's best ([g_best])
    under the cost [optimization], and for [iteration] rounds moves every
    particle by the usual inertia / cognitive / social velocity update,
    then updates the bests particle by particle.  It returns [g_best].

    The random draws of [np.random.uniform] are inputs: [draw_init i]
    gives the unit draws of particle [i]'s start position and velocity,
    [draw_step k i] the factors [randp], [randg] of round [k]; a uniform
    draw on [[lo, hi)] is [lo + (hi - lo) u].  [smooth] (built on
    [np.arctan]) is a section parameter.  Python's exceptions are [None]:
    [reduction = w / iteration] divides by zero when [iteration = 0], and
    [min] of an empty [p_best] raises [ValueError].  The aliasing of
    [g_best = p_best[i]] and [p_best.append(x)] with [positions] is
    harmless: the code rebinds [positions[i]] to a fresh array and never
    mutates one in place, so the model passes values. *)

From Stdlib Require Import QArith Qabs Qminmax Lqa ZArith Lia List.
From S2P Require Import Prelude Geometry.
Import ListNotations.
Local Open Scope Q_scope.

Module PSO.

Definition C : Q := 1000000.

(** [dist(x1, y1, x2, y2)]. *)
Definition dist (x1 y1 x2 y2 : Q) : Q := qsqrt ((x1 - x2) ^ 2 + (y1 - y2) ^ 2).

(** [collide(pos, obs)]: [1] as soon as an obstacle has [pos] within half
    its width horizontally or within half its height vertically. *)
Fixpoint collide (pos : Q * Q) (obs : list Obstacle.t) : Q :=
  match obs with
  | [] => 0
  | o :: obs' =>
      if Qle_bool (Qabs (fst pos - AABB.x (Obstacle.box o))) (AABB.width (Obstacle.box o) / 2) ||
         Qle_bool (Qabs (snd pos - AABB.y (Obstacle.box o))) (AABB.height (Obstacle.box o) / 2)
      then 1 else collide pos obs'
  end.

(** [np.random.uniform(lo, hi)] for the unit draw [u]. *)
Definition uniform (lo hi u : Q) : Q := lo + (hi - lo) * u.

(** [min(l, key=f)]: the first element of least cost; [ValueError] on
    an empty list. *)
Definition py_min_by (f : Q * Q -> Q) (l : list (Q * Q)) : option (Q * Q) :=
  match l with
  | [] => None
  | x :: xs => Some (fold_left (fun b y => if Qlt_bool (f y) (f b) then y else b) xs x)
  end.

Record swarm : Type := mk_swarm {
  positions : list (Q * Q);
  velocities : list (Q * Q);
  p_best : list (Q * Q);
  g_best : Q * Q
}.

(** The velocity and position update of particle [i] (the first inner
    loop), with [g_best] as it was when the loop started. *)
Definition move_particle (w rp rg : Q) (g x v pb : Q * Q) (r : (Q * Q) * (Q * Q)) : (Q * Q) * (Q * Q) :=
  let '((rpx, rpy), (rgx, rgy)) := r in
  let vx := fst v * w + rp * rpx * (fst pb - fst x) + rg * rgx * (fst g - fst x) in
  let vy := snd v * w + rp * rpy * (snd pb - snd x) + rg * rgy * (snd g - snd x) in
  ((fst x + vx, snd x + vy), (vx, vy)).

(** The first inner loop, over the particles [i, i+1, ...]. *)
Fixpoint move_all (w rp rg : Q) (g : Q * Q) (draw : nat -> (Q * Q) * (Q * Q)) (i : nat)
    (xs vs pbs : list (Q * Q)) : list (Q * Q) * list (Q * Q) :=
  match xs, vs, pbs with
  | x :: xs', v :: vs', pb :: pbs' =>
      let '(x', v') := move_particle w rp rg g x v pb (draw i) in
      let '(xs'', vs'') := move_all w rp rg g draw (S i) xs' vs' pbs' in
      (x' :: xs'', v' :: vs'')
  | _, _, _ => ([], [])
  end.

(** The second inner loop: [op = f(positions[i])]; a better position
    becomes [p_best[i]], and [g_best] too when it beats [g_best] as
    updated so far. *)
Fixpoint update_bests (f : Q * Q -> Q) (xs pbs : list (Q * Q)) (g : Q * Q) : list (Q * Q) * (Q * Q) :=
  match xs, pbs with
  | x :: xs', pb :: pbs' =>
      let op := f x in
      let '(pb', g') :=
        if Qlt_bool op (f pb) then (x, if Qlt_bool op (f g) then x else g) else (pb, g) in
      let '(pbs'', g'') := update_bests f xs' pbs' g' in
      (pb' :: pbs'', g'')
  | _, _ => ([], g)
  end.

(** Round [k] of the outer loop. *)
Definition round (f : Q * Q -> Q) (w rp rg : Q) (draw : nat -> nat -> (Q * Q) * (Q * Q)) (k : nat)
    (s : swarm) : swarm :=
  let '(xs, vs) := move_all w rp rg (g_best s) (draw k) 0 (positions s) (velocities s) (p_best s) in
  let '(pbs, g) := update_bests f xs (p_best s) (g_best s) in
  mk_swarm xs vs pbs g.

(** Rounds [k, k+1, ..., k+n-1]. *)
Fixpoint rounds (f : Q * Q -> Q) (w rp rg : Q) (draw : nat -> nat -> (Q * Q) * (Q * Q))
    (n k : nat) (s : swarm) : swarm :=
  match n with
  | O => s
  | S n' => rounds f w rp rg draw n' (S k) (round f w rp rg draw k s)
  end.

(** [x = np.array([np.random.uniform(x_low, x_high), np.random.uniform(y_low, y_high)])]
    with [x_low, x_high = init[0] + low, init[0] + high] (and for y). *)
Definition start_position (init : Q * Q) (low high : Q) (d : (Q * Q) * (Q * Q)) : Q * Q :=
  let '((ux, uy), _) := d in
  (uniform (fst init + low) (fst init + high) ux, uniform (snd init + low) (snd init + high) uy).

(** [v = np.random.uniform(low=b_low-b_up, high=b_up-b_low, size=2)]. *)
Definition start_velocity (d : (Q * Q) * (Q * Q)) : Q * Q :=
  let '(_, (ux, uy)) := d in (uniform (0 - 1) (1 - 0) ux, uniform (0 - 1) (1 - 0) uy).

(** The initialisation loop and [g_best = min(p_best, key=...)]. *)
Definition init_swarm (f : Q * Q -> Q) (population : nat) (init : Q * Q) (low high : Q)
    (draw_init : nat -> (Q * Q) * (Q * Q)) : option swarm :=
  let xs := map (fun i => start_position init low high (draw_init i)) (seq 0 population) in
  let vs := map (fun i => start_velocity (draw_init i)) (seq 0 population) in
  match py_min_by f xs with
  | Some g => Some (mk_swarm xs vs xs g)
  | None => None
  end.

Section Objective.

(** [smooth(x1, y1, x2, y2, goal)] ([np.arctan] of two slopes). *)
Variable smooth : Q -> Q -> Q -> Q -> Q * Q -> Q.

(** [optimization(last_pos, pos, goal, obs)] with [w1, w2 = 0.2, 0.8]. *)
Definition optimization (last_pos pos goal : Q * Q) (obs : list Obstacle.t) : Q :=
  (1 # 5) * dist (fst pos) (snd pos) (fst goal) (snd goal) +
  (4 # 5) * smooth (fst last_pos) (snd last_pos) (fst pos) (snd pos) goal + C * collide pos obs.

(** [PSO(...)] up to its [return], as the final swarm. *)
Definition pso_swarm (iteration population : nat) (init goal : Q * Q) (low high w rp rg : Q)
    (obstacles : list Obstacle.t) (draw_init : nat -> (Q * Q) * (Q * Q))
    (draw_step : nat -> nat -> (Q * Q) * (Q * Q)) : option swarm :=
  let f := fun x => optimization init x goal obstacles in
  if Nat.eqb iteration 0 then None
  else match init_swarm f population init low high draw_init with
       | Some s => Some (rounds f w rp rg draw_step iteration 0 s)
       | None => None
       end.

(** [PSO(iteration, population, init, goal, low, high, w, rp, rg, obstacles)]. *)
Definition PSO (iteration population : nat) (init goal : Q * Q) (low high w rp rg : Q)
    (obstacles : list Obstacle.t) draw_init draw_step : option (Q * Q) :=
  option_map g_best (pso_swarm iteration population init goal low high w rp rg obstacles draw_init draw_step).

End Objective.

(** A cost without the arctan term, and fixed draws, for the examples. *)
Definition flat_smooth (x1 y1 x2 y2 : Q) (goal : Q * Q) : Q := 0.
Definition sample_draw_init (i : nat) : (Q * Q) * (Q * Q) := ((inject_Z (Z.of_nat i) / 4, 1 # 2), (1 # 3, 2 # 3)).
Definition sample_draw_step (k i : nat) : (Q * Q) * (Q * Q) := ((1 # 2, 1 # 4), (3 # 4, 1 # 2)).

(** ** Proofs *)

Section Bests.

Variable f : Q * Q -> Q.

Lemma py_min_fold (xs : list (Q * Q)) : forall b,
  f (fold_left (fun b y => if Qlt_bool (f y) (f b) then y else b) xs b) <= f b /\
  Forall (fun y => f (fold_left (fun b y => if Qlt_bool (f y) (f b) then y else b) xs b) <= f y) xs.
Proof.
  induction xs as [|y xs IH]; intros b; simpl; [split; [apply Qle_refl|constructor]|].
  destruct (IH (if Qlt_bool (f y) (f b) then y else b)) as [H1 H2].
  destruct (Qlt_bool (f y) (f b)) eqn:E; apply Qlt_bool_iff in E || apply Qlt_bool_false_iff in E.
  - split; [lra|]. constructor; assumption.
  - split; [exact H1|]. constructor; [lra|assumption].
Qed.

(** [min(l, key=f)] is a least element of a non-empty list. *)
Lemma py_min_by_least (l : list (Q * Q)) (g : Q * Q) :
  py_min_by f l = Some g -> Forall (fun y => f g <= f y) l.
Proof.
  destruct l as [|x xs]; [discriminate|]. intros [= <-].
  destruct (py_min_fold xs x) as [H1 H2]. constructor; assumption.
Qed.

(** The second inner loop keeps [g_best] at most every personal best
    and never makes it worse. *)
Lemma update_bests_best (xs : list (Q * Q)) : forall pbs g,
  Forall (fun pb => f g <= f pb) pbs ->
  Forall (fun pb => f (snd (update_bests f xs pbs g)) <= f pb) (fst (update_bests f xs pbs g)) /\
  f (snd (update_bests f xs pbs g)) <= f g.
Proof.
  induction xs as [|x xs IH]; intros [|pb pbs] g Hpb; simpl; try (split; [constructor|apply Qle_refl]).
  inversion Hpb as [|? ? Hhd Htl]; subst.
  set (c := if Qlt_bool (f x) (f pb) then (x, if Qlt_bool (f x) (f g) then x else g) else (pb, g)).
  assert (Hc : f (snd c) <= f (fst c) /\ f (snd c) <= f g).
  { unfold c. destruct (Qlt_bool (f x) (f pb)) eqn:E1; [|simpl; lra].
    destruct (Qlt_bool (f x) (f g)) eqn:E2; simpl; apply Qlt_bool_iff in E2 || apply Qlt_bool_false_iff in E2; lra. }
  replace (if Qlt_bool (f x) (f pb) then _ else _) with c by reflexivity.
  destruct c as [pb' g'] eqn:Ec. simpl in Hc.
  destruct (IH pbs g') as [H1 H2].
  { eapply Forall_impl; [|exact Htl]. intros y Hy. simpl in Hy. lra. }
  destruct (update_bests f xs pbs g') as [pbs'' g''] eqn:Eu. simpl in *.
  split; [constructor; [lra|exact H1]|lra].
Qed.

Lemma round_best w rp rg draw (k : nat) (s : swarm) :
  Forall (fun pb => f (g_best s) <= f pb) (p_best s) ->
  Forall (fun pb => f (g_best (round f w rp rg draw k s)) <= f pb) (p_best (round f w rp rg draw k s)) /\
  f (g_best (round f w rp rg draw k s)) <= f (g_best s).
Proof.
  intros Hs. unfold round.
  destruct (move_all w rp rg (g_best s) (draw k) 0 (positions s) (velocities s) (p_best s)) as [xs vs].
  destruct (update_bests_best xs (p_best s) (g_best s) Hs) as [H1 H2].
  destruct (update_bests f xs (p_best s) (g_best s)) as [pbs g]. split; assumption.
Qed.

Lemma rounds_best w rp rg draw (n : nat) : forall k s,
  Forall (fun pb => f (g_best s) <= f pb) (p_best s) ->
  Forall (fun pb => f (g_best (rounds f w rp rg draw n k s)) <= f pb) (p_best (rounds f w rp rg draw n k s)) /\
  f (g_best (rounds f w rp rg draw n k s)) <= f (g_best s).
Proof.
  induction n as [|n IH]; intros k s Hs; simpl; [split; [exact Hs|apply Qle_refl]|].
  destruct (round_best w rp rg draw k s Hs) as [H1 H2].
  destruct (IH (S k) _ H1) as [H3 H4]. split; [exact H3|lra].
Qed.

End Bests.

(** [collide] tests the two axes with [or]: a point in the vertical band
    of an obstacle counts as a collision however far above or below it
    is, e.g. (100, 500) against a 20 x 20 obstacle at (100, 100). *)
Lemma collide_column (p : Q * Q) (o : Obstacle.t) (obs : list Obstacle.t) :
  Qabs (fst p - AABB.x (Obstacle.box o)) <= AABB.width (Obstacle.box o) / 2 -> collide p (o :: obs) = 1.
Proof. intros H. apply Qle_bool_iff in H. unfold collide. rewrite H. reflexivity. Qed.

Lemma collide_far_example :
  collide (100, 500) [Obstacle.init 100 100 20 20 true (0, 0) (20, 20) (20, 20)] = 1.
Proof. apply collide_column. vm_compute. discriminate. Qed.

Lemma pso_zero_iterations smooth population init goal low high w rp rg obstacles draw_init draw_step :
  PSO smooth 0 population init goal low high w rp rg obstacles draw_init draw_step = None.
Proof. reflexivity. Qed.

(** [C37] [PSO] with at least one round and one particle returns (no
    [ZeroDivisionError], no [ValueError]) the final [g_best], whatever
    the random draws: its cost is at most every particle's personal best
    and at most the cost of every particle's random start, so the
    optimiser never returns a point worse than its best initial sample. *)
Theorem pso_result_best smooth iteration population init goal low high w rp rg obstacles draw_init draw_step :
  (0 < iteration)%nat -> (0 < population)%nat ->
  exists s, pso_swarm smooth iteration population init goal low high w rp rg obstacles draw_init draw_step = Some s /\
    PSO smooth iteration population init goal low high w rp rg obstacles draw_init draw_step = Some (g_best s) /\
    Forall (fun pb => optimization smooth init (g_best s) goal obstacles <= optimization smooth init pb goal obstacles)
      (p_best s) /\
    (forall i, (i < population)%nat ->
       optimization smooth init (g_best s) goal obstacles <=
       optimization smooth init (start_position init low high (draw_init i)) goal obstacles).
Proof.
  intros Hit Hpop. set (f := fun x => optimization smooth init x goal obstacles).
  set (xs := map (fun i => start_position init low high (draw_init i)) (seq 0 population)).
  destruct (py_min_by f xs) as [g|] eqn:Eg;
    [|destruct population; [lia|discriminate]].
  pose proof (py_min_by_least f xs g Eg) as Hxs.
  set (s0 := mk_swarm xs (map (fun i => start_velocity (draw_init i)) (seq 0 population)) xs g).
  destruct (rounds_best f w rp rg draw_step iteration 0 s0 Hxs) as [H1 H2].
  exists (rounds f w rp rg draw_step iteration 0 s0).
  assert (E : pso_swarm smooth iteration population init goal low high w rp rg obstacles draw_init draw_step =
              Some (rounds f w rp rg draw_step iteration 0 s0)).
  { unfold pso_swarm, init_swarm. fold f xs. rewrite Eg.
    destruct iteration; [lia|reflexivity]. }
  split; [exact E|]. split; [unfold PSO; rewrite E; reflexivity|]. split; [exact H1|].
  intros i Hi. rewrite Forall_forall in Hxs.
  assert (Hin : In (start_position init low high (draw_init i)) xs).
  { apply (in_map (fun i => start_position init low high (draw_init i))), in_seq. lia. }
  specialize (Hxs _ Hin). unfold s0 in *. cbn [g_best] in H2. unfold f in *. cbv beta in *. lra.
Qed.

Lemma pso_result_best_witness :
  exists s, pso_swarm flat_smooth 2 3 (100, 100) (200, 100) (-10) 10 (19 # 20) (3 # 5) (2 # 5) []
              sample_draw_init sample_draw_step = Some s /\
    PSO flat_smooth 2 3 (100, 100) (200, 100) (-10) 10 (19 # 20) (3 # 5) (2 # 5) []
      sample_draw_init sample_draw_step = Some (g_best s) /\
    Forall (fun pb => optimization flat_smooth (100, 100) (g_best s) (200, 100) [] <=
                      optimization flat_smooth (100, 100) pb (200, 100) []) (p_best s) /\
    (forall i, (i < 3)%nat ->
       optimization flat_smooth (100, 100) (g_best s) (200, 100) [] <=
       optimization flat_smooth (100, 100) (start_position (100, 100) (-10) 10 (sample_draw_init i)) (200, 100) []).
Proof. apply pso_result_best; lia. Defined.

End PSO.
