(* ===== verification/MainLoop.v ===== *)
(** * The simulation tick ([src/QuadTree.py], the [while] loop)

    Each tick moves the obstacles, then either (when [patience] is 0)
    rebuilds the environment and plans globally, or (otherwise) asks the
    decision module, replans if told to, and advances the robot along
    the spline of its path: the robot jumps to its local goal, and when it
    has reached it the next local goal is the spline point 200 samples
    further, or the end point.  [patience] counts the ticks since the last
    global plan and wraps at [PATIENCE = 30].  The spline itself (scipy's
    cubic interpolation) is an input here, a list of sample points. *)

From Stdlib Require Import QArith Qminmax Qabs Lqa ZArith Lia List.
From S2P Require Import Prelude Geometry Robot Decision Spline.
Import ListNotations.
Local Open Scope Q_scope.

Module MainLoop.

Definition PATIENCE : nat := 30.

(** [patience += 1; if patience == PATIENCE: patience = 0] in the
    incremental branch, [patience += 1] after a global plan. *)
Definition patience_step (p : nat) : nat :=
  if Nat.eqb p 0 then 1
  else if Nat.eqb (S p) PATIENCE then 0 else S p.

Record sim : Type := mk_sim {
  robot : Robot.t;
  local_goal : Q * Q;
  targets : nat;
  finished : bool;
  path : list AABB.t   (** the cells of the planned path; [path[0]] is [env.current] *)
}.

(** Python's [==] on two tuples of floats. *)
Definition pair_eqb (p q : Q * Q) : bool := Qeq_bool (fst p) (fst q) && Qeq_bool (snd p) (snd q).

(** The robot step of an incremental tick, from [if decision != "Stop"]
    to the choice of the next local goal. *)
Definition advance (end_ : Q * Q) (spl : list (Q * Q)) (decision : Decision.decision) (st : sim) : sim :=
  let rb := match decision with
            | Decision.Stop => robot st
            | _ => Robot.with_pos (robot st) (Robot.nextPosition (robot st) (local_goal st))
            end in
  if Robot.reach rb (local_goal st) then
    let at_end := pair_eqb (local_goal st) end_ in
    let path' := if at_end then path st
                 else match path st with
                      | _ :: ((p1 :: _ :: _) as rest) => if Robot.enter rb p1 then rest else path st
                      | _ => path st
                      end in
    let t := S (targets st) in
    let lg := if Nat.ltb (t * 200) (length spl) then nth (t * 200) spl end_ else end_ in
    mk_sim rb lg t (if at_end then true else finished st) path'
  else mk_sim rb (local_goal st) (targets st) (finished st) (path st).

(** The robot's state along advances with the given decisions, on one
    spline: no function of the program, but what the loop's incremental
    ticks compute as long as none of them replans and the counter does
    not force a global plan ([Editor.auto_run_incremental] shows it for
    a map without obstacles, where every decision is [No]). *)
Fixpoint run (end_ : Q * Q) (spl : list (Q * Q)) (ds : list Decision.decision) (st : sim) : sim :=
  match ds with
  | [] => st
  | d :: ds' => run end_ spl ds' (advance end_ spl d st)
  end.

(** The local goal is a spline point still ahead, or the end point. *)
Definition goal_ok (end_ : Q * Q) (spl : list (Q * Q)) (st : sim) : Prop :=
  pair_eqb (local_goal st) end_ = true \/ (targets st * 200 < length spl)%nat.

(** The number of non-[Stop] incremental ticks that suffice to finish:
    one once the local goal is the end point, else the spline points
    still ahead and two more. *)
Definition need (end_ : Q * Q) (spl : list (Q * Q)) (st : sim) : nat :=
  if pair_eqb (local_goal st) end_ then 1 else (length spl / 200 + 2 - targets st)%nat.

(** The end of a global-planning tick ([src/QuadTree.py], after
    [path = robot.show_path()]): [spl = makeSpline(robot.pos, path, end)],
    [targets = 1] and the local goal [spl[:, 200]], or [end] when the
    spline is shorter.  [cubic] is scipy's interpolant (see [Spline]). *)
Definition global_plan (cubic : list Q -> Q -> Q) (end_ : Q * Q) (cells : list AABB.t) (st : sim) :
    list (Q * Q) * sim :=
  let spl := Spline.makeSpline cubic (Robot.pos (robot st)) cells end_ in
  let t := 1%nat in
  let lg := if Nat.ltb (t * 200) (length spl) then nth (t * 200) spl end_ else end_ in
  (spl, mk_sim (robot st) lg t (finished st) cells).

(** [if len(past_path) == 0 or robot.pos != past_path[-1]:
    past_path.append(robot.pos)]. *)
Definition record (past : list (Q * Q)) (p : Q * Q) : list (Q * Q) :=
  if Nat.eqb (length past) 0 || negb (pair_eqb p (last past p)) then past ++ [p] else past.

(** [np.sqrt(np.sum(np.square(np.array(a) - np.array(b))))]. *)
Definition step_length (a b : Q * Q) : Q :=
  qsqrt ((fst a - fst b) ^ 2 + (snd a - snd b) ^ 2).

(** The travelled distance [d] of the result file: the loop over
    [range(1, len(past_path))]. *)
Definition travelled (past : list (Q * Q)) : Q :=
  fold_left (fun d ab => d + step_length (fst ab) (snd ab)) (combine past (tl past)) 0.

(** The triples [(past_path[i-1], past_path[i], past_path[i+1])] of the
    loop over [range(1, len(past_path) - 1)]. *)
Definition triples (past : list (Q * Q)) : list ((Q * Q) * (Q * Q) * (Q * Q)) :=
  combine (combine past (tl past)) (tl (tl past)).

Section Metrics.

(** [np.arccos] and [np.pi]. *)
Variable arccos : Q -> Q.
Variable pi : Q.

(** [angle(p1, p2, p3)] of [src/QuadTree.py]: the turning angle at [p2]. *)
Definition angle (p1 p2 p3 : Q * Q) : Q :=
  let l := qsqrt (((fst p1 - fst p2) ^ 2 + (snd p1 - snd p2) ^ 2) *
                  ((fst p3 - fst p2) ^ 2 + (snd p3 - snd p2) ^ 2)) in
  let a := Qmax (((fst p1 - fst p2) * (fst p3 - fst p2) + (snd p1 - snd p2) * (snd p3 - snd p2)) / l) (-1) in
  pi - arccos a.

(** The distance and mean smoothness written to the result file;
    [None] is the [ZeroDivisionError] of [smooth / count] when the loop
    over the triples did not run ([count] and [smooth] are still the
    integer [0]). *)
Definition result_metrics (past : list (Q * Q)) : option (Q * Q) :=
  let d := travelled past in
  let count := length (triples past) in
  let smooth := fold_left (fun s t => s + angle (fst (fst t)) (snd (fst t)) (snd t)) (triples past) 0 in
  if Nat.eqb count 0 then None
  else Some (d, smooth / inject_Z (Z.of_nat count) * 180 / pi).

End Metrics.

(** ** Proofs *)

Lemma patience_iter (k : nat) : (k < PATIENCE)%nat -> Nat.iter k patience_step 0%nat = k.
Proof.
  induction k as [|k IH]; intros Hk; [reflexivity|].
  simpl. rewrite IH by lia. unfold patience_step, PATIENCE in *.
  destruct (Nat.eqb_spec k 0) as [->|H0]; [reflexivity|].
  destruct (Nat.eqb_spec (S k) 30); [lia|reflexivity].
Qed.

(** The patience counter stays below [PATIENCE], and starting from
    a global plan ([patience = 0]) the next global plan comes exactly
    [PATIENCE] ticks later, with incremental ticks in between. *)
Lemma patience_cycle :
  (forall p, (p < PATIENCE)%nat -> (patience_step p < PATIENCE)%nat) /\
  Nat.iter PATIENCE patience_step 0%nat = 0%nat /\
  (forall k, (0 < k < PATIENCE)%nat -> Nat.iter k patience_step 0%nat <> 0%nat).
Proof.
  split; [|split].
  - intros p Hp. unfold patience_step, PATIENCE in *.
    destruct (Nat.eqb_spec p 0); [lia|]. destruct (Nat.eqb_spec (S p) 30); lia.
  - reflexivity.
  - intros k Hk. rewrite patience_iter by lia. lia.
Qed.

Lemma pair_eqb_refl (p : Q * Q) : pair_eqb p p = true.
Proof. unfold pair_eqb. now rewrite !Qeq_bool_refl. Qed.

(** Moving to a point reaches it. *)
Lemma reach_moved (rb : Robot.t) (g : Q * Q) :
  Robot.reach (Robot.with_pos rb (Robot.nextPosition rb g)) g = true.
Proof.
  destruct g as [gx gy]. unfold Robot.reach, Robot.with_pos, Robot.nextPosition. simpl.
  apply Qle_bool_iff. setoid_replace ((gx - gx) ^ 2 + (gy - gy) ^ 2) with 0 by (simpl; ring).
  discriminate.
Qed.

Lemma advance_finished end_ spl d st :
  finished st = true -> finished (advance end_ spl d st) = true.
Proof.
  intros H. unfold advance. destruct (Robot.reach _ _); simpl; [|exact H].
  destruct (pair_eqb _ _); [reflexivity|exact H].
Qed.

Lemma run_finished end_ spl ds : forall st,
  finished st = true -> finished (run end_ spl ds st) = true.
Proof.
  induction ds as [|d ds IH]; intros st H; simpl; [exact H|].
  apply IH, advance_finished, H.
Qed.

Lemma le_div200 (t n : nat) : (t * 200 <= n)%nat -> (t <= n / 200)%nat.
Proof. intros H. apply Nat.div_le_lower_bound; lia. Qed.

(** Every tick, [Stop] included, keeps the local goal well formed. *)
Lemma advance_goal_ok end_ spl d st :
  goal_ok end_ spl st -> goal_ok end_ spl (advance end_ spl d st).
Proof.
  intros Hok. unfold advance. cbv zeta.
  destruct (Robot.reach _ (local_goal st)); [|exact Hok].
  unfold goal_ok; cbn [local_goal targets].
  match goal with |- context [Nat.ltb ?a (length spl)] => destruct (Nat.ltb_spec a (length spl)) as [Hlt|Hge] end;
    [now right|left; apply pair_eqb_refl].
Qed.

(** One non-[Stop] tick either finishes or moves to the next target,
    keeping the local goal well formed and decreasing [need]. *)
Lemma advance_progress end_ spl d st :
  d <> Decision.Stop -> goal_ok end_ spl st ->
  finished (advance end_ spl d st) = true \/
  (goal_ok end_ spl (advance end_ spl d st) /\
   (need end_ spl (advance end_ spl d st) < need end_ spl st)%nat).
Proof.
  intros Hd Hok. unfold advance.
  replace (match d with Decision.Stop => robot st | _ => _ end)
    with (Robot.with_pos (robot st) (Robot.nextPosition (robot st) (local_goal st)))
    by (destruct d; [reflexivity|reflexivity|contradiction]).
  rewrite reach_moved. cbv zeta.
  destruct (pair_eqb (local_goal st) end_) eqn:Eend; [left; reflexivity|right].
  destruct Hok as [Hok|Hok]; [congruence|].
  unfold goal_ok, need; cbn [local_goal targets]. rewrite Eend.
  pose proof (le_div200 (targets st) (length spl) ltac:(lia)).
  destruct (Nat.ltb_spec (S (targets st) * 200) (length spl)) as [Hlt|Hge].
  - pose proof (le_div200 (S (targets st)) (length spl) ltac:(lia)).
    split; [now right|]. destruct (pair_eqb (nth (S (targets st) * 200) spl end_) end_); lia.
  - rewrite pair_eqb_refl. split; [now left|]. lia.
Qed.

(** Enough non-[Stop] ticks from a well-formed state set [finished]. *)
Lemma run_reaches_end end_ spl ds : forall st,
  goal_ok end_ spl st -> (forall d, In d ds -> d <> Decision.Stop) ->
  (need end_ spl st <= length ds)%nat ->
  finished (run end_ spl ds st) = true.
Proof.
  induction ds as [|d ds IH]; intros st Hok Hds Hn; simpl.
  - unfold need in Hn. cbn [length] in Hn. destruct (pair_eqb (local_goal st) end_) eqn:E; [lia|].
    destruct Hok as [Hok|Hok]; [congruence|]. pose proof (le_div200 _ _ (Nat.lt_le_incl _ _ Hok)). lia.
  - destruct (advance_progress end_ spl d st) as [Hf|[Hok' Hlt]]; [now apply Hds; left|exact Hok|..].
    + now apply run_finished.
    + apply IH; [exact Hok'| |simpl in Hn; lia]. intros d' Hd'. apply Hds. now right.
Qed.

Lemma global_plan_goal_ok cubic end_ cells st :
  let '(spl, st') := global_plan cubic end_ cells st in
  goal_ok end_ spl st' /\
  (need end_ spl st' <= if Nat.leb 4 (length cells) then 5 * length cells + 1 else 6)%nat.
Proof.
  unfold global_plan. pose proof (Spline.makeSpline_length cubic (Robot.pos (robot st)) end_ cells) as L.
  set (spl := Spline.makeSpline cubic (Robot.pos (robot st)) cells end_) in *.
  unfold goal_ok, need; cbn [local_goal targets].
  destruct (Nat.leb_spec 4 (length cells)) as [Hn|Hn].
  - assert (Hdiv : (length spl / 200 = 5 * length cells)%nat).
    { rewrite L. replace (length cells * 1000)%nat with ((5 * length cells) * 200)%nat by lia.
      apply Nat.div_mul. lia. }
    rewrite (proj2 (Nat.ltb_lt (1 * 200) (length spl))) by lia. split; [right; cbn [targets]; lia|].
    destruct (pair_eqb _ end_); lia.
  - rewrite L. cbn -[Nat.div]. split; [right; cbn [targets]; lia|].
    destruct (pair_eqb _ end_); [lia|]. apply Nat.leb_le. reflexivity.
Qed.

(** After the global-planning tick smooths a path of [n] cells, at most
    [5 n + 1] incremental advances (6 for a path under four cells, which
    gets the straight segment) without a [Stop] decision set [finished],
    whatever scipy's interpolant. *)
Lemma global_plan_finishes cubic end_ cells st ds :
  (forall d, In d ds -> d <> Decision.Stop) ->
  ((if Nat.leb 4 (length cells) then 5 * length cells + 1 else 6) <= length ds)%nat ->
  finished (run end_ (fst (global_plan cubic end_ cells st)) ds (snd (global_plan cubic end_ cells st))) = true.
Proof.
  intros Hds Hn. pose proof (global_plan_goal_ok cubic end_ cells st) as H.
  destruct (global_plan cubic end_ cells st) as [spl st'] eqn:E. destruct H as [Hok Hneed].
  cbn [fst snd]. apply run_reaches_end; [exact Hok|exact Hds|destruct (Nat.leb 4 (length cells)); lia].
Qed.

Lemma triples_length (past : list (Q * Q)) : length (triples past) = (length past - 2)%nat.
Proof.
  unfold triples. rewrite !length_combine.
  destruct past as [|a [|b past]]; [reflexivity|reflexivity|].
  cbn [tl length]. rewrite (Nat.min_r (S (S _))), Nat.min_r; lia.
Qed.

(** [C36] Writing the result file fails with [ZeroDivisionError] exactly
    when fewer than three robot positions were recorded (e.g. a run that
    starts within reach of the end point): [smooth / count] divides the
    integer [0] by [0]. *)
Theorem result_metrics_error (arccos : Q -> Q) (pi : Q) (past : list (Q * Q)) :
  result_metrics arccos pi past = None <-> (length past < 3)%nat.
Proof.
  unfold result_metrics. rewrite triples_length.
  destruct (Nat.eqb_spec (length past - 2) 0); split; intros H; try discriminate; try reflexivity; lia.
Qed.

End MainLoop.
