(* ===== verification/Simulation.v ===== *)
(** * One tick of the simulation ([src/QuadTree.py], the body of [while not finished])

    A running tick copies the obstacles ([obstacles_list_before]), moves
    them ([Obstacle.move]), and then either

    - when [patience] is nonzero, records the robot's position in
      [past_path], asks the decision maker, flags a collision with an
      obstacle of [obstacles_list_before], replans on [Replan] (a new
      path, its spline, [targets = 1] and the local goal [spl[:, 200]]),
      and advances the robot ([MainLoop.advance]) and the patience
      counter; or
    - when [patience] is 0, rebuilds the environment, plans a global
      path, smooths it and aims at its 200th sample
      ([MainLoop.global_plan]).

    An advance that pops the path ([path.pop(0)]) also moves the
    solver's [env.current] to the new [path[0]] ([sync]).  The tick ends
    with [if robot.reach(end): finished = True].  The environment and
    solver are reached through the interface [planner S], whose state
    [S] is [robot.solver] with the [env] it searches ([None] before the
    first global plan): the path [robot.show_path()] returns after
    [env.update], [env.build_env] and a fresh search, the path
    [solver.replan_path] returns for the obstacles [robot.updatePath]
    detects (on a solver rebuilt first when [planning_algo == 'Astar']),
    and the pop; each may raise, which ends the run ([None]).  [Planner]
    instantiates it with each configuration [get_modules] selects.  The
    decision maker is [Decision.decisionMaking] or [Decision.only_replan],
    as [get_modules] chooses.  Drawing, events, timing and logging are
    not modelled. *)

From Stdlib Require Import String QArith Qminmax Lqa ZArith Lia List.
From S2P Require Import Prelude Geometry Robot Decision Spline MainLoop.
Import ListNotations.
Local Open Scope Q_scope.

Module Simulation.

Inductive env_type : Type := GridEnv | QuadtreeEnv.
Inductive planning_algo : Type := Astar | DstarLite.
Inductive decision_algo : Type := OnlyReplan | Fuzzy.

(** [get_modules(algorithm)]. *)
Definition get_modules (algorithm : string) : env_type * planning_algo * decision_algo :=
  ((if String.eqb algorithm "grid" then GridEnv else QuadtreeEnv),
   (if String.eqb algorithm "Astar" then Astar else DstarLite),
   (if String.eqb algorithm "OnlyReplan" then OnlyReplan else Fuzzy)).

(** What the loop asks of the environment and the solver, whose state
    (the [robot.solver] of the robot and the [env] it searches) is of
    type [S]:
    - [global_path]: a fresh environment on the current obstacles
      ([env.update], [env.build_env]), a fresh search and
      [robot.show_path()], from the robot's position to the end point;
      [None] is an exception of the environment or the solver;
    - [rebuild]: for A* only ([planning_algo == 'Astar']), the fresh
      environment and search a [Replan] starts with, on all obstacles,
      from the robot's position;
    - [replan_path]: [solver.replan_path(obstacles)] for the obstacles the
      robot detects;
    - [pop_path]: [path.pop(0); env.current = path[0]] on the solver's
      path when the robot enters the next cell. *)
Record planner (S : Type) : Type := {
  global_path : list Obstacle.t -> Q * Q -> Q * Q -> option (S * list AABB.t);
  rebuild : option (list Obstacle.t -> Q * Q -> Q * Q -> option S);
  replan_path : S -> list Obstacle.t -> option (S * list AABB.t);
  pop_path : S -> S
}.

(** The loop variables a tick reads and writes; [solver] is [None] until
    the first global plan ([Robot(begin, None, ...)]). *)
Record loop (S : Type) : Type := mk_loop {
  obstacles : list Obstacle.t;
  patience : nat;
  past_path : list (Q * Q);
  spl : list (Q * Q);
  collision : bool;
  solver : option S;
  sim : MainLoop.sim
}.
Arguments mk_loop {S}.
Arguments obstacles {S}. Arguments patience {S}. Arguments past_path {S}. Arguments spl {S}.
Arguments collision {S}. Arguments solver {S}. Arguments sim {S}.

Section Tick.

(** scipy's interpolant, the planner, and [np.arccos] and [np.pi] of the
    decision maker. *)
Variable cubic : list Q -> Q -> Q.
Context {S : Type}.
Variable pl : planner S.
Variable angle : Q -> Q -> Q -> Q -> Q.
Variable pi : Q.

(** [robot.decisionMaking(obstacles_list_before, obstacles_list_after,
    local_goal)] for the decision algorithm in use; [None] is an
    exception of the decision maker. *)
Definition decide (algo : decision_algo) (rb : Robot.t) (goal : Q * Q) (before after : list Obstacle.t) :
    option Decision.decision :=
  match algo with
  | Fuzzy => Decision.decisionMaking angle pi rb goal before after
  | OnlyReplan => Some (Decision.only_replan angle pi rb goal before)
  end.

(** [for i in obstacles_list_before: if ...: collision = True]. *)
Definition collides_any (rb : Robot.t) (before : list Obstacle.t) : bool :=
  existsb (Robot.collides rb) before.

(** [Robot.updatePath(obstacles_list)]: the solver replans around the
    obstacles the robot detects; [None] for [robot.solver = None]. *)
Definition update_path (rb : Robot.t) (sv : option S) (obs : list Obstacle.t) : option (S * list AABB.t) :=
  match sv with
  | None => None
  | Some v => replan_path S pl v (Robot.detect rb obs)
  end.

(** [if planning_algo == 'Astar': env = ...; env.update(obstacles_list);
    env.build_env(robot.pos, end); ...; robot.solver = AStarSolver(...)]:
    the solver a [Replan] works on; [None] for an exception. *)
Definition rebuild_solver (obs : list Obstacle.t) (pos end_ : Q * Q) (sv : option S) : option (option S) :=
  match rebuild S pl with
  | None => Some sv
  | Some f => match f obs pos end_ with None => None | Some v => Some (Some v) end
  end.

(** [if decision == "Replan": path = robot.updatePath(obstacles_list);
    spl = makeSpline(robot.pos, path, end); local_goal = tuple(spl[:, 200]);
    targets = 1]. *)
Definition replan (end_ : Q * Q) (obs : list Obstacle.t) (sv : option S) (st : MainLoop.sim) :
    option (S * list (Q * Q) * MainLoop.sim) :=
  match rebuild_solver obs (Robot.pos (MainLoop.robot st)) end_ sv with
  | None => None
  | Some sv1 =>
      match update_path (MainLoop.robot st) sv1 obs with
      | None => None
      | Some (v, path) =>
          let spl := Spline.makeSpline cubic (Robot.pos (MainLoop.robot st)) path end_ in
          Some (v, spl, MainLoop.mk_sim (MainLoop.robot st) (nth 200 spl end_) 1 (MainLoop.finished st) path)
      end
  end.

(** The [if decision == "Replan":] block, or nothing for another
    decision. *)
Definition replan_step (end_ : Q * Q) (d : Decision.decision) (obs : list Obstacle.t) (sv : option S)
    (spl0 : list (Q * Q)) (st : MainLoop.sim) : option (option S * list (Q * Q) * MainLoop.sim) :=
  match d with
  | Decision.Replan =>
      match replan end_ obs sv st with
      | None => None
      | Some (v, spl', st') => Some (Some v, spl', st')
      end
  | _ => Some (sv, spl0, st)
  end.

(** [path.pop(0); env.current = path[0]]: [MainLoop.advance] pops the
    path, and only then, when the robot enters [path[1]]; the solver's
    [current] follows.  [None] for an [env] that is [None]. *)
Definition sync (st st' : MainLoop.sim) (sv : option S) : option (option S) :=
  if Nat.ltb (length (MainLoop.path st')) (length (MainLoop.path st)) then
    match sv with None => None | Some v => Some (Some (pop_path S pl v)) end
  else Some sv.

(** The incremental branch ([if patience:]). *)
Definition incremental (algo : decision_algo) (end_ : Q * Q) (before : list Obstacle.t) (l : loop S) :
    option (loop S) :=
  let after := obstacles l in
  let st := sim l in
  let rb := MainLoop.robot st in
  let past := MainLoop.record (past_path l) (Robot.pos rb) in
  match decide algo rb (MainLoop.local_goal st) before after with
  | None => None
  | Some d =>
      let coll := collision l || collides_any rb before in
      let r := replan_step end_ d after (solver l) (spl l) st in
      match r with
      | None => None
      | Some (sv, spl', st') =>
          let st'' := MainLoop.advance end_ spl' d st' in
          match sync st' st'' sv with
          | None => None
          | Some sv' => Some (mk_loop after (MainLoop.patience_step (patience l)) past spl' coll sv' st'')
          end
      end
  end.

(** The global-planning branch ([else:]). *)
Definition global (end_ : Q * Q) (l : loop S) : option (loop S) :=
  let st := sim l in
  match global_path S pl (obstacles l) (Robot.pos (MainLoop.robot st)) end_ with
  | None => None
  | Some (v, path) =>
      let '(spl', st') := MainLoop.global_plan cubic end_ path st in
      Some (mk_loop (obstacles l) (MainLoop.patience_step (patience l)) (past_path l) spl' (collision l)
              (Some v) st')
  end.

(** A running tick: move the obstacles, take one of the two branches,
    then [if robot.reach(end): finished = True]. *)
Definition tick (algo : decision_algo) (end_ : Q * Q) (l : loop S) : option (loop S) :=
  let before := obstacles l in
  let l1 := mk_loop (map Obstacle.move before) (patience l) (past_path l) (spl l) (collision l)
              (solver l) (sim l) in
  let r := if Nat.eqb (patience l) 0 then global end_ l1 else incremental algo end_ before l1 in
  match r with
  | None => None
  | Some l2 =>
      let st := sim l2 in
      Some (mk_loop (obstacles l2) (patience l2) (past_path l2) (spl l2) (collision l2) (solver l2)
              (MainLoop.mk_sim (MainLoop.robot st) (MainLoop.local_goal st) (MainLoop.targets st)
                 (MainLoop.finished st || Robot.reach (MainLoop.robot st) end_) (MainLoop.path st)))
  end.

End Tick.

(** The loop invariant: the counter stays below [PATIENCE], and once a
    global plan was made ([patience <> 0]) the spline has its 1000
    samples at least and the local goal is a sample ahead or the end. *)
Definition loop_inv {S} (end_ : Q * Q) (l : loop S) : Prop :=
  (patience l < MainLoop.PATIENCE)%nat /\
  (patience l <> 0%nat -> (1000 <= length (spl l))%nat /\ MainLoop.goal_ok end_ (spl l) (sim l)).

(** What a planner promises about its state [S] and the path the loop
    follows: [P] holds of every global plan, is kept by replanning, and
    by the pop of the path's first cell when the path has more than two;
    a replan on a rebuilt solver establishes it. *)
Record planner_laws {S} (pl : planner S) (P : S -> list AABB.t -> Prop) : Prop := {
  global_law : forall obs p e v path, global_path S pl obs p e = Some (v, path) -> P v path;
  rebuild_law : forall f obs p e v obs' v' path',
    rebuild S pl = Some f -> f obs p e = Some v -> replan_path S pl v obs' = Some (v', path') -> P v' path';
  replan_law : forall v path obs v' path',
    P v path -> replan_path S pl v obs = Some (v', path') -> P v' path';
  pop_law : forall v a b c rest, P v (a :: b :: c :: rest) -> P (pop_path S pl v) (b :: c :: rest)
}.

(** The planner state of a loop satisfies [P] with the path it follows. *)
Definition solver_inv {S} (P : S -> list AABB.t -> Prop) (l : loop S) : Prop :=
  match solver l with Some v => P v (MainLoop.path (sim l)) | None => True end.

(** ** Proofs *)

Lemma patience_step_lt (p : nat) : (p < MainLoop.PATIENCE)%nat -> (MainLoop.patience_step p < MainLoop.PATIENCE)%nat.
Proof.
  unfold MainLoop.patience_step, MainLoop.PATIENCE. intros Hp.
  destruct (Nat.eqb_spec p 0); [lia|]. destruct (Nat.eqb_spec (S p) 30); lia.
Qed.

Lemma makeSpline_long (c : list Q -> Q -> Q) (rp g : Q * Q) (path : list AABB.t) :
  (1000 <= length (Spline.makeSpline c rp path g))%nat.
Proof.
  rewrite Spline.makeSpline_length. destruct (Nat.leb_spec 4 (length path)); lia.
Qed.

Lemma replan_step_goal_ok {S} cubic (pl : planner S) end_ d obs sv spl0 st sv' spl' st' :
  ((1000 <= length spl0)%nat /\ MainLoop.goal_ok end_ spl0 st) ->
  replan_step cubic pl end_ d obs sv spl0 st = Some (sv', spl', st') ->
  (1000 <= length spl')%nat /\ MainLoop.goal_ok end_ spl' st'.
Proof.
  intros H0 E. destruct d; cbn [replan_step] in E; try (injection E as _ <- <-; exact H0).
  unfold replan in E. destruct (rebuild_solver pl _ _ _ _) as [sv1|]; [|discriminate].
  destruct (update_path pl _ _ _) as [[v path]|]; [|discriminate].
  injection E as _ <- <-.
  pose proof (makeSpline_long cubic (Robot.pos (MainLoop.robot st)) end_ path) as L.
  split; [exact L|]. right. cbn [MainLoop.targets]. lia.
Qed.

Lemma incremental_inv {S} cubic (pl : planner S) angle pi algo end_ before l l' :
  (0 < patience l)%nat -> loop_inv end_ l -> incremental cubic pl angle pi algo end_ before l = Some l' ->
  loop_inv end_ l'.
Proof.
  intros Hp [Hlt Hl] E. unfold incremental in E.
  destruct (decide angle pi algo _ _ _ _) as [d|]; [|discriminate].
  destruct (replan_step cubic pl end_ d _ _ _ _) as [[[sv spl'] st']|] eqn:Er; [|discriminate].
  destruct (sync pl _ _ _) as [sv'|]; [|discriminate]. injection E as <-.
  split; [apply patience_step_lt, Hlt|]. intros _. cbn [spl sim].
  destruct (replan_step_goal_ok cubic pl end_ _ _ _ _ _ _ _ _ (Hl ltac:(lia)) Er) as [L O].
  split; [exact L|]. apply MainLoop.advance_goal_ok, O.
Qed.

Lemma global_inv {S} cubic (pl : planner S) end_ l l' :
  patience l = 0%nat -> global cubic pl end_ l = Some l' -> loop_inv end_ l'.
Proof.
  intros Hp E. unfold global in E.
  destruct (global_path S pl _ _ _) as [[v path]|]; [|discriminate].
  pose proof (MainLoop.global_plan_goal_ok cubic end_ path (sim l)) as H.
  pose proof (makeSpline_long cubic (Robot.pos (MainLoop.robot (sim l))) end_ path) as L.
  destruct (MainLoop.global_plan cubic end_ path (sim l)) as [spl' st'] eqn:Eg.
  destruct H as [H _]. unfold MainLoop.global_plan in Eg. injection Eg as Es _. injection E as <-.
  split; [cbn [patience]; apply patience_step_lt; rewrite Hp; unfold MainLoop.PATIENCE; lia|].
  intros _. cbn [spl sim]. rewrite <- Es. split; [exact L|]. rewrite Es. exact H.
Qed.

(** [advance] keeps the path or pops its first cell, and pops only a
    path of more than two cells. *)
Lemma advance_path_cases end_ spl d st :
  MainLoop.path (MainLoop.advance end_ spl d st) = MainLoop.path st \/
  exists a b c rest, MainLoop.path st = a :: b :: c :: rest /\
                     MainLoop.path (MainLoop.advance end_ spl d st) = b :: c :: rest.
Proof.
  unfold MainLoop.advance. destruct (Robot.reach _ _); [|left; reflexivity]. cbn [MainLoop.path].
  destruct (MainLoop.pair_eqb _ _); [left; reflexivity|].
  destruct (MainLoop.path st) as [|a [|b [|c rest]]]; try (left; reflexivity).
  destruct (Robot.enter _ _); [right; eauto 6|left; reflexivity].
Qed.

Section SolverInv.

Context {S : Type} (pl : planner S) (P : S -> list AABB.t -> Prop) (Hlaws : planner_laws pl P).

Definition holds (sv : option S) (path : list AABB.t) : Prop :=
  match sv with Some v => P v path | None => True end.

Lemma sync_holds end_ spl d st sv sv' :
  holds sv (MainLoop.path st) -> sync pl st (MainLoop.advance end_ spl d st) sv = Some sv' ->
  holds sv' (MainLoop.path (MainLoop.advance end_ spl d st)).
Proof.
  unfold sync. intros H E.
  destruct (advance_path_cases end_ spl d st) as [Ep|(a & b & c & rest & E1 & E2)].
  - rewrite Ep, Nat.ltb_irrefl in E. injection E as <-. rewrite Ep. exact H.
  - rewrite E1, E2 in *.
    rewrite (proj2 (Nat.ltb_lt (length (b :: c :: rest)) (length (a :: b :: c :: rest)))) in E
      by (cbn [length]; lia).
    destruct sv as [v|]; [|discriminate]. injection E as <-. exact (pop_law _ _ Hlaws _ _ _ _ _ H).
Qed.

Lemma replan_step_holds cubic end_ d obs sv spl0 st sv' spl' st' :
  holds sv (MainLoop.path st) -> replan_step cubic pl end_ d obs sv spl0 st = Some (sv', spl', st') ->
  holds sv' (MainLoop.path st').
Proof.
  intros H E. destruct d; cbn [replan_step] in E; try (injection E as <- _ <-; exact H).
  unfold replan, rebuild_solver, update_path in E.
  destruct (rebuild S pl) as [f|] eqn:Ef.
  - destruct (f obs _ end_) as [v0|] eqn:Ev; [|discriminate].
    destruct (replan_path S pl v0 _) as [[v1 path]|] eqn:Ep; [|discriminate].
    injection E as <- _ <-. exact (rebuild_law _ _ Hlaws _ _ _ _ _ _ _ _ Ef Ev Ep).
  - destruct sv as [v|]; [|discriminate].
    destruct (replan_path S pl v _) as [[v1 path]|] eqn:Ep; [|discriminate].
    injection E as <- _ <-. exact (replan_law _ _ Hlaws _ _ _ _ _ H Ep).
Qed.

Lemma incremental_holds cubic angle pi algo end_ before l l' :
  solver_inv P l -> incremental cubic pl angle pi algo end_ before l = Some l' -> solver_inv P l'.
Proof.
  intros H E. unfold incremental in E.
  destruct (decide angle pi algo _ _ _ _) as [d|]; [|discriminate].
  destruct (replan_step cubic pl end_ d _ _ _ _) as [[[sv spl'] st']|] eqn:Er; [|discriminate].
  destruct (sync pl _ _ _) as [sv'|] eqn:Es; [|discriminate]. injection E as <-.
  unfold solver_inv. cbn [solver sim]. eapply sync_holds; [|exact Es].
  eapply replan_step_holds; [exact H|exact Er].
Qed.

Lemma global_holds cubic end_ l l' : global cubic pl end_ l = Some l' -> solver_inv P l'.
Proof.
  unfold global. destruct (global_path S pl _ _ _) as [[v path]|] eqn:Eg; [|discriminate].
  destruct (MainLoop.global_plan cubic end_ path (sim l)) as [spl' st'] eqn:Ep.
  intros [= <-]. unfold solver_inv. cbn [solver sim].
  unfold MainLoop.global_plan in Ep. injection Ep as _ <-. cbn [MainLoop.path].
  exact (global_law _ _ Hlaws _ _ _ _ _ Eg).
Qed.

(** Every tick keeps the planner's promise [P] between its state and the
    path the loop follows, in either branch. *)
Lemma tick_holds cubic angle pi algo end_ l l' :
  solver_inv P l -> tick cubic pl angle pi algo end_ l = Some l' -> solver_inv P l'.
Proof.
  intros H E. unfold tick in E.
  destruct (if Nat.eqb (patience l) 0 then _ else _) as [l2|] eqn:Er; [|discriminate].
  injection E as <-. change (solver_inv P l2).
  destruct (Nat.eqb (patience l) 0).
  - exact (global_holds _ _ _ _ Er).
  - eapply incremental_holds; [|exact Er]. exact H.
Qed.

End SolverInv.

(** The loop invariant is kept by every tick. *)
Lemma tick_keeps_inv {S} cubic (pl : planner S) angle pi algo end_ l l' :
  loop_inv end_ l -> tick cubic pl angle pi algo end_ l = Some l' -> loop_inv end_ l'.
Proof.
  intros Hinv E. unfold tick in E.
  set (l1 := mk_loop (map Obstacle.move (obstacles l)) (patience l) (past_path l) (spl l) (collision l)
               (solver l) (sim l)) in E.
  destruct (if Nat.eqb (patience l) 0 then _ else _) as [l2|] eqn:Er; [|discriminate].
  assert (H2 : loop_inv end_ l2).
  { destruct (Nat.eqb_spec (patience l) 0) as [Hp|Hp].
    - exact (global_inv cubic pl end_ l1 l2 Hp Er).
    - apply (incremental_inv cubic pl angle pi algo end_ (obstacles l) l1 l2);
        [unfold l1; cbn [patience]; lia|exact Hinv|exact Er]. }
  injection E as <-. destruct H2 as [Hl Hr]. split; [exact Hl|].
  intros Hp. destruct (Hr Hp) as [L O]. split; [exact L|exact O].
Qed.

End Simulation.
