(* ===== verification/Planner.v ===== *)
(** * The planners of the main loop ([src/QuadTree.py] with
    [src/Env.py], [src/Solver.py] and [src/robot.py])

    The instances of [Simulation.planner] the main loop runs, as
    [get_modules(algorithm)] chooses them:

    - ["Quad_Dstar_Tree"] and ["OnlyReplan"]: a [QuadTreeEnvironment] and
      the [DStarLiteSolver] ([dstar_planner quadtree_build]);
    - ["grid"]: a [GridEnvironment] and the [DStarLiteSolver]
      ([dstar_planner grid_build]);
    - ["Astar"]: a [QuadTreeEnvironment] and the [AStarSolver], rebuilt
      from all obstacles before each replan ([astar_planner
      quadtree_build]).

    The planner's state is the solver's store ([robot.solver] and the
    [env] it searches) together with the path of nodes the loop follows
    ([path], whose [path[0]] is [env.current]).  A global plan is the
    [else:] branch of the loop: a fresh environment on the screen region,
    [env.update], [env.build_env(robot.pos, end)], the start of a search
    and [robot.show_path()]; a replan is [robot.updatePath], that is the
    solver's [replan_path(obstacles)]; the pop is [path.pop(0);
    env.current = path[0]].

    The theorems show that each planner keeps the promise the loop relies
    on ([Simulation.planner_laws]): its node path starts at the solver's
    [current], ends at its [goal], steps along neighbor links, and the
    loop's cell path is the boxes of those nodes; for D* Lite the queue
    invariant holds as well.  With [Simulation.tick_holds] this holds
    along every tick of the loop. *)

From Stdlib Require Import QArith Qround ZArith Lia List.
From stdpp Require Import base gmap list.
From S2P Require Import Prelude Geometry QuadTree Solver Replan Env Grid Robot Decision Spline MainLoop Simulation.
Import ListNotations.
Local Open Scope Q_scope.
Local Open Scope solver_scope.

Module Planner.

(** [env_width = env_height = 512] and the pads [int(env_height * 0.06)],
    [int(env_width * 0.06)]. *)
Definition env_width : Q := 512.
Definition env_height : Q := 512.
Definition pad (size f : Q) : Q := inject_Z (Qfloor (size * f)).
Definition NORTH_PAD : Q := pad env_height (6 # 100).
Definition LEFT_PAD : Q := pad env_width (6 # 100).

(** [update_percentage_and_split] needs [n + 1] levels for a box of width
    [16 * 2^n] ([QuadTree.update_total]); the 512-pixel region needs 6. *)
Definition tree_fuel : nat := 6.

(** [QuadTreeEnvironment(LEFT_PAD + env_width / 2, NORTH_PAD + env_height / 2,
    env_width, env_height)]. *)
Definition screen_env : qnode :=
  Env.init (LEFT_PAD + env_width / 2) (NORTH_PAD + env_height / 2) env_width env_height.

(** [GridEnvironment(...)] on the same region, with its default [size=32]. *)
Definition grid_env : GridEnvironment.grid :=
  GridEnvironment.init (LEFT_PAD + env_width / 2) (NORTH_PAD + env_height / 2) env_width env_height 32.

(** [env.update(obstacles_list); env.build_env(robot.pos, end)] for each
    environment type; [None] for an exception. *)
Definition quadtree_build (obstacles : list Obstacle.t) (pos end_ : Q * Q) : option (state addr) :=
  match Env.update tree_fuel obstacles screen_env with
  | None => None
  | Some root => Some (build_env root pos end_)
  end.

Definition grid_build (obstacles : list Obstacle.t) (pos end_ : Q * Q) : option (state (Z * Z)) :=
  match GridEnvironment.update grid_env obstacles with
  | inl _ => None
  | inr gr => match GridEnvironment.build_env gr pos end_ with inl _ => None | inr s => Some s end
  end.

Section Planners.

Context {V : Type} `{EqDecision V} `{!Countable V}.

(** The cells of a node path ([node.x], [node.y], [node.width] of each
    node); [None] for a name the store does not have. *)
Definition boxes (s : state V) (ids : list V) : option (list AABB.t) :=
  mapM (fun a => nbox <$> nodes s !! a) ids.

(** The path a solver call returns, with its cells; [None] for an
    exception. *)
Definition result (r : error + (list V * state V)) : option ((state V * list V) * list AABB.t) :=
  match r with
  | inl _ => None
  | inr (ids, s) => match boxes s ids with Some bs => Some ((s, ids), bs) | None => None end
  end.

(** [path.pop(0); env.current = path[0]]. *)
Definition pop_current (ps : state V * list V) : state V * list V :=
  match ps with
  | (s, _ :: ((n :: _) as rest)) => (mk_state (nodes s) (queue s) n (goal s), rest)
  | _ => ps
  end.

(** The iterations [compute_path] may run before it gives up, and the
    environment the loop builds. *)
Variable fuel : nat.
Variable build : list Obstacle.t -> Q * Q -> Q * Q -> option (state V).

(** The [else:] branch with [planning_algo == 'DstarLite']. *)
Definition global_path (obstacles : list Obstacle.t) (pos end_ : Q * Q) :
    option ((state V * list V) * list AABB.t) :=
  match build obstacles pos end_ with
  | None => None
  | Some s0 => result ((start_search;;; show_path fuel) s0)
  end.

(** [robot.updatePath(obstacles_list)] on a [DStarLiteSolver]. *)
Definition updatePath (ps : state V * list V) (obstacles : list Obstacle.t) :
    option ((state V * list V) * list AABB.t) :=
  result (Solver.replan_path fuel obstacles (fst ps)).

Definition dstar_planner : Simulation.planner (state V * list V) :=
  {| Simulation.global_path := global_path;
     Simulation.rebuild := None;
     Simulation.replan_path := updatePath;
     Simulation.pop_path := pop_current |}.

(** The [else:] branch with [planning_algo == 'Astar']. *)
Definition astar_global_path (obstacles : list Obstacle.t) (pos end_ : Q * Q) :
    option ((state V * list V) * list AABB.t) :=
  match build obstacles pos end_ with
  | None => None
  | Some s0 => result ((start_search;;; astar_show_path fuel) s0)
  end.

(** The environment and [AStarSolver] a [Replan] starts with; the path
    is the next solver call's. *)
Definition astar_rebuild (obstacles : list Obstacle.t) (pos end_ : Q * Q) : option (state V * list V) :=
  match build obstacles pos end_ with
  | None => None
  | Some s0 => match start_search s0 with inl _ => None | inr (_, s1) => Some (s1, []) end
  end.

(** [AStarSolver.replan_path(obstacles)]: [return self.show_path()]. *)
Definition astar_updatePath (ps : state V * list V) (obstacles : list Obstacle.t) :
    option ((state V * list V) * list AABB.t) :=
  result (astar_show_path fuel (fst ps)).

Definition astar_planner : Simulation.planner (state V * list V) :=
  {| Simulation.global_path := astar_global_path;
     Simulation.rebuild := Some astar_rebuild;
     Simulation.replan_path := astar_updatePath;
     Simulation.pop_path := pop_current |}.

End Planners.

Section Invariants.

Context {V : Type} `{EqDecision V} `{!Countable V}.

(** The node path runs from [current] to [goal] along neighbor links, and
    the loop's cells are the boxes of its nodes. *)
Definition path_inv (ps : state V * list V) (cells : list AABB.t) : Prop :=
  head (snd ps) = Some (current (fst ps)) /\ last (snd ps) = Some (goal (fst ps)) /\
  linked (nodes (fst ps)) (snd ps) /\ boxes (fst ps) (snd ps) = Some cells.

(** What the D* Lite planners promise: the path invariant and the queue
    invariant. *)
Definition dinv (ps : state V * list V) (cells : list AABB.t) : Prop :=
  queue_inv (fst ps) /\ path_inv ps cells.

End Invariants.

(** [begin = (64, 500)], [end = (470, 180)], an obstacle filling the
    north-west quadrant and one filling a cell of the north-east one. *)
Definition demo_begin : Q * Q := (64, 500).
Definition demo_target : Q * Q := (470, 180).
Definition demo_obstacles : list Obstacle.t :=
  [Obstacle.init 158 158 256 256 true (0, 0) (20, 20) (20, 20);
   Obstacle.init 350 222 128 128 true (0, 0) (20, 20) (20, 20)].
Definition demo_loop : Simulation.loop (state addr * list addr) :=
  Simulation.mk_loop demo_obstacles 0 [] [] false None
    (MainLoop.mk_sim (Robot.init demo_begin) demo_begin 0 false []).

(** ** Proofs *)

Section Laws.

Context {V : Type} `{EqDecision V} `{!Countable V}.
Implicit Types (s : state V) (ids : list V).

Lemma result_inr r s ids cells :
  result r = Some ((s, ids), cells) -> r = inr (ids, s) /\ boxes s ids = Some cells.
Proof.
  unfold result. destruct r as [e|[ids' s']]; [discriminate|].
  destruct (boxes s' ids') as [bs|] eqn:Eb; [|discriminate]. intros [= <- <- <-]. auto.
Qed.

Lemma boxes_cells_cons3 s ids a b c rest :
  boxes s ids = Some (a :: b :: c :: rest) ->
  exists i1 i2 i3 r, ids = i1 :: i2 :: i3 :: r /\ boxes s (i2 :: i3 :: r) = Some (b :: c :: rest).
Proof.
  unfold boxes. intros H%mapM_Some.
  apply Forall2_cons_inv_r in H as (i1 & ids1 & _ & H & ->).
  apply Forall2_cons_inv_r in H as (i2 & ids2 & H2 & H & ->).
  apply Forall2_cons_inv_r in H as (i3 & r & H3 & H & ->).
  exists i1, i2, i3, r. split; [reflexivity|]. apply mapM_Some. repeat constructor; assumption.
Qed.

(** The pop keeps the path invariant: [env.current] follows the new
    [path[0]]. *)
Lemma pop_path_inv s ids a b c rest :
  path_inv (s, ids) (a :: b :: c :: rest) -> path_inv (pop_current (s, ids)) (b :: c :: rest).
Proof.
  intros (Hh & Hl & Hk & Hb). cbn [fst snd] in *.
  destruct (boxes_cells_cons3 s ids a b c rest Hb) as (i1 & i2 & i3 & r & -> & Hb').
  exact (conj eq_refl (conj Hl (conj (proj2 Hk) Hb'))).
Qed.

Lemma path_ok_dinv s ids cells : path_ok s ids -> boxes s ids = Some cells -> dinv (s, ids) cells.
Proof. intros (Hi & _ & Hh & Hl & Hk) Hb. exact (conj Hi (conj Hh (conj Hl (conj Hk Hb)))). Qed.

Lemma start_show_post fuel s0 ids s :
  fresh_nodes (nodes s0) -> (start_search;;; show_path fuel) s0 = inr (ids, s) ->
  path_ok s ids /\ descends g (nodes s) ids /\ frame same_shape s0 s.
Proof.
  intros Hfr ([] & s1 & Hs & H)%bind_inr.
  destruct (show_path_kept fuel s1 ids s (start_search_post _ _ tt Hfr Hs) H) as (Hp & Hd & Hf).
  split; [exact Hp|]. split; [exact Hd|]. etransitivity; [exact (kp_start_search _ _ _ Hs)|exact Hf].
Qed.

Lemma Forall2_last {A B} (R : A -> B -> Prop) l1 l2 a :
  Forall2 R l1 l2 -> last l1 = Some a -> exists b, last l2 = Some b /\ R a b.
Proof.
  induction 1 as [|x y l l' Hxy H IH]; intros Ha; [discriminate|].
  destruct l as [|x' l]; inversion H; subst.
  - simpl in Ha. injection Ha as <-. eauto.
  - apply IH. exact Ha.
Qed.

(** The first and the last cell of the loop's path are the boxes of the
    first and the last node. *)
Lemma boxes_ends s ids cells a b :
  boxes s ids = Some cells -> head ids = Some a -> last ids = Some b ->
  (exists n, nodes s !! a = Some n /\ head cells = Some (nbox n)) /\
  (exists n, nodes s !! b = Some n /\ last cells = Some (nbox n)).
Proof.
  unfold boxes. intros H%mapM_Some Ha Hb. split.
  - destruct H as [|x y l l' Hxy _]; [discriminate|]. injection Ha as ->.
    apply fmap_Some in Hxy as (n & Hn & ->). eauto.
  - destruct (Forall2_last _ _ _ _ H Hb) as (c & Hc & (n & Hn & ->)%fmap_Some). eauto.
Qed.

(** The path [AStarSolver.show_path] returns runs from [current] to
    [goal] along neighbor links, whatever the store. *)
Lemma astar_show_path_inv fuel s ids s' cells :
  result (astar_show_path fuel s) = Some ((s', ids), cells) -> path_inv (s', ids) cells.
Proof.
  intros [E Hb]%result_inr. unfold astar_show_path in E.
  apply bind_inr in E as ([] & s1 & _ & E).
  apply bind_inr in E as (s2 & s3 & Hg & E). unfold get in Hg. injection Hg as <- <-.
  apply bind_inr in E as (q & s4 & Hw & E). unfold ret in E. injection E as <- <-.
  destruct (walk_inr rhs fuel _ _ _ _ Hw) as (-> & Hl & Hk).
  exact (conj eq_refl (conj Hl (conj Hk Hb))).
Qed.

Context (fuel : nat) (build : list Obstacle.t -> Q * Q -> Q * Q -> option (state V)).

(** The D* Lite planner keeps its promise on any environment that starts
    fresh ([g = rhs = inf]). *)
Lemma dstar_laws :
  (forall obs p e s, build obs p e = Some s -> fresh_nodes (nodes s)) ->
  Simulation.planner_laws (dstar_planner fuel build) dinv.
Proof.
  intros Hfr. split; cbn [Simulation.global_path Simulation.rebuild Simulation.replan_path
                          Simulation.pop_path dstar_planner].
  - intros obs p e [s ids] cells. unfold global_path.
    destruct (build obs p e) as [s0|] eqn:Eb; [|discriminate]. intros [E Hb]%result_inr.
    apply path_ok_dinv; [exact (proj1 (start_show_post _ _ _ _ (Hfr _ _ _ _ Eb) E))|exact Hb].
  - intros f obs p e v obs' v' path' [=].
  - intros [s ids] path obs [s' ids'] path' (Hi & _) [E Hb]%result_inr. cbn [fst] in E.
    apply path_ok_dinv; [exact (proj1 (replan_path_post _ _ _ _ _ Hi E))|exact Hb].
  - intros [s ids] a b c rest (Hi & Hp). split; [|exact (pop_path_inv s ids a b c rest Hp)].
    (* the queue invariant does not read [current] *)
    destruct ids as [|i1 [|i2 r]]; exact Hi.
Qed.

(** The A* planner keeps the path invariant: every path it returns comes
    from [AStarSolver.show_path]. *)
Lemma astar_laws : Simulation.planner_laws (astar_planner fuel build) path_inv.
Proof.
  split; cbn [Simulation.global_path Simulation.rebuild Simulation.replan_path
              Simulation.pop_path astar_planner].
  - intros obs p e [s ids] cells. unfold astar_global_path.
    destruct (build obs p e) as [s0|]; [|discriminate]. intros [E Hb]%result_inr.
    apply bind_inr in E as ([] & s1 & _ & E).
    apply astar_show_path_inv with (fuel := fuel) (s := s1). unfold result. now rewrite E, Hb.
  - intros f obs p e v obs' [s' ids'] cells [= <-] _. apply astar_show_path_inv.
  - intros v path obs [s' ids'] cells _. apply astar_show_path_inv.
  - intros [s ids] a b c rest. apply pop_path_inv.
Qed.

End Laws.

Lemma quadtree_build_fresh obs p e s : quadtree_build obs p e = Some s -> fresh_nodes (nodes s).
Proof.
  unfold quadtree_build. destruct (Env.update _ _ _) as [root|]; [|discriminate].
  intros [= <-]. apply build_env_fresh.
Qed.

Lemma grid_build_fresh obs p e s : grid_build obs p e = Some s -> fresh_nodes (nodes s).
Proof.
  unfold grid_build. destruct (GridEnvironment.update grid_env obs) as [err|gr] eqn:Eu; [discriminate|].
  destruct (GridEnvironment.build_env gr p e) as [err|st] eqn:Eb; [discriminate|]. intros [= <-].
  apply (GridEnvironment.grid_build_env_fresh gr p e); [|exact Eb].
  exact (GridEnvironment.update_fresh _ _ _ (GridEnvironment.init_fresh _ _ _ _ _) Eu).
Qed.

(** The root [env.update] builds on the screen region is well formed and
    keeps the region's box. *)
Lemma screen_update_ok obstacles root :
  Env.update tree_fuel obstacles screen_env = Some root ->
  boxes_ok root /\ box (info root) = box (info screen_env).
Proof.
  intros Hu. split; [|exact (update_box _ _ _ _ _ _ Hu)].
  refine (proj1 (update_wf _ _ _ _ _ _ _ _ Hu));
    apply (new_node_ok default_threshold_percentage default_threshold_size); vm_compute; reflexivity.
Qed.

(** [C30] A global plan of the quadtree D* Lite planner for a robot and
    an end point inside the screen region, when it returns, searched the
    quadtree [env.update] built on that region: the solver's [current] is
    the leaf [add_start] finds and its [goal] the one [add_goal] finds,
    the queue invariant and the exit condition of [compute_path] hold,
    the node path runs from [current] to [goal] stepping to a neighbor of
    least [g] each time, the loop's cells are the boxes of those nodes,
    and the first cell contains the robot's position and the last the end
    point. *)
Theorem global_path_spec fuel obstacles pos end_ s ids cells :
  AABB.contains (box (info screen_env)) pos -> AABB.contains (box (info screen_env)) end_ ->
  global_path fuel quadtree_build obstacles pos end_ = Some ((s, ids), cells) ->
  exists root, Env.update tree_fuel obstacles screen_env = Some root /\
    current s = fst (add_start root pos) /\ goal s = fst (add_goal root end_) /\
    path_ok s ids /\ descends g (nodes s) ids /\ boxes s ids = Some cells /\
    (exists c, head cells = Some c /\ AABB.contains c pos) /\
    (exists c, last cells = Some c /\ AABB.contains c end_).
Proof.
  intros Hps Hpe. unfold global_path, quadtree_build.
  destruct (Env.update _ _ _) as [root|] eqn:Eu; [|discriminate]. intros [E Hb]%result_inr.
  destruct (screen_update_ok _ _ Eu) as [Hok Hbox]. rewrite <- Hbox in Hps, Hpe.
  pose proof (start_show_post fuel _ ids s (build_env_fresh root pos end_) E) as (Hp & Hd & Hf).
  destruct (build_env_ends root pos end_) as [Hs He].
  destruct (build_env_endpoints root pos end_ Hok Hps Hpe) as [(n0 & Hn0 & Hc0) (m0 & Hm0 & Hcm)].
  destruct (frame_lookup _ _ _ _ _ Hf Hn0) as (n & Hn & [[Bn _] _]).
  destruct (frame_lookup _ _ _ _ _ Hf Hm0) as (m & Hm & [[Bm _] _]).
  destruct (frame_ends _ _ _ Hf) as [Ec Eg].
  destruct Hp as (Hi & Hr & Hh & Hl & Hk).
  destruct (boxes_ends _ _ _ _ _ Hb Hh Hl) as [(n1 & Hn1 & Hc1) (m1 & Hm1 & Hcm1)].
  rewrite Ec in Hn1. rewrite Eg in Hm1. rewrite Hn in Hn1. rewrite Hm in Hm1.
  injection Hn1 as <-. injection Hm1 as <-.
  exists root. split; [reflexivity|]. split; [congruence|]. split; [congruence|].
  split; [exact (conj Hi (conj Hr (conj Hh (conj Hl Hk))))|]. split; [exact Hd|]. split; [exact Hb|].
  split.
  - exists (nbox n). split; [exact Hc1|rewrite Bn; exact Hc0].
  - exists (nbox m). split; [exact Hcm1|rewrite Bm; exact Hcm].
Qed.

Lemma global_path_spec_witness :
  match global_path 100 quadtree_build demo_obstacles demo_begin demo_target with
  | Some ((s, ids), cells) =>
      path_ok s ids /\ descends g (nodes s) ids /\
      (exists c, head cells = Some c /\ AABB.contains c demo_begin) /\
      (exists c, last cells = Some c /\ AABB.contains c demo_target)
  | None => False
  end.
Proof.
  destruct (global_path 100 quadtree_build demo_obstacles demo_begin demo_target) as [[[s ids] cells]|] eqn:E;
    [|vm_compute in E; discriminate].
  destruct (global_path_spec 100 demo_obstacles demo_begin demo_target s ids cells)
    as (root & _ & _ & _ & Hp & Hd & _ & Hh & Hl);
    [vm_compute; split; split; discriminate|vm_compute; split; split; discriminate|exact E|].
  exact (conj Hp (conj Hd (conj Hh Hl))).
Defined.

(** [C31] Composed with the main loop, each planner [get_modules] can
    choose keeps its state in step with the loop along every tick,
    whichever branch the tick takes (global plan, [Replan] with the A*
    rebuild, or an advance that pops the path and moves [env.current]):
    the node path runs from the solver's [current] to its [goal] along
    neighbor links and the loop's cell path is the boxes of those nodes,
    for the quadtree and the grid D* Lite planners (with the queue
    invariant) and for the quadtree A* planner. *)
Theorem loop_planners_inv cubic fuel angle pi algo end_ :
  (forall l l', Simulation.solver_inv dinv l ->
     Simulation.tick cubic (dstar_planner fuel quadtree_build) angle pi algo end_ l = Some l' ->
     Simulation.solver_inv dinv l') /\
  (forall l l', Simulation.solver_inv dinv l ->
     Simulation.tick cubic (dstar_planner fuel grid_build) angle pi algo end_ l = Some l' ->
     Simulation.solver_inv dinv l') /\
  (forall l l', Simulation.solver_inv path_inv l ->
     Simulation.tick cubic (astar_planner fuel quadtree_build) angle pi algo end_ l = Some l' ->
     Simulation.solver_inv path_inv l').
Proof.
  split; [|split]; intros l l'; apply Simulation.tick_holds.
  - apply dstar_laws, quadtree_build_fresh.
  - apply dstar_laws, grid_build_fresh.
  - apply astar_laws.
Qed.

Lemma loop_planners_inv_witness :
  match Simulation.tick Spline.step_interp (dstar_planner 100 quadtree_build) (fun _ _ _ _ => 0) 3
          Simulation.Fuzzy demo_target demo_loop with
  | Some l' => Simulation.solver_inv dinv l'
  | None => False
  end.
Proof.
  destruct (Simulation.tick Spline.step_interp (dstar_planner 100 quadtree_build) (fun _ _ _ _ => 0) 3
              Simulation.Fuzzy demo_target demo_loop) as [l'|] eqn:E; [|vm_compute in E; discriminate].
  exact (proj1 (loop_planners_inv Spline.step_interp 100 (fun _ _ _ _ => 0) 3 Simulation.Fuzzy demo_target)
           demo_loop l' I E).
Defined.

End Planner.
