(* ===== verification/Editor.v ===== *)
(** * The interactive editor and the iterations of [main]
    ([src/QuadTree.py], lines 78-287)

    Each iteration of [while not finished] first handles the pygame
    events of the frame when [interactive]:

    - a click on the Start button sets [done] and, when the test map
      exists, makes [obstacles_list] the map's list [maps[test_map]];
    - a click on Pause toggles [pause], one on Static toggles [isStatic];
    - a click anywhere else starts drawing an obstacle at the mouse
      ([drawing = True]) and sets [done = False];
    - releasing the button while drawing appends the dragged rectangle as
      a new [Obstacle] (static or with velocity [2 * randn(2)]);
    - Ctrl+Z removes the last obstacle while the run is not started;
    - closing the window ends the program.

    Then, when the run is started and not paused, it runs one tick of the
    simulation ([Simulation.tick]).  The obstacle list is one Python list
    shared by the editor and the simulation, and after a Start it is the
    very list object of [maps[test_map]]: later appends, pops and moves
    change the map's list as well, and a second Start finds it as it is.
    [aliased] records that sharing.  The mouse positions are pygame's
    integer pixels; the random draws of [np.random.randn] come with the
    events; the buttons are the rectangles the loop draws.

    The theorems: every run keeps the loop invariant and the planner's
    promise; a click in the field suspends a running simulation; and in
    the automatic mode ([interactive=False]) on a map without obstacles,
    the ticks after the first global plan follow [MainLoop.run] with the
    decision [No] ([auto_run_incremental]), so the run finishes. *)

From Stdlib Require Import QArith Qround ZArith Lia List.
From stdpp Require Import base gmap list.
From S2P Require Import Prelude Geometry QuadTree Solver Env Robot Decision Spline MainLoop Simulation Planner.
Import ListNotations.
Local Open Scope Z_scope.

Module Editor.

(** The pygame events the loop reacts to; [MouseUp] carries the two
    standard normal draws [np.random.randn(2)] the new obstacle would
    take. *)
Inductive event : Type :=
| Quit
| MouseDown (x y : Z)
| MouseUp (x y : Z) (draw : Q * Q)
| KeyDown (key_z ctrl : bool)
| Other.

(** The editor's variables of [main]. *)
Record editor : Type := mk_editor {
  done : bool;
  pause : bool;
  isStatic : bool;
  drawing : bool;
  mx : Z;
  my : Z;
  aliased : bool   (** [obstacles_list] is the list object [maps[test_map]] *)
}.

(** [pygame.Rect(left, top, width, height).collidepoint(x, y)]. *)
Definition collidepoint (left top width height x y : Z) : bool :=
  (left <=? x) && (x <? left + width) && (top <=? y) && (y <? top + height).

(** The layout: [env_width = env_height = 512], the pads
    [int(512 * 0.06)] and [int(512 * 0.16)], and the three buttons
    [(LEFT_PAD + int(env_width * f), NORTH_PAD * 2 + env_height,
    int(env_width * 0.2), int(SOUTH_PAD * 0.4))]. *)
Definition env_size : Z := 512.
Definition NORTH_PAD : Z := Qfloor (inject_Z env_size * (6 # 100)).
Definition SOUTH_PAD : Z := Qfloor (inject_Z env_size * (16 # 100)).
Definition LEFT_PAD : Z := Qfloor (inject_Z env_size * (6 # 100)).

Definition button (f : Q) (x y : Z) : bool :=
  collidepoint (LEFT_PAD + Qfloor (inject_Z env_size * f)) (NORTH_PAD * 2 + env_size)
    (Qfloor (inject_Z env_size * (2 # 10))) (Qfloor (inject_Z SOUTH_PAD * (4 # 10))) x y.

Definition button1 := button (1 # 10).   (** Start *)
Definition button2 := button (7 # 10).   (** Pause *)
Definition button3 := button (4 # 10).   (** Static *)

(** [Obstacle((mx+new_mx)/2, (my+new_my)/2, abs(new_mx-mx), abs(new_my-my),
    isStatic, np.random.randn(2) * 2)]. *)
Definition new_obstacle (ed : editor) (nmx nmy : Z) (r : Q * Q) : Obstacle.t :=
  Obstacle.init (inject_Z (mx ed + nmx) / 2) (inject_Z (my ed + nmy) / 2)
    (inject_Z (Z.abs (nmx - mx ed))) (inject_Z (Z.abs (nmy - my ed))) (isStatic ed)
    (2 * fst r, 2 * snd r)%Q (20, 20)%Q (20, 20)%Q.

Definition set_done (ed : editor) (b : bool) (al : bool) : editor :=
  mk_editor b (pause ed) (isStatic ed) (drawing ed) (mx ed) (my ed) al.

(** One event, on the editor and the obstacle list; [None] is
    [pygame.quit(); sys.exit()].  [map0] is [maps[test_map]] as the
    module defines it, [None] when [test_map not in maps]. *)
Definition handle (map0 : option (list Obstacle.t)) (ev : event) (st : editor * list Obstacle.t) :
    option (editor * list Obstacle.t) :=
  let '(ed, obs) := st in
  match ev with
  | Quit => None
  | MouseDown x y =>
      if button1 x y then
        match map0 with
        | Some m => if aliased ed then Some (set_done ed true true, obs) else Some (set_done ed true true, m)
        | None => Some (set_done ed true (aliased ed), obs)
        end
      else if button2 x y then
        Some (mk_editor (done ed) (negb (pause ed)) (isStatic ed) (drawing ed) (mx ed) (my ed) (aliased ed), obs)
      else if button3 x y then
        Some (mk_editor (done ed) (pause ed) (negb (isStatic ed)) (drawing ed) (mx ed) (my ed) (aliased ed), obs)
      else Some (mk_editor false (pause ed) (isStatic ed) true x y (aliased ed), obs)
  | MouseUp x y r =>
      if drawing ed then
        Some (mk_editor (done ed) (pause ed) (isStatic ed) false (mx ed) (my ed) (aliased ed),
              obs ++ [new_obstacle ed x y r])
      else Some (ed, obs)
  | KeyDown kz ctrl =>
      if kz && ctrl && negb (Nat.eqb (length obs) 0) && negb (done ed)
      then Some (ed, removelast obs)
      else Some (ed, obs)
  | Other => Some (ed, obs)
  end.

(** [for event in pygame.event.get(): ...]. *)
Fixpoint handle_all (map0 : option (list Obstacle.t)) (evs : list event) (st : editor * list Obstacle.t) :
    option (editor * list Obstacle.t) :=
  match evs with
  | [] => Some st
  | ev :: evs' => match handle map0 ev st with None => None | Some st' => handle_all map0 evs' st' end
  end.

(** The state of [main] between iterations: the editor and the
    simulation's loop variables, whose [obstacles] is [obstacles_list]. *)
Record world (S : Type) : Type := mk_world { ed : editor; lp : Simulation.loop S }.
Arguments mk_world {S}.
Arguments ed {S}.
Arguments lp {S}.

Definition with_obstacles {S} (l : Simulation.loop S) (obs : list Obstacle.t) : Simulation.loop S :=
  Simulation.mk_loop obs (Simulation.patience l) (Simulation.past_path l) (Simulation.spl l)
    (Simulation.collision l) (Simulation.solver l) (Simulation.sim l).

Section Iteration.

Context {S : Type}.
Variable cubic : list Q -> Q -> Q.
Variable pl : Simulation.planner S.
Variable angle : Q -> Q -> Q -> Q -> Q.
Variable pi : Q.
Variable algo : Simulation.decision_algo.
Variable end_ : Q * Q.
Variable map0 : option (list Obstacle.t).

(** One iteration of [while not finished]: the events when
    [interactive], then [if not done: (draw) elif pause: continue else:
    (a running tick)]. *)
Definition iteration (interactive : bool) (evs : list event) (w : world S) : option (world S) :=
  let st := if interactive then handle_all map0 evs (ed w, Simulation.obstacles (lp w))
            else Some (ed w, Simulation.obstacles (lp w)) in
  match st with
  | None => None
  | Some (e, obs) =>
      let l := with_obstacles (lp w) obs in
      if negb (done e) then Some (mk_world e l)
      else if pause e then Some (mk_world e l)
      else match Simulation.tick cubic pl angle pi algo end_ l with
           | None => None
           | Some l' => Some (mk_world e l')
           end
  end.

(** [while not finished:] over the frames' event lists. *)
Fixpoint run (interactive : bool) (frames : list (list event)) (w : world S) : option (world S) :=
  match frames with
  | [] => Some w
  | evs :: fs =>
      if MainLoop.finished (Simulation.sim (lp w)) then Some w
      else match iteration interactive evs w with
           | None => None
           | Some w' => run interactive fs w'
           end
  end.

End Iteration.

(** The editor before the loop: [done = False], [pause = False],
    [isStatic = True], not drawing; with [interactive = False] the map is
    loaded and [done = True] before the loop. *)
Definition init_editor : editor := mk_editor false false true false 0 0 false.
Definition auto_editor : editor := mk_editor true false true false 0 0 true.

(** The interactive start of [main] with the map of [Planner]: no
    obstacle yet; and the same run once started. *)
Definition demo_world : world (state addr * list addr) :=
  mk_world init_editor (with_obstacles Planner.demo_loop []).
Definition started_world : world (state addr * list addr) := mk_world auto_editor Planner.demo_loop.

(** The ticks the loop runs before the next forced global plan: [5 n + 1]
    for a path of [n] cells from four on, 6 for a shorter one (the
    straight segment of [makeSpline]). *)
Definition ticks_needed (cells : list AABB.t) : nat :=
  if Nat.leb 4 (length cells) then 5 * length cells + 1 else 6.

(** ** Proofs *)

Section Run.

Context {S : Type} (cubic : list Q -> Q -> Q) (pl : Simulation.planner S) (angle : Q -> Q -> Q -> Q -> Q)
  (pi : Q) (algo : Simulation.decision_algo) (end_ : Q * Q) (map0 : option (list Obstacle.t)).

(** An invariant of the loop variables that ignores the obstacle list
    and that every tick keeps is kept by every iteration and every run,
    whatever the events do. *)
Variable Inv : Simulation.loop S -> Prop.
Hypothesis Hobs : forall l obs, Inv l -> Inv (with_obstacles l obs).
Hypothesis Htick : forall l l', Inv l -> Simulation.tick cubic pl angle pi algo end_ l = Some l' -> Inv l'.

Lemma iteration_preserves interactive evs w w' :
  Inv (lp w) -> iteration cubic pl angle pi algo end_ map0 interactive evs w = Some w' -> Inv (lp w').
Proof.
  intros H E. unfold iteration in E.
  destruct (if interactive then _ else _) as [[e obs]|]; [|discriminate].
  destruct (done e); cbn [negb] in E; [destruct (pause e)|].
  - injection E as <-. exact (Hobs _ _ H).
  - destruct (Simulation.tick _ _ _ _ _ _ _) as [l'|] eqn:Et; [|discriminate].
    injection E as <-. exact (Htick _ _ (Hobs _ _ H) Et).
  - injection E as <-. exact (Hobs _ _ H).
Qed.

Lemma run_preserves interactive frames : forall w w',
  Inv (lp w) -> run cubic pl angle pi algo end_ map0 interactive frames w = Some w' -> Inv (lp w').
Proof.
  induction frames as [|evs fs IH]; intros w w' H E; cbn [run] in E.
  - injection E as <-. exact H.
  - destruct (MainLoop.finished _); [injection E as <-; exact H|].
    destruct (iteration _ _ _ _ _ _ _ _ _ _) as [w1|] eqn:Ei; [|discriminate].
    exact (IH w1 w' (iteration_preserves _ _ _ _ H Ei) E).
Qed.

End Run.

(** ** The automatic run finishes *)

Section Finish.

Context {T : Type} (cubic : list Q -> Q -> Q) (pl : Simulation.planner T) (angle : Q -> Q -> Q -> Q -> Q)
  (pi : Q) (algo : Simulation.decision_algo) (end_ : Q * Q) (map0 : option (list Obstacle.t)).

Lemma run_stopped interactive frames w :
  MainLoop.finished (Simulation.sim (lp w)) = true ->
  run cubic pl angle pi algo end_ map0 interactive frames w = Some w.
Proof. intros H. destruct frames; cbn [run]; [reflexivity|now rewrite H]. Qed.

(** Without obstacles both decision makers answer [No]. *)
Lemma decide_no rb goal : Simulation.decide angle pi algo rb goal [] [] = Some Decision.No.
Proof. destruct algo; reflexivity. Qed.

Lemma patience_step_succ p : (0 < p)%nat -> (S p < MainLoop.PATIENCE)%nat -> MainLoop.patience_step p = S p.
Proof.
  intros H0 H1. unfold MainLoop.patience_step.
  rewrite (proj2 (Nat.eqb_neq p 0)), (proj2 (Nat.eqb_neq (S p) MainLoop.PATIENCE)) by lia. reflexivity.
Qed.

(** The end of a tick: the flag [finished] is set by the tick's
    [robot.reach(end)], or the state is the one the branch computed. *)
Lemma finish_flag (st : MainLoop.sim) :
  MainLoop.finished (MainLoop.mk_sim (MainLoop.robot st) (MainLoop.local_goal st) (MainLoop.targets st)
     (MainLoop.finished st || Robot.reach (MainLoop.robot st) end_) (MainLoop.path st)) = true \/
  MainLoop.mk_sim (MainLoop.robot st) (MainLoop.local_goal st) (MainLoop.targets st)
     (MainLoop.finished st || Robot.reach (MainLoop.robot st) end_) (MainLoop.path st) = st.
Proof.
  destruct st as [r lg t f p]; cbn. destruct (f || Robot.reach r end_) eqn:E; [now left|right].
  apply orb_false_iff in E as [-> _]. reflexivity.
Qed.

(** An incremental tick without obstacles: the decision is [No], the
    robot advances, and the counter steps. *)
Lemma auto_tick_no (l : Simulation.loop T) v :
  Simulation.obstacles l = [] -> Simulation.solver l = Some v -> Simulation.patience l <> 0%nat ->
  exists l', Simulation.tick cubic pl angle pi algo end_ l = Some l' /\
    Simulation.obstacles l' = [] /\ (exists v', Simulation.solver l' = Some v') /\
    Simulation.patience l' = MainLoop.patience_step (Simulation.patience l) /\
    Simulation.spl l' = Simulation.spl l /\
    (MainLoop.finished (Simulation.sim l') = true \/
     Simulation.sim l' = MainLoop.advance end_ (Simulation.spl l) Decision.No (Simulation.sim l)).
Proof.
  destruct l as [obs p past spl coll sv st]; cbn [Simulation.obstacles Simulation.solver Simulation.patience].
  intros -> -> Hp. unfold Simulation.tick, Simulation.incremental. cbn [Simulation.patience map].
  rewrite (proj2 (Nat.eqb_neq p 0) Hp). cbv zeta.
  cbn [Simulation.obstacles Simulation.sim Simulation.solver Simulation.spl Simulation.patience
       Simulation.past_path Simulation.collision map].
  rewrite decide_no. cbn [Simulation.replan_step Simulation.solver Simulation.spl].
  unfold Simulation.sync. destruct (Nat.ltb _ _); (eexists; split; [reflexivity|]); cbn;
    (split; [reflexivity|split; [eexists; reflexivity|split; [reflexivity|split; [reflexivity|]]]]);
    (destruct (finish_flag (MainLoop.advance end_ spl Decision.No st)) as [E|E]; [left; exact E|right; exact E]).
Qed.

(** The global-planning tick without obstacles. *)
Lemma auto_tick_global (l : Simulation.loop T) v cells :
  Simulation.obstacles l = [] -> Simulation.patience l = 0%nat ->
  Simulation.global_path T pl [] (Robot.pos (MainLoop.robot (Simulation.sim l))) end_ = Some (v, cells) ->
  exists l', Simulation.tick cubic pl angle pi algo end_ l = Some l' /\
    Simulation.obstacles l' = [] /\ Simulation.solver l' = Some v /\ Simulation.patience l' = 1%nat /\
    Simulation.spl l' = fst (MainLoop.global_plan cubic end_ cells (Simulation.sim l)) /\
    (MainLoop.finished (Simulation.sim l') = true \/
     Simulation.sim l' = snd (MainLoop.global_plan cubic end_ cells (Simulation.sim l))).
Proof.
  destruct l as [obs p past spl coll sv st]; cbn [Simulation.obstacles Simulation.patience Simulation.sim].
  intros -> -> Hg. unfold Simulation.tick, Simulation.global. cbv zeta.
  cbn [Simulation.patience Simulation.obstacles Simulation.sim map Nat.eqb]. rewrite Hg.
  destruct (MainLoop.global_plan cubic end_ cells st) as [spl' st'] eqn:Eg.
  eexists; split; [reflexivity|]. cbn.
  split; [reflexivity|split; [reflexivity|split; [reflexivity|split; [reflexivity|]]]].
  destruct (finish_flag st') as [E|E]; [left; exact E|right; exact E].
Qed.

(** Incremental ticks without obstacles follow [MainLoop.run] with the
    decision [No], as long as the counter does not reach [PATIENCE]. *)
Lemma auto_run_incremental k : forall w v,
  done (ed w) = true -> pause (ed w) = false ->
  Simulation.obstacles (lp w) = [] -> Simulation.solver (lp w) = Some v ->
  (0 < Simulation.patience (lp w))%nat -> (Simulation.patience (lp w) + k <= MainLoop.PATIENCE)%nat ->
  MainLoop.finished (MainLoop.run end_ (Simulation.spl (lp w)) (repeat Decision.No k) (Simulation.sim (lp w))) = true ->
  exists w', run cubic pl angle pi algo end_ map0 false (repeat [] k) w = Some w' /\
    MainLoop.finished (Simulation.sim (lp w')) = true.
Proof.
  induction k as [|k IH]; intros w v Hd Hp Ho Hs Hp0 Hpk Hf; cbn [repeat MainLoop.run] in *.
  - exists w. split; [reflexivity|exact Hf].
  - cbn [run]. destruct (MainLoop.finished (Simulation.sim (lp w))) eqn:Ef; [exists w; auto|].
    unfold iteration. rewrite Hd, Hp. cbn [negb].
    destruct (auto_tick_no (with_obstacles (lp w) (Simulation.obstacles (lp w))) v)
      as (l' & Et & Ho' & [v' Hs'] & Hp' & Hspl & [Hfin|Hsim]); [exact Ho|exact Hs|cbn; lia|..];
      rewrite Et; [exists (mk_world (ed w) l'); split; [apply run_stopped|]; exact Hfin|].
    cbn [with_obstacles Simulation.spl Simulation.sim Simulation.patience] in Hspl, Hsim, Hp'.
    destruct k as [|k].
    + exists (mk_world (ed w) l'). split; [reflexivity|]. cbn [lp]. rewrite Hsim. exact Hf.
    + apply (IH (mk_world (ed w) l') v'); cbn [ed lp]; auto;
        [rewrite Hp', patience_step_succ by (unfold MainLoop.PATIENCE in *; lia); lia..|].
      rewrite Hspl, Hsim. exact Hf.
Qed.

End Finish.

Lemma removelast_app_single {A} (l : list A) (a : A) : removelast (l ++ [a]) = l.
Proof. apply removelast_last. Qed.

(** Drawing an obstacle and undoing it restores the obstacle list. *)
Lemma undo_restores map0 e obs x y x' y' r e' obs' :
  button1 x y = false -> button2 x y = false -> button3 x y = false ->
  handle_all map0 [MouseDown x y; MouseUp x' y' r; KeyDown true true] (e, obs) = Some (e', obs') ->
  obs' = obs /\ drawing e' = false /\ done e' = false.
Proof.
  intros H1 H2 H3. cbn [handle_all handle]. rewrite H1, H2, H3. cbn [handle drawing done andb negb].
  rewrite length_app, Nat.add_comm. cbn [length Nat.add Nat.eqb negb andb].
  intros [= <- <-]. rewrite removelast_app_single. auto.
Qed.

(** [C28] The whole main loop keeps the loop invariant and the planner's
    promise: for any planner that satisfies [planner_laws] with a
    promise [P], every run of [while not finished] over any frames of
    events (drawing and undoing obstacles, Start, Pause, Static) keeps
    the patience counter below [PATIENCE], from the first global plan on
    a spline of 1000 samples at least with the local goal ahead or at
    the end, and [P] between the planner's state and the path the loop
    follows. *)
Theorem run_inv {S} cubic (pl : Simulation.planner S) P angle pi algo end_ map0 interactive frames w w' :
  Simulation.planner_laws pl P ->
  Simulation.loop_inv end_ (lp w) /\ Simulation.solver_inv P (lp w) ->
  run cubic pl angle pi algo end_ map0 interactive frames w = Some w' ->
  Simulation.loop_inv end_ (lp w') /\ Simulation.solver_inv P (lp w').
Proof.
  intros Hl.
  apply (run_preserves cubic pl angle pi algo end_ map0
           (fun l => Simulation.loop_inv end_ l /\ Simulation.solver_inv P l));
    [intros l obs H; exact H|].
  intros l l' [H1 H2] E. split.
  - exact (Simulation.tick_keeps_inv cubic pl angle pi algo end_ l l' H1 E).
  - exact (Simulation.tick_holds pl P Hl cubic angle pi algo end_ l l' H2 E).
Qed.

Lemma run_inv_witness :
  match run Spline.step_interp (Planner.dstar_planner 100 Planner.quadtree_build) (fun _ _ _ _ => 0%Q) 3%Q
          Simulation.Fuzzy Planner.demo_target (Some Planner.demo_obstacles) true
          [[MouseDown 100 580]; []] demo_world with
  | Some w' => Simulation.loop_inv Planner.demo_target (lp w') /\ Simulation.solver_inv Planner.dinv (lp w')
  | None => False
  end.
Proof.
  destruct (run Spline.step_interp (Planner.dstar_planner 100 Planner.quadtree_build) (fun _ _ _ _ => 0%Q) 3%Q
              Simulation.Fuzzy Planner.demo_target (Some Planner.demo_obstacles) true
              [[MouseDown 100 580]; []] demo_world) as [w'|] eqn:E; [|vm_compute in E; discriminate].
  refine (run_inv _ _ _ _ _ _ _ _ _ _ _ w' (Planner.dstar_laws 100 Planner.quadtree_build
            Planner.quadtree_build_fresh) _ E).
  split; [split; [cbn; unfold MainLoop.PATIENCE; lia|intros H; exfalso; apply H; reflexivity]|exact I].
Defined.

(** [C29] A click in the field while the simulation runs (a press that
    is on none of the three buttons) sets [done = False]: the iteration
    runs no tick, so the robot, the planner and the patience counter
    stand still until Start is clicked again, and a Ctrl+Z in the same
    or a later frame removes the last obstacle of the running map (the
    very list [maps[test_map]]). *)
Theorem click_suspends_run {S} cubic (pl : Simulation.planner S) angle pi algo end_ map0 w w' x y :
  done (ed w) = true -> button1 x y = false -> button2 x y = false -> button3 x y = false ->
  iteration cubic pl angle pi algo end_ map0 true [MouseDown x y; KeyDown true true] w = Some w' ->
  done (ed w') = false /\ drawing (ed w') = true /\
  Simulation.obstacles (lp w') = removelast (Simulation.obstacles (lp w)) /\
  Simulation.sim (lp w') = Simulation.sim (lp w) /\
  Simulation.patience (lp w') = Simulation.patience (lp w) /\
  Simulation.solver (lp w') = Simulation.solver (lp w).
Proof.
  intros Hd H1 H2 H3. unfold iteration. cbn [handle_all handle]. rewrite H1, H2, H3.
  cbn [handle done drawing andb negb].
  destruct (Nat.eqb (length (Simulation.obstacles (lp w))) 0) eqn:El; cbn [negb andb done];
    intros [= <-]; cbn [ed lp drawing done with_obstacles Simulation.obstacles Simulation.sim
                        Simulation.patience Simulation.solver]; repeat split.
  apply Nat.eqb_eq, length_zero_iff_nil in El. rewrite El. reflexivity.
Qed.

Lemma click_suspends_run_witness :
  match iteration Spline.step_interp (Planner.dstar_planner 100 Planner.quadtree_build) (fun _ _ _ _ => 0%Q) 3%Q
          Simulation.Fuzzy Planner.demo_target (Some Planner.demo_obstacles) true
          [MouseDown 300 300; KeyDown true true] started_world with
  | Some w' => done (ed w') = false /\ drawing (ed w') = true /\
      Simulation.obstacles (lp w') = removelast (Simulation.obstacles (lp started_world)) /\
      Simulation.sim (lp w') = Simulation.sim (lp started_world) /\
      Simulation.patience (lp w') = Simulation.patience (lp started_world) /\
      Simulation.solver (lp w') = Simulation.solver (lp started_world)
  | None => False
  end.
Proof.
  destruct (iteration Spline.step_interp (Planner.dstar_planner 100 Planner.quadtree_build) (fun _ _ _ _ => 0%Q) 3%Q
              Simulation.Fuzzy Planner.demo_target (Some Planner.demo_obstacles) true
              [MouseDown 300 300; KeyDown true true] started_world) as [w'|] eqn:E;
    [|vm_compute in E; discriminate].
  exact (click_suspends_run Spline.step_interp (Planner.dstar_planner 100 Planner.quadtree_build)
           (fun _ _ _ _ => 0%Q) 3%Q Simulation.Fuzzy Planner.demo_target (Some Planner.demo_obstacles)
           started_world w' 300 300 eq_refl eq_refl eq_refl eq_refl E).
Defined.

(** [C32] In the automatic mode of [main] ([interactive=False]: [done]
    is set and nothing pauses) on a map without obstacles, the run
    finishes: the first tick plans globally, and when that path has at
    most five cells, [ticks_needed] more ticks (at most 26, before the
    patience counter forces the next global plan at 30) bring the robot
    to the end point and set [finished] -- for every planner, either
    decision maker and any interpolant. *)
Theorem auto_run_finishes {T} cubic (pl : Simulation.planner T) angle pi algo end_ map0 w v cells :
  done (ed w) = true -> pause (ed w) = false ->
  Simulation.obstacles (lp w) = [] -> Simulation.patience (lp w) = 0%nat ->
  Simulation.global_path T pl [] (Robot.pos (MainLoop.robot (Simulation.sim (lp w)))) end_ = Some (v, cells) ->
  (length cells <= 5)%nat ->
  exists w', run cubic pl angle pi algo end_ map0 false (repeat [] (S (ticks_needed cells))) w = Some w' /\
    MainLoop.finished (Simulation.sim (lp w')) = true.
Proof.
  intros Hd Hp Ho H0 Hg Hn. cbn [repeat run].
  destruct (MainLoop.finished _) eqn:Ef; [exists w; auto|].
  unfold iteration. rewrite Hd, Hp. cbn [negb].
  destruct (auto_tick_global cubic pl angle pi algo end_ (with_obstacles (lp w) (Simulation.obstacles (lp w))) v cells)
    as (l1 & Et & Ho1 & Hs1 & Hp1 & Hspl & [Hfin|Hsim]); [exact Ho|exact H0|exact Hg|..]; rewrite Et.
  - exists (mk_world (ed w) l1). split; [apply run_stopped; exact Hfin|exact Hfin].
  - apply (auto_run_incremental cubic pl angle pi algo end_ map0 _ (mk_world (ed w) l1) v); cbn [ed lp]; auto;
      [rewrite Hp1; lia|rewrite Hp1; unfold ticks_needed, MainLoop.PATIENCE; destruct (Nat.leb 4 _); lia|].
    rewrite Hspl, Hsim. cbn [with_obstacles Simulation.sim].
    apply MainLoop.global_plan_finishes; [intros d Hd'%repeat_spec; subst d; discriminate|].
    rewrite repeat_length. unfold ticks_needed. lia.
Qed.

Lemma auto_run_finishes_witness :
  match Simulation.global_path _ (Planner.dstar_planner 100 Planner.quadtree_build) []
          Planner.demo_begin Planner.demo_target with
  | Some (v, cells) =>
      exists w', run Spline.step_interp (Planner.dstar_planner 100 Planner.quadtree_build) (fun _ _ _ _ => 0%Q)
        3%Q Simulation.Fuzzy Planner.demo_target None false (repeat [] (S (ticks_needed cells)))
        (mk_world auto_editor (with_obstacles Planner.demo_loop [])) = Some w' /\
      MainLoop.finished (Simulation.sim (lp w')) = true
  | None => False
  end.
Proof.
  destruct (Simulation.global_path _ (Planner.dstar_planner 100 Planner.quadtree_build) []
              Planner.demo_begin Planner.demo_target) as [[v cells]|] eqn:E; [|vm_compute in E; discriminate].
  pose proof E as E'. vm_compute in E'. injection E' as _ Ec.
  apply (auto_run_finishes Spline.step_interp _ _ _ _ _ _ _ v cells); try reflexivity; [exact E|].
  rewrite <- Ec. vm_compute. lia.
Defined.

End Editor.
